(** * Light Up (Akari): a shallow embedding of [lightup.c]

    The development follows the C source function by function.  A C [int]
    is a [Z]; the flag word of a square is a [Z] handled with [Z.land],
    [Z.lor], [Z.lxor] and [Z.lnot]; the two planes of a [game_state]
    ([lights] and [flags], both of size [h*w]) are lists indexed by
    [y*w + x] exactly as the [GRID] macro does; C strings are lists of
    characters read up to their terminating NUL.

    Signed overflow is undefined in C, so arithmetic on [int] is plain
    [Z] arithmetic here.  On a board that fits in memory no run of the
    program reaches an overflow.  Two places can leave the range of an
    [int] before there is a board: the conversion of text into an [int]
    ([atoi] and [%d], which store a number that does not fit in a way the
    C standard leaves open) and the product [w*h] of [validate_desc].  In
    the embedding a number read from text is the number written.  The
    property that says which move strings [execute_move] rejects, and the
    properties of [validate_desc] on arbitrary parameters, carry the range
    as a premise ([ints_fit], [desc_in_int]).  The other properties of
    moves are stated of the move strings that the embedding accepts, and
    those of parameters and descriptors read text that was printed from
    the sizes of a board.  A read outside a plane is undefined in C; the
    model reads [0] there, and every access made by the embedded functions
    is guarded by the same range tests as in the source. *)

From Stdlib Require Import ZArith List Ascii String Lia Bool.
From stdpp Require Import base tactics option list gmap.

Local Open Scope Z_scope.

(** ** Constants and structures *)

Definition F_BLACK : Z := 1.
Definition F_NUMBERED : Z := 2.
Definition F_NUMBERUSED : Z := 4.
Definition F_IMPOSSIBLE : Z := 8.
Definition F_LIGHT : Z := 16.
Definition F_MARK : Z := 32.

(** [f & b] read as a C truth value. *)
Definition has (f b : Z) : bool := negb (Z.land f b =? 0).

(** [f |= b], [f &= ~b], [f ^= b]. *)
Definition fl_set (f b : Z) : Z := Z.lor f b.
Definition fl_clear (f b : Z) : Z := Z.land f (Z.lnot b).
Definition fl_toggle (f b : Z) : Z := Z.lxor f b.

Record game_state : Type := mk_game_state {
  s_w : Z;
  s_h : Z;
  nlights : Z;
  lights : list Z;
  flags : list Z;
  completed : Z;
  used_solve : Z
}.

(** Index of [(x,y)] in a plane: [(y)*((gs)->w) + (x)]. *)
Definition cell_index (st : game_state) (x y : Z) : nat :=
  Z.to_nat (y * s_w st + x).

Definition plane_get (p : list Z) (i : nat) : Z := default 0 (p !! i).

(** [GRID(st,flags,x,y)] and [GRID(st,lights,x,y)] as rvalues. *)
Definition flags_at (st : game_state) (x y : Z) : Z :=
  plane_get (flags st) (cell_index st x y).
Definition lights_at (st : game_state) (x y : Z) : Z :=
  plane_get (lights st) (cell_index st x y).

Definition with_flags (st : game_state) (fl : list Z) : game_state :=
  mk_game_state (s_w st) (s_h st) (nlights st) (lights st) fl
                (completed st) (used_solve st).
Definition with_lights (st : game_state) (li : list Z) : game_state :=
  mk_game_state (s_w st) (s_h st) (nlights st) li (flags st)
                (completed st) (used_solve st).
Definition with_nlights (st : game_state) (n : Z) : game_state :=
  mk_game_state (s_w st) (s_h st) n (lights st) (flags st)
                (completed st) (used_solve st).
Definition with_completed (st : game_state) (c : Z) : game_state :=
  mk_game_state (s_w st) (s_h st) (nlights st) (lights st) (flags st)
                c (used_solve st).
Definition with_used_solve (st : game_state) (u : Z) : game_state :=
  mk_game_state (s_w st) (s_h st) (nlights st) (lights st) (flags st)
                (completed st) u.

(** [GRID(st,flags,x,y) = v] and [GRID(st,lights,x,y) = v] as lvalues. *)
Definition set_flags_at (st : game_state) (x y v : Z) : game_state :=
  with_flags st (<[cell_index st x y := v]> (flags st)).
Definition set_lights_at (st : game_state) (x y v : Z) : game_state :=
  with_lights st (<[cell_index st x y := v]> (lights st)).

(** The state is well formed when both planes have [w*h] entries. *)
Definition wf_state (st : game_state) : Prop :=
  0 <= s_w st /\ 0 <= s_h st /\
  length (lights st) = Z.to_nat (s_w st * s_h st) /\
  length (flags st) = Z.to_nat (s_w st * s_h st).

Definition in_grid (st : game_state) (x y : Z) : Prop :=
  0 <= x < s_w st /\ 0 <= y < s_h st.


Definition is_black (st : game_state) (x y : Z) : bool :=
  has (flags_at st x y) F_BLACK.

(** ** The light line of a square: [ll_data], [list_lights], [FOREACHLIT] *)

Record ll_data : Type := mk_ll_data {
  ox : Z; oy : Z;
  minx : Z; maxx : Z; miny : Z; maxy : Z;
  include_origin : bool
}.

(** [for (x = o-1; x >= 0; x--) { if (black) break; if (x < m) m = x; }] *)
Fixpoint scan_down (n : nat) (blk : Z -> bool) (x m : Z) : Z :=
  match n with
  | O => m
  | S n' =>
      if x >=? 0 then
        if blk x then m
        else scan_down n' blk (x - 1) (if x <? m then x else m)
      else m
  end.

(** [for (x = o+1; x < lim; x++) { if (black) break; if (x > m) m = x; }] *)
Fixpoint scan_up (n : nat) (blk : Z -> bool) (lim x m : Z) : Z :=
  match n with
  | O => m
  | S n' =>
      if x <? lim then
        if blk x then m
        else scan_up n' blk lim (x + 1) (if x >? m then x else m)
      else m
  end.

Definition list_lights (st : game_state) (ox oy : Z) (origin : bool)
  : ll_data :=
  let rowblk := fun x => is_black st x oy in
  let colblk := fun y => is_black st ox y in
  mk_ll_data ox oy
    (scan_down (Z.to_nat ox) rowblk (ox - 1) ox)
    (scan_up (Z.to_nat (s_w st - ox)) rowblk (s_w st) (ox + 1) ox)
    (scan_down (Z.to_nat oy) colblk (oy - 1) oy)
    (scan_up (Z.to_nat (s_h st - oy)) colblk (s_h st) (oy + 1) oy)
    origin.

(** The squares [FOREACHLIT] runs its block on, in the order it visits
    them: the row segment without the origin, then the column segment,
    with or without the origin. *)
Definition foreachlit_cells (lld : ll_data) : list (Z * Z) :=
  ((fun lx => (lx, oy lld)) <$>
     filter (fun lx => lx <> ox lld)
            (seqZ (minx lld) (maxx lld - minx lld + 1)))
  ++
  ((fun ly => (ox lld, ly)) <$>
     filter (fun ly => include_origin lld = true \/ ly <> oy lld)
            (seqZ (miny lld) (maxy lld - miny lld + 1))).

Definition FOREACHLIT {A : Type} (lld : ll_data)
    (block : A -> Z -> Z -> A) (a : A) : A :=
  fold_left (fun acc c => block acc (fst c) (snd c)) (foreachlit_cells lld) a.

(** ** [set_light] *)

(** The source asserts that the square is not black.  The function is
    total here; the properties below take the assertion as a premise,
    and each caller embedded in this file establishes it before the
    call.  [Checked.set_light] tests the assertion, for the solver with
    all its assertions. *)

Definition add_lights_at (diff : Z) (st : game_state) (lx ly : Z)
  : game_state :=
  set_lights_at st lx ly (lights_at st lx ly + diff).

Definition set_light (st : game_state) (ox oy : Z) (on : bool)
  : game_state :=
  let f := flags_at st ox oy in
  let '(diff, st1) :=
    if negb on && has f F_LIGHT then
      (-1, with_nlights (set_flags_at st ox oy (fl_clear f F_LIGHT))
                        (nlights st - 1))
    else if on && negb (has f F_LIGHT) then
      (1, with_nlights (set_flags_at st ox oy (fl_set f F_LIGHT))
                       (nlights st + 1))
    else (0, st) in
  if diff =? 0 then st1
  else FOREACHLIT (list_lights st1 ox oy true) (add_lights_at diff) st1.

(** ** Squares around a square: [surrounds], [get_surrounds] *)

Record point : Type := mk_point { p_x : Z; p_y : Z; p_f : Z }.

(** [ADDPOINT(cond,nx,ny)] appends a point with [f = 0] when [cond] holds. *)
Definition ADDPOINT (cond : bool) (nx ny : Z) (s : list point) : list point :=
  if cond then s ++ [mk_point nx ny 0] else s.

(** The source asserts that [(ox,oy)] is in the grid; its callers pass
    squares of the grid only.  [Checked.get_surrounds] tests the
    assertion. *)
Definition get_surrounds (st : game_state) (ox oy : Z) : list point :=
  let s := [] in
  let s := ADDPOINT (ox >? 0) (ox - 1) oy s in
  let s := ADDPOINT (ox <? s_w st - 1) (ox + 1) oy s in
  let s := ADDPOINT (oy >? 0) ox (oy - 1) s in
  let s := ADDPOINT (oy <? s_h st - 1) ox (oy + 1) s in
  s.

(** ** Completion tests *)

(** The squares in the order of the double loop
    [for (x = 0; x < w; x++) for (y = 0; y < h; y++)]. *)
Definition all_cells (st : game_state) : list (Z * Z) :=
  seqZ 0 (s_w st) ≫= (fun x => (fun y => (x, y)) <$> seqZ 0 (s_h st)).

Definition grid_lit (st : game_state) : bool :=
  forallb (fun c =>
             if has (flags_at st (fst c) (snd c)) F_BLACK then true
             else negb (lights_at st (fst c) (snd c) =? 0))
          (all_cells st).

Definition grid_overlap (st : game_state) : bool :=
  existsb (fun c =>
             if negb (has (flags_at st (fst c) (snd c)) F_LIGHT) then false
             else lights_at st (fst c) (snd c) >? 1)
          (all_cells st).

(** The source asserts that the square is numbered; [grid_addsup], its
    only caller, has tested that.  [Checked.number_correct] tests the
    assertion. *)
Definition number_correct (st : game_state) (x y : Z) : bool :=
  let n := fold_left
             (fun n p => if has (flags_at st (p_x p) (p_y p)) F_LIGHT
                         then n + 1 else n)
             (get_surrounds st x y) 0 in
  n =? lights_at st x y.

Definition grid_addsup (st : game_state) : bool :=
  forallb (fun c =>
             if negb (has (flags_at st (fst c) (snd c)) F_NUMBERED) then true
             else number_correct st (fst c) (snd c))
          (all_cells st).

Definition grid_correct (st : game_state) : bool :=
  grid_lit st && negb (grid_overlap st) && grid_addsup st.

(** ** Construction of states *)

Record game_params : Type := mk_game_params {
  p_w : Z; p_h : Z;
  blackpc : Z;
  symm : Z;
  recurse : Z
}.

Definition new_state (params : game_params) : game_state :=
  let n := Z.to_nat (p_w params * p_h params) in
  mk_game_state (p_w params) (p_h params) 0
                (replicate n 0) (replicate n 0) 0 0.

(** ** The solver *)

Definition tsl_callback (st : game_state) (acc : Z * Z * Z) (lx ly : Z)
  : Z * Z * Z :=
  let '(x, y, n) := acc in
  if has (flags_at st lx ly) F_IMPOSSIBLE then acc
  else if lights_at st lx ly >? 0 then acc
  else (lx, ly, n + 1).

(** Returns the updated state and the C return value.  [sx] and [sy] are
    uninitialised in the source until the callback first stores to them;
    they are read only when [n == 1], after such a store. *)
Definition try_solve_light (st : game_state) (ox oy : Z) (fl li : Z)
  : game_state * bool :=
  if li >? 0 then (st, false)
  else if has fl F_BLACK then (st, false)
  else
    let lld := list_lights st ox oy true in
    let '(sx, sy, n) := FOREACHLIT lld (tsl_callback st) (0, 0, 0) in
    if n =? 1 then (set_light st sx sy true, true)
    else (st, false).

Definition could_place_light (fl li : Z) : bool :=
  if has fl (Z.lor F_BLACK F_IMPOSSIBLE) then false
  else if li >? 0 then false else true.

(** First loop of [try_solve_number]: narrow [nl] and [ns] and mark the
    points to be ignored later. *)
Definition tsn_narrow (st : game_state) (acc : Z * Z * list point)
    (p : point) : Z * Z * list point :=
  let '(nl, ns, done) := acc in
  let fl := flags_at st (p_x p) (p_y p) in
  let li := lights_at st (p_x p) (p_y p) in
  if has fl F_LIGHT then
    (nl - 1, ns - 1, done ++ [mk_point (p_x p) (p_y p) (fl_set (p_f p) F_MARK)])
  else if negb (could_place_light fl li) then
    (nl, ns - 1, done ++ [mk_point (p_x p) (p_y p) (fl_set (p_f p) F_MARK)])
  else (nl, ns, done ++ [p]).

Definition try_solve_number (st : game_state) (nx ny : Z) (nflags nl0 : Z)
  : game_state * bool :=
  if negb (has nflags F_NUMBERED) then (st, false)
  else
    let s := get_surrounds st nx ny in
    let '(nl, ns, s) :=
      fold_left (tsn_narrow st) s (nl0, Z.of_nat (length s), []) in
    if ns =? 0 then (st, false)
    else if nl =? 0 then
      let st1 := set_flags_at st nx ny (fl_set (flags_at st nx ny) F_NUMBERUSED) in
      fold_left
        (fun (acc : game_state * bool) p =>
           if negb (has (p_f p) F_MARK) then
             (set_flags_at (fst acc) (p_x p) (p_y p)
                (fl_set (flags_at (fst acc) (p_x p) (p_y p)) F_IMPOSSIBLE),
              true)
           else acc)
        s (st1, false)
    else if nl =? ns then
      let st1 := set_flags_at st nx ny (fl_set (flags_at st nx ny) F_NUMBERUSED) in
      fold_left
        (fun (acc : game_state * bool) p =>
           if negb (has (p_f p) F_MARK) then
             (set_light (fst acc) (p_x p) (p_y p) true, true)
           else acc)
        s (st1, false)
    else (st, false).

(** One sweep of the two propagation rules over the whole grid: the body
    of the first double loop of [solve_sub].  The accumulator is the
    state, [ncanplace] and [didstuff]. *)
Definition solve_pass_cell (acc : game_state * Z * bool) (c : Z * Z)
  : game_state * Z * bool :=
  let '(st, ncanplace, didstuff) := acc in
  let fl := flags_at st (fst c) (snd c) in
  let li := lights_at st (fst c) (snd c) in
  let ncanplace := ncanplace + (if could_place_light fl li then 1 else 0) in
  let '(st, r1) := try_solve_light st (fst c) (snd c) fl li in
  let '(st, r2) := try_solve_number st (fst c) (snd c) fl li in
  (st, ncanplace, didstuff || r1 || r2).

Definition solve_pass (st : game_state) : game_state * Z * bool :=
  fold_left solve_pass_cell (all_cells st) (st, 0, false).

(** The second double loop of [solve_sub]: of all the squares where a
    light could be placed, the one that would light the most currently
    unlit squares.  The accumulator is [(bestn, bestx, besty)]. *)
Definition count_unlit (st : game_state) (n : Z) (lx ly : Z) : Z :=
  if lights_at st lx ly =? 0 then n + 1 else n.

Definition best_cell (st : game_state) (acc : Z * Z * Z) (c : Z * Z)
  : Z * Z * Z :=
  let '(bestn, bestx, besty) := acc in
  let fl := flags_at st (fst c) (snd c) in
  let li := lights_at st (fst c) (snd c) in
  if negb (could_place_light fl li) then acc
  else
    let n := FOREACHLIT (list_lights st (fst c) (snd c) true)
                        (count_unlit st) 0 in
    if n >? bestn then (n, fst c, snd c) else acc.

Definition choose_best (st : game_state) : Z * Z * Z :=
  fold_left (best_cell st) (all_cells st) (0, -1, -1).

(** Outcome of a run of the solver: a C return value with the final
    contents of [*state] and [*maxdepth], a failed [assert], or a model
    run that was given too little fuel. *)
Inductive outcome (A : Type) : Type :=
| Returns (a : A)
| AssertFails
| OutOfFuel.
Arguments Returns {A} a.
Arguments AssertFails {A}.
Arguments OutOfFuel {A}.

(** [if (maxdepth && *maxdepth < depth) *maxdepth = depth;] with a null
    [maxdepth] as [None]. *)
Definition note_depth (maxdepth : option Z) (depth : Z) : option Z :=
  match maxdepth with
  | Some m => if m <? depth then Some depth else Some m
  | None => None
  end.

(** [dup_game], on values: a copy of both planes and of every field. *)
Definition dup_game (st : game_state) : game_state :=
  mk_game_state (s_w st) (s_h st) (nlights st) (lights st) (flags st)
                (completed st) (used_solve st).

(** The two [memcpy] calls that bring the solved planes of [scopy] back
    into [state]: the [w*h] entries of the [lights] plane and of the
    [flags] plane, and nothing else. *)
Definition copy_planes (st scopy : game_state) : game_state :=
  with_flags (with_lights st (lights scopy)) (flags scopy).

(** The [while (1)] loop of [solve_sub].  Every turn of the loop and every
    recursive call uses one unit of fuel. *)
Fixpoint solve_loop (fuel : nat) (st : game_state) (forceunique : bool)
    (maxrecurse depth : Z) (maxdepth : option Z)
  : outcome (Z * game_state * option Z) :=
  match fuel with
  | O => OutOfFuel
  | S fuel' =>
    if grid_overlap st then Returns (0, st, maxdepth)
    else if grid_correct st then Returns (1, st, maxdepth)
    else
      let '(st, ncanplace, didstuff) := solve_pass st in
      if didstuff then
        solve_loop fuel' st forceunique maxrecurse depth maxdepth
      else if ncanplace =? 0 then Returns (0, st, maxdepth)
      else if depth >=? maxrecurse then Returns (-1, st, maxdepth)
      else
        let '(bestn, bestx, besty) := choose_best st in
        if negb (bestn >? 0) then AssertFails
        else if negb ((bestx >=? 0) && (besty >=? 0)) then AssertFails
        else
          let scopy := dup_game st in
          let st := set_flags_at st bestx besty
                      (fl_set (flags_at st bestx besty) F_IMPOSSIBLE) in
          match solve_loop fuel' st forceunique maxrecurse (depth + 1)
                           (note_depth maxdepth (depth + 1)) with
          | Returns (self_soluble, st, maxdepth) =>
            if negb forceunique && (self_soluble >? 0) then
              Returns (self_soluble, st, maxdepth)
            else
              let scopy := set_light scopy bestx besty true in
              match solve_loop fuel' scopy forceunique maxrecurse (depth + 1)
                               (note_depth maxdepth (depth + 1)) with
              | Returns (copy_soluble, scopy, maxdepth) =>
                if forceunique &&
                   ((copy_soluble <? 0) || (self_soluble <? 0)) then
                  Returns (-1, st, maxdepth)
                else if copy_soluble <=? 0 then
                  Returns (self_soluble, st, maxdepth)
                else if self_soluble <=? 0 then
                  Returns (copy_soluble, copy_planes st scopy, maxdepth)
                else Returns (copy_soluble + self_soluble, st, maxdepth)
              | AssertFails => AssertFails
              | OutOfFuel => OutOfFuel
              end
          | AssertFails => AssertFails
          | OutOfFuel => OutOfFuel
          end
  end.

Definition solve_sub (fuel : nat) (st : game_state) (forceunique : bool)
    (maxrecurse depth : Z) (maxdepth : option Z)
  : outcome (Z * game_state * option Z) :=
  solve_loop fuel st forceunique maxrecurse depth (note_depth maxdepth depth).

Definition MAXRECURSE : Z := 5.

Definition dosolve (fuel : nat) (st : game_state) (allowguess forceunique : bool)
    (maxdepth : option Z) : outcome (Z * game_state * option Z) :=
  let st :=
    fold_left (fun st c =>
                 set_flags_at st (fst c) (snd c)
                   (fl_clear (flags_at st (fst c) (snd c)) F_NUMBERUSED))
              (all_cells st) st in
  solve_sub fuel st forceunique (if allowguess then MAXRECURSE else 0) 0
            maxdepth.

(** Number of squares of the board whose [F_LIGHT] flag is set. *)
Definition count_lights (st : game_state) : Z :=
  Z.of_nat (length (filter (fun c => has (flags_at st (fst c) (snd c)) F_LIGHT = true)
                           (all_cells st))).

(** ** C strings and the C library calls the source makes *)

(** Character code, as the value of a C [unsigned char]. *)
Definition code (c : ascii) : Z := Z.of_N (N_of_ascii c).

(** The characters of a C string: those before the first NUL. *)
Fixpoint until_nul (s : list ascii) : list ascii :=
  match s with
  | [] => []
  | c :: s' => if code c =? 0 then [] else c :: until_nul s'
  end.

Definition c_chars (s : string) : list ascii :=
  until_nul (list_ascii_of_string s).

(** Character codes are written in decimal: ['0'] is 48, ['4'] 52, ['9'] 57,
    ['+'] 43, ['-'] 45, [','] 44, [';'] 59, ['B'] 66, ['I'] 73, ['L'] 76,
    ['S'] 83, ['a'] 97, ['b'] 98, ['r'] 114, ['s'] 115, ['x'] 120,
    ['z'] 122. *)
Definition isdigit (c : ascii) : bool := (48 <=? code c) && (code c <=? 57).

(** [isspace] in the C locale: space, and [\t \n \v \f \r]. *)
Definition isspace (c : ascii) : bool :=
  (code c =? 32) || ((9 <=? code c) && (code c <=? 13)).

Arguments code : simpl never.
Arguments isdigit : simpl never.
Arguments isspace : simpl never.

Fixpoint skip (p : ascii -> bool) (s : list ascii) : list ascii :=
  match s with
  | c :: s' => if p c then skip p s' else s
  | [] => []
  end.

Fixpoint prefix_of (p : ascii -> bool) (s : list ascii) : list ascii :=
  match s with
  | c :: s' => if p c then c :: prefix_of p s' else []
  | [] => []
  end.

(** Value of a run of decimal digits, most significant first. *)
Definition digits_value (ds : list ascii) : Z :=
  fold_left (fun a c => a * 10 + (code c - 48)) ds 0.

(** An optional sign in front of a number: [(negative, rest)]. *)
Definition read_sign (s : list ascii) : bool * list ascii :=
  match s with
  | c :: s' =>
      if code c =? 45 then (true, s')
      else if code c =? 43 then (false, s')
      else (false, s)
  | [] => (false, [])
  end.

(** The range of an [int]. *)
Definition INT_MAX : Z := 2147483647.
Definition INT_MIN : Z := - 2147483648.

(** Whether every run of decimal digits of [s] writes a number of at most
    [INT_MAX]; [acc] is the value of the digits of the current run read
    so far.  On such text [atoi] and [%d] store the number they read. *)
Fixpoint runs_fit (acc : Z) (s : list ascii) : bool :=
  match s with
  | [] => true
  | c :: s' =>
      if isdigit c then
        let v := acc * 10 + (code c - 48) in
        (v <=? INT_MAX) && runs_fit v s'
      else runs_fit 0 s'
  end.

Definition ints_fit (s : list ascii) : bool := runs_fit 0 s.

(** [atoi]: white space, an optional sign, then as many digits as there
    are; [0] when there is none.  The number is the one written: the
    source's on text with [ints_fit]. *)
Definition atoi (s : list ascii) : Z :=
  let '(neg, s) := read_sign (skip isspace s) in
  let v := digits_value (prefix_of isdigit s) in
  if neg then - v else v.

(** One [%d] conversion of [sscanf]: white space, an optional sign and at
    least one digit; the value and the unread rest, or a matching
    failure.  The value is the number written, which is what the source
    stores into its [int] on text with [ints_fit]. *)
Definition scan_int (s : list ascii) : option (Z * list ascii) :=
  let '(neg, s) := read_sign (skip isspace s) in
  match prefix_of isdigit s with
  | [] => None
  | ds => let v := digits_value ds in
          Some (if neg then - v else v, skip isdigit s)
  end.

(** [sscanf(s, "%d,%d%n", &x, &y, &n) == 2], with the rest [s + n]. *)
Definition sscanf_d_comma_d (s : list ascii) : option (Z * Z * list ascii) :=
  match scan_int s with
  | Some (x, s1) =>
      match s1 with
      | c :: s2 =>
          if code c =? 44 then
            match scan_int s2 with
            | Some (y, s3) => Some (x, y, s3)
            | None => None
            end
          else None
      | [] => None
      end
  | None => None
  end.

(** [sprintf(buf, "%d", n)]. *)
Definition digit_char (d : Z) : ascii := ascii_of_N (Z.to_N (48 + d)).

Fixpoint print_digits (fuel : nat) (n : Z) (acc : list ascii) : list ascii :=
  match fuel with
  | O => acc
  | S fuel' =>
      if n <? 10 then digit_char n :: acc
      else print_digits fuel' (n / 10) (digit_char (n mod 10) :: acc)
  end.

Definition print_uint (n : Z) : list ascii :=
  print_digits (S (Z.to_nat (Z.log2 n))) n [].

Definition print_int (n : Z) : list ascii :=
  if n <? 0 then ascii_of_N 45 :: print_uint (- n) else print_uint n.

(** ** Parameters: [decode_params], [encode_params] *)

Definition with_w (p : game_params) (v : Z) : game_params :=
  mk_game_params v (p_h p) (blackpc p) (symm p) (recurse p).
Definition with_h (p : game_params) (v : Z) : game_params :=
  mk_game_params (p_w p) v (blackpc p) (symm p) (recurse p).
Definition with_blackpc (p : game_params) (v : Z) : game_params :=
  mk_game_params (p_w p) (p_h p) v (symm p) (recurse p).
Definition with_symm (p : game_params) (v : Z) : game_params :=
  mk_game_params (p_w p) (p_h p) (blackpc p) v (recurse p).
Definition with_recurse (p : game_params) (v : Z) : game_params :=
  mk_game_params (p_w p) (p_h p) (blackpc p) (symm p) v.

(** [EATNUM(x)]: the value read by [atoi], and the string advanced over
    the digits it starts with. *)
Definition EATNUM (s : list ascii) : Z * list ascii :=
  (atoi s, skip isdigit s).

(** [*string == c] followed by [string++] when it holds. *)
Definition eat_char (k : Z) (s : list ascii) : option (list ascii) :=
  match s with
  | c :: s' => if code c =? k then Some s' else None
  | [] => None
  end.

Definition decode_params (params : game_params) (str : string)
  : game_params :=
  let s := c_chars str in
  let '(v, s) := EATNUM s in
  let params := with_w params v in
  let '(params, s) :=
    match eat_char 120 (* 'x' *) s with
    | Some s => let '(v, s) := EATNUM s in (with_h params v, s)
    | None => (params, s)
    end in
  let '(params, s) :=
    match eat_char 98 (* 'b' *) s with
    | Some s => let '(v, s) := EATNUM s in (with_blackpc params v, s)
    | None => (params, s)
    end in
  let '(params, s) :=
    match eat_char 115 (* 's' *) s with
    | Some s => let '(v, s) := EATNUM s in (with_symm params v, s)
    | None => (params, s)
    end in
  let params := with_recurse params 0 in
  match eat_char 114 (* 'r' *) s with
  | Some s => with_recurse params 1
  | None => params
  end.

Definition encode_params (params : game_params) (full : bool) : string :=
  string_of_list_ascii
    (if full then
       print_int (p_w params) ++ ascii_of_N 120 ::
       print_int (p_h params) ++ ascii_of_N 98 ::
       print_int (blackpc params) ++ ascii_of_N 115 ::
       print_int (symm params) ++
       (if recurse params =? 0 then [] else [ascii_of_N 114])
     else
       print_int (p_w params) ++ ascii_of_N 120 :: print_int (p_h params)).

(** ** [validate_desc] *)

Inductive desc_error : Type :=
| DescShorter      (* "Game description shorter than expected" *)
| DescUnexpected   (* "Game description contained unexpected character" *)
| DescLonger.      (* "Game description longer than expected" *)

(** The [for] loop and the test after it; [None] is the [NULL] return.
    Each turn of the loop reads one character, so the recursion is on the
    string. *)
Fixpoint validate_from (desc : list ascii) (i wh : Z) : option desc_error :=
  if i <? wh then
    match desc with
    | [] => Some DescShorter
    | c :: desc' =>
        if (48 <=? code c) && (code c <=? 52) (* '0'..'4' *) then
          validate_from desc' (i + 1) wh
        else if code c =? 66 (* 'B' *) then
          validate_from desc' (i + 1) wh
        else if (97 <=? code c) && (code c <=? 122) (* 'a'..'z' *) then
          validate_from desc' (i + (code c - 97) + 1) wh
        else Some DescUnexpected
    end
  else
    match desc with
    | [] => if i >? wh then Some DescLonger else None
    | _ :: _ => Some DescLonger
    end.

Definition validate_desc (params : game_params) (desc : string)
  : option desc_error :=
  validate_from (c_chars desc) 0 (p_w params * p_h params).

(** [validate_desc] multiplies [w] by [h] and counts in [i] with [int]s,
    for parameters that [validate_params] bounds from below only.  A
    letter takes [i], which is below [w*h] inside the loop, up to 25
    further and the [i++] of the loop one more, to [w*h + 25] at most.
    All of it stays within [int], and is the arithmetic of
    [validate_from], on parameters with *)
Definition desc_in_int (params : game_params) : Prop :=
  INT_MIN <= p_w params * p_h params <= INT_MAX - 25.

(** ** [new_game] *)

(** The squares in the order of the double loop
    [for (y = 0; y < h; y++) for (x = 0; x < w; x++)]. *)
Definition cells_by_row (w h : Z) : list (Z * Z) :=
  seqZ 0 h ≫= (fun y => (fun x => (x, y)) <$> seqZ 0 w).

(** The body of the double loop of [new_game].  The accumulator is the
    state under construction, the unread descriptor and [run].  Reading
    the terminator gives [c = 0], which falls to the [default] case. *)
Definition new_game_cell (acc : outcome (game_state * list ascii * Z))
    (xy : Z * Z) : outcome (game_state * list ascii * Z) :=
  match acc with
  | Returns (ret, desc, run) =>
      let x := fst xy in
      let y := snd xy in
      let read :=
        if run =? 0 then
          match desc with
          | [] => Some (0, [], run)
          | d :: desc' =>
              if code d =? 83 then None
              else if (97 <=? code d) && (code d <=? 122)
                   then Some (code d, desc', code d - 97 + 1)
                   else Some (code d, desc', run)
          end
        else Some (0, desc, run) in
      match read with
      | None => AssertFails
      | Some (c, desc, run) =>
          let '(c, run) := if run >? 0 then (83, run - 1) else (c, run) in
          if (48 <=? c) && (c <=? 52) then
            let ret := set_flags_at ret x y
                         (fl_set (flags_at ret x y) F_NUMBERED) in
            let ret := set_lights_at ret x y (c - 48) in
            Returns (set_flags_at ret x y (fl_set (flags_at ret x y) F_BLACK),
                     desc, run)
          else if c =? 66 then
            Returns (set_flags_at ret x y (fl_set (flags_at ret x y) F_BLACK),
                     desc, run)
          else if c =? 83 then Returns (ret, desc, run)
          else AssertFails
      end
  | AssertFails => AssertFails
  | OutOfFuel => OutOfFuel
  end.

Definition new_game (params : game_params) (desc : string)
  : outcome game_state :=
  match fold_left new_game_cell (cells_by_row (p_w params) (p_h params))
                  (Returns (new_state params, c_chars desc, 0)) with
  | Returns (ret, desc, _) =>
      match desc with
      | [] => Returns ret
      | _ :: _ => AssertFails
      end
  | AssertFails => AssertFails
  | OutOfFuel => OutOfFuel
  end.

(** ** [execute_move] *)

(** One command of the move string, run on [ret]: the new contents of
    [ret] and the unread rest of the string, or [None] for
    [goto badmove]. *)
Definition move_command (c : ascii) (move : list ascii) (ret : game_state)
  : option (game_state * list ascii) :=
  if code c =? 83 (* 'S' *) then Some (with_used_solve ret 1, move)
  else if (code c =? 76) || (code c =? 73) (* 'L', 'I' *) then
    match sscanf_d_comma_d move with
    | Some (x, y, move) =>
        if (x <? 0) || (y <? 0) || (x >=? s_w ret) || (y >=? s_h ret)
        then None
        else
          let fl := flags_at ret x y in
          if has fl F_BLACK then None
          else if code c =? 76 (* 'L' *) then
            let ret := set_flags_at ret x y
                         (fl_clear (flags_at ret x y) F_IMPOSSIBLE) in
            Some (set_light ret x y (negb (has fl F_LIGHT)), move)
          else
            let ret := set_light ret x y false in
            Some (set_flags_at ret x y
                    (fl_toggle (flags_at ret x y) F_IMPOSSIBLE), move)
    | None => None
    end
  else None.

(** The loop [while ( *move )].  [Returns None] stands for [goto badmove].
    Every turn reads at least one character; the fuel counts the turns. *)
Fixpoint move_loop (fuel : nat) (move : list ascii) (ret : game_state)
  : outcome (option game_state) :=
  match move with
  | [] => Returns (Some ret)
  | c :: move =>
      match fuel with
      | O => OutOfFuel
      | S fuel' =>
          match move_command c move ret with
          | Some (ret, move) =>
              match move with
              | [] => move_loop fuel' [] ret
              | c' :: move' =>
                  if code c' =? 59 (* ';' *) then move_loop fuel' move' ret
                  else Returns None
              end
          | None => Returns None
          end
      end
  end.

(** What [execute_move] does to the fresh copy [ret], as a function of
    the contents of that copy: the final contents when the move is
    accepted, [None] when it ends in [badmove].  The fuel is the length
    of the string, which the loop never exhausts ([move_loop_fuel]). *)
Definition run_move (ret : game_state) (move : list ascii)
  : option game_state :=
  match move with
  | [] => None
  | _ :: _ =>
      match move_loop (length move) move ret with
      | Returns (Some ret) =>
          Some (if grid_correct ret then with_completed ret 1 else ret)
      | _ => None
      end
  end.

(** The states live in a store of allocated objects; a [game_state *] is
    a key of the store.  [execute_move] allocates the copy [ret], works
    on it, and either returns it or frees it again. *)
Definition loc : Type := positive.

Definition execute_move (state : loc) (move : string)
    (hp : gmap loc game_state) : option loc * gmap loc game_state :=
  match hp !! state with
  | None => (None, hp)
  | Some s =>
      let ret := fresh (dom hp) in
      let hp := <[ret := dup_game s]> hp in
      match run_move (dup_game s) (c_chars move) with
      | Some r => (Some ret, <[ret := r]> hp)
      | None => (None, delete ret hp)
      end
  end.

(** * Notions used to state the properties *)

(** [st'] has the dimensions and the latches of [st]. *)
Definition same_frame (st st' : game_state) : Prop :=
  s_w st' = s_w st /\ s_h st' = s_h st /\
  completed st' = completed st /\ used_solve st' = used_solve st.

(** The 2x2 board with no black square and no light. *)
Definition white_2x2 : game_state := new_state (mk_game_params 2 2 20 0 0).

(** The descriptor grammar: ['0'..'4'] and ['B'] stand for one black
    square, ['a'..'z'] for a run of 1 to 26 white squares. *)
Definition desc_char (c : ascii) : bool :=
  ((48 <=? code c) && (code c <=? 52)) || (code c =? 66) ||
  ((97 <=? code c) && (code c <=? 122)).

Definition desc_char_cells (c : ascii) : Z :=
  if (97 <=? code c) && (code c <=? 122) then code c - 96 else 1.

(** Number of squares a descriptor decodes to. *)
Definition decoded_cells (d : list ascii) : Z :=
  fold_right (fun c n => desc_char_cells c + n) 0 d.

(** A string stops a run of digits when it is empty or starts with a
    character that is not a digit. *)
Definition stops_digits (s : list ascii) : Prop :=
  match s with [] => True | c :: _ => isdigit c = false end.

(** Line of sight.  Two squares of the grid see each other when they
    share a row or a column and every square from one to the other, both
    ends included, is white. *)
Definition row_clear (st : game_state) (y a b : Z) : Prop :=
  forall x, Z.min a b <= x <= Z.max a b -> is_black st x y = false.
Definition col_clear (st : game_state) (x a b : Z) : Prop :=
  forall y, Z.min a b <= y <= Z.max a b -> is_black st x y = false.

Definition sees (st : game_state) (x y x' y' : Z) : Prop :=
  in_grid st x y /\ in_grid st x' y' /\
  ((y' = y /\ row_clear st y x x') \/ (x' = x /\ col_clear st x y y')).

(** Lit counts of white squares are counts: never negative. *)
Definition lights_nonneg (st : game_state) : Prop :=
  forall x y, in_grid st x y -> is_black st x y = false ->
              0 <= lights_at st x y.

(** A light could be placed on [(x,y)]: [could_place_light] on the flag
    word and lit count of the square. *)
Definition can_place (st : game_state) (x y : Z) : bool :=
  could_place_light (flags_at st x y) (lights_at st x y).

(** [st'] is [st] up to the [F_NUMBERUSED] bits of its flag words. *)
Definition modulo_numberused (st st' : game_state) : Prop :=
  st' = with_flags st (flags st') /\
  length (flags st') = length (flags st) /\
  forall i, Z.lor (plane_get (flags st') i) F_NUMBERUSED =
            Z.lor (plane_get (flags st) i) F_NUMBERUSED.

(** The move string [interpret_move] writes for a click on [(x,y)]:
    [sprintf(buf, "%c%d,%d", (int)c, cx, cy)]. *)
Definition format_move (c : ascii) (x y : Z) : string :=
  string_of_list_ascii (c :: print_int x ++ ascii_of_N 44 :: print_int y).

(** A 1x1 white board whose only square is marked impossible. *)
Definition impossible_1x1 : game_state :=
  mk_game_state 1 1 0 [0] [F_IMPOSSIBLE] 0 0.

(** The move grammar: [move := cmd (';' cmd)*],
    [cmd := 'S' | 'L' int ',' int | 'I' int ',' int], where an [int] is
    what a [%d] conversion reads. *)







(** [st] is a state of the board of [s]: same dimensions, same black
    squares. *)
Definition same_board (s st : game_state) : Prop :=
  s_w st = s_w s /\ s_h st = s_h s /\
  forall i, has (plane_get (flags st) i) F_BLACK
            = has (plane_get (flags s) i) F_BLACK.

(** A string at which the reading of a command has to stop: its end, or
    a [';']. *)
Definition at_separator (s : list ascii) : Prop :=
  match s with [] => True | c :: _ => code c = 59 end.

(** A 1x1 white board without light or mark. *)
Definition white_1x1 : game_state := mk_game_state 1 1 0 [0] [0] 0 0.

(** What the solver keeps true of the state it works on, [s] being the
    state it started from: the planes have the size of the board, lit
    counts are not negative and the board itself is the one of [s]. *)
Definition solver_inv (s st : game_state) : Prop :=
  wf_state st /\ lights_nonneg st /\ same_board s st.

(** A point around a clue that the marking loops may write to: it is in
    the grid and, unless it carries [F_MARK], its square is white. *)
Definition usable_point (s : game_state) (p : point) : Prop :=
  in_grid s (p_x p) (p_y p) /\
  (has (p_f p) F_MARK = false -> is_black s (p_x p) (p_y p) = false).

(** The counter [nlights] agrees with the flags plane. *)
Definition nlights_ok (st : game_state) : Prop :=
  nlights st = count_lights st.

(** No square of the flags plane holds a light. *)
Definition no_light (st : game_state) : Prop :=
  forall i, has (plane_get (flags st) i) F_LIGHT = false.

(** A board as [new_game] leaves it: well formed, without any light,
    with lit count [0] on every white square. *)
Definition fresh_board (st : game_state) : Prop :=
  wf_state st /\ nlights st = 0 /\ no_light st /\
  forall i, has (plane_get (flags st) i) F_BLACK = false ->
            plane_get (lights st) i = 0.

(** * More of [lightup.c] *)

(** ** Parameters: presets, validation, the configuration dialog *)

Definition SYMM_NONE : Z := 0.
Definition SYMM_REF2 : Z := 1.
Definition SYMM_ROT2 : Z := 2.
Definition SYMM_REF4 : Z := 3.
Definition SYMM_ROT4 : Z := 4.
Definition SYMM_MAX : Z := 5.

(** The table [lightup_presets], without [SLOW_SYSTEM]. *)
Definition lightup_presets : list game_params :=
  [ mk_game_params 7 7 20 SYMM_ROT4 0;
    mk_game_params 7 7 20 SYMM_ROT4 1;
    mk_game_params 10 10 20 SYMM_ROT2 0;
    mk_game_params 10 10 20 SYMM_ROT2 1;
    mk_game_params 14 14 20 SYMM_ROT2 0;
    mk_game_params 14 14 20 SYMM_ROT2 1 ].

(** [game_fetch_preset]: [None] is the return value [FALSE]; otherwise
    the name written by [sprintf(buf, "%dx%d %s", ...)] and the
    parameters. *)
Definition game_fetch_preset (i : Z) : option (string * game_params) :=
  if (i <? 0) || (i >=? Z.of_nat (length lightup_presets)) then None
  else
    match lightup_presets !! Z.to_nat i with
    | Some ret =>
        Some (string_of_list_ascii
                (print_int (p_w ret) ++ ascii_of_N 120 :: print_int (p_h ret)
                 ++ ascii_of_N 32 ::
                 list_ascii_of_string
                   (if recurse ret =? 0 then "easy" else "hard")),
              ret)
    | None => None
    end.

(** [validate_params]: [None] is the [NULL] return, otherwise the
    message. *)
Definition validate_params (params : game_params) (full : bool)
  : option string :=
  if (p_w params <? 2) || (p_h params <? 2) then
    Some "Width and height must be at least 2"%string
  else if full then
    if (blackpc params <? 5) || (blackpc params >? 100) then
      Some "Percentage of black squares must be between 5% and 100%"%string
    else if negb (p_w params =? p_h params) && (symm params =? SYMM_ROT4) then
      Some "4-fold symmetry is only available with square grids"%string
    else if (symm params <? 0) || (symm params >=? SYMM_MAX) then
      Some "Unknown symmetry type"%string
    else None
  else None.

(** The items of the configuration dialog: [name], [type], [sval] and
    [ival] of a [config_item]; a null pointer is [None]. *)
Inductive config_type : Type := C_STRING | C_CHOICES | C_END.

Record config_item : Type := mk_config_item {
  ci_name : option string;
  ci_type : config_type;
  ci_sval : option string;
  ci_ival : Z
}.

Definition game_configure (params : game_params) : list config_item :=
  [ mk_config_item (Some "Width"%string) C_STRING
      (Some (string_of_list_ascii (print_int (p_w params)))) 0;
    mk_config_item (Some "Height"%string) C_STRING
      (Some (string_of_list_ascii (print_int (p_h params)))) 0;
    mk_config_item (Some "%age of black squares"%string) C_STRING
      (Some (string_of_list_ascii (print_int (blackpc params)))) 0;
    mk_config_item (Some "Symmetry"%string) C_CHOICES
      (Some ":None:2-way mirror:2-way rotational:4-way mirror:4-way rotational"%string)
      (symm params);
    mk_config_item (Some "Difficulty"%string) C_CHOICES
      (Some ":Easy:Hard"%string) (recurse params);
    mk_config_item None C_END None 0 ].

(** [custom_params] reads [cfg[0]] to [cfg[4]]; [None] stands for a read
    outside the array or an [atoi] of a null pointer, both undefined. *)
Definition custom_params (cfg : list config_item) : option game_params :=
  match cfg with
  | c0 :: c1 :: c2 :: c3 :: c4 :: _ =>
      match ci_sval c0, ci_sval c1, ci_sval c2 with
      | Some s0, Some s1, Some s2 =>
          Some (mk_game_params (atoi (c_chars s0)) (atoi (c_chars s1))
                               (atoi (c_chars s2)) (ci_ival c3) (ci_ival c4))
      | _, _, _ => None
      end
  | _ => None
  end.

(** ** More tests and board set-up *)

(** [number_wrong]; the source asserts that the square is numbered.  The
    accumulator of the loop is [(n, empty)]. *)
Definition number_wrong_step (st : game_state) (acc : Z * Z) (p : point)
  : Z * Z :=
  let '(n, empty) := acc in
  if has (flags_at st (p_x p) (p_y p)) F_LIGHT then (n + 1, empty)
  else if has (flags_at st (p_x p) (p_y p)) F_BLACK then acc
  else if has (flags_at st (p_x p) (p_y p)) F_IMPOSSIBLE then acc
  else if negb (lights_at st (p_x p) (p_y p) =? 0) then acc
  else (n, empty + 1).

Definition number_wrong (st : game_state) (x y : Z) : bool :=
  let li := lights_at st x y in
  let '(n, empty) :=
    fold_left (number_wrong_step st) (get_surrounds st x y) (0, 0) in
  (n >? li) || (n + empty <? li).

Definition clean_board (st : game_state) (leave_blacks : bool) : game_state :=
  let st :=
    fold_left
      (fun st c =>
         let st :=
           if leave_blacks then
             set_flags_at st (fst c) (snd c)
                          (Z.land (flags_at st (fst c) (snd c)) F_BLACK)
           else set_flags_at st (fst c) (snd c) 0 in
         set_lights_at st (fst c) (snd c) 0)
      (all_cells st) st in
  with_nlights st 0.

(** [check_dark]: whether some square lit from [(x,y)] has a lit count
    of exactly one. *)
Definition check_dark (st : game_state) (x y : Z) : bool :=
  existsb (fun c => lights_at st (fst c) (snd c) =? 1)
          (foreachlit_cells (list_lights st x y true)).

(** Number of squares around [(x,y)] that hold a light: the counting
    loop of [place_numbers] (and of [number_correct]). *)
Definition count_surrounding_lights (st : game_state) (x y : Z) : Z :=
  fold_left
    (fun n p => if has (flags_at st (p_x p) (p_y p)) F_LIGHT
                then n + 1 else n)
    (get_surrounds st x y) 0.

Definition place_numbers_cell (st : game_state) (c : Z * Z) : game_state :=
  if negb (has (flags_at st (fst c) (snd c)) F_BLACK) then st
  else
    let n := count_surrounding_lights st (fst c) (snd c) in
    let st := set_flags_at st (fst c) (snd c)
                (fl_set (flags_at st (fst c) (snd c)) F_NUMBERED) in
    set_lights_at st (fst c) (snd c) n.

Definition place_numbers (st : game_state) : game_state :=
  fold_left place_numbers_cell (all_cells st) st.

(** [strip_unused_nums]: the state and the number of clues removed. *)
Definition strip_unused_nums (st : game_state) : game_state * Z :=
  fold_left
    (fun (acc : game_state * Z) c =>
       let '(st, n) := acc in
       let fl := flags_at st (fst c) (snd c) in
       if has fl F_NUMBERED && negb (has fl F_NUMBERUSED) then
         let st := set_flags_at st (fst c) (snd c) (fl_clear fl F_NUMBERED) in
         (set_lights_at st (fst c) (snd c) 0, n + 1)
       else acc)
    (all_cells st) (st, 0).

(** [unplace_lights]; [set_light] asserts that the square is not black. *)
Definition unplace_lights_cell (st : game_state) (c : Z * Z) : game_state :=
  let st := if has (flags_at st (fst c) (snd c)) F_LIGHT
            then set_light st (fst c) (snd c) false else st in
  let st := set_flags_at st (fst c) (snd c)
              (fl_clear (flags_at st (fst c) (snd c)) F_IMPOSSIBLE) in
  set_flags_at st (fst c) (snd c)
    (fl_clear (flags_at st (fst c) (snd c)) F_NUMBERUSED).

Definition unplace_lights (st : game_state) : game_state :=
  fold_left unplace_lights_cell (all_cells st) st.

(** [puzzle_is_good]: the C return value, the state as the solver left
    it and [*mdepth]. *)
Definition puzzle_is_good (fuel : nat) (st : game_state)
    (params : game_params) : outcome (bool * game_state * Z) :=
  let st := unplace_lights st in
  match dosolve fuel st (negb (recurse params =? 0)) true (Some 0) with
  | Returns (nsol, st, mdepth) =>
      let mdepth := default 0 mdepth in
      if (recurse params =? 0) && (mdepth >? 0) then
        Returns (false, st, mdepth)
      else if nsol <=? 0 then Returns (false, st, mdepth)
      else if nsol >? 1 then Returns (false, st, mdepth)
      else Returns (true, st, mdepth)
  | AssertFails => AssertFails
  | OutOfFuel => OutOfFuel
  end.

(** ** The descriptor written by [new_game_desc] *)

(** A store of an [int] into a [char] keeps its low eight bits. *)
Definition char_of_int (n : Z) : ascii := ascii_of_N (Z.to_N (n mod 256)).

(** The body of the double loop after the label [goodpuzzle]; the
    accumulator is the text written so far and [run]. *)
Definition encode_cell (news : game_state) (acc : list ascii * Z)
    (xy : Z * Z) : list ascii * Z :=
  let '(out, run) := acc in
  let x := fst xy in
  let y := snd xy in
  if has (flags_at news x y) F_BLACK then
    let out := if negb (run =? 0) then out ++ [char_of_int (96 + run)]
               else out in
    if has (flags_at news x y) F_NUMBERED
    then (out ++ [char_of_int (48 + lights_at news x y)], 0)
    else (out ++ [char_of_int 66], 0)
  else
    let '(out, run) :=
      if run =? 26 then (out ++ [char_of_int (96 + run)], 0)
      else (out, run) in
    (out, run + 1).

(** The characters [new_game_desc] writes into [ret] for the board
    [news], before the terminating NUL. *)
Definition new_game_desc_encode (params : game_params) (news : game_state)
  : list ascii :=
  let '(out, run) :=
    fold_left (encode_cell news) (cells_by_row (p_w params) (p_h params))
              ([], 0) in
  if negb (run =? 0) then out ++ [char_of_int (96 + run)] else out.

(** ** [solve_game] *)

(** The body of the double loop after the label [solved]: what it
    appends to [move] for the square [(x,y)], [sprintf(buf, ";L%d,%d")]
    where the light flags of the two states differ, otherwise
    [sprintf(buf, ";I%d,%d")] where their impossible marks differ,
    otherwise nothing. *)
Definition solve_game_cell (currstate solved : game_state)
    (move : list ascii) (c : Z * Z) : list ascii :=
  let x := fst c in
  let y := snd c in
  let oldflags := flags_at currstate x y in
  let solvedflags := flags_at solved x y in
  if negb (Z.land oldflags F_LIGHT =? Z.land solvedflags F_LIGHT) then
    move ++ ascii_of_N 59 :: ascii_of_N 76 ::
      print_int x ++ ascii_of_N 44 :: print_int y
  else if negb (Z.land oldflags F_IMPOSSIBLE
                =? Z.land solvedflags F_IMPOSSIBLE) then
    move ++ ascii_of_N 59 :: ascii_of_N 73 ::
      print_int x ++ ascii_of_N 44 :: print_int y
  else move.

(** The move string written from [solved]: ['S'], then the commands of
    the squares in the order of the double loop. *)
Definition solve_game_move (currstate solved : game_state) : list ascii :=
  fold_left (solve_game_cell currstate solved) (all_cells currstate)
            [ascii_of_N 83].

(** [solve_game]: the move string it returns, or the text it stores in
    [*error] when it returns a null pointer.  It solves a copy of
    [currstate] and, if that fails, a copy of [state]; both copies are
    freed before it returns. *)
Definition solve_game (fuel : nat) (state currstate : game_state)
  : outcome (string + string) :=
  match dosolve fuel (dup_game currstate) true false None with
  | Returns (n, solved, _) =>
      if n >? 0 then
        Returns (inl (string_of_list_ascii
                        (solve_game_move currstate solved)))
      else
        match dosolve fuel (dup_game state) true false None with
        | Returns (n, solved, _) =>
            if n >? 0 then
              Returns (inl (string_of_list_ascii
                              (solve_game_move currstate solved)))
            else Returns (inr "Puzzle is not self-consistent."%string)
        | AssertFails => AssertFails
        | OutOfFuel => OutOfFuel
        end
  | AssertFails => AssertFails
  | OutOfFuel => OutOfFuel
  end.

(** ** [game_text_format] *)




(** ** [interpret_move] *)

Record game_ui : Type := mk_game_ui {
  cur_x : Z; cur_y : Z; cur_visible : Z
}.

(** [BORDER] and [FROMCOORD]; division of [int] truncates. *)
Definition BORDER (tilesize : Z) : Z := Z.quot tilesize 2.
Definition FROMCOORD (tilesize x : Z) : Z :=
  Z.quot (x - BORDER tilesize + tilesize) tilesize - 1.

Inductive ui_action : Type := NONE | FLIP_LIGHT | FLIP_IMPOSSIBLE.

Section buttons.

(** The button codes come from [puzzles.h]; the function is embedded for
    any values of them.  Being labels of one [switch], the four cursor
    codes are distinct. *)
Variables LEFT_BUTTON RIGHT_BUTTON CURSOR_SELECT : Z.
Variables CURSOR_UP CURSOR_DOWN CURSOR_RIGHT CURSOR_LEFT : Z.

(** The new contents of [*ui] and the string returned: [None] is [NULL],
    the empty string asks for a redraw, anything else is a move. *)
Definition interpret_move (state : game_state) (ui : game_ui)
    (tilesize x y button : Z) : game_ui * option string :=
  let cv := cur_visible ui in
  let '(ui, cx, cy, action) :=
    if (button =? LEFT_BUTTON) || (button =? RIGHT_BUTTON) then
      (mk_game_ui (cur_x ui) (cur_y ui) 0,
       FROMCOORD tilesize x, FROMCOORD tilesize y,
       if button =? LEFT_BUTTON then FLIP_LIGHT else FLIP_IMPOSSIBLE)
    else if (button =? CURSOR_SELECT) ||
            (button =? 105) || (button =? 73) (* 'i', 'I' *) ||
            (button =? 32) || (button =? 13) || (button =? 10) then
      (mk_game_ui (cur_x ui) (cur_y ui) 1, cur_x ui, cur_y ui,
       if (button =? 105) || (button =? 73) then FLIP_IMPOSSIBLE
       else FLIP_LIGHT)
    else if (button =? CURSOR_UP) || (button =? CURSOR_DOWN) ||
            (button =? CURSOR_RIGHT) || (button =? CURSOR_LEFT) then
      let '(dx, dy) :=
        if button =? CURSOR_UP then (0, -1)
        else if button =? CURSOR_DOWN then (0, 1)
        else if button =? CURSOR_RIGHT then (1, 0)
        else (-1, 0) in
      (mk_game_ui (Z.min (Z.max (cur_x ui + dx) 0) (s_w state - 1))
                  (Z.min (Z.max (cur_y ui + dy) 0) (s_h state - 1)) 1,
       -1, -1, NONE)
    else (ui, -1, -1, NONE) in
  let nullret :=
    if negb (cur_visible ui =? 0) then Some EmptyString
    else if negb (cv =? 0) then Some EmptyString
    else None in
  match action with
  | NONE => (ui, nullret)
  | _ =>
      if (cx <? 0) || (cy <? 0) || (cx >=? s_w state) || (cy >=? s_h state)
      then (ui, nullret)
      else
        let fl := flags_at state cx cy in
        if has fl F_BLACK then (ui, nullret)
        else
          match action with
          | FLIP_LIGHT =>
              if has fl F_IMPOSSIBLE then (ui, nullret)
              else (ui, Some (format_move (ascii_of_N 76) cx cy))
          | _ =>
              if has fl F_LIGHT then (ui, nullret)
              else (ui, Some (format_move (ascii_of_N 73) cx cy))
          end
  end.

End buttons.

(** ** The solver with the assertions of the functions it calls *)

(** [solve_loop] tests the two assertions of [solve_sub].  The functions
    the solver calls assert too: [get_surrounds] that its square is in
    the grid, [set_light] that its square is not black, [number_correct]
    that its square is numbered.  In the embedding of these three
    functions the assertion is a premise of their properties.  In the
    module [Checked] every assertion on the way of [dosolve] is tested
    where the source tests it and a failure ends the run; everything else
    is as before. *)

#[global] Instance outcome_bind : MBind outcome := fun A B f o =>
  match o with
  | Returns a => f a
  | AssertFails => AssertFails
  | OutOfFuel => OutOfFuel
  end.

Module Checked.

(** [assert(ox >= 0 && ox < state->w && oy >= 0 && oy < state->h);] *)
Definition get_surrounds (st : game_state) (ox oy : Z)
  : outcome (list point) :=
  if (ox >=? 0) && (ox <? s_w st) && (oy >=? 0) && (oy <? s_h st)
  then Returns (get_surrounds st ox oy)
  else AssertFails.

(** [assert(!(GRID(state,flags,ox,oy) & F_BLACK));] *)
Definition set_light (st : game_state) (ox oy : Z) (on : bool)
  : outcome game_state :=
  if has (flags_at st ox oy) F_BLACK then AssertFails
  else Returns (set_light st ox oy on).

(** [assert(GRID(state, flags, x, y) & F_NUMBERED);] *)
Definition number_correct (st : game_state) (x y : Z) : outcome bool :=
  if negb (has (flags_at st x y) F_NUMBERED) then AssertFails
  else
    s ← get_surrounds st x y;
    let n := fold_left
               (fun n p => if has (flags_at st (p_x p) (p_y p)) F_LIGHT
                           then n + 1 else n)
               s 0 in
    Returns (n =? lights_at st x y).

(** The double loop of [grid_addsup], which returns at the first number
    that is wrong. *)
Fixpoint grid_addsup_from (st : game_state) (cells : list (Z * Z))
  : outcome bool :=
  match cells with
  | [] => Returns true
  | c :: cells' =>
      if negb (has (flags_at st (fst c) (snd c)) F_NUMBERED)
      then grid_addsup_from st cells'
      else
        ok ← number_correct st (fst c) (snd c);
        if ok : bool then grid_addsup_from st cells' else Returns false
  end.

Definition grid_addsup (st : game_state) : outcome bool :=
  grid_addsup_from st (all_cells st).

(** [grid_lit(state) && !grid_overlap(state) && grid_addsup(state)]:
    [grid_addsup] is called when the first two tests pass. *)
Definition grid_correct (st : game_state) : outcome bool :=
  if grid_lit st && negb (grid_overlap st) then grid_addsup st
  else Returns false.

Definition try_solve_light (st : game_state) (ox oy : Z) (fl li : Z)
  : outcome (game_state * bool) :=
  if li >? 0 then Returns (st, false)
  else if has fl F_BLACK then Returns (st, false)
  else
    let lld := list_lights st ox oy true in
    let '(sx, sy, n) := FOREACHLIT lld (tsl_callback st) (0, 0, 0) in
    if n =? 1 then
      st ← set_light st sx sy true;
      Returns (st, true)
    else Returns (st, false).

Definition try_solve_number (st : game_state) (nx ny : Z) (nflags nl0 : Z)
  : outcome (game_state * bool) :=
  if negb (has nflags F_NUMBERED) then Returns (st, false)
  else
    s ← get_surrounds st nx ny;
    let '(nl, ns, s) :=
      fold_left (tsn_narrow st) s (nl0, Z.of_nat (length s), []) in
    if ns =? 0 then Returns (st, false)
    else if nl =? 0 then
      let st1 := set_flags_at st nx ny (fl_set (flags_at st nx ny) F_NUMBERUSED) in
      Returns
        (fold_left
           (fun (acc : game_state * bool) p =>
              if negb (has (p_f p) F_MARK) then
                (set_flags_at (fst acc) (p_x p) (p_y p)
                   (fl_set (flags_at (fst acc) (p_x p) (p_y p)) F_IMPOSSIBLE),
                 true)
              else acc)
           s (st1, false))
    else if nl =? ns then
      let st1 := set_flags_at st nx ny (fl_set (flags_at st nx ny) F_NUMBERUSED) in
      fold_left
        (fun (acc : outcome (game_state * bool)) p =>
           acc ← acc;
           if negb (has (p_f p) F_MARK) then
             st ← set_light (fst acc) (p_x p) (p_y p) true;
             Returns (st, true)
           else Returns acc)
        s (Returns (st1, false))
    else Returns (st, false).

Definition solve_pass_cell (acc : outcome (game_state * Z * bool))
    (c : Z * Z) : outcome (game_state * Z * bool) :=
  '(st, ncanplace, didstuff) ← acc;
  let fl := flags_at st (fst c) (snd c) in
  let li := lights_at st (fst c) (snd c) in
  let ncanplace := ncanplace + (if could_place_light fl li then 1 else 0) in
  '(st, r1) ← try_solve_light st (fst c) (snd c) fl li;
  '(st, r2) ← try_solve_number st (fst c) (snd c) fl li;
  Returns (st, ncanplace, didstuff || r1 || r2).

Definition solve_pass (st : game_state) : outcome (game_state * Z * bool) :=
  fold_left solve_pass_cell (all_cells st) (Returns (st, 0, false)).

Fixpoint solve_loop (fuel : nat) (st : game_state) (forceunique : bool)
    (maxrecurse depth : Z) (maxdepth : option Z)
  : outcome (Z * game_state * option Z) :=
  match fuel with
  | O => OutOfFuel
  | S fuel' =>
    if grid_overlap st then Returns (0, st, maxdepth)
    else
      correct ← grid_correct st;
      if correct : bool then Returns (1, st, maxdepth)
      else
        '(st, ncanplace, didstuff) ← solve_pass st;
        if didstuff : bool then
          solve_loop fuel' st forceunique maxrecurse depth maxdepth
        else if ncanplace =? 0 then Returns (0, st, maxdepth)
        else if depth >=? maxrecurse then Returns (-1, st, maxdepth)
        else
          let '(bestn, bestx, besty) := choose_best st in
          if negb (bestn >? 0) then AssertFails
          else if negb ((bestx >=? 0) && (besty >=? 0)) then AssertFails
          else
            let scopy := dup_game st in
            let st := set_flags_at st bestx besty
                        (fl_set (flags_at st bestx besty) F_IMPOSSIBLE) in
            '(self_soluble, st, maxdepth) ←
              solve_loop fuel' st forceunique maxrecurse (depth + 1)
                         (note_depth maxdepth (depth + 1));
            if negb forceunique && (self_soluble >? 0) then
              Returns (self_soluble, st, maxdepth)
            else
              scopy ← set_light scopy bestx besty true;
              '(copy_soluble, scopy, maxdepth) ←
                solve_loop fuel' scopy forceunique maxrecurse (depth + 1)
                           (note_depth maxdepth (depth + 1));
              if forceunique &&
                 ((copy_soluble <? 0) || (self_soluble <? 0)) then
                Returns (-1, st, maxdepth)
              else if copy_soluble <=? 0 then
                Returns (self_soluble, st, maxdepth)
              else if self_soluble <=? 0 then
                Returns (copy_soluble, copy_planes st scopy, maxdepth)
              else Returns (copy_soluble + self_soluble, st, maxdepth)
  end.

Definition solve_sub (fuel : nat) (st : game_state) (forceunique : bool)
    (maxrecurse depth : Z) (maxdepth : option Z)
  : outcome (Z * game_state * option Z) :=
  solve_loop fuel st forceunique maxrecurse depth (note_depth maxdepth depth).

Definition dosolve (fuel : nat) (st : game_state)
    (allowguess forceunique : bool) (maxdepth : option Z)
  : outcome (Z * game_state * option Z) :=
  let st :=
    fold_left (fun st c =>
                 set_flags_at st (fst c) (snd c)
                   (fl_clear (flags_at st (fst c) (snd c)) F_NUMBERUSED))
              (all_cells st) st in
  solve_sub fuel st forceunique (if allowguess then MAXRECURSE else 0) 0
            maxdepth.

End Checked.

(** * Notions used to state the further properties *)

(** The depth counter [*maxdepth] after a run of the solver, against its
    value before: it never decreases and never passes the larger of its
    old value and the recursion limit; a null pointer stays null. *)
Definition depth_grows (maxrecurse : Z) (md md' : option Z) : Prop :=
  match md, md' with
  | Some m, Some m' => m <= m' <= Z.max m maxrecurse
  | None, None => True
  | _, _ => False
  end.

(** The lights that shine on [(x,y)]: the squares of the grid that hold
    a light and whose light line, as [list_lights] computes it, passes
    through [(x,y)]. *)
Definition lit_from (st : game_state) (x y : Z) : list (Z * Z) :=
  filter (fun l => has (flags_at st (fst l) (snd l)) F_LIGHT = true /\
                   (x, y) ∈ foreachlit_cells
                              (list_lights st (fst l) (snd l) true))
         (all_cells st).

(** The [lights] plane is what its name says: on every white square it
    holds the number of lights that shine on the square. *)
Definition lit_ok (st : game_state) : Prop :=
  forall x y, in_grid st x y -> is_black st x y = false ->
              lights_at st x y = Z.of_nat (length (lit_from st x y)).

(** No square is both a light and marked impossible. *)
Definition exclusive (st : game_state) : Prop :=
  forall x y, in_grid st x y ->
    has (flags_at st x y) F_LIGHT && has (flags_at st x y) F_IMPOSSIBLE
    = false.

(** [st] is a position of the puzzle [s]: the same dimensions, the same
    black squares, the same clues on them. *)
Definition same_puzzle (s st : game_state) : Prop :=
  s_w st = s_w s /\ s_h st = s_h s /\
  forall x y, in_grid s x y ->
    has (flags_at st x y) F_BLACK = has (flags_at s x y) F_BLACK /\
    has (flags_at st x y) F_NUMBERED = has (flags_at s x y) F_NUMBERED /\
    (is_black s x y = true -> lights_at st x y = lights_at s x y).

(** Lights stand on white squares only. *)
Definition lights_on_white (st : game_state) : Prop :=
  forall x y, in_grid st x y -> has (flags_at st x y) F_LIGHT = true ->
              is_black st x y = false.

(** The square [(x,y)] carries no mark of the solver or of the player:
    no light, no impossible mark, no used-clue mark. *)
Definition unmarked (st : game_state) (x y : Z) : Prop :=
  has (flags_at st x y) F_LIGHT = false /\
  has (flags_at st x y) F_IMPOSSIBLE = false /\
  has (flags_at st x y) F_NUMBERUSED = false.

(** [st] extends the position [s]: every light and every impossible mark
    of [s] is still there in [st]. *)
Definition extends (s st : game_state) : Prop :=
  forall x y, in_grid s x y ->
    (has (flags_at s x y) F_LIGHT = true ->
     has (flags_at st x y) F_LIGHT = true) /\
    (has (flags_at s x y) F_IMPOSSIBLE = true ->
     has (flags_at st x y) F_IMPOSSIBLE = true).

(** What a square is in the puzzle: white, black, or black with a clue. *)
Inductive kind : Type :=
| KWhite
| KBlack
| KClue (n : Z).

Definition cell_kind (st : game_state) (xy : Z * Z) : kind :=
  if has (flags_at st (fst xy) (snd xy)) F_BLACK then
    if has (flags_at st (fst xy) (snd xy)) F_NUMBERED
    then KClue (lights_at st (fst xy) (snd xy))
    else KBlack
  else KWhite.

(** The descriptor of a list of kinds, [run] white squares being
    pending: the encoding loop read as a function of the kinds alone. *)
Definition flush_run (run : Z) : list ascii :=
  if negb (run =? 0) then [char_of_int (96 + run)] else [].

Fixpoint enc (run : Z) (ks : list kind) : list ascii :=
  match ks with
  | [] => flush_run run
  | KWhite :: ks =>
      if run =? 26 then char_of_int (96 + run) :: enc 1 ks
      else enc (run + 1) ks
  | KBlack :: ks => flush_run run ++ char_of_int 66 :: enc 0 ks
  | KClue n :: ks => flush_run run ++ char_of_int (48 + n) :: enc 0 ks
  end.

(** What [new_game] stores for a square of a given kind. *)
Definition put_kind (st : game_state) (xy : Z * Z) (k : kind) : game_state :=
  match k with
  | KWhite => st
  | KBlack =>
      set_flags_at st (fst xy) (snd xy)
                   (fl_set (flags_at st (fst xy) (snd xy)) F_BLACK)
  | KClue n =>
      let ret := set_flags_at st (fst xy) (snd xy)
                   (fl_set (flags_at st (fst xy) (snd xy)) F_NUMBERED) in
      let ret := set_lights_at ret (fst xy) (snd xy) n in
      set_flags_at ret (fst xy) (snd xy)
                   (fl_set (flags_at ret (fst xy) (snd xy)) F_BLACK)
  end.

(** A clue that a descriptor can carry. *)
Definition valid_kind (k : kind) : Prop :=
  match k with KClue n => 0 <= n <= 4 | _ => True end.

(** The rules of Light Up on a board: every white square is lit by some
    light, no light shines on another light, and every numbered square
    has as many lights on the squares around it as its number says. *)
Definition all_lit (st : game_state) : Prop :=
  forall x y, in_grid st x y -> is_black st x y = false ->
    exists lx ly, in_grid st lx ly /\
                  has (flags_at st lx ly) F_LIGHT = true /\
                  sees st lx ly x y.

Definition no_overlap (st : game_state) : Prop :=
  forall x y x' y',
    in_grid st x y -> in_grid st x' y' ->
    has (flags_at st x y) F_LIGHT = true ->
    has (flags_at st x' y') F_LIGHT = true ->
    (x, y) <> (x', y') -> ~ sees st x y x' y'.

(** Two squares are adjacent when they share an edge. *)
Definition adjacent (x y a b : Z) : Prop :=
  Z.abs (a - x) + Z.abs (b - y) = 1.

(** [n] is the number of squares of the board adjacent to [(x,y)] that
    hold a light: these squares can be listed without repetition, and
    the list has [n] entries. *)
Definition lights_around (st : game_state) (x y n : Z) : Prop :=
  exists l : list (Z * Z),
    NoDup l /\
    (forall a b, (a, b) ∈ l <->
       in_grid st a b /\ adjacent x y a b /\
       has (flags_at st a b) F_LIGHT = true) /\
    n = Z.of_nat (length l).

Definition clues_met (st : game_state) : Prop :=
  forall x y, in_grid st x y -> has (flags_at st x y) F_NUMBERED = true ->
    lights_around st x y (lights_at st x y).

(** [grid_addsup], as a proposition: on every numbered square the
    counting loop of [number_correct] arrives at the number of the
    square. *)
Definition clues_add_up (st : game_state) : Prop :=
  forall x y, in_grid st x y -> has (flags_at st x y) F_NUMBERED = true ->
    count_surrounding_lights st x y = lights_at st x y.

Definition rules_hold (st : game_state) : Prop :=
  all_lit st /\ no_overlap st /\ clues_met st.

(** Impossible marks stand on white squares only. *)
Definition marks_on_white (st : game_state) : Prop :=
  forall x y, in_grid st x y ->
              has (flags_at st x y) F_IMPOSSIBLE = true ->
              is_black st x y = false.

(** A point around a clue as the narrowing loop of [try_solve_number]
    leaves it: unless it carries [F_MARK], its square holds no light and
    a light could be placed on it. *)
Definition free_point (st : game_state) (p : point) : Prop :=
  has (p_f p) F_MARK = false ->
  has (flags_at st (p_x p) (p_y p)) F_LIGHT = false /\
  can_place st (p_x p) (p_y p) = true.

(** A position of play: the lit counts are exact, lights and impossible
    marks stand on white squares, and no square carries both. *)
Definition position (st : game_state) : Prop :=
  lit_ok st /\ lights_on_white st /\ exclusive st /\ marks_on_white st.

(** No square of the flags plane is marked impossible. *)
Definition no_mark (st : game_state) : Prop :=
  forall i, has (plane_get (flags st) i) F_IMPOSSIBLE = false.

(** The loop of [execute_move] after a command has been carried out:
    the separator test at the bottom of the loop body, then the loop
    again. *)
Definition move_rest (fuel : nat) (move : list ascii) (ret : game_state)
  : outcome (option game_state) :=
  match move with
  | [] => move_loop fuel [] ret
  | c' :: move' =>
      if code c' =? 59 then move_loop fuel move' ret else Returns None
  end.

(** The commands [solve_game] writes for a list of squares. *)
Definition solve_commands (currstate solved : game_state)
    (cells : list (Z * Z)) : list ascii :=
  cells ≫= solve_game_cell currstate solved [].

(** What the solver keeps on its way from the state [s] it was given:
    the puzzle, the lights and marks of [s], and a position of play. *)
Definition solver_keeps (s st : game_state) : Prop :=
  (same_puzzle s st /\ extends s st /\
   (lights_on_white s -> lights_on_white st)) /\
  position st.

(** Clues stand on black squares. *)
Definition clues_on_black (st : game_state) : Prop :=
  forall x y, in_grid st x y -> has (flags_at st x y) F_NUMBERED = true ->
              is_black st x y = true.

(** [sol] is a solution of the puzzle of [s]: a well-formed state of
    that puzzle, with lights on white squares and exact lit counts, that
    passes [grid_correct]. *)
Definition solution (s sol : game_state) : Prop :=
  wf_state sol /\ same_puzzle s sol /\ lit_ok sol /\ lights_on_white sol /\
  grid_correct sol = true.

(** [sol] agrees with what [st] has fixed: it has a light wherever [st]
    has one, and none where [st] has an impossible mark. *)
Definition compatible (st sol : game_state) : Prop :=
  forall x y, in_grid st x y ->
    (has (flags_at st x y) F_LIGHT = true ->
     has (flags_at sol x y) F_LIGHT = true) /\
    (has (flags_at st x y) F_IMPOSSIBLE = true ->
     has (flags_at sol x y) F_LIGHT = false).

(** [st'] has its lights where [st] has them. *)
Definition same_lights (st st' : game_state) : Prop :=
  forall x y, in_grid st x y ->
    has (flags_at st' x y) F_LIGHT = has (flags_at st x y) F_LIGHT.

(** What the narrowing loop of [try_solve_number] makes of a point: it
    marks the point when its square holds a light or could not take
    one. *)
Definition narrowed (st : game_state) (p : point) : point :=
  if has (flags_at st (p_x p) (p_y p)) F_LIGHT
     || negb (can_place st (p_x p) (p_y p))
  then mk_point (p_x p) (p_y p) (fl_set (p_f p) F_MARK)
  else p.

(** The number of squares of the grid that are still open: neither a
    light nor marked impossible. *)
Definition open_squares (st : game_state) : nat :=
  length (filter
            (fun c => has (flags_at st (fst c) (snd c)) F_LIGHT = false /\
                      has (flags_at st (fst c) (snd c)) F_IMPOSSIBLE = false)
            (all_cells st)).

(** * Properties *)

(** ** Iteration along a light line *)

Lemma FOREACHLIT_ind {A : Type} (P : A -> Prop) (lld : ll_data)
    (block : A -> Z -> Z -> A) (a : A) :
  P a ->
  (forall acc lx ly, P acc -> P (block acc lx ly)) ->
  P (FOREACHLIT lld block a).
Proof.
  intros Ha Hstep. unfold FOREACHLIT.
  generalize dependent a.
  induction (foreachlit_cells lld) as [|c cs IH]; intros a Ha; simpl.
  - exact Ha.
  - apply IH, Hstep, Ha.
Qed.

(** ** Fields that [set_light] leaves alone *)

Lemma same_frame_refl st : same_frame st st.
Proof. by repeat split. Qed.

Lemma same_frame_trans st1 st2 st3 :
  same_frame st1 st2 -> same_frame st2 st3 -> same_frame st1 st3.
Proof. unfold same_frame. intros (?&?&?&?) (?&?&?&?). repeat split; congruence. Qed.

Lemma set_light_frame st x y on : same_frame st (set_light st x y on).
Proof.
  unfold set_light.
  destruct (negb on && has (flags_at st x y) F_LIGHT);
    [|destruct (on && negb (has (flags_at st x y) F_LIGHT))]; simpl;
    try apply same_frame_refl;
    (apply FOREACHLIT_ind; [by repeat split|]);
    intros acc lx ly Hacc; (eapply same_frame_trans; [exact Hacc|]);
    by repeat split.
Qed.

Lemma move_command_completed c move ret ret' move' :
  move_command c move ret = Some (ret', move') ->
  s_w ret' = s_w ret /\ s_h ret' = s_h ret /\ completed ret' = completed ret.
Proof.
  unfold move_command. intros H.
  destruct (code c =? 83); [by simplify_eq|].
  destruct ((code c =? 76) || (code c =? 73)); [|done].
  destruct (sscanf_d_comma_d move) as [[[x y] m]|]; [|done].
  destruct ((x <? 0) || (y <? 0) || (x >=? s_w ret) || (y >=? s_h ret)); [done|].
  destruct (has (flags_at ret x y) F_BLACK); [done|].
  destruct (code c =? 76); simplify_eq.
  - match goal with |- context [set_light ?s ?a ?b ?o] =>
      destruct (set_light_frame s a b o) as (?&?&?&?) end.
    simpl in *. by repeat split.
  - destruct (set_light_frame ret x y false) as (?&?&?&?).
    simpl in *. by repeat split.
Qed.

Lemma move_loop_completed fuel : forall move ret ret',
  move_loop fuel move ret = Returns (Some ret') ->
  s_w ret' = s_w ret /\ s_h ret' = s_h ret /\ completed ret' = completed ret.
Proof.
  induction fuel as [|fuel IH]; intros move ret ret' H.
  - destruct move; simpl in H; by simplify_eq.
  - destruct move as [|c move]; simpl in H; [by simplify_eq|].
    destruct (move_command c move ret) as [[r m]|] eqn:Hc; [|done].
    apply move_command_completed in Hc as (Hw & Hh & Hco).
    destruct m as [|c' m'].
    + apply IH in H as (?&?&?). repeat split; congruence.
    + destruct (code c' =? 59); [|done].
      apply IH in H as (?&?&?). repeat split; congruence.
Qed.

(** The loop never runs out of the fuel [execute_move] gives it: a turn
    of the loop reads at least one character. *)
Lemma skip_length p s : (length (skip p s) <= length s)%nat.
Proof. induction s as [|c s IH]; simpl; [lia|]. destruct (p c); simpl; lia. Qed.

Lemma read_sign_length s : (length (snd (read_sign s)) <= length s)%nat.
Proof.
  destruct s as [|c s]; simpl; [lia|].
  destruct (code c =? 45); [simpl; lia|]. destruct (code c =? 43); simpl; lia.
Qed.

Lemma scan_int_length s v s' :
  scan_int s = Some (v, s') -> (length s' <= length s)%nat.
Proof.
  unfold scan_int. pose proof (read_sign_length (skip isspace s)) as H1.
  pose proof (skip_length isspace s) as H2.
  destruct (read_sign (skip isspace s)) as [neg t]. simpl in H1.
  pose proof (skip_length isdigit t) as H3.
  destruct (prefix_of isdigit t); [done|]. intros; simplify_eq. lia.
Qed.

Lemma sscanf_length s x y s' :
  sscanf_d_comma_d s = Some (x, y, s') -> (length s' <= length s)%nat.
Proof.
  unfold sscanf_d_comma_d.
  destruct (scan_int s) as [[x1 s1]|] eqn:H1; [|done].
  destruct s1 as [|c s2]; [done|]. destruct (code c =? 44); [|done].
  destruct (scan_int s2) as [[y1 s3]|] eqn:H2; [|done].
  intros; simplify_eq.
  apply scan_int_length in H1, H2. simpl in H1. lia.
Qed.

Lemma move_command_length c move ret ret' move' :
  move_command c move ret = Some (ret', move') ->
  (length move' <= length move)%nat.
Proof.
  unfold move_command.
  destruct (code c =? 83); [intros; simplify_eq; lia|].
  destruct ((code c =? 76) || (code c =? 73)); [|done].
  destruct (sscanf_d_comma_d move) as [[[x y] m]|] eqn:Hs; [|done].
  apply sscanf_length in Hs.
  destruct ((x <? 0) || (y <? 0) || (x >=? s_w ret) || (y >=? s_h ret)); [done|].
  destruct (has (flags_at ret x y) F_BLACK); [done|].
  destruct (code c =? 76); intros; simplify_eq; lia.
Qed.

Lemma move_loop_fuel fuel : forall move ret,
  (length move <= fuel)%nat -> move_loop fuel move ret <> OutOfFuel.
Proof.
  induction fuel as [|fuel IH]; intros move ret Hlen.
  - destruct move; simpl in *; [done|lia].
  - destruct move as [|c move]; simpl in *; [done|].
    destruct (move_command c move ret) as [[r m]|] eqn:Hc; [|done].
    apply move_command_length in Hc.
    destruct m as [|c' m']; [apply IH; simpl; lia|].
    destruct (code c' =? 59); [|done]. apply IH. simpl in Hc. lia.
Qed.

(** ** The store: what [execute_move] does around the loop *)

Lemma fresh_unused (hp : gmap loc game_state) : hp !! fresh (dom hp) = None.
Proof. apply not_elem_of_dom, is_fresh. Qed.

Lemma execute_move_run (hp : gmap loc game_state) p s m :
  hp !! p = Some s ->
  execute_move p m hp =
    match run_move (dup_game s) (c_chars m) with
    | Some r => (Some (fresh (dom hp)), <[fresh (dom hp) := r]> hp)
    | None => (None, hp)
    end.
Proof.
  intros Hp. unfold execute_move. rewrite Hp.
  destruct (run_move (dup_game s) (c_chars m)).
  - by rewrite insert_insert_eq.
  - rewrite delete_insert_eq. rewrite delete_id; [done|apply fresh_unused].
Qed.

Lemma dup_game_id st : dup_game st = st.
Proof. by destruct st. Qed.

(** ** The empty move *)

(** C10: on the empty move string [execute_move] returns no state (and
    gives back the store as it was), whatever the state. *)
Theorem execute_move_empty_rejected :
  forall (state : loc) (hp : gmap loc game_state),
    execute_move state EmptyString hp = (None, hp).
Proof.
  intros state hp. unfold execute_move.
  destruct (hp !! state) as [s|]; [|done].
  change (run_move (dup_game s) (c_chars EmptyString))
    with (@None game_state).
  rewrite delete_insert_eq. rewrite delete_id; [done|apply fresh_unused].
Qed.

(** ** The completion latch *)

Lemma run_move_completed ret move ret' :
  run_move ret move = Some ret' ->
  completed ret <> 0 -> completed ret' <> 0.
Proof.
  unfold run_move. destruct move as [|c move]; [done|].
  destruct (move_loop _ _ _) as [[r|]| |] eqn:Hl; try done.
  apply move_loop_completed in Hl as (_ & _ & Hc).
  intros H Hne. simplify_eq.
  destruct (grid_correct r); simpl; [done|congruence].
Qed.

(** C8: [completed] is a one-way latch under moves: when [execute_move]
    accepts a move on a state whose [completed] is set, the state it
    returns has [completed] set as well. *)
Theorem completed_latch :
  forall (hp hp' : gmap loc game_state) (state ret : loc)
         (s : game_state) (m : string),
    hp !! state = Some s ->
    completed s <> 0 ->
    execute_move state m hp = (Some ret, hp') ->
    exists s', hp' !! ret = Some s' /\ completed s' <> 0.
Proof.
  intros hp hp' state ret s m Hs Hc He.
  rewrite (execute_move_run _ _ _ _ Hs) in He.
  destruct (run_move (dup_game s) (c_chars m)) as [r|] eqn:Hr; [|done].
  simplify_eq. exists r. split; [apply lookup_insert_eq|].
  eapply run_move_completed; [exact Hr|]. by rewrite dup_game_id.
Qed.

(** A solved 1x1 board whose light is then switched off again. *)
Lemma completed_latch_witness :
  exists s',
    (<[2%positive := mk_game_state 1 1 0 [0] [0] 1 0]>
       ({[1%positive := mk_game_state 1 1 1 [1] [16] 1 0]}
          : gmap loc game_state)) !! 2%positive = Some s'
    /\ completed s' <> 0.
Proof.
  apply (completed_latch
           {[1%positive := mk_game_state 1 1 1 [1] [16] 1 0]} _
           1%positive 2%positive
           (mk_game_state 1 1 1 [1] [16] 1 0) "L0,0").
  - reflexivity.
  - simpl. lia.
  - vm_compute. reflexivity.
Defined.

(** ** The solver: fuel and the depth counter *)

(** More fuel never changes a result. *)
Lemma solve_loop_more_fuel fuel : forall st fu mr d md r,
  solve_loop fuel st fu mr d md = Returns r ->
  solve_loop (S fuel) st fu mr d md = Returns r.
Proof.
  induction fuel as [|fuel IH]; intros st fu mr d md r H; [discriminate|].
  simpl in H. remember (S fuel) as n eqn:En. simpl.
  destruct (grid_overlap st); [done|].
  destruct (grid_correct st); [done|].
  destruct (solve_pass st) as [[st1 nc] did].
  destruct did; [by apply IH|].
  destruct (nc =? 0); [done|].
  destruct (d >=? mr); [done|].
  destruct (choose_best st1) as [[bn bx] by_].
  destruct (negb (bn >? 0)); [done|].
  destruct (negb ((bx >=? 0) && (by_ >=? 0))); [done|].
  destruct (solve_loop fuel _ fu mr (d + 1) _) as [[[r1 s1] m1]| |] eqn:E1;
    try done.
  apply IH in E1. rewrite E1.
  destruct (negb fu && (r1 >? 0)); [done|].
  destruct (solve_loop fuel _ fu mr (d + 1) _) as [[[r2 s2] m2]| |] eqn:E2;
    try done.
  apply IH in E2. by rewrite E2.
Qed.

Lemma solve_loop_fuel_le fuel fuel' st fu mr d md r :
  (fuel <= fuel')%nat ->
  solve_loop fuel st fu mr d md = Returns r ->
  solve_loop fuel' st fu mr d md = Returns r.
Proof.
  induction 1 as [|fuel' _ IH]; [done|].
  intros H. by apply solve_loop_more_fuel, IH.
Qed.

(** The depth counter is an output only: it has no influence on the
    value returned nor on the final state. *)
Lemma solve_loop_any_maxdepth fuel : forall st fu mr d md r st' md',
  solve_loop fuel st fu mr d md = Returns (r, st', md') ->
  forall md2, exists md2',
    solve_loop fuel st fu mr d md2 = Returns (r, st', md2').
Proof.
  induction fuel as [|fuel IH]; intros st fu mr d md r st' md' H md2;
    [discriminate|].
  simpl in H. simpl.
  destruct (grid_overlap st); [simplify_eq; eauto|].
  destruct (grid_correct st); [simplify_eq; eauto|].
  destruct (solve_pass st) as [[st1 nc] did].
  destruct did; [by eapply IH|].
  destruct (nc =? 0); [simplify_eq; eauto|].
  destruct (d >=? mr); [simplify_eq; eauto|].
  destruct (choose_best st1) as [[bn bx] by_].
  destruct (negb (bn >? 0)); [done|].
  destruct (negb ((bx >=? 0) && (by_ >=? 0))); [done|].
  destruct (solve_loop fuel _ fu mr (d + 1) _) as [[[r1 s1] m1]| |] eqn:E1;
    try done.
  destruct (IH _ _ _ _ _ _ _ _ E1 (note_depth md2 (d + 1))) as [m1' E1'].
  rewrite E1'.
  destruct (negb fu && (r1 >? 0)); [simplify_eq; eauto|].
  destruct (solve_loop fuel _ fu mr (d + 1) (note_depth m1 (d + 1)))
    as [[[r2 s2] m2]| |] eqn:E2; try done.
  destruct (IH _ _ _ _ _ _ _ _ E2 (note_depth m1' (d + 1))) as [m2' E2'].
  rewrite E2'.
  destruct (fu && ((r2 <? 0) || (r1 <? 0))); [simplify_eq; eauto|].
  destruct (r2 <=? 0); [simplify_eq; eauto|].
  destruct (r1 <=? 0); simplify_eq; eauto.
Qed.

(** ** The 2x2 board without black squares *)

(** C5: on the 2x2 all-white grid the solver, with guessing allowed and a
    unique solution required, returns a value that is at least 2; this
    holds for every amount of fuel from 4 on and whatever the depth
    counter it is given. *)
Theorem solve_white_2x2_not_unique :
  forall (fuel : nat) (maxdepth : option Z),
    (4 <= fuel)%nat ->
    exists n st' maxdepth',
      dosolve fuel white_2x2 true true maxdepth = Returns (n, st', maxdepth')
      /\ 2 <= n.
Proof.
  intros fuel maxdepth Hfuel.
  assert (exists st', dosolve 4 white_2x2 true true None
                      = Returns (2, st', None)) as [st' H4].
  { eexists. vm_compute. reflexivity. }
  unfold dosolve, solve_sub in *.
  destruct (solve_loop_any_maxdepth _ _ _ _ _ _ _ _ _ H4
              (note_depth maxdepth 0)) as [md' H].
  exists 2, st', md'. split; [|lia].
  eapply solve_loop_fuel_le; [exact Hfuel|exact H].
Qed.

Lemma solve_white_2x2_not_unique_witness :
  exists n st' maxdepth',
    dosolve 6 white_2x2 true true (Some 0) = Returns (n, st', maxdepth')
    /\ 2 <= n.
Proof. apply (solve_white_2x2_not_unique 6 (Some 0)). lia. Defined.

(** C1, at the input where it fails.  The descriptor ["d"] is valid for
    a 2x2 grid and [new_game] makes of it the 2x2 all-white board, with
    [nlights = 0] and no light.  [dosolve] with guessing allowed and no
    uniqueness requirement (the call [solve_game] makes) finds a solution
    on the copy, brings the two planes of the copy back with [memcpy] and
    leaves [nlights] as the abandoned branch had it: the state it returns
    holds two lights and records one. *)
Theorem dosolve_white_2x2_nlights :
  validate_desc (mk_game_params 2 2 20 0 0) "d" = None /\
  new_game (mk_game_params 2 2 20 0 0) "d" = Returns white_2x2 /\
  nlights white_2x2 = count_lights white_2x2 /\
  exists st',
    dosolve 4 white_2x2 true false None = Returns (1, st', None) /\
    flags st' = [F_IMPOSSIBLE; F_LIGHT; F_LIGHT; 0] /\
    count_lights st' = 2 /\
    nlights st' = 1.
Proof.
  split; [reflexivity|]. split; [reflexivity|]. split; [reflexivity|].
  eexists. split; [vm_compute; reflexivity|].
  repeat split.
Qed.

(** ** Descriptors *)

Lemma desc_char_cells_pos c : 1 <= desc_char_cells c.
Proof.
  unfold desc_char_cells.
  destruct ((97 <=? code c) && (code c <=? 122)) eqn:E; lia.
Qed.

Lemma decoded_cells_nonneg d : 0 <= decoded_cells d.
Proof.
  induction d as [|c d IH]; simpl; [lia|].
  pose proof (desc_char_cells_pos c). lia.
Qed.

(** One turn of the loop of [validate_desc] on a character of the
    grammar advances [i] by the squares the character stands for. *)
Lemma validate_from_cons c d i wh :
  i < wh ->
  validate_from (c :: d) i wh =
    if desc_char c then validate_from d (i + desc_char_cells c) wh
    else Some DescUnexpected.
Proof.
  intros Hi. simpl. unfold desc_char, desc_char_cells.
  destruct (i <? wh) eqn:E; [|lia].
  destruct ((48 <=? code c) && (code c <=? 52)) eqn:E1; simpl.
  - destruct ((97 <=? code c) && (code c <=? 122)) eqn:E3; [lia|].
    by rewrite orb_true_r || done.
  - destruct (code c =? 66) eqn:E2; simpl.
    + destruct ((97 <=? code c) && (code c <=? 122)) eqn:E3; [lia|done].
    + destruct ((97 <=? code c) && (code c <=? 122)) eqn:E3; [|done].
      f_equal. lia.
Qed.

Lemma validate_from_accepts d : forall i wh,
  validate_from d i wh = None <->
  Forall (fun c => desc_char c = true) d /\ i + decoded_cells d = wh.
Proof.
  induction d as [|c d IH]; intros i wh.
  - simpl. destruct (i <? wh) eqn:E; [|destruct (i >? wh) eqn:E'];
      split; try done; try (intros [_ ?]; lia).
    intros _. split; [constructor|lia].
  - destruct (Z.lt_ge_cases i wh) as [Hi|Hi].
    + rewrite validate_from_cons by done.
      destruct (desc_char c) eqn:Hc.
      * rewrite IH. simpl. rewrite Forall_cons.
        split; intros [? ?]; repeat split; try tauto; lia.
      * split; [done|]. rewrite Forall_cons. intros [[? _] _]. congruence.
    + simpl. destruct (i <? wh) eqn:E; [lia|].
      split; [done|]. intros [_ Hs]. simpl in Hs.
      pose proof (desc_char_cells_pos c). pose proof (decoded_cells_nonneg d).
      lia.
Qed.

Lemma validate_from_short d : forall i wh,
  Forall (fun c => desc_char c = true) d ->
  i + decoded_cells d < wh ->
  validate_from d i wh = Some DescShorter.
Proof.
  induction d as [|c d IH]; intros i wh Hok Hlt.
  - simpl in *. destruct (i <? wh) eqn:E; [done|lia].
  - apply Forall_cons in Hok as [Hc Hok]. simpl in Hlt.
    pose proof (desc_char_cells_pos c). pose proof (decoded_cells_nonneg d).
    rewrite validate_from_cons by lia. rewrite Hc.
    apply IH; [done|lia].
Qed.

Lemma validate_from_long d : forall i wh,
  Forall (fun c => desc_char c = true) d ->
  wh < i + decoded_cells d ->
  validate_from d i wh = Some DescLonger.
Proof.
  induction d as [|c d IH]; intros i wh Hok Hgt.
  - simpl in *. destruct (i <? wh) eqn:E; [lia|].
    destruct (i >? wh) eqn:E'; [done|lia].
  - apply Forall_cons in Hok as [Hc Hok]. simpl in Hgt.
    destruct (Z.lt_ge_cases i wh) as [Hi|Hi].
    + rewrite validate_from_cons by done. rewrite Hc.
      apply IH; [done|lia].
    + simpl. by destruct (i <? wh) eqn:E; [lia|].
Qed.

(** C7: on parameters whose product [w*h] leaves [validate_desc] within
    [int], [validate_desc] accepts a descriptor exactly when all its
    characters are among ['0'..'4'], ['B'], ['a'..'z'] and it decodes to
    [w*h] squares; any other character gives an error, a descriptor of
    the grammar that covers fewer squares is reported as too short and
    one that covers more as too long. *)
Theorem validate_desc_accepts :
  forall (params : game_params) (d : string),
    desc_in_int params ->
    (validate_desc params d = None <->
       Forall (fun c => desc_char c = true) (c_chars d) /\
       decoded_cells (c_chars d) = p_w params * p_h params) /\
    (~ Forall (fun c => desc_char c = true) (c_chars d) ->
       validate_desc params d <> None) /\
    (Forall (fun c => desc_char c = true) (c_chars d) ->
     decoded_cells (c_chars d) < p_w params * p_h params ->
       validate_desc params d = Some DescShorter) /\
    (Forall (fun c => desc_char c = true) (c_chars d) ->
     p_w params * p_h params < decoded_cells (c_chars d) ->
       validate_desc params d = Some DescLonger).
Proof.
  intros params d _. unfold validate_desc.
  pose proof (validate_from_accepts (c_chars d) 0 (p_w params * p_h params))
    as Hacc.
  rewrite Z.add_0_l in Hacc.
  split; [exact Hacc|]. split; [|split].
  - intros Hbad Hnone. apply Hacc in Hnone. tauto.
  - intros Hok Hlt. apply validate_from_short; [done|lia].
  - intros Hok Hgt. apply validate_from_long; [done|lia].
Qed.

(** A 3x3 descriptor of the grammar that covers nine squares is accepted;
    one square short, it is reported as too short. *)
Lemma validate_desc_accepts_witness :
  validate_desc (mk_game_params 3 3 20 0 0) "a1aBaBc" = None /\
  validate_desc (mk_game_params 3 3 20 0 0) "a1aBaBb" = Some DescShorter.
Proof.
  assert (desc_in_int (mk_game_params 3 3 20 0 0)) as Hint.
  { unfold desc_in_int, INT_MIN, INT_MAX. simpl. lia. }
  split.
  - apply (proj1 (validate_desc_accepts (mk_game_params 3 3 20 0 0) "a1aBaBc"
                    Hint)).
    split; [repeat constructor|reflexivity].
  - apply (proj1 (proj2 (proj2
             (validate_desc_accepts (mk_game_params 3 3 20 0 0) "a1aBaBb"
                Hint)))).
    + repeat constructor.
    + vm_compute. reflexivity.
Defined.

(** ** Printing and reading decimal numbers *)

Lemma code_ascii_of_N n : (n < 256)%N -> code (ascii_of_N n) = Z.of_N n.
Proof. intros H. unfold code. by rewrite N_ascii_embedding. Qed.

Lemma code_digit_char d : 0 <= d < 10 -> code (digit_char d) = 48 + d.
Proof.
  intros H. unfold digit_char. rewrite code_ascii_of_N.
  - rewrite Z2N.id; lia.
  - apply N2Z.inj_lt. rewrite Z2N.id; lia.
Qed.

Lemma isdigit_digit_char d : 0 <= d < 10 -> isdigit (digit_char d) = true.
Proof.
  intros H. unfold isdigit. rewrite code_digit_char by done.
  apply andb_true_iff. split; lia.
Qed.

Lemma digits_value_snoc ds c :
  digits_value (ds ++ [c]) = digits_value ds * 10 + (code c - 48).
Proof. unfold digits_value. by rewrite fold_left_app. Qed.

(** With enough fuel [print_digits] puts the decimal digits of [n] in
    front of [acc]. *)
Lemma print_digits_spec fuel : forall n acc,
  (0 < fuel)%nat ->
  0 <= n < 2 ^ Z.of_nat fuel ->
  exists ds,
    print_digits fuel n acc = ds ++ acc /\
    ds <> [] /\
    Forall (fun c => isdigit c = true) ds /\
    digits_value ds = n.
Proof.
  induction fuel as [|fuel IH]; intros n acc Hfuel Hn; [lia|].
  simpl. destruct (n <? 10) eqn:E.
  - exists [digit_char n]. repeat split; [done| |].
    + constructor; [apply isdigit_digit_char; lia|constructor].
    + unfold digits_value. simpl. rewrite code_digit_char; lia.
  - assert (0 <= n / 10 < 2 ^ Z.of_nat fuel) as Hq.
    { split; [apply Z.div_pos; lia|].
      apply Z.div_lt_upper_bound; [lia|].
      rewrite Nat2Z.inj_succ, Z.pow_succ_r in Hn by lia. lia. }
    assert (0 < fuel)%nat as Hpos.
    { destruct fuel; [|lia]. simpl in Hq.
      assert (1 <= n / 10) by (apply Z.div_le_lower_bound; lia). lia. }
    destruct (IH (n / 10) (digit_char (n mod 10) :: acc) Hpos Hq)
      as (ds & Hp & Hne & Hd & Hv).
    pose proof (Z.mod_pos_bound n 10 ltac:(lia)) as Hm.
    exists (ds ++ [digit_char (n mod 10)]). repeat split.
    + by rewrite Hp, <- app_assoc.
    + by destruct ds.
    + apply Forall_app. split; [done|].
      constructor; [by apply isdigit_digit_char|constructor].
    + rewrite digits_value_snoc, Hv, code_digit_char by done.
      pose proof (Z.div_mod n 10 ltac:(lia)). lia.
Qed.

Lemma print_uint_spec n :
  0 <= n ->
  print_uint n <> [] /\
  Forall (fun c => isdigit c = true) (print_uint n) /\
  digits_value (print_uint n) = n.
Proof.
  intros Hn. unfold print_uint.
  destruct (print_digits_spec (S (Z.to_nat (Z.log2 n))) n []) as
    (ds & Hp & Hne & Hd & Hv).
  - lia.
  - split; [done|]. rewrite Nat2Z.inj_succ, Z2Nat.id by apply Z.log2_nonneg.
    destruct (Z.eq_dec n 0) as [->|Hz]; [done|].
    apply Z.log2_spec. lia.
  - rewrite Hp, app_nil_r. done.
Qed.


Lemma prefix_of_digits ds rest :
  Forall (fun c => isdigit c = true) ds -> stops_digits rest ->
  prefix_of isdigit (ds ++ rest) = ds.
Proof.
  intros Hd Hr. induction Hd as [|c ds Hc _ IH].
  - destruct rest as [|c r]; [done|]. cbn in Hr. cbn [app prefix_of skip].
    by rewrite Hr.
  - cbn [app prefix_of skip]. by rewrite Hc, IH.
Qed.

Lemma skip_digits ds rest :
  Forall (fun c => isdigit c = true) ds -> stops_digits rest ->
  skip isdigit (ds ++ rest) = rest.
Proof.
  intros Hd Hr. induction Hd as [|c ds Hc _ IH].
  - destruct rest as [|c r]; [done|]. cbn in Hr. cbn [app prefix_of skip].
    by rewrite Hr.
  - cbn [app prefix_of skip]. by rewrite Hc, IH.
Qed.

Lemma isdigit_code c : isdigit c = true -> 48 <= code c <= 57.
Proof. unfold isdigit. intros H. apply andb_true_iff in H. lia. Qed.

Lemma isdigit_not_space c : isdigit c = true -> isspace c = false.
Proof.
  intros H. apply isdigit_code in H. unfold isspace.
  apply orb_false_iff. split; [lia|]. apply andb_false_iff. lia.
Qed.

(** White space and sign are not part of a string that starts with a
    digit. *)
Lemma skip_space_digit c s :
  isdigit c = true -> skip isspace (c :: s) = c :: s.
Proof. intros H. cbn [skip]. by rewrite (isdigit_not_space _ H). Qed.

Lemma read_sign_digit c s :
  isdigit c = true -> read_sign (c :: s) = (false, c :: s).
Proof.
  intros H. apply isdigit_code in H. cbn [read_sign].
  destruct (code c =? 45) eqn:E1; [lia|].
  destruct (code c =? 43) eqn:E2; [lia|done].
Qed.

Lemma scan_int_digits ds rest :
  ds <> [] -> Forall (fun c => isdigit c = true) ds -> stops_digits rest ->
  scan_int (ds ++ rest) = Some (digits_value ds, rest).
Proof.
  intros Hne Hd Hr. unfold scan_int.
  destruct ds as [|c ds]; [done|]. pose proof Hd as Hd'.
  apply Forall_cons in Hd' as [Hc _].
  rewrite <- app_comm_cons, (skip_space_digit _ _ Hc), (read_sign_digit _ _ Hc).
  rewrite app_comm_cons, (prefix_of_digits _ _ Hd Hr), (skip_digits _ _ Hd Hr).
  done.
Qed.

Lemma atoi_digits ds rest :
  ds <> [] -> Forall (fun c => isdigit c = true) ds -> stops_digits rest ->
  atoi (ds ++ rest) = digits_value ds.
Proof.
  intros Hne Hd Hr. unfold atoi.
  destruct ds as [|c ds]; [done|]. pose proof Hd as Hd'.
  apply Forall_cons in Hd' as [Hc _].
  rewrite <- app_comm_cons, (skip_space_digit _ _ Hc), (read_sign_digit _ _ Hc).
  by rewrite app_comm_cons, (prefix_of_digits _ _ Hd Hr).
Qed.

(** ** Numbers that fit an [int] *)

Lemma runs_fit_skip_space s :
  runs_fit 0 s = true -> runs_fit 0 (skip isspace s) = true.
Proof.
  induction s as [|c s IH]; [done|]. intros H. cbn [skip].
  destruct (isspace c) eqn:Es; [|done].
  apply IH. cbn [runs_fit] in H.
  destruct (isdigit c) eqn:Ed; [|done].
  unfold isspace, isdigit in Es, Ed. lia.
Qed.

Lemma runs_fit_read_sign s :
  runs_fit 0 s = true -> runs_fit 0 (snd (read_sign s)) = true.
Proof.
  destruct s as [|c s]; [done|]. intros H. cbn [read_sign].
  assert (code c = 45 \/ code c = 43 -> runs_fit 0 s = true) as Hs.
  { intros Hc. cbn [runs_fit] in H.
    destruct (isdigit c) eqn:Ed; [|done]. unfold isdigit in Ed. lia. }
  destruct (code c =? 45) eqn:E1; [apply Hs; lia|].
  destruct (code c =? 43) eqn:E2; [apply Hs; lia|done].
Qed.

Lemma runs_fit_digits s : forall acc,
  0 <= acc <= INT_MAX -> runs_fit acc s = true ->
  0 <= fold_left (fun a c => a * 10 + (code c - 48)) (prefix_of isdigit s) acc
    <= INT_MAX
  /\ runs_fit 0 (skip isdigit s) = true.
Proof.
  induction s as [|c s IH]; intros acc Hacc H; cbn [prefix_of skip].
  { by cbn [fold_left]. }
  cbn [runs_fit] in H. destruct (isdigit c) eqn:Ed.
  - apply andb_true_iff in H as [Hv H]. cbn [fold_left].
    apply IH; [|done]. unfold isdigit in Ed. lia.
  - cbn [fold_left]. split; [done|]. cbn [runs_fit]. by rewrite Ed.
Qed.

(** On text whose numbers fit an [int], the number that one [%d]
    conversion reads is within [int], and so are the numbers of the text
    it leaves unread. *)
Lemma scan_int_fits s v r :
  ints_fit s = true -> scan_int s = Some (v, r) ->
  INT_MIN <= v <= INT_MAX /\ ints_fit r = true.
Proof.
  unfold ints_fit, scan_int. intros H.
  apply runs_fit_skip_space, runs_fit_read_sign in H.
  destruct (read_sign (skip isspace s)) as [neg s1]. cbn [snd] in H.
  destruct (runs_fit_digits s1 0) as [Hv Hr]; [unfold INT_MAX; lia|done|].
  fold (digits_value (prefix_of isdigit s1)) in Hv.
  destruct (prefix_of isdigit s1) as [|d ds] eqn:Hp; [done|].
  intros [= <- <-]. split; [|done].
  unfold INT_MIN, INT_MAX in *. destruct neg; lia.
Qed.

(** The two numbers of a [%d,%d] are within [int] on such text. *)
Lemma sscanf_fits s x y r :
  ints_fit s = true -> sscanf_d_comma_d s = Some (x, y, r) ->
  (INT_MIN <= x <= INT_MAX) /\ (INT_MIN <= y <= INT_MAX)
  /\ ints_fit r = true.
Proof.
  intros H. unfold sscanf_d_comma_d.
  destruct (scan_int s) as [[x1 s1]|] eqn:E1; [|done].
  destruct (scan_int_fits _ _ _ H E1) as [Hx H1].
  destruct s1 as [|c s2]; [done|].
  destruct (code c =? 44) eqn:Ec; [|done].
  assert (ints_fit s2 = true) as H2.
  { unfold ints_fit in *. cbn [runs_fit] in H1.
    destruct (isdigit c) eqn:Ed; [|done]. unfold isdigit in Ed. lia. }
  destruct (scan_int s2) as [[y1 s3]|] eqn:E2; [|done].
  destruct (scan_int_fits _ _ _ H2 E2) as [Hy H3].
  by intros [= <- <- <-].
Qed.

(** What [%d] prints, [%d] reads back. *)
Lemma scan_int_print_int n rest :
  stops_digits rest -> scan_int (print_int n ++ rest) = Some (n, rest).
Proof.
  intros Hr. unfold print_int. destruct (n <? 0) eqn:E.
  - destruct (print_uint_spec (- n)) as (Hne & Hd & Hv); [lia|].
    unfold scan_int. simpl.
    destruct (print_uint (- n)) as [|c ds] eqn:Hp; [done|].
    pose proof Hd as Hd'. apply Forall_cons in Hd' as [Hc _].
    simpl. rewrite Hc.
    rewrite (prefix_of_digits ds rest), (skip_digits ds rest);
      [|by apply Forall_cons in Hd as [_ ?]|done
       |by apply Forall_cons in Hd as [_ ?]|done].
    change (c :: ds) with (c :: ds) in Hv. rewrite Hv.
    f_equal. f_equal. lia.
  - destruct (print_uint_spec n) as (Hne & Hd & Hv); [lia|].
    rewrite scan_int_digits by done. by rewrite Hv.
Qed.

Lemma EATNUM_print_uint n rest :
  0 <= n -> stops_digits rest ->
  EATNUM (print_uint n ++ rest) = (n, rest).
Proof.
  intros Hn Hr. destruct (print_uint_spec n Hn) as (Hne & Hd & Hv).
  unfold EATNUM. by rewrite atoi_digits, skip_digits, Hv.
Qed.

Lemma print_int_nonneg n : 0 <= n -> print_int n = print_uint n.
Proof. intros H. unfold print_int. by destruct (n <? 0) eqn:E; [lia|]. Qed.

(** No NUL among printed digits, so a printed string is read whole. *)
Lemma until_nul_id l : Forall (fun c => code c <> 0) l -> until_nul l = l.
Proof.
  induction 1 as [|c l Hc _ IH]; simpl; [done|].
  destruct (code c =? 0) eqn:E; [lia|]. by rewrite IH.
Qed.

Lemma c_chars_of_list l :
  Forall (fun c => code c <> 0) l -> c_chars (string_of_list_ascii l) = l.
Proof.
  intros H. unfold c_chars.
  by rewrite list_ascii_of_string_of_list_ascii, until_nul_id.
Qed.

Lemma print_int_no_nul n : Forall (fun c => code c <> 0) (print_int n).
Proof.
  assert (forall m, 0 <= m -> Forall (fun c => code c <> 0) (print_uint m)) as Hu.
  { intros m Hm. destruct (print_uint_spec m Hm) as (_ & Hd & _).
    eapply Forall_impl; [exact Hd|]. intros c Hc. apply isdigit_code in Hc. lia. }
  unfold print_int. destruct (n <? 0) eqn:E; [|apply Hu; lia].
  constructor; [done|apply Hu; lia].
Qed.

(** ** Parameters: [decode_params] after [encode_params] *)

Lemma stops_digits_letter k s :
  (k < 256)%N -> ~ (48 <= Z.of_N k <= 57) ->
  stops_digits (ascii_of_N k :: s).
Proof.
  intros Hk Hn. unfold stops_digits, isdigit. rewrite code_ascii_of_N by done.
  apply andb_false_iff. lia.
Qed.

Lemma eat_char_here k s :
  (k < 256)%N -> eat_char (Z.of_N k) (ascii_of_N k :: s) = Some s.
Proof.
  intros Hk. unfold eat_char. rewrite code_ascii_of_N by done.
  by rewrite Z.eqb_refl.
Qed.

(** For any value of [recurse] the flag comes back as a truth value: [1]
    when it was non-zero, [0] when it was zero. *)
Lemma decode_encode_params_flag params old :
  0 <= p_w params -> 0 <= p_h params ->
  0 <= blackpc params -> 0 <= symm params ->
  decode_params old (encode_params params true)
  = with_recurse params (if recurse params =? 0 then 0 else 1).
Proof.
  destruct params as [w h b s r]. intros Hw Hh Hb Hs. simpl in *.
  unfold decode_params, encode_params, with_recurse.
  cbn [p_w p_h blackpc symm recurse].
  rewrite c_chars_of_list.
  2:{ repeat ((apply Forall_app; split; [apply print_int_no_nul|])
              || (apply Forall_cons; split; [done|])).
      destruct (r =? 0); repeat constructor; done. }
  rewrite !print_int_nonneg by done.
  rewrite EATNUM_print_uint;
    [|done|apply stops_digits_letter; [done|simpl; lia]].
  rewrite (eat_char_here 120) by done.
  rewrite EATNUM_print_uint;
    [|done|apply stops_digits_letter; [done|simpl; lia]].
  rewrite (eat_char_here 98) by done.
  rewrite EATNUM_print_uint;
    [|done|apply stops_digits_letter; [done|simpl; lia]].
  rewrite (eat_char_here 115) by done.
  destruct (r =? 0).
  - rewrite EATNUM_print_uint by done. reflexivity.
  - rewrite EATNUM_print_uint;
      [|done|apply stops_digits_letter; [done|simpl; lia]].
    reflexivity.
Qed.

(** C6: for parameters with non-negative [w], [h], [blackpc] and [symm],
    and with the [recurse] flag a C truth value ([0] or [1]), decoding
    the full encoding gives the parameters back, field for field,
    whatever the record that [decode_params] overwrites held before. *)
Theorem decode_encode_params :
  forall (params old : game_params),
    0 <= p_w params -> 0 <= p_h params ->
    0 <= blackpc params -> 0 <= symm params ->
    recurse params = 0 \/ recurse params = 1 ->
    decode_params old (encode_params params true) = params.
Proof.
  intros params old Hw Hh Hb Hs Hr.
  rewrite decode_encode_params_flag by done.
  destruct params as [w h b s r]. simpl in *.
  by destruct Hr as [-> | ->].
Qed.

(** The hard 10x10 preset, decoded over the easy 7x7 one. *)
Lemma decode_encode_params_witness :
  decode_params (mk_game_params 7 7 20 4 0)
                (encode_params (mk_game_params 10 10 20 2 1) true)
  = mk_game_params 10 10 20 2 1.
Proof.
  apply (decode_encode_params (mk_game_params 10 10 20 2 1)
                              (mk_game_params 7 7 20 4 0));
    simpl; lia.
Defined.

(** ** Flag words *)

Lemma land_pow2 f k :
  0 <= k -> Z.land f (2 ^ k) = if Z.testbit f k then 2 ^ k else 0.
Proof.
  intros Hk. apply Z.bits_inj'. intros n Hn.
  rewrite Z.land_spec, Z.pow2_bits_eqb by done.
  destruct (Z.eqb_spec k n) as [->|Hne].
  - destruct (Z.testbit f n); simpl.
    + by rewrite Z.pow2_bits_eqb, Z.eqb_refl.
    + by rewrite Z.bits_0.
  - rewrite andb_false_r. destruct (Z.testbit f k).
    + rewrite Z.pow2_bits_eqb by done. symmetry. by apply Z.eqb_neq.
    + by rewrite Z.bits_0.
Qed.

Lemma has_pow2 f k : 0 <= k -> has f (2 ^ k) = Z.testbit f k.
Proof.
  intros Hk. unfold has. rewrite land_pow2 by done.
  destruct (Z.testbit f k); [|done].
  assert (0 < 2 ^ k) by (apply Z.pow_pos_nonneg; lia).
  destruct (2 ^ k =? 0) eqn:E; [lia|done].
Qed.

Lemma has_fl_set f j k :
  0 <= j -> 0 <= k ->
  has (fl_set f (2 ^ j)) (2 ^ k) = has f (2 ^ k) || (j =? k).
Proof.
  intros Hj Hk. rewrite !has_pow2 by done. unfold fl_set.
  by rewrite Z.lor_spec, Z.pow2_bits_eqb.
Qed.

Lemma has_fl_clear f j k :
  0 <= j -> 0 <= k ->
  has (fl_clear f (2 ^ j)) (2 ^ k) = has f (2 ^ k) && negb (j =? k).
Proof.
  intros Hj Hk. rewrite !has_pow2 by done. unfold fl_clear.
  by rewrite Z.land_spec, Z.lnot_spec, Z.pow2_bits_eqb.
Qed.

Lemma has_fl_toggle f j k :
  0 <= j -> 0 <= k ->
  has (fl_toggle f (2 ^ j)) (2 ^ k) = xorb (has f (2 ^ k)) (j =? k).
Proof.
  intros Hj Hk. rewrite !has_pow2 by done. unfold fl_toggle.
  by rewrite Z.lxor_spec, Z.pow2_bits_eqb.
Qed.

(** Goals [has (op f F_X) F_Y = has f F_Y] where [op] sets, clears or
    toggles a flag [F_X] other than [F_Y]. *)
Ltac other_flag :=
  change F_BLACK with (2 ^ 0); change F_NUMBERED with (2 ^ 1);
  change F_NUMBERUSED with (2 ^ 2); change F_IMPOSSIBLE with (2 ^ 3);
  change F_LIGHT with (2 ^ 4); change F_MARK with (2 ^ 5);
  first [ rewrite has_fl_set by lia; simpl; apply orb_false_r
        | rewrite has_fl_clear by lia; simpl; apply andb_true_r
        | rewrite has_fl_toggle by lia; simpl; apply xorb_false_r ].

(** ** Planes and their indices *)

Lemma plane_get_insert (p : list Z) (i j : nat) v :
  plane_get (<[i := v]> p) j =
    if decide (i = j /\ (i < length p)%nat) then v else plane_get p j.
Proof.
  unfold plane_get. case_decide as H.
  - destruct H as [-> H]. by rewrite list_lookup_insert_eq.
  - destruct (decide (i = j)) as [->|Hne].
    + rewrite list_insert_ge; [done|lia].
    + by rewrite list_lookup_insert_ne.
Qed.

Lemma cell_index_lt st x y :
  wf_state st -> in_grid st x y ->
  (cell_index st x y < Z.to_nat (s_w st * s_h st))%nat.
Proof.
  intros (Hw & Hh & _) [Hx Hy]. unfold cell_index. nia.
Qed.

Lemma cell_index_inj st x y x' y' :
  in_grid st x y -> in_grid st x' y' ->
  cell_index st x y = cell_index st x' y' -> x = x' /\ y = y'.
Proof.
  intros [Hx Hy] [Hx' Hy']. unfold cell_index. intros H.
  assert (y * s_w st + x = y' * s_w st + x') as He by nia.
  assert (y = y') by nia. subst. lia.
Qed.

(** ** The four scans of [list_lights] *)

Lemma scan_down_spec blk n : forall x,
  -1 <= x -> x + 1 <= Z.of_nat n ->
  let r := scan_down n blk x (x + 1) in
  0 <= r <= x + 1 /\
  (forall t, r <= t <= x -> blk t = false) /\
  (r = 0 \/ blk (r - 1) = true).
Proof.
  induction n as [|n IH]; intros x Hlo Hn; simpl.
  - repeat split; try lia; intros t Ht; lia.
  - destruct (x >=? 0) eqn:Ex.
    + destruct (blk x) eqn:Eb.
      * repeat split; try lia. right. by replace (x + 1 - 1) with x by lia.
      * destruct (x <? x + 1) eqn:E; [|lia].
        destruct (IH (x - 1)) as (Hr & Hw & Hs); [lia|lia|].
        replace (x - 1 + 1) with x in * by lia.
        repeat split; try lia; [|done].
        intros t Ht. destruct (Z.eq_dec t x) as [->|]; [done|].
        apply Hw. lia.
    + repeat split; try lia; intros t Ht; lia.
Qed.

Lemma scan_up_spec blk lim n : forall x,
  x <= lim -> lim - x <= Z.of_nat n ->
  let r := scan_up n blk lim x (x - 1) in
  x - 1 <= r <= lim - 1 /\
  (forall t, x <= t <= r -> blk t = false) /\
  (r = lim - 1 \/ blk (r + 1) = true).
Proof.
  induction n as [|n IH]; intros x Hlo Hn; simpl.
  - repeat split; try lia; intros t Ht; lia.
  - destruct (x <? lim) eqn:Ex.
    + destruct (blk x) eqn:Eb.
      * repeat split; try lia. right. by replace (x - 1 + 1) with x by lia.
      * destruct (x >? x - 1) eqn:E; [|lia].
        destruct (IH (x + 1)) as (Hr & Hw & Hs); [lia|lia|].
        replace (x + 1 - 1) with x in * by lia.
        repeat split; try lia; [|done].
        intros t Ht. destruct (Z.eq_dec t x) as [->|]; [done|].
        apply Hw. lia.
    + repeat split; try lia; intros t Ht; lia.
Qed.

(** The extents computed by [list_lights] for a white square of the
    grid: the maximal white segments through the origin. *)
Lemma list_lights_spec st x y origin :
  in_grid st x y -> is_black st x y = false ->
  let lld := list_lights st x y origin in
  ox lld = x /\ oy lld = y /\ include_origin lld = origin /\
  (0 <= minx lld <= x /\ x <= maxx lld < s_w st /\
   (forall t, minx lld <= t <= maxx lld -> is_black st t y = false) /\
   (minx lld = 0 \/ is_black st (minx lld - 1) y = true) /\
   (maxx lld = s_w st - 1 \/ is_black st (maxx lld + 1) y = true)) /\
  (0 <= miny lld <= y /\ y <= maxy lld < s_h st /\
   (forall t, miny lld <= t <= maxy lld -> is_black st x t = false) /\
   (miny lld = 0 \/ is_black st x (miny lld - 1) = true) /\
   (maxy lld = s_h st - 1 \/ is_black st x (maxy lld + 1) = true)).
Proof.
  intros [Hx Hy] Hwhite. unfold list_lights. cbn [ox oy include_origin minx maxx miny maxy].
  repeat split; try done.
  all: pose proof (scan_down_spec (fun t => is_black st t y) (Z.to_nat x) (x - 1)
                     ltac:(lia) ltac:(lia)) as (Ha1 & Ha2 & Ha3);
       pose proof (scan_up_spec (fun t => is_black st t y) (s_w st)
                     (Z.to_nat (s_w st - x)) (x + 1)
                     ltac:(lia) ltac:(lia)) as (Hb1 & Hb2 & Hb3);
       pose proof (scan_down_spec (fun t => is_black st x t) (Z.to_nat y) (y - 1)
                     ltac:(lia) ltac:(lia)) as (Hc1 & Hc2 & Hc3);
       pose proof (scan_up_spec (fun t => is_black st x t) (s_h st)
                     (Z.to_nat (s_h st - y)) (y + 1)
                     ltac:(lia) ltac:(lia)) as (Hd1 & Hd2 & Hd3);
       replace (x - 1 + 1) with x in * by lia;
       replace (x + 1 - 1) with x in * by lia;
       replace (y - 1 + 1) with y in * by lia;
       replace (y + 1 - 1) with y in * by lia;
       try lia; try done.
  - intros t Ht. destruct (Z.lt_trichotomy t x) as [Hl|[->|Hg]]; [|done|].
    + apply Ha2. lia.
    + apply Hb2. lia.
  - intros t Ht. destruct (Z.lt_trichotomy t y) as [Hl|[->|Hg]]; [|done|].
    + apply Hc2. lia.
    + apply Hd2. lia.
Qed.

(** ** The squares visited by [FOREACHLIT] *)

Lemma foreachlit_cells_elem lld x' y' :
  (x', y') ∈ foreachlit_cells lld <->
  (y' = oy lld /\ minx lld <= x' <= maxx lld /\ x' <> ox lld) \/
  (x' = ox lld /\ miny lld <= y' <= maxy lld /\
   (include_origin lld = true \/ y' <> oy lld)).
Proof.
  unfold foreachlit_cells. rewrite elem_of_app, !list_elem_of_fmap.
  split.
  - intros [(t & Heq & Ht)|(t & Heq & Ht)]; simplify_eq;
      apply list_elem_of_filter in Ht as [Hp Ht];
      apply elem_of_seqZ in Ht; [left|right]; repeat split; try done; lia.
  - intros [(-> & Hr & Hne)|(-> & Hr & Hor)]; [left|right].
    + exists x'. split; [done|]. apply list_elem_of_filter. split; [done|].
      apply elem_of_seqZ. lia.
    + exists y'. split; [done|]. apply list_elem_of_filter. split; [done|].
      apply elem_of_seqZ. lia.
Qed.

(** Every square is visited at most once. *)
Lemma foreachlit_cells_NoDup lld : NoDup (foreachlit_cells lld).
Proof.
  unfold foreachlit_cells. apply NoDup_app. repeat split.
  - apply NoDup_fmap_2; [by intros a b ?; simplify_eq|].
    apply NoDup_filter, NoDup_seqZ.
  - intros [a b]. rewrite !list_elem_of_fmap.
    intros (t & Heq & Ht) (t' & Heq' & Ht'). simplify_eq.
    by apply list_elem_of_filter in Ht as [Hp _].
  - apply NoDup_fmap_2; [by intros a b ?; simplify_eq|].
    apply NoDup_filter, NoDup_seqZ.
Qed.

(** For a white origin in the grid, the squares visited (origin
    included) are exactly the squares the origin sees. *)
Lemma list_lights_sees st x y x' y' :
  in_grid st x y -> is_black st x y = false ->
  (x', y') ∈ foreachlit_cells (list_lights st x y true) <-> sees st x y x' y'.
Proof.
  intros Hin Hwhite.
  destruct (list_lights_spec st x y true Hin Hwhite)
    as (Hox & Hoy & Hio & (Hx1 & Hx2 & Hxw & Hxl & Hxr)
        & (Hy1 & Hy2 & Hyw & Hyl & Hyr)).
  rewrite foreachlit_cells_elem, Hox, Hoy, Hio.
  destruct Hin as [Hx Hy]. unfold sees, in_grid, row_clear, col_clear.
  split.
  - intros [(-> & Hr & Hne)|(-> & Hr & _)].
    + repeat split; try lia. left. split; [done|].
      intros t Ht. apply Hxw. lia.
    + repeat split; try lia. right. split; [done|].
      intros t Ht. apply Hyw. lia.
  - intros (_ & [Hx' Hy'] & [[-> Hc]|[-> Hc]]).
    + assert (minx (list_lights st x y true) <= x') as Hlo.
      { destruct Hxl as [Hz|Hb]; [lia|].
        destruct (Z_le_gt_dec (minx (list_lights st x y true)) x'); [done|].
        rewrite Hc in Hb; [done|lia]. }
      assert (x' <= maxx (list_lights st x y true)) as Hhi.
      { destruct Hxr as [Hz|Hb]; [lia|].
        destruct (Z_le_gt_dec x' (maxx (list_lights st x y true))); [done|].
        rewrite Hc in Hb; [done|lia]. }
      destruct (Z.eq_dec x' x) as [->|Hne].
      * right. repeat split; try lia; by left.
      * left. repeat split; try lia.
    + right. split; [done|]. split; [|by left].
      split.
      * destruct Hyl as [Hz|Hb]; [lia|].
        destruct (Z_le_gt_dec (miny (list_lights st x y true)) y'); [done|].
        rewrite Hc in Hb; [done|lia].
      * destruct Hyr as [Hz|Hb]; [lia|].
        destruct (Z_le_gt_dec y' (maxy (list_lights st x y true))); [done|].
        rewrite Hc in Hb; [done|lia].
Qed.

(** ** Adding to the lit counts along a light line *)

Lemma lights_at_add_lights_at st d a b x y :
  wf_state st -> in_grid st a b -> in_grid st x y ->
  lights_at (add_lights_at d st a b) x y =
    if decide ((x, y) = (a, b)) then lights_at st x y + d else lights_at st x y.
Proof.
  intros Hwf Hab Hxy. unfold add_lights_at, set_lights_at.
  unfold lights_at at 1. cbn [lights with_lights].
  change (cell_index (with_lights st _) x y) with (cell_index st x y).
  rewrite plane_get_insert. fold (lights_at st x y).
  pose proof (cell_index_lt st a b Hwf Hab) as Hlt.
  destruct Hwf as (_ & _ & Hl & _). rewrite <- Hl in Hlt.
  case_decide as H1; case_decide as H2; simplify_eq; try done.
  - destruct H1 as [H1 _].
    apply cell_index_inj in H1 as [-> ->]; done.
  - destruct H1. done.
Qed.

Lemma wf_state_with_lights st li :
  wf_state st -> length li = length (lights st) -> wf_state (with_lights st li).
Proof.
  intros (Hw & Hh & Hl & Hf) Hlen. repeat split; try done.
  cbn [lights with_lights s_w s_h]. congruence.
Qed.

Lemma wf_state_add_lights_at st d a b :
  wf_state st -> wf_state (add_lights_at d st a b).
Proof.
  intros Hwf. apply wf_state_with_lights; [done|]. apply length_insert.
Qed.

Lemma fold_add_lights cells : forall st d,
  wf_state st ->
  (forall c, c ∈ cells -> in_grid st (fst c) (snd c)) ->
  NoDup cells ->
  let st' := fold_left (fun acc c => add_lights_at d acc (fst c) (snd c))
                       cells st in
  st' = with_lights st (lights st') /\
  wf_state st' /\
  forall x y, in_grid st x y ->
    lights_at st' x y =
      if decide ((x, y) ∈ cells) then lights_at st x y + d else lights_at st x y.
Proof.
  induction cells as [|[a b] cs IH]; intros st d Hwf Hin Hnd;
    cbn [fold_left fst snd].
  - split; [by destruct st|]. split; [done|]. intros x y Hxy.
    destruct (decide ((x, y) ∈ [])) as [H|]; [by apply elem_of_nil in H|done].
  - apply NoDup_cons in Hnd as [Hnotin Hnd].
    assert (in_grid st a b) as Hab by (apply (Hin (a, b)); left).
    destruct (IH (add_lights_at d st a b) d) as (Heq & Hwf' & Hl); try done.
    { by apply wf_state_add_lights_at. }
    { intros c Hc. apply (Hin c). by right. }
    split; [|split; [done|]].
    + rewrite Heq at 1. done.
    + intros x y Hxy. rewrite Hl by done.
      rewrite lights_at_add_lights_at by done.
      destruct (decide ((x, y) = (a, b))) as [Heq'|Hne].
      * rewrite Heq'. rewrite decide_False by done.
        rewrite decide_True by left. done.
      * case_decide as H1; case_decide as H2; try done.
        -- exfalso. apply H2. by right.
        -- apply elem_of_cons in H2 as [?|?]; done.
Qed.

(** ** [set_light] *)

Lemma is_black_set_flags st a b v x y :
  has v F_BLACK = has (flags_at st a b) F_BLACK ->
  is_black (set_flags_at st a b v) x y = is_black st x y.
Proof.
  intros Hv. unfold is_black, set_flags_at.
  unfold flags_at at 1. cbn [flags with_flags].
  change (cell_index (with_flags st _) x y) with (cell_index st x y).
  rewrite plane_get_insert. fold (flags_at st x y).
  case_decide as H; [|done].
  destruct H as [H _]. unfold flags_at in *. by rewrite <- H, Hv.
Qed.

Lemma sees_ext st st' x y x' y' :
  s_w st' = s_w st -> s_h st' = s_h st ->
  (forall a b, is_black st' a b = is_black st a b) ->
  sees st' x y x' y' <-> sees st x y x' y'.
Proof.
  intros Hw Hh Hb. unfold sees, in_grid, row_clear, col_clear.
  rewrite Hw, Hh. setoid_rewrite Hb. done.
Qed.

Lemma sees_in_grid st x y x' y' : sees st x y x' y' -> in_grid st x' y'.
Proof. by intros (_ & ? & _). Qed.

Lemma flags_at_set_flags st a b v x y :
  wf_state st -> in_grid st a b -> in_grid st x y ->
  flags_at (set_flags_at st a b v) x y =
    if decide ((x, y) = (a, b)) then v else flags_at st x y.
Proof.
  intros Hwf Hab Hxy. unfold set_flags_at.
  unfold flags_at at 1. cbn [flags with_flags].
  change (cell_index (with_flags st _) x y) with (cell_index st x y).
  rewrite plane_get_insert. fold (flags_at st x y).
  pose proof (cell_index_lt st a b Hwf Hab) as Hlt.
  destruct Hwf as (_ & _ & _ & Hf). rewrite <- Hf in Hlt.
  case_decide as H1; case_decide as H2; simplify_eq; try done.
  - destruct H1 as [H1 _].
    apply cell_index_inj in H1 as [-> ->]; done.
  - destruct H1. done.
Qed.

Lemma wf_state_set_flags st a b v :
  wf_state st -> wf_state (set_flags_at st a b v).
Proof.
  intros (Hw & Hh & Hl & Hf). repeat split; try done.
  cbn [flags set_flags_at with_flags s_w s_h]. by rewrite length_insert.
Qed.

(** What [set_light] does when it has something to do: [st1] is the
    state after the flag and the counter are updated, and the lit counts
    along the light line of the origin are then moved by [d]. *)
Lemma set_light_change st x y (on : bool) :
  wf_state st -> in_grid st x y -> is_black st x y = false ->
  has (flags_at st x y) F_LIGHT <> on ->
  let d := if on then 1 else -1 in
  let f' := if on then fl_set (flags_at st x y) F_LIGHT
            else fl_clear (flags_at st x y) F_LIGHT in
  let st' := set_light st x y on in
  flags st' = flags (set_flags_at st x y f') /\
  s_w st' = s_w st /\ s_h st' = s_h st /\
  completed st' = completed st /\ used_solve st' = used_solve st /\
  nlights st' = nlights st + d /\
  wf_state st' /\
  (forall x' y', sees st x y x' y' ->
                 lights_at st' x' y' = lights_at st x' y' + d) /\
  (forall x' y', in_grid st x' y' -> ~ sees st x y x' y' ->
                 lights_at st' x' y' = lights_at st x' y') /\
  (forall x' y', in_grid st x' y' ->
                 lights_at st' x' y' = lights_at st x' y' + d \/
                 lights_at st' x' y' = lights_at st x' y').
Proof.
  intros Hwf Hin Hwhite Hne d f' st'.
  set (st1 := with_nlights (set_flags_at st x y f') (nlights st + d)).
  assert (st' = FOREACHLIT (list_lights st1 x y true) (add_lights_at d) st1)
    as Hst'.
  { subst st' st1 f' d. unfold set_light.
    destruct on, (has (flags_at st x y) F_LIGHT); simpl; try done. }
  assert (has f' F_BLACK = has (flags_at st x y) F_BLACK) as Hf'.
  { subst f'. destruct on; other_flag. }
  assert (wf_state st1) as Hwf1.
  { subst st1. by apply wf_state_set_flags with (a := x) (b := y) (v := f') in Hwf. }
  assert (forall a b, is_black st1 a b = is_black st a b) as Hb.
  { intros a b. subst st1.
    change (is_black (with_nlights ?s _) a b) with (is_black s a b).
    by apply is_black_set_flags. }
  assert (in_grid st1 x y) as Hin1 by done.
  assert (is_black st1 x y = false) as Hwhite1 by (by rewrite Hb).
  unfold FOREACHLIT in Hst'.
  destruct (fold_add_lights (foreachlit_cells (list_lights st1 x y true))
              st1 d Hwf1) as (Heq & Hwf' & Hl).
  { intros [a b] Hc. apply (list_lights_sees st1 x y a b Hin1 Hwhite1) in Hc.
    by apply sees_in_grid in Hc. }
  { apply foreachlit_cells_NoDup. }
  rewrite <- Hst' in Heq, Hwf', Hl.
  split_and!; try (rewrite Heq; done); try done.
  - intros x' y' Hs.
    assert (sees st1 x y x' y') as Hs1 by (by apply (sees_ext st st1)).
    rewrite (Hl x' y') by (by apply sees_in_grid in Hs1).
    rewrite decide_True by (by apply list_lights_sees).
    done.
  - intros x' y' Hin' Hns.
    rewrite (Hl x' y') by done.
    rewrite decide_False; [done|].
    intros Hc. apply Hns. apply (sees_ext st st1); [done|done|done|].
    by apply list_lights_sees in Hc.
  - intros x' y' Hin'. rewrite (Hl x' y') by done.
    case_decide; [by left|by right].
Qed.

Lemma set_light_same st x y (on : bool) :
  has (flags_at st x y) F_LIGHT = on -> set_light st x y on = st.
Proof.
  intros <-. unfold set_light.
  by destruct (has (flags_at st x y) F_LIGHT).
Qed.

Lemma flags_at_ext st st' a b :
  flags st' = flags st -> s_w st' = s_w st ->
  flags_at st' a b = flags_at st a b.
Proof. intros Hf Hw. unfold flags_at, cell_index. by rewrite Hf, Hw. Qed.

Lemma sees_self st x y :
  in_grid st x y -> is_black st x y = false -> sees st x y x y.
Proof.
  intros Hin Hw. split; [done|]. split; [done|]. left. split; [done|].
  intros t Ht. by replace t with x by lia.
Qed.

Lemma has_light_after st x y (on : bool) :
  has (if on then fl_set (flags_at st x y) F_LIGHT
       else fl_clear (flags_at st x y) F_LIGHT) F_LIGHT = on.
Proof.
  change F_LIGHT with (2 ^ 4). destruct on.
  - rewrite has_fl_set by lia. apply orb_true_r.
  - rewrite has_fl_clear by lia. apply andb_false_r.
Qed.

(** C4: [set_light] on a white square of the grid.  When the square
    already is in the requested state nothing changes.  Otherwise the
    [F_LIGHT] flag of the square is flipped and no other flag word is
    touched, [nlights] moves by [+1] (light switched on) or [-1] (switched
    off), and the lit count moves by that same amount on exactly the
    squares the origin sees, the origin among them. *)
Theorem set_light_spec :
  forall (st : game_state) (x y : Z) (on : bool),
    wf_state st -> in_grid st x y -> is_black st x y = false ->
    (has (flags_at st x y) F_LIGHT = on -> set_light st x y on = st) /\
    (has (flags_at st x y) F_LIGHT <> on ->
       has (flags_at (set_light st x y on) x y) F_LIGHT = on /\
       flags_at (set_light st x y on) x y =
         (if on then fl_set (flags_at st x y) F_LIGHT
          else fl_clear (flags_at st x y) F_LIGHT) /\
       (forall x' y', in_grid st x' y' -> (x', y') <> (x, y) ->
          flags_at (set_light st x y on) x' y' = flags_at st x' y') /\
       nlights (set_light st x y on) = nlights st + (if on then 1 else -1) /\
       sees st x y x y /\
       (forall x' y', sees st x y x' y' ->
          lights_at (set_light st x y on) x' y' =
            lights_at st x' y' + (if on then 1 else -1)) /\
       (forall x' y', in_grid st x' y' -> ~ sees st x y x' y' ->
          lights_at (set_light st x y on) x' y' = lights_at st x' y')).
Proof.
  intros st x y on Hwf Hin Hwhite. split; [apply set_light_same|].
  intros Hne.
  destruct (set_light_change st x y on Hwf Hin Hwhite Hne)
    as (Hfl & Hw & Hh & _ & _ & Hn & _ & Hsee & Hnsee & _).
  assert (forall a b, in_grid st a b ->
            flags_at (set_light st x y on) a b =
              if decide ((a, b) = (x, y))
              then (if on then fl_set (flags_at st x y) F_LIGHT
                    else fl_clear (flags_at st x y) F_LIGHT)
              else flags_at st a b) as Hflags.
  { intros a b Hab.
    rewrite (flags_at_ext _ _ a b Hfl) by (by rewrite Hw).
    by apply flags_at_set_flags. }
  split_and!; try done.
  - rewrite Hflags, decide_True by done. apply has_light_after.
  - by rewrite Hflags, decide_True.
  - intros x' y' Hin' Hne'. by rewrite Hflags, decide_False.
  - by apply sees_self.
Qed.

(** A row of three squares with a wall in the middle: a light on the
    left end. *)
Lemma set_light_spec_witness :
  let st := mk_game_state 3 1 0 [0; 0; 0] [0; F_BLACK; 0] 0 0 in
  set_light st 0 0 true = mk_game_state 3 1 1 [1; 0; 0] [F_LIGHT; F_BLACK; 0] 0 0
  /\ nlights (set_light st 0 0 true) = nlights st + 1.
Proof.
  intros st. split; [reflexivity|].
  refine (proj1 (proj2 (proj2 (proj2
           (proj2 (set_light_spec st 0 0 true _ _ _) _))))).
  - unfold wf_state. simpl. repeat split; lia.
  - unfold in_grid. simpl. lia.
  - reflexivity.
  - vm_compute. discriminate.
Defined.

(** ** Choosing the square to branch on *)

Lemma elem_of_all_cells st x y :
  (x, y) ∈ all_cells st <-> in_grid st x y.
Proof.
  unfold all_cells, in_grid. rewrite list_elem_of_bind. split.
  - intros (a & Hy & Ha). apply list_elem_of_fmap in Hy as (b & Heq & Hb).
    simplify_eq. apply elem_of_seqZ in Ha, Hb. lia.
  - intros [Hx Hy]. exists x. split; [|apply elem_of_seqZ; lia].
    apply list_elem_of_fmap. exists y. split; [done|apply elem_of_seqZ; lia].
Qed.

Lemma count_unlit_fold st cells : forall n,
  n <= fold_left (fun acc c => count_unlit st acc (fst c) (snd c)) cells n /\
  ((exists c, c ∈ cells /\ lights_at st (fst c) (snd c) = 0) ->
   n + 1 <= fold_left (fun acc c => count_unlit st acc (fst c) (snd c)) cells n).
Proof.
  induction cells as [|c cs IH]; intros n; cbn [fold_left].
  - split; [lia|]. intros (c & Hc & _). by apply elem_of_nil in Hc.
  - destruct (IH (count_unlit st n (fst c) (snd c))) as [Hle Hex].
    assert (n <= count_unlit st n (fst c) (snd c)) as Hstep.
    { unfold count_unlit. destruct (lights_at st (fst c) (snd c) =? 0); lia. }
    split; [lia|].
    intros (c' & Hc' & Hz). apply elem_of_cons in Hc' as [->|Hc'].
    + unfold count_unlit in Hle at 1. rewrite Hz in Hle. simpl in Hle. lia.
    + assert (exists c, c ∈ cs /\ lights_at st (fst c) (snd c) = 0) as He
        by eauto.
      specialize (Hex He). lia.
Qed.

Lemma could_place_light_white fl li :
  could_place_light fl li = true -> has fl F_BLACK = false /\ li <= 0.
Proof.
  unfold could_place_light.
  destruct (has fl (Z.lor F_BLACK F_IMPOSSIBLE)) eqn:E; [done|].
  destruct (li >? 0) eqn:E'; [done|]. intros _. split; [|lia].
  unfold has in *. apply negb_false_iff, Z.eqb_eq in E.
  apply negb_false_iff, Z.eqb_eq.
  apply Z.bits_inj'. intros n Hn. rewrite Z.bits_0, Z.land_spec.
  assert (Z.testbit (Z.land fl (Z.lor F_BLACK F_IMPOSSIBLE)) n = false) as Hb
    by (by rewrite E, Z.bits_0).
  rewrite Z.land_spec, Z.lor_spec in Hb.
  destruct (Z.testbit fl n), (Z.testbit F_BLACK n); simpl in *; done.
Qed.

(** A square where a light could be placed lights at least one unlit
    square: itself. *)
Lemma can_place_counts_itself st x y :
  lights_nonneg st -> in_grid st x y -> can_place st x y = true ->
  1 <= FOREACHLIT (list_lights st x y true) (count_unlit st) 0.
Proof.
  intros Hnn Hin Hcp. apply could_place_light_white in Hcp as [Hw Hli].
  pose proof (Hnn x y Hin Hw) as H0.
  unfold FOREACHLIT.
  destruct (count_unlit_fold st (foreachlit_cells (list_lights st x y true)) 0)
    as [_ Hex].
  apply Hex. exists (x, y). split; [|simpl; lia].
  apply list_lights_sees; [done|done|by apply sees_self].
Qed.

(** The accumulator of the selection loop: nothing chosen yet, or a
    square of the grid where a light could be placed, with a positive
    count. *)
Lemma best_cell_fold st cells : forall bn bx by_,
  lights_nonneg st ->
  (forall c, c ∈ cells -> in_grid st (fst c) (snd c)) ->
  (bn = 0 \/ (0 < bn /\ in_grid st bx by_ /\ can_place st bx by_ = true)) ->
  let r := fold_left (best_cell st) cells (bn, bx, by_) in
  bn <= fst (fst r) /\
  (fst (fst r) = 0 \/
   (0 < fst (fst r) /\ in_grid st (snd (fst r)) (snd r) /\
    can_place st (snd (fst r)) (snd r) = true)) /\
  ((exists c, c ∈ cells /\ can_place st (fst c) (snd c) = true) ->
   0 < fst (fst r)).
Proof.
  induction cells as [|c cs IH]; intros bn bx by_ Hnn Hin Hinv;
    cbn [fold_left].
  - cbn [fst snd]. split; [lia|]. split; [done|].
    intros (c & Hc & _). by apply elem_of_nil in Hc.
  - assert (in_grid st (fst c) (snd c)) as Hc by (apply Hin; left).
    assert (forall c', c' ∈ cs -> in_grid st (fst c') (snd c')) as Hin'
      by (intros c' ?; apply Hin; by right).
    set (n := FOREACHLIT (list_lights st (fst c) (snd c) true)
                         (count_unlit st) 0).
    assert (best_cell st (bn, bx, by_) c =
              if can_place st (fst c) (snd c)
              then (if n >? bn then (n, fst c, snd c) else (bn, bx, by_))
              else (bn, bx, by_)) as Hbc.
    { unfold best_cell, can_place.
      by destruct (could_place_light _ _). }
    rewrite Hbc. clear Hbc.
    destruct (can_place st (fst c) (snd c)) eqn:Hcp.
    + pose proof (can_place_counts_itself st _ _ Hnn Hc Hcp) as Hn.
      fold n in Hn.
      destruct (n >? bn) eqn:E.
      * destruct (IH n (fst c) (snd c) Hnn Hin') as (Hle & Hinv' & _);
          [right; split; [lia|done]|].
        split; [lia|]. split; [done|]. intros _. lia.
      * destruct (IH bn bx by_ Hnn Hin' Hinv) as (Hle & Hinv' & _).
        split; [done|]. split; [done|]. intros _. lia.
    + destruct (IH bn bx by_ Hnn Hin' Hinv) as (Hle & Hinv' & Hex).
      split; [done|]. split; [done|].
      intros (c' & Hc' & Hcp'). apply elem_of_cons in Hc' as [->|Hc'].
      * congruence.
      * apply Hex. eauto.
Qed.

Lemma choose_best_found st :
  lights_nonneg st ->
  (exists x y, in_grid st x y /\ can_place st x y = true) ->
  0 < fst (fst (choose_best st)) /\
  in_grid st (snd (fst (choose_best st))) (snd (choose_best st)) /\
  can_place st (snd (fst (choose_best st))) (snd (choose_best st)) = true.
Proof.
  intros Hnn (x & y & Hin & Hcp). unfold choose_best.
  destruct (best_cell_fold st (all_cells st) 0 (-1) (-1) Hnn)
    as (_ & Hinv & Hex).
  { intros [a b] Hc. by apply elem_of_all_cells. }
  { by left. }
  assert (0 < fst (fst (fold_left (best_cell st) (all_cells st) (0, -1, -1))))
    as Hpos.
  { apply Hex. exists (x, y). split; [by apply elem_of_all_cells|done]. }
  split; [done|]. destruct Hinv as [Hz|[_ Hg]]; [lia|done].
Qed.

(** ** A sweep in which no rule fires *)

Lemma modulo_numberused_refl st : modulo_numberused st st.
Proof. split; [by destruct st|done]. Qed.

Lemma modulo_numberused_trans st1 st2 st3 :
  modulo_numberused st1 st2 -> modulo_numberused st2 st3 ->
  modulo_numberused st1 st3.
Proof.
  intros (H1 & L1 & B1) (H2 & L2 & B2). split; [|split].
  - rewrite H2, H1. done.
  - congruence.
  - intros i. by rewrite B2, B1.
Qed.

Lemma modulo_numberused_mark st x y :
  modulo_numberused st
    (set_flags_at st x y (fl_set (flags_at st x y) F_NUMBERUSED)).
Proof.
  split; [done|]. split; [apply length_insert|].
  intros i. unfold set_flags_at. cbn [flags with_flags].
  rewrite plane_get_insert. case_decide as H; [|done].
  destruct H as [<- _]. unfold fl_set, flags_at.
  by rewrite <- Z.lor_assoc, Z.lor_diag.
Qed.

Lemma land_lor_numberused f g k :
  Z.lor f F_NUMBERUSED = Z.lor g F_NUMBERUSED ->
  Z.land k F_NUMBERUSED = 0 ->
  Z.land f k = Z.land g k.
Proof.
  intros Hfg Hk. apply Z.bits_inj'. intros n Hn.
  rewrite !Z.land_spec.
  assert (Z.testbit (Z.lor f F_NUMBERUSED) n = Z.testbit (Z.lor g F_NUMBERUSED) n)
    as Hb by (by rewrite Hfg).
  assert (Z.testbit (Z.land k F_NUMBERUSED) n = false) as Hz
    by (by rewrite Hk, Z.bits_0).
  rewrite !Z.lor_spec in Hb. rewrite Z.land_spec in Hz.
  destruct (Z.testbit f n), (Z.testbit g n), (Z.testbit k n),
    (Z.testbit F_NUMBERUSED n); simpl in *; done.
Qed.

Lemma modulo_numberused_can_place st st' x y :
  modulo_numberused st st' ->
  can_place st' x y = can_place st x y /\
  is_black st' x y = is_black st x y /\
  lights_at st' x y = lights_at st x y.
Proof.
  intros (Heq & _ & Hb).
  assert (lights_at st' x y = lights_at st x y) as Hl by (by rewrite Heq).
  assert (cell_index st' x y = cell_index st x y) as Hi by (by rewrite Heq).
  specialize (Hb (cell_index st x y)).
  unfold can_place, is_black, could_place_light, has.
  rewrite Hl. unfold flags_at. rewrite Hi.
  rewrite (land_lor_numberused _ _ (Z.lor F_BLACK F_IMPOSSIBLE) Hb) by done.
  rewrite (land_lor_numberused _ _ F_BLACK Hb) by done.
  done.
Qed.

Lemma modulo_numberused_nonneg st st' :
  modulo_numberused st st' -> lights_nonneg st -> lights_nonneg st'.
Proof.
  intros Hm Hnn x y Hin Hw.
  destruct (modulo_numberused_can_place st st' x y Hm) as (_ & Hb & Hl).
  rewrite Hl. apply Hnn; [|by rewrite <- Hb].
  destruct Hm as (Heq & _). by rewrite Heq in Hin.
Qed.

Lemma try_solve_light_idle st x y fl li st' :
  try_solve_light st x y fl li = (st', false) -> st' = st.
Proof.
  unfold try_solve_light.
  destruct (li >? 0); [by intros; simplify_eq|].
  destruct (has fl F_BLACK); [by intros; simplify_eq|].
  destruct (FOREACHLIT _ _ _) as [[sx sy] n].
  destruct (n =? 1); by intros; simplify_eq.
Qed.

(** In the two marking loops of [try_solve_number] the return value is
    set by every store: a [false] result means no store was made. *)
Lemma marking_loop_true (step : game_state -> point -> game_state) s :
  forall st0 st',
    fold_left (fun (acc : game_state * bool) p =>
                 if negb (has (p_f p) F_MARK) then (step (fst acc) p, true)
                 else acc) s (st0, true) <> (st', false).
Proof.
  induction s as [|p s IH]; intros st0 st'; cbn [fold_left]; [done|].
  destruct (negb (has (p_f p) F_MARK)); apply IH.
Qed.

Lemma marking_loop_idle (step : game_state -> point -> game_state) s :
  forall st0 st',
    fold_left (fun (acc : game_state * bool) p =>
                 if negb (has (p_f p) F_MARK) then (step (fst acc) p, true)
                 else acc) s (st0, false) = (st', false) ->
    st' = st0.
Proof.
  induction s as [|p s IH]; intros st0 st'; cbn [fold_left].
  - by intros; simplify_eq.
  - destruct (negb (has (p_f p) F_MARK)); cbn [fst].
    + intros H. by apply marking_loop_true in H.
    + apply IH.
Qed.

Lemma try_solve_number_idle st x y fl li st' :
  try_solve_number st x y fl li = (st', false) -> modulo_numberused st st'.
Proof.
  unfold try_solve_number.
  destruct (negb (has fl F_NUMBERED));
    [intros; simplify_eq; apply modulo_numberused_refl|].
  destruct (fold_left (tsn_narrow st) _ _) as [[nl ns] s].
  destruct (ns =? 0); [intros; simplify_eq; apply modulo_numberused_refl|].
  destruct (nl =? 0).
  { intros H.
    apply (marking_loop_idle
             (fun a p => set_flags_at a (p_x p) (p_y p)
                           (fl_set (flags_at a (p_x p) (p_y p)) F_IMPOSSIBLE)))
      in H.
    subst st'. apply modulo_numberused_mark. }
  destruct (nl =? ns); [|intros; simplify_eq; apply modulo_numberused_refl].
  intros H.
  apply (marking_loop_idle (fun a p => set_light a (p_x p) (p_y p) true)) in H.
  subst st'. apply modulo_numberused_mark.
Qed.

Lemma solve_pass_cell_idle st nc did c st' nc' :
  solve_pass_cell (st, nc, did) c = (st', nc', false) ->
  did = false /\ modulo_numberused st st' /\
  nc' = nc + (if can_place st (fst c) (snd c) then 1 else 0).
Proof.
  unfold solve_pass_cell.
  destruct (try_solve_light st _ _ _ _) as [st1 r1] eqn:E1.
  destruct (try_solve_number st1 _ _ _ _) as [st2 r2] eqn:E2.
  intros H. simplify_eq.
  destruct did, r1, r2; try done.
  apply try_solve_light_idle in E1 as ->.
  apply try_solve_number_idle in E2. done.
Qed.

Lemma solve_pass_fold_idle cells : forall st0 nc0 did0 st1 nc,
  fold_left solve_pass_cell cells (st0, nc0, did0) = (st1, nc, false) ->
  did0 = false /\ modulo_numberused st0 st1 /\
  (nc <> nc0 -> exists c, c ∈ cells /\ can_place st0 (fst c) (snd c) = true).
Proof.
  induction cells as [|c cs IH]; intros st0 nc0 did0 st1 nc;
    cbn [fold_left].
  - intros H. simplify_eq. split; [done|].
    split; [apply modulo_numberused_refl|done].
  - destruct (solve_pass_cell (st0, nc0, did0) c) as [[sta nca] dida] eqn:Ec.
    intros H. apply IH in H as (-> & Hm & Hex).
    apply solve_pass_cell_idle in Ec as (-> & Hm0 & ->).
    split; [done|]. split; [by eapply modulo_numberused_trans|].
    intros Hne.
    destruct (can_place st0 (fst c) (snd c)) eqn:Hcp.
    + exists c. split; [left|done].
    + destruct Hex as (c' & Hc' & Hcp'); [lia|].
      exists c'. split; [by right|].
      by rewrite <- (proj1 (modulo_numberused_can_place st0 sta _ _ Hm0)).
Qed.

(** After a sweep that fired no rule and counted a square where a light
    could be placed, the selection loop chooses such a square. *)
Lemma branching_choice st st1 nc :
  lights_nonneg st ->
  solve_pass st = (st1, nc, false) ->
  nc <> 0 ->
  0 < fst (fst (choose_best st1)) /\
  in_grid st1 (snd (fst (choose_best st1))) (snd (choose_best st1)) /\
  can_place st1 (snd (fst (choose_best st1))) (snd (choose_best st1)) = true.
Proof.
  intros Hnn Hpass Hnc. unfold solve_pass in Hpass.
  apply solve_pass_fold_idle in Hpass as (_ & Hm & Hex).
  destruct (Hex Hnc) as ([x y] & Hc & Hcp).
  apply elem_of_all_cells in Hc.
  apply choose_best_found.
  - by eapply modulo_numberused_nonneg.
  - exists x, y. split.
    + destruct Hm as (Heq & _). by rewrite Heq.
    + by rewrite (proj1 (modulo_numberused_can_place st st1 _ _ Hm)).
Qed.

(** C9: when the sweep of [solve_sub] fires no rule ([didstuff] is 0) and
    counts at least one square where a light could be placed
    ([ncanplace] is not 0), the selection loop that follows ends with
    [bestn > 0], [bestx >= 0] and [besty >= 0]: both assertions hold.
    Lit counts of white squares are counts, hence not negative; a square
    where a light could be placed is then itself unlit, and is among the
    squares it would light. *)
Theorem branching_asserts_hold :
  forall (st st1 : game_state) (ncanplace : Z),
    lights_nonneg st ->
    solve_pass st = (st1, ncanplace, false) ->
    ncanplace <> 0 ->
    0 < fst (fst (choose_best st1)) /\
    0 <= snd (fst (choose_best st1)) /\
    0 <= snd (choose_best st1).
Proof.
  intros st st1 nc Hnn Hpass Hnc.
  destruct (branching_choice st st1 nc Hnn Hpass Hnc) as (Hpos & [Hx Hy] & _).
  split; [done|]. split; lia.
Qed.

Lemma white_2x2_lights_nonneg : lights_nonneg white_2x2.
Proof.
  intros x y [Hx Hy] _. change (s_w white_2x2) with 2 in Hx.
  change (s_h white_2x2) with 2 in Hy.
  assert (x = 0 \/ x = 1) as [-> | ->] by lia;
    assert (y = 0 \/ y = 1) as [-> | ->] by lia; by vm_compute.
Qed.

(** On the empty 2x2 board no rule fires and all four squares are free. *)
Lemma branching_asserts_hold_witness :
  0 < fst (fst (choose_best white_2x2)) /\
  0 <= snd (fst (choose_best white_2x2)) /\
  0 <= snd (choose_best white_2x2).
Proof.
  apply (branching_asserts_hold white_2x2 white_2x2 4).
  - exact white_2x2_lights_nonneg.
  - vm_compute. reflexivity.
  - lia.
Defined.

(** ** Reading the coordinates of a command *)

Lemma sscanf_print x y :
  sscanf_d_comma_d (print_int x ++ ascii_of_N 44 :: print_int y)
  = Some (x, y, []).
Proof.
  unfold sscanf_d_comma_d.
  rewrite scan_int_print_int by (apply stops_digits_letter; [done|simpl; lia]).
  rewrite code_ascii_of_N by done. cbn [Z.of_N Z.eqb Pos.eqb].
  pose proof (scan_int_print_int y [] I) as Hy. rewrite app_nil_r in Hy.
  by rewrite Hy.
Qed.

Lemma c_chars_format_move c x y :
  code c <> 0 ->
  c_chars (format_move c x y) = c :: print_int x ++ ascii_of_N 44 :: print_int y.
Proof.
  intros Hc. unfold format_move. apply c_chars_of_list.
  constructor; [done|]. apply Forall_app. split; [apply print_int_no_nul|].
  constructor; [done|apply print_int_no_nul].
Qed.

(** ** A light command on a square marked impossible *)

Lemma in_grid_range_test st x y :
  in_grid st x y ->
  (x <? 0) || (y <? 0) || (x >=? s_w st) || (y >=? s_h st) = false.
Proof.
  intros [Hx Hy].
  destruct (x <? 0) eqn:E1; [lia|]. destruct (y <? 0) eqn:E2; [lia|].
  destruct (x >=? s_w st) eqn:E3; [lia|]. destruct (y >=? s_h st) eqn:E4; [lia|].
  done.
Qed.

Lemma run_move_light st x y :
  in_grid st x y -> is_black st x y = false ->
  run_move st (c_chars (format_move (ascii_of_N 76) x y)) =
    let r := set_light
               (set_flags_at st x y (fl_clear (flags_at st x y) F_IMPOSSIBLE))
               x y (negb (has (flags_at st x y) F_LIGHT)) in
    Some (if grid_correct r then with_completed r 1 else r).
Proof.
  intros Hin Hw. rewrite c_chars_format_move by done.
  unfold run_move. cbn [length move_loop].
  unfold move_command. rewrite code_ascii_of_N by done.
  cbn [Z.of_N Z.eqb Pos.eqb orb].
  rewrite sscanf_print, (in_grid_range_test _ _ _ Hin).
  unfold is_black in Hw. rewrite Hw.
  by destruct (length _).
Qed.

(** C2, as stated, fails: on the 1x1 board whose square is white, marked
    impossible and without a light, [execute_move] accepts ["L0,0"] and
    returns a state. *)
Lemma light_on_impossible_accepted :
  in_grid impossible_1x1 0 0 /\
  is_black impossible_1x1 0 0 = false /\
  has (flags_at impossible_1x1 0 0) F_IMPOSSIBLE = true /\
  has (flags_at impossible_1x1 0 0) F_LIGHT = false /\
  fst (execute_move 1%positive "L0,0"
         {[1%positive := impossible_1x1]}) <> None.
Proof.
  split; [by vm_compute|]. repeat split; try reflexivity.
  rewrite (execute_move_run _ _ impossible_1x1) by reflexivity.
  by vm_compute.
Qed.

(** C2, amended: a light command on a white square of the grid that is
    marked impossible and holds no light is executed.  [execute_move]
    returns a new state in which the mark is cleared and the light is
    placed, and the input state is left as it was. *)
Theorem light_on_impossible_executed :
  forall (hp : gmap loc game_state) (state : loc) (s : game_state) (x y : Z),
    hp !! state = Some s ->
    wf_state s -> in_grid s x y -> is_black s x y = false ->
    has (flags_at s x y) F_IMPOSSIBLE = true ->
    has (flags_at s x y) F_LIGHT = false ->
    exists (ret : loc) (s' : game_state),
      execute_move state (format_move (ascii_of_N 76) x y) hp
        = (Some ret, <[ret := s']> hp) /\
      ret <> state /\
      (<[ret := s']> hp) !! state = Some s /\
      has (flags_at s' x y) F_IMPOSSIBLE = false /\
      has (flags_at s' x y) F_LIGHT = true.
Proof.
  intros hp state s x y Hs Hwf Hin Hw Himp Hli.
  rewrite (execute_move_run _ _ _ _ Hs), dup_game_id.
  rewrite run_move_light by done. cbv zeta. rewrite Hli. cbn [negb].
  set (st := set_flags_at s x y (fl_clear (flags_at s x y) F_IMPOSSIBLE)).
  set (r := set_light st x y true).
  assert (fresh (dom hp) <> state) as Hfresh.
  { intros Heq. pose proof (fresh_unused hp) as Hf. rewrite Heq in Hf.
    congruence. }
  exists (fresh (dom hp)), (if grid_correct r then with_completed r 1 else r).
  split; [done|]. split; [done|].
  split; [by rewrite lookup_insert_ne|].
  assert (wf_state st) as Hwf1 by (by apply wf_state_set_flags).
  assert (flags_at st x y = fl_clear (flags_at s x y) F_IMPOSSIBLE) as Hfst.
  { subst st. rewrite flags_at_set_flags by done. by rewrite decide_True. }
  assert (is_black st x y = false) as Hw1.
  { unfold is_black. rewrite Hfst. change F_IMPOSSIBLE with (2 ^ 3).
    change F_BLACK with (2 ^ 0). rewrite has_fl_clear by lia.
    unfold is_black in Hw. change F_BLACK with (2 ^ 0) in Hw.
    by rewrite Hw. }
  assert (has (flags_at st x y) F_LIGHT <> true) as Hne.
  { rewrite Hfst. change F_IMPOSSIBLE with (2 ^ 3).
    change F_LIGHT with (2 ^ 4). rewrite has_fl_clear by lia.
    change (2 ^ 4) with F_LIGHT. by rewrite Hli. }
  destruct (set_light_change st x y true Hwf1 Hin Hw1 Hne)
    as (Hfl & Hsw & _).
  fold r in Hfl, Hsw.
  assert (flags_at (if grid_correct r then with_completed r 1 else r) x y
          = fl_set (fl_clear (flags_at s x y) F_IMPOSSIBLE) F_LIGHT) as Hfinal.
  { transitivity (flags_at r x y); [by destruct (grid_correct r)|].
    rewrite (flags_at_ext _ _ x y Hfl) by done.
    rewrite flags_at_set_flags by done. rewrite decide_True by done.
    by rewrite Hfst. }
  rewrite Hfinal. change F_IMPOSSIBLE with (2 ^ 3). change F_LIGHT with (2 ^ 4).
  split.
  - rewrite has_fl_set, has_fl_clear by lia. simpl. by rewrite andb_false_r.
  - rewrite has_fl_set by lia. simpl. apply orb_true_r.
Qed.

Lemma light_on_impossible_executed_witness :
  exists (ret : loc) (s' : game_state),
    execute_move 1%positive (format_move (ascii_of_N 76) 0 0)
                 {[1%positive := impossible_1x1]}
      = (Some ret, <[ret := s']> {[1%positive := impossible_1x1]}) /\
    ret <> 1%positive /\
    (<[ret := s']> ({[1%positive := impossible_1x1]} : gmap loc game_state))
      !! 1%positive = Some impossible_1x1 /\
    has (flags_at s' 0 0) F_IMPOSSIBLE = false /\
    has (flags_at s' 0 0) F_LIGHT = true.
Proof.
  apply (light_on_impossible_executed
           {[1%positive := impossible_1x1]} 1%positive impossible_1x1 0 0).
  - reflexivity.
  - unfold wf_state. simpl. repeat split; lia.
  - unfold in_grid. simpl. lia.
  - reflexivity.
  - reflexivity.
  - reflexivity.
Defined.

(** ** The readers stop at a separator *)

Lemma at_separator_skip p t rest :
  at_separator rest -> (forall c, code c = 59 -> p c = false) ->
  skip p (t ++ rest) = skip p t ++ rest.
Proof.
  intros Hr Hp. induction t as [|c t IH]; cbn [app skip].
  - destruct rest as [|c r]; [done|]. cbn [skip]. by rewrite Hp.
  - by destruct (p c).
Qed.

Lemma at_separator_prefix p t rest :
  at_separator rest -> (forall c, code c = 59 -> p c = false) ->
  prefix_of p (t ++ rest) = prefix_of p t.
Proof.
  intros Hr Hp. induction t as [|c t IH]; cbn [app prefix_of].
  - destruct rest as [|c r]; [done|]. cbn [prefix_of]. by rewrite Hp.
  - destruct (p c); [by rewrite IH|done].
Qed.

Lemma isdigit_semi c : code c = 59 -> isdigit c = false.
Proof. intros H. unfold isdigit. rewrite H. done. Qed.

Lemma isspace_semi c : code c = 59 -> isspace c = false.
Proof. intros H. unfold isspace. rewrite H. done. Qed.

Lemma at_separator_read_sign t rest :
  at_separator rest ->
  read_sign (t ++ rest) = (fst (read_sign t), snd (read_sign t) ++ rest).
Proof.
  intros Hr. destruct t as [|c t]; cbn [app].
  - destruct rest as [|c r]; [done|]. cbn in Hr. cbn [read_sign].
    rewrite Hr. done.
  - cbn [read_sign]. destruct (code c =? 45); [done|].
    by destruct (code c =? 43).
Qed.

Lemma at_separator_scan_int t rest :
  at_separator rest ->
  scan_int (t ++ rest) =
    match scan_int t with
    | Some (v, r) => Some (v, r ++ rest)
    | None => None
    end.
Proof.
  intros Hr. unfold scan_int.
  rewrite (at_separator_skip _ _ _ Hr isspace_semi).
  rewrite (at_separator_read_sign _ _ Hr).
  destruct (read_sign (skip isspace t)) as [neg u]. cbn [fst snd].
  rewrite (at_separator_prefix _ _ _ Hr isdigit_semi).
  rewrite (at_separator_skip _ _ _ Hr isdigit_semi).
  by destruct (prefix_of isdigit u).
Qed.

Lemma at_separator_sscanf t rest :
  at_separator rest ->
  sscanf_d_comma_d (t ++ rest) =
    match sscanf_d_comma_d t with
    | Some (x, y, r) => Some (x, y, r ++ rest)
    | None => None
    end.
Proof.
  intros Hr. unfold sscanf_d_comma_d.
  rewrite (at_separator_scan_int _ _ Hr).
  destruct (scan_int t) as [[x s1]|]; [|done].
  destruct s1 as [|c s2]; cbn [app].
  - destruct rest as [|c r]; [done|]. cbn in Hr. by rewrite Hr.
  - destruct (code c =? 44); [|done].
    rewrite (at_separator_scan_int _ _ Hr).
    by destruct (scan_int s2) as [[y s3]|].
Qed.




(** ** Moves never change the board *)

Lemma same_board_refl s : same_board s s.
Proof. by repeat split. Qed.

Lemma same_board_set_flags s st x y v :
  same_board s st ->
  has v F_BLACK = has (flags_at st x y) F_BLACK ->
  same_board s (set_flags_at st x y v).
Proof.
  intros (Hw & Hh & Hb) Hv. split; [done|]. split; [done|].
  intros i. unfold set_flags_at. cbn [flags with_flags].
  rewrite plane_get_insert. case_decide as H; [|apply Hb].
  destruct H as [<- _]. rewrite Hv. apply Hb.
Qed.

Lemma same_board_flags s st st' :
  same_board s st -> flags st' = flags st ->
  s_w st' = s_w st -> s_h st' = s_h st -> same_board s st'.
Proof.
  intros (Hw & Hh & Hb) Hf Hw' Hh'. split; [congruence|].
  split; [congruence|]. intros i. rewrite Hf. apply Hb.
Qed.

Lemma set_light_flags st x y on :
  flags (set_light st x y on) = flags st \/
  flags (set_light st x y on) =
    flags (set_flags_at st x y
             (if on then fl_set (flags_at st x y) F_LIGHT
              else fl_clear (flags_at st x y) F_LIGHT)).
Proof.
  unfold set_light.
  destruct (negb on && has (flags_at st x y) F_LIGHT) eqn:E1;
    [|destruct (on && negb (has (flags_at st x y) F_LIGHT)) eqn:E2];
    cbn [Z.eqb]; [right|right|by left].
  - destruct on; [done|]. by apply FOREACHLIT_ind.
  - destruct on; [|done]. by apply FOREACHLIT_ind.
Qed.

Lemma same_board_set_light s st x y on :
  same_board s st -> same_board s (set_light st x y on).
Proof.
  intros Hs. destruct (set_light_frame st x y on) as (Hw & Hh & _).
  destruct (set_light_flags st x y on) as [Hf|Hf].
  - by eapply same_board_flags.
  - eapply (same_board_flags s (set_flags_at st x y _)); [|exact Hf|done|done].
    apply same_board_set_flags; [done|].
    destruct on; other_flag.
Qed.

Lemma same_board_black s st x y :
  same_board s st -> has (flags_at st x y) F_BLACK = is_black s x y.
Proof.
  intros (Hw & _ & Hb). unfold is_black, flags_at, cell_index.
  rewrite Hw. apply Hb.
Qed.


(** ** Pieces of a move string *)










(** ** One command of the loop against one piece of the string *)




(** ** The loop of [execute_move] against the commands of the string *)

Lemma move_loop_nil n st : move_loop n [] st = Returns (Some st).
Proof. by destruct n. Qed.








(** ** The solver never fails an assertion *)

Lemma same_board_in_grid s st x y :
  same_board s st -> in_grid st x y <-> in_grid s x y.
Proof. intros (Hw & Hh & _). unfold in_grid. by rewrite Hw, Hh. Qed.

Lemma same_board_is_black s st x y :
  same_board s st -> is_black st x y = is_black s x y.
Proof. apply same_board_black. Qed.

Lemma same_board_trans s st st' :
  same_board s st -> same_board st st' -> same_board s st'.
Proof.
  intros (Hw & Hh & Hb) (Hw' & Hh' & Hb'). split; [congruence|].
  split; [congruence|]. intros i. by rewrite Hb', Hb.
Qed.

Lemma sees_white st x y x' y' : sees st x y x' y' -> is_black st x' y' = false.
Proof.
  intros (_ & _ & [[-> Hc]|[-> Hc]]); apply Hc; lia.
Qed.

Lemma solver_inv_refl st :
  wf_state st -> lights_nonneg st -> solver_inv st st.
Proof. intros. split; [done|]. split; [done|apply same_board_refl]. Qed.

Lemma solver_inv_set_flags s st x y v :
  solver_inv s st ->
  has v F_BLACK = has (flags_at st x y) F_BLACK ->
  solver_inv s (set_flags_at st x y v).
Proof.
  intros (Hwf & Hnn & Hs) Hv. split; [by apply wf_state_set_flags|].
  split; [|by apply same_board_set_flags].
  intros a b Hin Hw. rewrite is_black_set_flags in Hw by done.
  by apply Hnn.
Qed.

Lemma solver_inv_set_bit s st x y k :
  solver_inv s st -> 0 < k ->
  solver_inv s (set_flags_at st x y (fl_set (flags_at st x y) (2 ^ k))).
Proof.
  intros Hinv Hk. apply solver_inv_set_flags; [done|].
  change F_BLACK with (2 ^ 0). rewrite has_fl_set by lia.
  destruct (k =? 0) eqn:E; [lia|]. by rewrite orb_false_r.
Qed.

Lemma solver_inv_set_light s st x y :
  solver_inv s st -> in_grid s x y -> is_black s x y = false ->
  solver_inv s (set_light st x y true).
Proof.
  intros (Hwf & Hnn & Hs) Hin Hw.
  apply (same_board_in_grid s st) in Hin; [|done].
  rewrite <- (same_board_is_black s st) in Hw by done.
  destruct (has (flags_at st x y) F_LIGHT) eqn:Hl.
  { by rewrite set_light_same. }
  assert (has (flags_at st x y) F_LIGHT <> true) as Hne by congruence.
  destruct (set_light_change st x y true Hwf Hin Hw Hne)
    as (_ & Hsw & Hsh & _ & _ & _ & Hwf' & _ & _ & Hstep).
  pose proof (same_board_set_light st st x y true (same_board_refl st)) as Hs'.
  split; [done|]. split; [|by eapply same_board_trans].
  intros a b Hin' Hw'.
  apply (same_board_in_grid st _ a b Hs') in Hin'.
  rewrite (same_board_is_black st _ a b Hs') in Hw'.
  specialize (Hnn a b Hin' Hw').
  destruct (Hstep a b Hin') as [-> | ->]; lia.
Qed.

(** The square found by the unlit-square rule is on the light line of
    the square it was looking at. *)
Lemma tsl_fold st cells : forall acc,
  let r := fold_left (fun a c => tsl_callback st a (fst c) (snd c)) cells acc in
  snd acc <= snd r /\
  (snd r = snd acc -> r = acc) /\
  (snd r <> snd acc -> (fst (fst r), snd (fst r)) ∈ cells).
Proof.
  induction cells as [|c cs IH]; intros [[x y] n]; cbn [fold_left fst snd].
  - split; [lia|]. split; [done|]. intros H. done.
  - assert (tsl_callback st (x, y, n) (fst c) (snd c) = (x, y, n) \/
            tsl_callback st (x, y, n) (fst c) (snd c) = (fst c, snd c, n + 1))
      as [-> | ->].
    { unfold tsl_callback.
      destruct (has _ F_IMPOSSIBLE); [by left|].
      destruct (_ >? 0); [by left|by right]. }
    + destruct (IH (x, y, n)) as (Hle & Heq & Hin). cbn [fst snd] in *.
      split; [done|]. split; [done|]. intros H. right. by apply Hin.
    + destruct (IH (fst c, snd c, n + 1)) as (Hle & Heq & Hin).
      cbn [fst snd] in *.
      split; [lia|]. split; [lia|]. intros _.
      destruct (Z.eq_dec (snd (fold_left
                 (fun a c0 => tsl_callback st a (fst c0) (snd c0)) cs
                 (fst c, snd c, n + 1))) (n + 1)) as [He|Hne].
      * rewrite (Heq He). cbn [fst snd]. destruct c. left.
      * right. by apply Hin.
Qed.

Lemma solver_inv_try_solve_light s st x y li :
  solver_inv s st -> in_grid s x y ->
  solver_inv s (fst (try_solve_light st x y (flags_at st x y) li)).
Proof.
  intros Hinv Hin. unfold try_solve_light.
  destruct (li >? 0); [done|].
  destruct (has (flags_at st x y) F_BLACK) eqn:Hb; [done|].
  destruct (FOREACHLIT _ _ _) as [[sx sy] n] eqn:Hf.
  destruct (n =? 1) eqn:Hn; [|done]. cbn [fst].
  pose proof Hinv as (_ & _ & Hs).
  assert (in_grid st x y) as Hin' by (by apply (same_board_in_grid s st)).
  unfold FOREACHLIT in Hf.
  destruct (tsl_fold st (foreachlit_cells (list_lights st x y true)) (0, 0, 0))
    as (_ & _ & Hmem).
  rewrite Hf in Hmem. cbn [fst snd] in Hmem.
  assert ((sx, sy) ∈ foreachlit_cells (list_lights st x y true)) as Hc
    by (apply Hmem; lia).
  apply list_lights_sees in Hc; [|done|done].
  apply solver_inv_set_light; [done| |].
  - apply (same_board_in_grid s st); [done|]. by apply sees_in_grid in Hc.
  - rewrite <- (same_board_is_black s st) by done. by apply sees_white in Hc.
Qed.

Lemma get_surrounds_in_grid st x y p :
  in_grid st x y -> p ∈ get_surrounds st x y ->
  in_grid st (p_x p) (p_y p).
Proof.
  intros [Hx Hy]. unfold get_surrounds, ADDPOINT, in_grid.
  destruct (x >? 0) eqn:E1, (x <? s_w st - 1) eqn:E2,
    (y >? 0) eqn:E3, (y <? s_h st - 1) eqn:E4; cbn [app];
    rewrite ?elem_of_cons, ?elem_of_nil;
    intros H; repeat destruct H as [H|H]; try done; subst p; cbn; lia.
Qed.

Lemma tsn_narrow_fold s st pts : forall nl ns done,
  same_board s st ->
  Forall (usable_point s) done ->
  Forall (fun p => in_grid s (p_x p) (p_y p)) pts ->
  Forall (usable_point s)
         (snd (fold_left (tsn_narrow st) pts (nl, ns, done))).
Proof.
  intros nl ns done Hs. revert nl ns done.
  induction pts as [|p pts IH]; intros nl ns done Hd Hp; cbn [fold_left].
  - done.
  - apply Forall_cons in Hp as [Hin Hp].
    assert (usable_point s (mk_point (p_x p) (p_y p) (fl_set (p_f p) F_MARK)))
      as Hmarked.
    { split; [done|]. cbn [p_f]. change F_MARK with (2 ^ 5).
      rewrite has_fl_set by lia. by rewrite orb_true_r. }
    unfold tsn_narrow at 2.
    destruct (has (flags_at st (p_x p) (p_y p)) F_LIGHT).
    { apply IH; [|done]. apply Forall_app. split; [done|by constructor]. }
    destruct (could_place_light _ _) eqn:Hcp; cbn [negb].
    + apply IH; [|done]. apply Forall_app. split; [done|].
      constructor; [|done]. split; [done|]. intros _.
      apply could_place_light_white in Hcp as [Hw _].
      by rewrite <- (same_board_black s st).
    + apply IH; [|done]. apply Forall_app. split; [done|by constructor].
Qed.

(** The two marking loops keep the invariant when each store does. *)
Lemma marking_loop_inv s (step : game_state -> point -> game_state) pts :
  (forall st p, solver_inv s st -> in_grid s (p_x p) (p_y p) ->
                is_black s (p_x p) (p_y p) = false ->
                solver_inv s (step st p)) ->
  Forall (usable_point s) pts ->
  forall st0 b, solver_inv s st0 ->
    solver_inv s
      (fst (fold_left
              (fun (acc : game_state * bool) p =>
                 if negb (has (p_f p) F_MARK) then (step (fst acc) p, true)
                 else acc) pts (st0, b))).
Proof.
  intros Hstep Hpts. induction Hpts as [|p pts [Hin Hw] _ IH];
    intros st0 b Hinv; cbn [fold_left]; [done|].
  destruct (has (p_f p) F_MARK) eqn:Hm; cbn [negb fst].
  - by apply IH.
  - apply IH. apply Hstep; [done|done|by apply Hw].
Qed.

Lemma solver_inv_try_solve_number s st x y fl li :
  solver_inv s st -> in_grid s x y ->
  solver_inv s (fst (try_solve_number st x y fl li)).
Proof.
  intros Hinv Hin. pose proof Hinv as (_ & _ & Hs).
  unfold try_solve_number.
  destruct (negb (has fl F_NUMBERED)); [done|].
  pose proof (tsn_narrow_fold s st (get_surrounds st x y) li
                (Z.of_nat (length (get_surrounds st x y))) [] Hs
                (Forall_nil_2 _)) as Hpts.
  destruct (fold_left (tsn_narrow st) _ _) as [[nl ns] pts].
  cbn [snd] in Hpts.
  assert (Forall (usable_point s) pts) as Hu.
  { apply Hpts. apply Forall_forall. intros p Hp.
    apply (same_board_in_grid s st); [done|].
    apply (get_surrounds_in_grid st x y); [|done].
    by apply (same_board_in_grid s st). }
  assert (solver_inv s
            (set_flags_at st x y (fl_set (flags_at st x y) F_NUMBERUSED)))
    as Hused by (by apply (solver_inv_set_bit s st x y 2)).
  destruct (ns =? 0); [done|].
  destruct (nl =? 0).
  { apply (marking_loop_inv s
             (fun a p => set_flags_at a (p_x p) (p_y p)
                           (fl_set (flags_at a (p_x p) (p_y p)) F_IMPOSSIBLE)));
      [|done|done].
    intros st' p Hinv' _ _. by apply (solver_inv_set_bit s st' _ _ 3). }
  destruct (nl =? ns); [|done].
  apply (marking_loop_inv s (fun a p => set_light a (p_x p) (p_y p) true));
    [|done|done].
  intros st' p Hinv' Hp Hw. by apply solver_inv_set_light.
Qed.

Lemma solver_inv_solve_pass_cell s st nc did c :
  solver_inv s st -> in_grid s (fst c) (snd c) ->
  solver_inv s (fst (fst (solve_pass_cell (st, nc, did) c))).
Proof.
  intros Hinv Hin. unfold solve_pass_cell.
  pose proof (solver_inv_try_solve_light s st (fst c) (snd c)
                (lights_at st (fst c) (snd c)) Hinv Hin) as H1.
  destruct (try_solve_light st _ _ _ _) as [st1 r1]. cbn [fst] in H1.
  pose proof (solver_inv_try_solve_number s st1 (fst c) (snd c)
                (flags_at st (fst c) (snd c)) (lights_at st (fst c) (snd c))
                H1 Hin) as H2.
  by destruct (try_solve_number st1 _ _ _ _) as [st2 r2].
Qed.

Lemma solver_inv_solve_pass s st :
  solver_inv s st -> solver_inv s (fst (fst (solve_pass st))).
Proof.
  intros Hinv. unfold solve_pass.
  assert (forall c, c ∈ all_cells st -> in_grid s (fst c) (snd c)) as Hcells.
  { intros [a b] Hc. apply elem_of_all_cells in Hc.
    destruct Hinv as (_ & _ & Hs). by apply (same_board_in_grid s st). }
  generalize 0 false. revert Hinv.
  generalize st at 1 3 as st0.
  induction (all_cells st) as [|c cs IH]; intros st0 Hinv nc did;
    cbn [fold_left]; [done|].
  pose proof (solver_inv_solve_pass_cell s st0 nc did c Hinv
                (Hcells c ltac:(left))) as H.
  destruct (solve_pass_cell (st0, nc, did) c) as [[st1 nc1] did1].
  apply IH; [|done]. intros c' Hc'. apply Hcells. by right.
Qed.

(** From a well-formed state with non-negative lit counts, no run of the
    solver fails the assertions of its branching step. *)
Lemma solve_loop_asserts fuel : forall st fu mr d md,
  wf_state st -> lights_nonneg st ->
  solve_loop fuel st fu mr d md <> AssertFails.
Proof.
  induction fuel as [|fuel IH]; intros st fu mr d md Hwf Hnn; [done|].
  cbn [solve_loop].
  destruct (grid_overlap st); [done|].
  destruct (grid_correct st); [done|].
  pose proof (solver_inv_solve_pass st st (solver_inv_refl st Hwf Hnn))
    as (Hwf1 & Hnn1 & Hs1).
  destruct (solve_pass st) as [[st1 nc] did] eqn:Hpass. cbn [fst] in *.
  destruct did; [by apply IH|].
  destruct (nc =? 0) eqn:Hnc; [done|].
  destruct (d >=? mr); [done|].
  destruct (branching_choice st st1 nc Hnn Hpass ltac:(lia))
    as (Hpos & Hin & Hcp).
  destruct (choose_best st1) as [[bn bx] by_]. cbn [fst snd] in *.
  destruct (bn >? 0) eqn:Ebn; [|lia]. cbn [negb].
  destruct Hin as [Hx Hy].
  destruct (bx >=? 0) eqn:Ex; [|lia]. destruct (by_ >=? 0) eqn:Ey; [|lia].
  cbn [andb negb].
  pose proof (solver_inv_refl st1 Hwf1 Hnn1) as Hinv1.
  destruct (solver_inv_set_bit st1 st1 bx by_ 3 Hinv1 ltac:(lia))
    as (Hwf2 & Hnn2 & _).
  pose proof (IH _ fu mr (d + 1) (note_depth md (d + 1)) Hwf2 Hnn2) as Hself.
  destruct (solve_loop fuel _ fu mr (d + 1) (note_depth md (d + 1)))
    as [[[r1 s1] m1]| |]; [|done|done].
  destruct (negb fu && (r1 >? 0)); [done|].
  apply could_place_light_white in Hcp as [Hw _].
  destruct (solver_inv_set_light st1 st1 bx by_ Hinv1 ltac:(done) Hw)
    as (Hwf3 & Hnn3 & _).
  rewrite dup_game_id.
  pose proof (IH _ fu mr (d + 1) (note_depth m1 (d + 1)) Hwf3 Hnn3) as Hcopy.
  destruct (solve_loop fuel _ fu mr (d + 1) (note_depth m1 (d + 1)))
    as [[[r2 s2] m2]| |]; [|done|done].
  destruct (fu && ((r2 <? 0) || (r1 <? 0))); [done|].
  destruct (r2 <=? 0); [done|]. by destruct (r1 <=? 0).
Qed.

(** The same for [dosolve], whose first loop only clears used-clue marks:
    from a well-formed state with non-negative lit counts no run of it
    fails an assertion, whatever the fuel, so whatever prefix of the run
    is looked at. *)
Lemma dosolve_asserts fuel st allowguess fu md :
  wf_state st -> lights_nonneg st ->
  dosolve fuel st allowguess fu md <> AssertFails.
Proof.
  intros Hwf Hnn. unfold dosolve, solve_sub.
  assert (forall cells st0, solver_inv st st0 ->
            solver_inv st
              (fold_left
                 (fun st1 c =>
                    set_flags_at st1 (fst c) (snd c)
                      (fl_clear (flags_at st1 (fst c) (snd c)) F_NUMBERUSED))
                 cells st0)) as Hclear.
  { induction cells as [|c cs IH]; intros st0 Hinv; cbn [fold_left]; [done|].
    apply IH. apply solver_inv_set_flags; [done|].
    other_flag. }
  destruct (Hclear (all_cells st) st (solver_inv_refl st Hwf Hnn))
    as (Hwf' & Hnn' & _).
  by apply solve_loop_asserts.
Qed.

(** ** The counter [nlights] under moves *)

Lemma filter_length_agree {A} (P Q : A -> Prop)
    {HP : forall a, Decision (P a)} {HQ : forall a, Decision (Q a)}
    (l : list A) :
  (forall b, b ∈ l -> P b <-> Q b) ->
  length (filter P l) = length (filter Q l).
Proof.
  induction l as [|b l IH]; intros Hag; [done|].
  assert (length (filter P l) = length (filter Q l)) as Hl
    by (apply IH; intros c Hc; apply Hag; by right).
  pose proof (Hag b ltac:(left)) as Hb.
  rewrite !filter_cons.
  destruct (decide (P b)), (decide (Q b)); simpl; try lia; tauto.
Qed.

(** Changing the predicate at one element of a duplicate-free list moves
    the number of elements selected by at most one. *)
Lemma filter_length_change {A} (P Q : A -> Prop)
    {HP : forall a, Decision (P a)} {HQ : forall a, Decision (Q a)}
    (l : list A) (a : A) :
  NoDup l -> a ∈ l ->
  (forall b, b ∈ l -> b <> a -> P b <-> Q b) ->
  (length (filter Q l) + (if decide (P a) then 1 else 0)
   = length (filter P l) + (if decide (Q a) then 1 else 0))%nat.
Proof.
  induction l as [|b l IH]; intros Hnd Ha Hag.
  - by apply elem_of_nil in Ha.
  - apply NoDup_cons in Hnd as [Hb Hnd]. rewrite !filter_cons.
    apply elem_of_cons in Ha as [->|Ha].
    + assert (length (filter P l) = length (filter Q l)) as Hl.
      { apply filter_length_agree. intros c Hc. apply Hag; [by right|].
        intros ->. done. }
      destruct (decide (P b)), (decide (Q b)); simpl; lia.
    + assert (b <> a) as Hne by (intros ->; done).
      specialize (IH Hnd Ha ltac:(intros c Hc; apply Hag; by right)).
      pose proof (Hag b ltac:(left) Hne) as Hb'.
      destruct (decide (P b)), (decide (Q b)); simpl; try lia; tauto.
Qed.

Lemma all_cells_NoDup st : NoDup (all_cells st).
Proof.
  unfold all_cells. apply NoDup_bind.
  - intros x1 x2 [a b] _ _ H1 H2.
    apply list_elem_of_fmap in H1 as (? & ? & _).
    apply list_elem_of_fmap in H2 as (? & ? & _). by simplify_eq.
  - intros x _. apply NoDup_fmap_2; [by intros a b ?; simplify_eq|].
    apply NoDup_seqZ.
  - apply NoDup_seqZ.
Qed.

Lemma count_lights_ext st st' :
  flags st' = flags st -> s_w st' = s_w st -> s_h st' = s_h st ->
  count_lights st' = count_lights st.
Proof.
  intros Hf Hw Hh. unfold count_lights, all_cells. rewrite Hw, Hh.
  f_equal. apply filter_length_agree. intros [a b] _. cbn [fst snd].
  by rewrite (flags_at_ext st st' a b Hf Hw).
Qed.

Lemma count_lights_set_flags st x y v :
  wf_state st -> in_grid st x y ->
  count_lights (set_flags_at st x y v)
  + (if has (flags_at st x y) F_LIGHT then 1 else 0)
  = count_lights st + (if has v F_LIGHT then 1 else 0).
Proof.
  intros Hwf Hin. unfold count_lights.
  change (all_cells (set_flags_at st x y v)) with (all_cells st).
  pose proof (filter_length_change
    (fun c => has (flags_at st (fst c) (snd c)) F_LIGHT = true)
    (fun c => has (flags_at (set_flags_at st x y v) (fst c) (snd c)) F_LIGHT
              = true)
    (all_cells st) (x, y) (all_cells_NoDup st)
    ltac:(by apply elem_of_all_cells)) as H.
  cbn [fst snd] in H.
  rewrite (flags_at_set_flags st x y v x y Hwf Hin Hin) in H.
  rewrite (decide_True (P := (x, y) = (x, y))) in H by done.
  assert (forall b : bool, (if decide (b = true) then 1 else 0)%nat
                           = if b then 1%nat else 0%nat) as Hd
    by (by intros []).
  rewrite !Hd in H.
  specialize (H ltac:(
    intros [a b] Hc Hne; apply elem_of_all_cells in Hc; cbn [fst snd];
    rewrite (flags_at_set_flags st x y v a b Hwf Hin Hc);
    by rewrite decide_False)).
  destruct (has (flags_at st x y) F_LIGHT), (has v F_LIGHT); lia.
Qed.

Lemma nlights_ok_set_flags st x y v :
  wf_state st -> in_grid st x y -> nlights_ok st ->
  has v F_LIGHT = has (flags_at st x y) F_LIGHT ->
  nlights_ok (set_flags_at st x y v).
Proof.
  intros Hwf Hin Hok Hv. unfold nlights_ok in *.
  pose proof (count_lights_set_flags st x y v Hwf Hin) as H.
  rewrite Hv in H. cbn [nlights set_flags_at with_flags]. lia.
Qed.

Lemma nlights_ok_set_light st x y on :
  wf_state st -> in_grid st x y -> is_black st x y = false ->
  nlights_ok st ->
  wf_state (set_light st x y on) /\ nlights_ok (set_light st x y on).
Proof.
  intros Hwf Hin Hw Hok.
  destruct (bool_decide (has (flags_at st x y) F_LIGHT = on)) eqn:Hb.
  { apply bool_decide_eq_true in Hb. by rewrite set_light_same. }
  apply bool_decide_eq_false in Hb.
  destruct (set_light_change st x y on Hwf Hin Hw Hb)
    as (Hfl & Hsw & Hsh & _ & _ & Hn & Hwf' & _).
  split; [done|]. unfold nlights_ok in *. rewrite Hn.
  rewrite (count_lights_ext (set_flags_at st x y _) _ Hfl) by done.
  pose proof (count_lights_set_flags st x y
                (if on then fl_set (flags_at st x y) F_LIGHT
                 else fl_clear (flags_at st x y) F_LIGHT) Hwf Hin) as H.
  rewrite has_light_after in H.
  destruct on, (has (flags_at st x y) F_LIGHT); try done; lia.
Qed.

Lemma move_command_nlights_ok c move st st' move' :
  wf_state st -> nlights_ok st ->
  move_command c move st = Some (st', move') ->
  wf_state st' /\ nlights_ok st'.
Proof.
  intros Hwf Hok. unfold move_command.
  destruct (code c =? 83); [by intros; simplify_eq|].
  destruct ((code c =? 76) || (code c =? 73)); [|done].
  destruct (sscanf_d_comma_d move) as [[[x y] m]|]; [|done].
  destruct ((x <? 0) || (y <? 0) || (x >=? s_w st) || (y >=? s_h st)) eqn:Hr;
    [done|].
  assert (in_grid st x y) as Hin.
  { unfold in_grid.
    destruct (x <? 0) eqn:E1, (y <? 0) eqn:E2, (x >=? s_w st) eqn:E3,
      (y >=? s_h st) eqn:E4; simpl in Hr; try done. lia. }
  destruct (has (flags_at st x y) F_BLACK) eqn:Hb; [done|].
  destruct (code c =? 76); intros H; simplify_eq.
  - set (st1 := set_flags_at st x y (fl_clear (flags_at st x y) F_IMPOSSIBLE)).
    assert (wf_state st1) as Hwf1 by (by apply wf_state_set_flags).
    assert (nlights_ok st1) as Hok1.
    { apply nlights_ok_set_flags; try done.
      other_flag. }
    apply nlights_ok_set_light; try done.
    unfold st1. rewrite is_black_set_flags; [done|].
    other_flag.
  - destruct (nlights_ok_set_light st x y false Hwf Hin Hb Hok) as [Hwf1 Hok1].
    destruct (set_light_frame st x y false) as (Hw1 & Hh1 & _).
    split; [by apply wf_state_set_flags|].
    apply nlights_ok_set_flags; try done.
    + unfold in_grid. by rewrite Hw1, Hh1.
    + other_flag.
Qed.

Lemma move_loop_nlights_ok fuel : forall move st st',
  wf_state st -> nlights_ok st ->
  move_loop fuel move st = Returns (Some st') ->
  wf_state st' /\ nlights_ok st'.
Proof.
  induction fuel as [|fuel IH]; intros move st st' Hwf Hok H.
  - destruct move; simpl in H; by simplify_eq.
  - destruct move as [|c move]; simpl in H; [by simplify_eq|].
    destruct (move_command c move st) as [[r m]|] eqn:Hc; [|done].
    apply move_command_nlights_ok in Hc as [Hwf1 Hok1]; [|done|done].
    destruct m as [|c' m']; [by eapply IH|].
    destruct (code c' =? 59); [|done]. by eapply IH.
Qed.

(** Moves keep [nlights] equal to the number of squares whose [F_LIGHT]
    flag is set. *)
Lemma execute_move_nlights_ok (hp hp' : gmap loc game_state) state ret s m :
  hp !! state = Some s ->
  wf_state s -> nlights_ok s ->
  execute_move state m hp = (Some ret, hp') ->
  exists s', hp' !! ret = Some s' /\ wf_state s' /\ nlights_ok s'.
Proof.
  intros Hs Hwf Hok He.
  rewrite (execute_move_run _ _ _ _ Hs), dup_game_id in He.
  unfold run_move in He.
  destruct (c_chars m) as [|c cs]; [done|].
  destruct (move_loop _ _ _) as [[r|]| |] eqn:Hl; try done.
  apply move_loop_nlights_ok in Hl as [Hwf' Hok']; [|done|done].
  simplify_eq. eexists. split; [apply lookup_insert_eq|].
  by destruct (grid_correct r).
Qed.

(** ** Fresh boards *)

Lemma plane_get_replicate n i : plane_get (replicate n 0) i = 0.
Proof.
  unfold plane_get. destruct (replicate n 0 !! i) as [v|] eqn:E; [|done].
  by apply lookup_replicate in E as [-> _].
Qed.

Lemma new_state_fresh params :
  0 <= p_w params -> 0 <= p_h params -> fresh_board (new_state params).
Proof.
  intros Hw Hh. unfold fresh_board, new_state, wf_state, no_light.
  cbn [s_w s_h nlights lights flags]. rewrite !length_replicate.
  split_and!; try done; intros i; by rewrite ?plane_get_replicate.
Qed.

(** Marking a square black, with or without a clue, keeps the board
    fresh. *)
Lemma fresh_board_set_black st x y :
  fresh_board st ->
  fresh_board (set_flags_at st x y (fl_set (flags_at st x y) F_BLACK)).
Proof.
  intros (Hwf & Hn & Hnl & Hwu). split; [by apply wf_state_set_flags|].
  split; [done|]. unfold no_light, set_flags_at. cbn [flags lights with_flags].
  split; intros i; rewrite plane_get_insert; case_decide as H; try apply Hnl.
  - change F_LIGHT with (2 ^ 4). change F_BLACK with (2 ^ 0).
    rewrite has_fl_set by lia. change (2 ^ 4) with F_LIGHT.
    unfold flags_at. by rewrite Hnl.
  - change F_BLACK with (2 ^ 0). rewrite has_fl_set by lia.
    by rewrite orb_true_r.
  - apply Hwu.
Qed.

Lemma fresh_board_set_clue st x y v :
  fresh_board st ->
  let st1 := set_flags_at st x y (fl_set (flags_at st x y) F_NUMBERED) in
  let st2 := set_lights_at st1 x y v in
  fresh_board (set_flags_at st2 x y (fl_set (flags_at st2 x y) F_BLACK)).
Proof.
  intros (Hwf & Hn & Hnl & Hwu) st1 st2.
  assert (wf_state st2) as Hwf2.
  { apply (wf_state_with_lights st1); [by apply wf_state_set_flags|].
    apply length_insert. }
  split; [by apply wf_state_set_flags|]. split; [done|].
  assert (no_light st2) as Hnl2.
  { intros i. unfold st2, st1, set_lights_at, set_flags_at.
    cbn [flags with_flags with_lights]. rewrite plane_get_insert.
    case_decide as H; [|apply Hnl].
    change F_LIGHT with (2 ^ 4). change F_NUMBERED with (2 ^ 1).
    rewrite has_fl_set by lia. change (2 ^ 4) with F_LIGHT.
    unfold flags_at. by rewrite Hnl. }
  unfold no_light. unfold set_flags_at at 1 2 3.
  cbn [flags lights with_flags].
  split; intros i; rewrite plane_get_insert; case_decide as H;
    try apply Hnl2.
  - change F_LIGHT with (2 ^ 4). change F_BLACK with (2 ^ 0).
    rewrite has_fl_set by lia. change (2 ^ 4) with F_LIGHT.
    unfold flags_at. by rewrite Hnl2.
  - change F_BLACK with (2 ^ 0). rewrite has_fl_set by lia.
    by rewrite orb_true_r.
  - (* another index, or an index outside the planes *)
    unfold st2, st1, set_lights_at, set_flags_at.
    cbn [flags lights with_flags with_lights s_w].
    change (cell_index (with_flags st _) x y) with (cell_index st x y).
    change (cell_index (with_lights (with_flags st _) _) x y)
      with (cell_index st x y) in H.
    unfold st2, st1, set_lights_at, set_flags_at in H.
    cbn [flags lights with_flags with_lights] in H.
    rewrite !length_insert in H.
    destruct Hwf as (_ & _ & Hl & Hf).
    rewrite !plane_get_insert.
    destruct (decide (cell_index st x y = i /\
                      (cell_index st x y < length (flags st))%nat))
      as [Hd|Hd]; [done|].
    rewrite decide_False by (by rewrite Hl, <- Hf).
    apply Hwu.
Qed.

Lemma new_game_cell_fresh acc xy st d r :
  new_game_cell acc xy = Returns (st, d, r) ->
  exists st0 d0 r0, acc = Returns (st0, d0, r0) /\
                    (fresh_board st0 -> fresh_board st).
Proof.
  destruct acc as [[[st0 d0] r0]| |]; [|done|done].
  intros H. exists st0, d0, r0. split; [done|]. intros Hf.
  unfold new_game_cell in H.
  destruct (if r0 =? 0 then _ else _) as [[[c d1] r1]|]; [|done].
  destruct (if r1 >? 0 then _ else _) as [c' r'].
  destruct ((48 <=? c') && (c' <=? 52)).
  { simplify_eq. by apply fresh_board_set_clue. }
  destruct (c' =? 66).
  { simplify_eq. by apply fresh_board_set_black. }
  destruct (c' =? 83); by simplify_eq.
Qed.

Lemma new_game_fold_fresh cells : forall acc st d r,
  fold_left new_game_cell cells acc = Returns (st, d, r) ->
  exists st0 d0 r0, acc = Returns (st0, d0, r0) /\
                    (fresh_board st0 -> fresh_board st).
Proof.
  induction cells as [|c cs IH]; intros acc st d r H; cbn [fold_left] in H.
  - subst acc. by exists st, d, r.
  - apply IH in H as (st1 & d1 & r1 & H1 & Hf1).
    apply new_game_cell_fresh in H1 as (st0 & d0 & r0 & -> & Hf0).
    exists st0, d0, r0. split; [done|]. auto.
Qed.

Lemma count_lights_no_light st : no_light st -> count_lights st = 0.
Proof.
  intros Hnl. unfold count_lights.
  rewrite (filter_length_agree _ (fun _ => False) (all_cells st)).
  - by induction (all_cells st).
  - intros [a b] _. cbn [fst snd]. unfold flags_at. rewrite Hnl. done.
Qed.

(** The board [new_game] builds is well formed, its counter [nlights]
    agrees with its flags, and its lit counts are not negative. *)
Lemma new_game_fresh params desc st :
  0 <= p_w params -> 0 <= p_h params ->
  new_game params desc = Returns st ->
  wf_state st /\ nlights_ok st /\ lights_nonneg st.
Proof.
  intros Hw Hh. unfold new_game.
  destruct (fold_left _ _ _) as [[[st1 d1] r1]| |] eqn:Hfold; [|done|done].
  destruct d1; [|done]. intros H. simplify_eq.
  apply new_game_fold_fresh in Hfold as (st0 & d0 & r0 & Heq & Hf).
  simplify_eq.
  destruct (Hf (new_state_fresh params Hw Hh)) as (Hwf & Hn & Hnl & Hwu).
  split; [done|]. split.
  - unfold nlights_ok. by rewrite Hn, count_lights_no_light.
  - intros x y _ Hwhite. unfold lights_at. rewrite Hwu; [done|].
    exact Hwhite.
Qed.
(** * Further properties *)

(** ** The configuration dialog *)

Lemma atoi_print_int n rest :
  stops_digits rest -> atoi (print_int n ++ rest) = n.
Proof.
  intros Hr. unfold print_int. destruct (n <? 0) eqn:E.
  - destruct (print_uint_spec (- n)) as (Hne & Hd & Hv); [lia|].
    unfold atoi. simpl.
    rewrite (prefix_of_digits _ rest) by done. lia.
  - destruct (print_uint_spec n) as (Hne & Hd & Hv); [lia|].
    by rewrite atoi_digits.
Qed.

Lemma atoi_printed n :
  atoi (c_chars (string_of_list_ascii (print_int n))) = n.
Proof.
  rewrite c_chars_of_list by apply print_int_no_nul.
  rewrite <- (app_nil_r (print_int n)). by apply atoi_print_int.
Qed.

(** What [game_configure] puts into the dialog, [custom_params] reads
    back: every field of the parameters, for every value of it, negative
    ones included. *)
Theorem custom_params_game_configure (params : game_params) :
  custom_params (game_configure params) = Some params.
Proof.
  destruct params as [w h b s r]. unfold custom_params, game_configure.
  cbn [ci_sval ci_ival p_w p_h blackpc symm recurse].
  by rewrite !atoi_printed.
Qed.

(** ** What the solver returns *)

Lemma set_flags_frame st x y v : same_frame st (set_flags_at st x y v).
Proof. by repeat split. Qed.

Lemma marking_loop_frame (step : game_state -> point -> game_state) pts :
  (forall a p, same_frame a (step a p)) ->
  forall st0 b,
    same_frame st0
      (fst (fold_left
              (fun (acc : game_state * bool) p =>
                 if negb (has (p_f p) F_MARK) then (step (fst acc) p, true)
                 else acc) pts (st0, b))).
Proof.
  intros Hstep. induction pts as [|p pts IH]; intros st0 b; cbn [fold_left];
    [apply same_frame_refl|].
  destruct (negb (has (p_f p) F_MARK)); cbn [fst]; [|apply IH].
  eapply same_frame_trans; [apply Hstep|apply IH].
Qed.

Lemma try_solve_light_frame st x y fl li :
  same_frame st (fst (try_solve_light st x y fl li)).
Proof.
  unfold try_solve_light.
  destruct (li >? 0); [apply same_frame_refl|].
  destruct (has fl F_BLACK); [apply same_frame_refl|].
  destruct (FOREACHLIT _ _ _) as [[sx sy] n].
  destruct (n =? 1); cbn [fst]; [apply set_light_frame|apply same_frame_refl].
Qed.

Lemma try_solve_number_frame st x y fl li :
  same_frame st (fst (try_solve_number st x y fl li)).
Proof.
  unfold try_solve_number.
  destruct (negb (has fl F_NUMBERED)); [apply same_frame_refl|].
  destruct (fold_left (tsn_narrow st) _ _) as [[nl ns] pts].
  destruct (ns =? 0); [apply same_frame_refl|].
  destruct (nl =? 0).
  { eapply same_frame_trans; [apply set_flags_frame|].
    apply (marking_loop_frame
             (fun a p => set_flags_at a (p_x p) (p_y p)
                           (fl_set (flags_at a (p_x p) (p_y p)) F_IMPOSSIBLE))).
    intros a p. apply set_flags_frame. }
  destruct (nl =? ns); [|apply same_frame_refl].
  eapply same_frame_trans; [apply set_flags_frame|].
  apply (marking_loop_frame (fun a p => set_light a (p_x p) (p_y p) true)).
  intros a p. apply set_light_frame.
Qed.

Lemma solve_pass_fold_frame cells : forall st nc did,
  same_frame st (fst (fst (fold_left solve_pass_cell cells (st, nc, did)))).
Proof.
  induction cells as [|c cells IH]; intros st nc did; cbn [fold_left];
    [apply same_frame_refl|].
  unfold solve_pass_cell at 2.
  pose proof (try_solve_light_frame st (fst c) (snd c)
                (flags_at st (fst c) (snd c)) (lights_at st (fst c) (snd c)))
    as H1.
  destruct (try_solve_light st _ _ _ _) as [st1 r1]. cbn [fst] in H1.
  pose proof (try_solve_number_frame st1 (fst c) (snd c)
                (flags_at st (fst c) (snd c)) (lights_at st (fst c) (snd c)))
    as H2.
  destruct (try_solve_number st1 _ _ _ _) as [st2 r2]. cbn [fst] in H2.
  eapply same_frame_trans; [|apply IH].
  by eapply same_frame_trans.
Qed.

Lemma solve_pass_frame st : same_frame st (fst (fst (solve_pass st))).
Proof. apply solve_pass_fold_frame. Qed.

(** The completion tests read the dimensions and the two planes only. *)
Lemma grid_correct_ext st st' :
  s_w st' = s_w st -> s_h st' = s_h st ->
  lights st' = lights st -> flags st' = flags st ->
  grid_correct st' = grid_correct st.
Proof.
  destruct st as [w h n li fl c u], st' as [w' h' n' li' fl' c' u'].
  cbn [s_w s_h lights flags]. intros -> -> -> ->. reflexivity.
Qed.

Lemma depth_grows_refl mr md : depth_grows mr md md.
Proof. destruct md; simpl; [lia|done]. Qed.

Lemma depth_grows_trans mr md1 md2 md3 :
  depth_grows mr md1 md2 -> depth_grows mr md2 md3 -> depth_grows mr md1 md3.
Proof. destruct md1, md2, md3; simpl; try done. lia. Qed.

Lemma depth_grows_note mr md d :
  d <= mr -> depth_grows mr md (note_depth md d).
Proof.
  intros Hd. destruct md as [m|]; simpl; [|done].
  destruct (m <? d) eqn:E; simpl; lia.
Qed.

(** Every return of the loop of [solve_sub]: the frame of the state is
    untouched, a positive result comes with a board that passes
    [grid_correct], the result is at least [-1] and without
    [forceunique] at most [1], and the depth counter stays within the
    recursion limit. *)
Lemma solve_loop_result fuel : forall st fu mr d md n st' md',
  solve_loop fuel st fu mr d md = Returns (n, st', md') ->
  same_frame st st' /\
  (0 < n -> grid_correct st' = true) /\
  -1 <= n /\ (fu = false -> n <= 1) /\
  depth_grows mr md md'.
Proof.
  induction fuel as [|fuel IH]; intros st fu mr d md n st' md' H; [done|].
  cbn [solve_loop] in H.
  destruct (grid_overlap st).
  { simplify_eq. split_and!; try lia; try done;
      try apply same_frame_refl; apply depth_grows_refl. }
  destruct (grid_correct st) eqn:Hc.
  { simplify_eq. split_and!; try lia; try done;
      try apply same_frame_refl; apply depth_grows_refl. }
  pose proof (solve_pass_frame st) as Hf1.
  destruct (solve_pass st) as [[st1 nc] did]. cbn [fst] in Hf1.
  destruct did.
  { apply IH in H as (Hf & Hs & Hlo & Hhi & Hm).
    split_and!; try done. by eapply same_frame_trans. }
  destruct (nc =? 0).
  { simplify_eq. split_and!; try lia; try done. apply depth_grows_refl. }
  destruct (d >=? mr) eqn:Hd.
  { simplify_eq. split_and!; try lia; try done. apply depth_grows_refl. }
  destruct (choose_best st1) as [[bn bx] by_].
  destruct (negb (bn >? 0)); [done|].
  destruct (negb ((bx >=? 0) && (by_ >=? 0))); [done|].
  destruct (solve_loop fuel _ fu mr (d + 1) (note_depth md (d + 1)))
    as [[[r1 s1] m1]| |] eqn:H1; [|done|done].
  apply IH in H1 as (Hfr1 & Hs1 & Hlo1 & Hhi1 & Hm1).
  assert (same_frame st s1) as Hfs1.
  { eapply same_frame_trans; [exact Hf1|].
    eapply same_frame_trans; [apply set_flags_frame|exact Hfr1]. }
  assert (depth_grows mr md m1) as Hd1.
  { eapply depth_grows_trans; [|exact Hm1]. apply depth_grows_note. lia. }
  destruct (negb fu && (r1 >? 0)) eqn:Hearly.
  { simplify_eq. apply andb_true_iff in Hearly as [Hfu _].
    split_and!; try done. }
  destruct (solve_loop fuel _ fu mr (d + 1) (note_depth m1 (d + 1)))
    as [[[r2 s2] m2]| |] eqn:H2; [|done|done].
  apply IH in H2 as (Hfr2 & Hs2 & Hlo2 & Hhi2 & Hm2).
  rewrite dup_game_id in Hfr2.
  assert (depth_grows mr md m2) as Hd2.
  { eapply depth_grows_trans; [exact Hd1|].
    eapply depth_grows_trans; [|exact Hm2]. apply depth_grows_note. lia. }
  assert (fu = false -> r1 <= 0) as Hr1.
  { intros ->. simpl in Hearly. lia. }
  destruct (fu && ((r2 <? 0) || (r1 <? 0))) eqn:Hu.
  { simplify_eq. split_and!; try lia; done. }
  destruct (r2 <=? 0) eqn:E2.
  { simplify_eq. split_and!; try done. }
  destruct (r1 <=? 0) eqn:E1.
  { simplify_eq. split_and!; try done.
    intros _. rewrite <- Hs2 by lia. apply grid_correct_ext; try done.
    - change (s_w s1 = s_w s2).
      destruct Hfr1 as (Ha & _), Hfr2 as (Hb & _). rewrite Ha, Hb.
      by destruct (set_light_frame st1 bx by_ true) as (-> & _).
    - change (s_h s1 = s_h s2).
      destruct Hfr1 as (_ & Ha & _), Hfr2 as (_ & Hb & _). rewrite Ha, Hb.
      by destruct (set_light_frame st1 bx by_ true) as (_ & -> & _). }
  simplify_eq. split_and!; try done; try lia.
  - intros _. apply Hs1. lia.
  - intros Hfu. specialize (Hr1 Hfu). lia.
Qed.

(** ** Lit counts count lights *)

Lemma scan_down_ext blk blk' n : forall x m,
  (forall t, blk t = blk' t) -> scan_down n blk x m = scan_down n blk' x m.
Proof.
  induction n as [|n IH]; intros x m H; cbn [scan_down]; [done|].
  rewrite H. destruct (x >=? 0); [|done]. destruct (blk' x); [done|].
  by apply IH.
Qed.

Lemma scan_up_ext blk blk' lim n : forall x m,
  (forall t, blk t = blk' t) ->
  scan_up n blk lim x m = scan_up n blk' lim x m.
Proof.
  induction n as [|n IH]; intros x m H; cbn [scan_up]; [done|].
  rewrite H. destruct (x <? lim); [|done]. destruct (blk' x); [done|].
  by apply IH.
Qed.

Lemma list_lights_ext st st' x y o :
  s_w st' = s_w st -> s_h st' = s_h st ->
  (forall a b, is_black st' a b = is_black st a b) ->
  list_lights st' x y o = list_lights st x y o.
Proof.
  intros Hw Hh Hb. unfold list_lights. rewrite Hw, Hh.
  f_equal; (apply scan_down_ext || apply scan_up_ext); intros t; apply Hb.
Qed.

Lemma is_black_set_light st x y on a b :
  is_black (set_light st x y on) a b = is_black st a b.
Proof.
  apply same_board_is_black, same_board_set_light, same_board_refl.
Qed.

Lemma all_cells_ext st st' :
  s_w st' = s_w st -> s_h st' = s_h st -> all_cells st' = all_cells st.
Proof. intros Hw Hh. unfold all_cells. by rewrite Hw, Hh. Qed.

Lemma lit_ok_set_flags st a b v :
  wf_state st -> in_grid st a b -> lit_ok st ->
  has v F_LIGHT = has (flags_at st a b) F_LIGHT ->
  has v F_BLACK = has (flags_at st a b) F_BLACK ->
  lit_ok (set_flags_at st a b v).
Proof.
  intros Hwf Hin Hok Hl Hb x y Hxy Hw.
  rewrite is_black_set_flags in Hw by done.
  change (lights_at (set_flags_at st a b v) x y) with (lights_at st x y).
  rewrite (Hok x y Hxy Hw). f_equal. unfold lit_from.
  change (all_cells (set_flags_at st a b v)) with (all_cells st).
  apply filter_length_agree. intros [p q] Hc. cbn [fst snd].
  apply elem_of_all_cells in Hc.
  rewrite (list_lights_ext st (set_flags_at st a b v)); [|done|done|].
  2:{ intros ? ?. by apply is_black_set_flags. }
  rewrite (flags_at_set_flags st a b v p q Hwf Hin Hc).
  case_decide as E; [|done]. simplify_eq. by rewrite Hl.
Qed.

Lemma lit_ok_set_light st x y on :
  wf_state st -> in_grid st x y -> is_black st x y = false ->
  lit_ok st -> lit_ok (set_light st x y on).
Proof.
  intros Hwf Hin Hw Hok.
  destruct (bool_decide (has (flags_at st x y) F_LIGHT = on)) eqn:Hb.
  { apply bool_decide_eq_true in Hb. by rewrite set_light_same. }
  apply bool_decide_eq_false in Hb.
  destruct (set_light_change st x y on Hwf Hin Hw Hb)
    as (Hfl & Hsw & Hsh & _ & _ & _ & Hwf' & Hsee & Hnot & _).
  intros a b Hab Hwab.
  assert (in_grid st a b) as Hab' by (unfold in_grid in *; by rewrite <- Hsw, <- Hsh).
  rewrite is_black_set_light in Hwab.
  specialize (Hok a b Hab' Hwab).
  unfold lit_from in *. rewrite (all_cells_ext st _ Hsw Hsh).
  pose proof (filter_length_change
    (fun l => has (flags_at st (fst l) (snd l)) F_LIGHT = true /\
              (a, b) ∈ foreachlit_cells (list_lights st (fst l) (snd l) true))
    (fun l => has (flags_at (set_light st x y on) (fst l) (snd l)) F_LIGHT
              = true /\
              (a, b) ∈ foreachlit_cells
                         (list_lights (set_light st x y on) (fst l) (snd l)
                                      true))
    (all_cells st) (x, y) (all_cells_NoDup st)
    ltac:(by apply elem_of_all_cells)) as H.
  cbn [fst snd] in H.
  assert (forall p q, list_lights (set_light st x y on) p q true
                      = list_lights st p q true) as Hll.
  { intros p q. apply list_lights_ext; [done|done|].
    intros ? ?. apply is_black_set_light. }
  assert (forall p q, in_grid st p q ->
            flags_at (set_light st x y on) p q
            = if decide ((p, q) = (x, y))
              then (if on then fl_set (flags_at st x y) F_LIGHT
                    else fl_clear (flags_at st x y) F_LIGHT)
              else flags_at st p q) as Hfa.
  { intros p q Hpq.
    rewrite (flags_at_ext (set_flags_at st x y _) _ p q Hfl) by done.
    by apply flags_at_set_flags. }
  specialize (H ltac:(
    intros [p q] Hc Hne; apply elem_of_all_cells in Hc; cbn [fst snd];
    rewrite Hll, (Hfa p q Hc); by rewrite decide_False)).
  rewrite Hll, (Hfa x y Hin), (decide_True (P := (x, y) = (x, y))) in H
    by done.
  rewrite has_light_after in H.
  pose proof (list_lights_sees st x y a b Hin Hw) as Hiff.
  destruct (decide ((a, b) ∈ foreachlit_cells (list_lights st x y true)))
    as [Hm|Hm].
  - assert (sees st x y a b) as Hs by (by apply Hiff).
    rewrite (Hsee a b Hs), Hok.
    destruct on, (has (flags_at st x y) F_LIGHT) eqn:Hl; try done;
      repeat case_decide; try lia; exfalso; intuition congruence.
  - assert (~ sees st x y a b) as Hs by (by rewrite <- Hiff).
    rewrite (Hnot a b Hab' Hs), Hok.
    repeat case_decide; try lia; exfalso; intuition congruence.
Qed.

Lemma wf_state_set_light st x y on :
  wf_state st -> in_grid st x y -> is_black st x y = false ->
  wf_state (set_light st x y on).
Proof.
  intros Hwf Hin Hw.
  destruct (bool_decide (has (flags_at st x y) F_LIGHT = on)) eqn:Hb.
  { apply bool_decide_eq_true in Hb. by rewrite set_light_same. }
  apply bool_decide_eq_false in Hb.
  by destruct (set_light_change st x y on Hwf Hin Hw Hb)
    as (_ & _ & _ & _ & _ & _ & Hwf' & _).
Qed.

(** The flags [set_light] leaves: the [F_LIGHT] flag of its square is
    [on], every other flag of every square is as before. *)
Lemma has_flags_at_set_light st x y on a b k :
  wf_state st -> in_grid st x y -> is_black st x y = false ->
  in_grid st a b -> 0 <= k ->
  has (flags_at (set_light st x y on) a b) (2 ^ k) =
    if decide ((a, b) = (x, y) /\ k = 4) then on
    else has (flags_at st a b) (2 ^ k).
Proof.
  intros Hwf Hin Hw Hab Hk.
  destruct (bool_decide (has (flags_at st x y) F_LIGHT = on)) eqn:Hb.
  { apply bool_decide_eq_true in Hb. rewrite set_light_same by done.
    case_decide as E; [|done]. destruct E as [E ->]. by simplify_eq. }
  apply bool_decide_eq_false in Hb.
  destruct (set_light_change st x y on Hwf Hin Hw Hb)
    as (Hfl & Hsw & _).
  rewrite (flags_at_ext (set_flags_at st x y _) _ a b Hfl) by done.
  rewrite flags_at_set_flags by done.
  destruct (decide ((a, b) = (x, y))) as [E|E].
  - simplify_eq. change F_LIGHT with (2 ^ 4).
    destruct on; [rewrite has_fl_set by lia|rewrite has_fl_clear by lia];
      case_decide as E'.
    + destruct E' as [_ ->]. by rewrite orb_true_r.
    + destruct (4 =? k) eqn:E4; [exfalso; apply E'; split; [done|lia]|].
      by rewrite orb_false_r.
    + destruct E' as [_ ->]. by rewrite andb_false_r.
    + destruct (4 =? k) eqn:E4; [exfalso; apply E'; split; [done|lia]|].
      by rewrite andb_true_r.
  - rewrite decide_False; [done|]. by intros [? _].
Qed.

(** [set_light] leaves the [lights] entry of a black square alone: that
    entry is the clue. *)
Lemma lights_at_set_light_black st x y on a b :
  wf_state st -> in_grid st x y -> is_black st x y = false ->
  in_grid st a b -> is_black st a b = true ->
  lights_at (set_light st x y on) a b = lights_at st a b.
Proof.
  intros Hwf Hin Hw Hab Hbl.
  destruct (bool_decide (has (flags_at st x y) F_LIGHT = on)) eqn:Hb.
  { apply bool_decide_eq_true in Hb. by rewrite set_light_same. }
  apply bool_decide_eq_false in Hb.
  destruct (set_light_change st x y on Hwf Hin Hw Hb)
    as (_ & _ & _ & _ & _ & _ & _ & _ & Hnot & _).
  apply Hnot; [done|]. intros Hs. apply sees_white in Hs. congruence.
Qed.

Lemma fresh_board_lit_ok st : fresh_board st -> lit_ok st.
Proof.
  intros (Hwf & _ & Hnl & Hz) x y Hin Hw.
  unfold lights_at. rewrite Hz by exact Hw.
  unfold lit_from.
  rewrite (filter_length_agree _ (fun _ => False) (all_cells st)).
  - by induction (all_cells st).
  - intros [a b] _. cbn [fst snd]. unfold flags_at. rewrite Hnl.
    split; [by intros [? _]|done].
Qed.

Lemma fresh_board_exclusive st : fresh_board st -> exclusive st.
Proof.
  intros (_ & _ & Hnl & _) x y _. unfold flags_at. by rewrite Hnl.
Qed.

Lemma fresh_board_position st : fresh_board st -> no_mark st -> position st.
Proof.
  intros Hf Hnm. split; [by apply fresh_board_lit_ok|].
  split; [|split; [by apply fresh_board_exclusive|]].
  - intros x y _ Hl. destruct Hf as (_ & _ & Hnl & _).
    unfold flags_at in Hl. by rewrite Hnl in Hl.
  - intros x y _ Hi. unfold flags_at in Hi. by rewrite Hnm in Hi.
Qed.

(** ** Invariants of [execute_move] *)

Section move_invariant.

Variable I : game_state -> Prop.
Hypothesis I_command : forall c m st st' m',
  I st -> move_command c m st = Some (st', m') -> I st'.
Hypothesis I_completed : forall st, I st -> I (with_completed st 1).

Lemma move_loop_invariant fuel : forall move st st',
  I st -> move_loop fuel move st = Returns (Some st') -> I st'.
Proof using I_command.
  induction fuel as [|fuel IH]; intros move st st' Hi H.
  - destruct move; simpl in H; by simplify_eq.
  - destruct move as [|c move]; simpl in H; [by simplify_eq|].
    destruct (move_command c move st) as [[r m]|] eqn:Hc; [|done].
    apply I_command in Hc; [|done].
    destruct m as [|c' m']; [by eapply IH|].
    destruct (code c' =? 59); [|done]. by eapply IH.
Qed.

Lemma execute_move_invariant (hp hp' : gmap loc game_state) state ret s m :
  hp !! state = Some s -> I s ->
  execute_move state m hp = (Some ret, hp') ->
  exists s', hp' !! ret = Some s' /\ I s'.
Proof using I_command I_completed.
  intros Hs Hi He.
  rewrite (execute_move_run _ _ _ _ Hs), dup_game_id in He.
  unfold run_move in He.
  destruct (c_chars m) as [|c cs]; [done|].
  destruct (move_loop _ _ _) as [[r|]| |] eqn:Hl; try done.
  apply move_loop_invariant in Hl; [|done].
  simplify_eq. eexists. split; [apply lookup_insert_eq|].
  destruct (grid_correct r); [by apply I_completed|done].
Qed.

End move_invariant.

(** The range test of [execute_move], passed. *)
Lemma move_range_test st x y :
  (x <? 0) || (y <? 0) || (x >=? s_w st) || (y >=? s_h st) = false ->
  in_grid st x y.
Proof.
  intros Hr. unfold in_grid.
  destruct (x <? 0) eqn:E1, (y <? 0) eqn:E2, (x >=? s_w st) eqn:E3,
    (y >=? s_h st) eqn:E4; simpl in Hr; try done. lia.
Qed.

Lemma move_command_lit_ok c move st st' move' :
  wf_state st /\ lit_ok st ->
  move_command c move st = Some (st', move') ->
  wf_state st' /\ lit_ok st'.
Proof.
  intros [Hwf Hok]. unfold move_command.
  destruct (code c =? 83); [by intros; simplify_eq|].
  destruct ((code c =? 76) || (code c =? 73)); [|done].
  destruct (sscanf_d_comma_d move) as [[[x y] m]|]; [|done].
  destruct ((x <? 0) || (y <? 0) || (x >=? s_w st) || (y >=? s_h st)) eqn:Hr;
    [done|].
  apply move_range_test in Hr as Hin.
  destruct (has (flags_at st x y) F_BLACK) eqn:Hb; [done|].
  destruct (code c =? 76); intros H; simplify_eq.
  - set (st1 := set_flags_at st x y (fl_clear (flags_at st x y) F_IMPOSSIBLE)).
    assert (wf_state st1) as Hwf1 by (by apply wf_state_set_flags).
    assert (lit_ok st1) as Hok1.
    { apply lit_ok_set_flags; try done; other_flag. }
    assert (is_black st1 x y = false) as Hw1.
    { unfold st1. rewrite is_black_set_flags; [done|]. other_flag. }
    split; [by apply wf_state_set_light|by apply lit_ok_set_light].
  - assert (wf_state (set_light st x y false)) as Hwf1
      by (by apply wf_state_set_light).
    destruct (set_light_frame st x y false) as (Hw1 & Hh1 & _).
    split; [by apply wf_state_set_flags|].
    apply lit_ok_set_flags; try done.
    + unfold in_grid. by rewrite Hw1, Hh1.
    + by apply lit_ok_set_light.
    + other_flag.
    + other_flag.
Qed.

Lemma in_grid_frame st st' a b :
  s_w st' = s_w st -> s_h st' = s_h st -> in_grid st' a b -> in_grid st a b.
Proof. unfold in_grid. by intros -> ->. Qed.

Lemma move_command_exclusive c move st st' move' :
  wf_state st /\ exclusive st ->
  move_command c move st = Some (st', move') ->
  wf_state st' /\ exclusive st'.
Proof.
  intros [Hwf Hex]. unfold move_command.
  destruct (code c =? 83); [by intros; simplify_eq|].
  destruct ((code c =? 76) || (code c =? 73)); [|done].
  destruct (sscanf_d_comma_d move) as [[[x y] m]|]; [|done].
  destruct ((x <? 0) || (y <? 0) || (x >=? s_w st) || (y >=? s_h st)) eqn:Hr;
    [done|].
  apply move_range_test in Hr as Hin.
  destruct (has (flags_at st x y) F_BLACK) eqn:Hb; [done|].
  destruct (code c =? 76); intros H; simplify_eq.
  - set (st1 := set_flags_at st x y (fl_clear (flags_at st x y) F_IMPOSSIBLE)).
    assert (wf_state st1) as Hwf1 by (by apply wf_state_set_flags).
    assert (is_black st1 x y = false) as Hw1.
    { unfold st1. rewrite is_black_set_flags; [done|]. other_flag. }
    split; [by apply wf_state_set_light|].
    intros a b Hab.
    destruct (set_light_frame st1 x y (negb (has (flags_at st x y) F_LIGHT)))
      as (Hsw & Hsh & _).
    assert (in_grid st a b) as Hab'
      by (by apply (in_grid_frame st _ a b Hsw Hsh)).
    change F_LIGHT with (2 ^ 4). change F_IMPOSSIBLE with (2 ^ 3).
    rewrite !has_flags_at_set_light by (done || lia).
    rewrite (decide_False (P := _ /\ 3 = 4)) by (intros [_ ?]; lia).
    unfold st1. rewrite flags_at_set_flags by done.
    change F_IMPOSSIBLE with (2 ^ 3).
    destruct (decide ((a, b) = (x, y))) as [E|E].
    + rewrite !has_fl_clear by lia. change (3 =? 3) with true.
      cbn [negb]. by rewrite !andb_false_r.
    + rewrite decide_False by (by intros [? _]).
      change (2 ^ 4) with F_LIGHT. change (2 ^ 3) with F_IMPOSSIBLE.
      by apply Hex.
  - assert (wf_state (set_light st x y false)) as Hwf1
      by (by apply wf_state_set_light).
    destruct (set_light_frame st x y false) as (Hsw & Hsh & _).
    split; [by apply wf_state_set_flags|].
    intros a b Hab. change (in_grid (set_light st x y false) a b) in Hab.
    assert (in_grid st a b) as Hab'
      by (by apply (in_grid_frame st _ a b Hsw Hsh)).
    assert (in_grid (set_light st x y false) x y) as Hin1
      by (by apply (in_grid_frame _ st x y)).
    rewrite flags_at_set_flags by done.
    change F_LIGHT with (2 ^ 4). change F_IMPOSSIBLE with (2 ^ 3).
    destruct (decide ((a, b) = (x, y))) as [E|E].
    + rewrite !has_fl_toggle by lia. change (3 =? 4) with false.
      rewrite xorb_false_r, has_flags_at_set_light by (done || lia).
      by rewrite decide_True.
    + rewrite !has_flags_at_set_light by (done || lia).
      rewrite !decide_False by (by intros [? _]).
      change (2 ^ 4) with F_LIGHT. change (2 ^ 3) with F_IMPOSSIBLE.
      by apply Hex.
Qed.

Lemma same_puzzle_refl s : same_puzzle s s.
Proof. by repeat split. Qed.

Lemma same_puzzle_trans s st st' :
  same_puzzle s st -> same_puzzle st st' -> same_puzzle s st'.
Proof.
  intros (Hw & Hh & Hp) (Hw' & Hh' & Hp').
  split; [congruence|]. split; [congruence|]. intros x y Hin.
  assert (in_grid st x y) as Hin'
    by (unfold in_grid in *; by rewrite Hw, Hh).
  destruct (Hp x y Hin) as (Hb & Hn & Hc).
  destruct (Hp' x y Hin') as (Hb' & Hn' & Hc').
  split; [congruence|]. split; [congruence|]. intros Hbl.
  rewrite Hc', Hc; try done. unfold is_black in *. congruence.
Qed.

Lemma same_puzzle_set_flags st x y v :
  wf_state st -> in_grid st x y ->
  has v F_BLACK = has (flags_at st x y) F_BLACK ->
  has v F_NUMBERED = has (flags_at st x y) F_NUMBERED ->
  same_puzzle st (set_flags_at st x y v).
Proof.
  intros Hwf Hin Hb Hn. split; [done|]. split; [done|]. intros a b Hab.
  rewrite flags_at_set_flags by done.
  case_decide as E; [|done]. by simplify_eq.
Qed.

Lemma same_puzzle_set_light st x y on :
  wf_state st -> in_grid st x y -> is_black st x y = false ->
  same_puzzle st (set_light st x y on).
Proof.
  intros Hwf Hin Hw.
  destruct (set_light_frame st x y on) as (Hsw & Hsh & _).
  split; [done|]. split; [done|]. intros a b Hab.
  change F_BLACK with (2 ^ 0). change F_NUMBERED with (2 ^ 1).
  rewrite !has_flags_at_set_light by (done || lia).
  rewrite !decide_False by (intros [_ ?]; lia).
  split; [done|]. split; [done|]. intros Hbl.
  by apply lights_at_set_light_black.
Qed.

Lemma move_command_same_puzzle s c move st st' move' :
  wf_state st /\ same_puzzle s st ->
  move_command c move st = Some (st', move') ->
  wf_state st' /\ same_puzzle s st'.
Proof.
  intros [Hwf Hsp]. unfold move_command.
  destruct (code c =? 83); [by intros; simplify_eq|].
  destruct ((code c =? 76) || (code c =? 73)); [|done].
  destruct (sscanf_d_comma_d move) as [[[x y] m]|]; [|done].
  destruct ((x <? 0) || (y <? 0) || (x >=? s_w st) || (y >=? s_h st)) eqn:Hr;
    [done|].
  apply move_range_test in Hr as Hin.
  destruct (has (flags_at st x y) F_BLACK) eqn:Hb; [done|].
  destruct (code c =? 76); intros H; simplify_eq.
  - set (st1 := set_flags_at st x y (fl_clear (flags_at st x y) F_IMPOSSIBLE)).
    assert (wf_state st1) as Hwf1 by (by apply wf_state_set_flags).
    assert (is_black st1 x y = false) as Hw1.
    { unfold st1. rewrite is_black_set_flags; [done|]. other_flag. }
    split; [by apply wf_state_set_light|].
    eapply same_puzzle_trans; [exact Hsp|].
    eapply same_puzzle_trans; [|by apply same_puzzle_set_light].
    apply same_puzzle_set_flags; try done; other_flag.
  - assert (wf_state (set_light st x y false)) as Hwf1
      by (by apply wf_state_set_light).
    destruct (set_light_frame st x y false) as (Hsw & Hsh & _).
    split; [by apply wf_state_set_flags|].
    eapply same_puzzle_trans; [exact Hsp|].
    eapply same_puzzle_trans; [by apply same_puzzle_set_light|].
    apply same_puzzle_set_flags; try done; try other_flag.
    unfold in_grid in *. by rewrite Hsw, Hsh.
Qed.

Lemma white_1x1_fresh : fresh_board white_1x1.
Proof. apply (new_state_fresh (mk_game_params 1 1 0 0 0)); simpl; lia. Qed.

Lemma white_1x1_wf : wf_state white_1x1.
Proof. apply white_1x1_fresh. Qed.

Lemma has_flags_at_set_flags st x y v a b k :
  wf_state st -> in_grid st x y -> in_grid st a b ->
  has (flags_at (set_flags_at st x y v) a b) k =
    if decide ((a, b) = (x, y)) then has v k else has (flags_at st a b) k.
Proof.
  intros Hwf Hin Hab. rewrite flags_at_set_flags by done.
  by case_decide.
Qed.

Lemma move_command_lights_on_white c move st st' move' :
  wf_state st -> lights_on_white st ->
  move_command c move st = Some (st', move') ->
  lights_on_white st'.
Proof.
  intros Hwf Hlw. unfold move_command.
  destruct (code c =? 83); [by intros; simplify_eq|].
  destruct ((code c =? 76) || (code c =? 73)); [|done].
  destruct (sscanf_d_comma_d move) as [[[x y] m]|]; [|done].
  destruct ((x <? 0) || (y <? 0) || (x >=? s_w st) || (y >=? s_h st)) eqn:Hr;
    [done|].
  apply move_range_test in Hr as Hin.
  destruct (has (flags_at st x y) F_BLACK) eqn:Hb; [done|].
  destruct (code c =? 76); intros H; simplify_eq.
  - set (st1 := set_flags_at st x y (fl_clear (flags_at st x y) F_IMPOSSIBLE)).
    assert (wf_state st1) as Hwf1 by (by apply wf_state_set_flags).
    assert (forall a b, is_black st1 a b = is_black st a b) as Hbl.
    { intros a b. unfold st1. apply is_black_set_flags. other_flag. }
    intros a b Hab Hl.
    destruct (set_light_frame st1 x y (negb (has (flags_at st x y) F_LIGHT)))
      as (Hsw & Hsh & _).
    assert (in_grid st a b) as Hab'
      by (by apply (in_grid_frame st _ a b Hsw Hsh)).
    rewrite is_black_set_light, Hbl.
    change F_LIGHT with (2 ^ 4) in Hl.
    rewrite has_flags_at_set_light in Hl by (done || lia || by rewrite Hbl).
    destruct (decide ((a, b) = (x, y) /\ 4 = 4)) as [[E _]|E].
    + by simplify_eq.
    + apply (Hlw a b Hab'). unfold st1 in Hl.
      rewrite has_flags_at_set_flags in Hl by done.
      destruct (decide ((a, b) = (x, y))) as [E'|E']; [|done].
      exfalso. by apply E.
  - assert (wf_state (set_light st x y false)) as Hwf1
      by (by apply wf_state_set_light).
    destruct (set_light_frame st x y false) as (Hsw & Hsh & _).
    intros a b Hab Hl. change (in_grid (set_light st x y false) a b) in Hab.
    assert (in_grid st a b) as Hab'
      by (by apply (in_grid_frame st _ a b Hsw Hsh)).
    assert (in_grid (set_light st x y false) x y) as Hin1
      by (by apply (in_grid_frame _ st x y)).
    rewrite is_black_set_flags by other_flag.
    rewrite is_black_set_light.
    rewrite has_flags_at_set_flags in Hl by done.
    change F_LIGHT with (2 ^ 4) in Hl. change F_IMPOSSIBLE with (2 ^ 3) in Hl.
    destruct (decide ((a, b) = (x, y))) as [E|E].
    + simplify_eq. done.
    + rewrite has_flags_at_set_light in Hl by (done || lia).
      rewrite decide_False in Hl by (by intros [? _]).
      by apply (Hlw a b Hab').
Qed.

(** Moves keep the lit counts exact: when the [lights] entry of every
    white square is the number of lights that shine on it, the same
    holds in the state [execute_move] returns; and when the lights stood
    on white squares, they still do. *)
Theorem execute_move_lit_ok (hp hp' : gmap loc game_state) state ret s m :
  hp !! state = Some s ->
  wf_state s -> lit_ok s ->
  execute_move state m hp = (Some ret, hp') ->
  exists s', hp' !! ret = Some s' /\ wf_state s' /\ lit_ok s' /\
             (lights_on_white s -> lights_on_white s').
Proof.
  intros Hs Hwf Hok He.
  eapply (execute_move_invariant
            (fun st => wf_state st /\ lit_ok st /\
                       (lights_on_white s -> lights_on_white st)));
    [| |exact Hs| |exact He]; try done.
  intros c mv st st' mv' (Hwf1 & Hok1 & Hlw1) Hc.
  destruct (move_command_lit_ok c mv st st' mv' (conj Hwf1 Hok1) Hc)
    as [Hwf2 Hok2].
  split; [done|]. split; [done|]. intros Hlw.
  by apply (move_command_lights_on_white c mv st st' mv' Hwf1 (Hlw1 Hlw)).
Qed.

(** The first light on the empty 1x1 board. *)
Lemma execute_move_lit_ok_witness :
  exists s',
    (<[2%positive := mk_game_state 1 1 1 [1] [16] 1 0]>
       ({[1%positive := white_1x1]} : gmap loc game_state)) !! 2%positive
    = Some s' /\ wf_state s' /\ lit_ok s' /\
    (lights_on_white white_1x1 -> lights_on_white s').
Proof.
  apply (execute_move_lit_ok {[1%positive := white_1x1]} _
           1%positive 2%positive white_1x1 "L0,0").
  - reflexivity.
  - exact white_1x1_wf.
  - exact (fresh_board_lit_ok _ white_1x1_fresh).
  - vm_compute. reflexivity.
Defined.

Lemma move_command_marks_on_white c move st st' move' :
  wf_state st -> marks_on_white st ->
  move_command c move st = Some (st', move') ->
  marks_on_white st'.
Proof.
  intros Hwf Hmw. unfold move_command.
  destruct (code c =? 83); [by intros; simplify_eq|].
  destruct ((code c =? 76) || (code c =? 73)); [|done].
  destruct (sscanf_d_comma_d move) as [[[x y] m]|]; [|done].
  destruct ((x <? 0) || (y <? 0) || (x >=? s_w st) || (y >=? s_h st)) eqn:Hr;
    [done|].
  apply move_range_test in Hr as Hin.
  destruct (has (flags_at st x y) F_BLACK) eqn:Hb; [done|].
  destruct (code c =? 76); intros H; simplify_eq.
  - set (st1 := set_flags_at st x y (fl_clear (flags_at st x y) F_IMPOSSIBLE)).
    assert (wf_state st1) as Hwf1 by (by apply wf_state_set_flags).
    assert (forall a b, is_black st1 a b = is_black st a b) as Hbl.
    { intros a b. unfold st1. apply is_black_set_flags. other_flag. }
    intros a b Hab Hi.
    destruct (set_light_frame st1 x y (negb (has (flags_at st x y) F_LIGHT)))
      as (Hsw & Hsh & _).
    assert (in_grid st a b) as Hab'
      by (by apply (in_grid_frame st _ a b Hsw Hsh)).
    rewrite is_black_set_light, Hbl.
    change F_IMPOSSIBLE with (2 ^ 3) in Hi.
    rewrite has_flags_at_set_light in Hi by (done || lia || by rewrite Hbl).
    rewrite decide_False in Hi by (intros [_ ?]; lia).
    unfold st1 in Hi. rewrite has_flags_at_set_flags in Hi by done.
    destruct (decide ((a, b) = (x, y))) as [E|E].
    + change F_IMPOSSIBLE with (2 ^ 3) in Hi.
      rewrite has_fl_clear in Hi by lia. change (3 =? 3) with true in Hi.
      by rewrite andb_false_r in Hi.
    + by apply (Hmw a b Hab').
  - assert (wf_state (set_light st x y false)) as Hwf1
      by (by apply wf_state_set_light).
    destruct (set_light_frame st x y false) as (Hsw & Hsh & _).
    intros a b Hab Hi. change (in_grid (set_light st x y false) a b) in Hab.
    assert (in_grid st a b) as Hab'
      by (by apply (in_grid_frame st _ a b Hsw Hsh)).
    assert (in_grid (set_light st x y false) x y) as Hin1
      by (by apply (in_grid_frame _ st x y)).
    rewrite is_black_set_flags by other_flag.
    rewrite is_black_set_light.
    rewrite has_flags_at_set_flags in Hi by done.
    change F_IMPOSSIBLE with (2 ^ 3) in Hi.
    destruct (decide ((a, b) = (x, y))) as [E|E].
    + by simplify_eq.
    + rewrite has_flags_at_set_light in Hi by (done || lia).
      rewrite decide_False in Hi by (by intros [? _]).
      by apply (Hmw a b Hab').
Qed.

(** Moves keep lights and impossible marks apart: when no square of the
    state is both a light and marked impossible, none is in the state
    [execute_move] returns; and when the impossible marks stood on white
    squares, they still do. *)
Theorem execute_move_exclusive (hp hp' : gmap loc game_state) state ret s m :
  hp !! state = Some s ->
  wf_state s -> exclusive s ->
  execute_move state m hp = (Some ret, hp') ->
  exists s', hp' !! ret = Some s' /\ wf_state s' /\ exclusive s' /\
             (marks_on_white s -> marks_on_white s').
Proof.
  intros Hs Hwf Hex He.
  eapply (execute_move_invariant
            (fun st => wf_state st /\ exclusive st /\
                       (marks_on_white s -> marks_on_white st)));
    [| |exact Hs| |exact He]; try done.
  intros c mv st st' mv' (Hwf1 & Hex1 & Hmw1) Hc.
  destruct (move_command_exclusive c mv st st' mv' (conj Hwf1 Hex1) Hc)
    as [Hwf2 Hex2].
  split; [done|]. split; [done|]. intros Hmw.
  by apply (move_command_marks_on_white c mv st st' mv' Hwf1 (Hmw1 Hmw)).
Qed.

(** A light put on a square that was marked impossible. *)
Lemma execute_move_exclusive_witness :
  exists s',
    (<[2%positive := mk_game_state 1 1 1 [1] [16] 1 0]>
       ({[1%positive := impossible_1x1]} : gmap loc game_state)) !! 2%positive
    = Some s' /\ wf_state s' /\ exclusive s' /\
    (marks_on_white impossible_1x1 -> marks_on_white s').
Proof.
  apply (execute_move_exclusive {[1%positive := impossible_1x1]} _
           1%positive 2%positive impossible_1x1 "L0,0").
  - reflexivity.
  - unfold wf_state. simpl. repeat split; lia.
  - intros x y [Hx Hy]. simpl in Hx, Hy.
    assert (x = 0) as -> by lia. assert (y = 0) as -> by lia. reflexivity.
  - vm_compute. reflexivity.
Defined.

(** Moves play on the puzzle and never change it: the state
    [execute_move] returns has the dimensions, the black squares and the
    clues of the state it was given. *)
Theorem execute_move_same_puzzle (hp hp' : gmap loc game_state)
    state ret s m :
  hp !! state = Some s ->
  wf_state s ->
  execute_move state m hp = (Some ret, hp') ->
  exists s', hp' !! ret = Some s' /\ wf_state s' /\ same_puzzle s s'.
Proof.
  intros Hs Hwf He.
  eapply (execute_move_invariant (fun st => wf_state st /\ same_puzzle s st));
    [| |exact Hs| |exact He]; try done.
  intros. by eapply move_command_same_puzzle.
Qed.

Lemma execute_move_same_puzzle_witness :
  exists s',
    (<[2%positive := mk_game_state 1 1 1 [1] [16] 1 0]>
       ({[1%positive := white_1x1]} : gmap loc game_state)) !! 2%positive
    = Some s' /\ wf_state s' /\ same_puzzle white_1x1 s'.
Proof.
  apply (execute_move_same_puzzle {[1%positive := white_1x1]} _
           1%positive 2%positive white_1x1 "L0,0").
  - reflexivity.
  - exact white_1x1_wf.
  - vm_compute. reflexivity.
Defined.

(** ** What [dosolve] promises *)

Lemma dosolve_result fuel st allowguess forceunique md n st' md' :
  dosolve fuel st allowguess forceunique md = Returns (n, st', md') ->
  -1 <= n /\ (0 < n -> grid_correct st' = true) /\
  (forceunique = false -> n <= 1) /\
  depth_grows (if allowguess then MAXRECURSE else 0) md md'.
Proof.
  unfold dosolve, solve_sub. intros H.
  apply solve_loop_result in H as (_ & Hs & Hlo & Hhi & Hd).
  split_and!; try done.
  eapply depth_grows_trans; [|exact Hd]. apply depth_grows_note.
  destruct allowguess; unfold MAXRECURSE; lia.
Qed.

(** [dosolve] keeps the promise of its comment: when it returns a
    positive number, the state it leaves passes [grid_correct].  This
    holds for every input state, every setting of the two switches and
    every branch of the recursion, the copy-back included. *)
Theorem dosolve_positive_solved fuel st allowguess forceunique md n st' md' :
  dosolve fuel st allowguess forceunique md = Returns (n, st', md') ->
  0 < n -> grid_correct st' = true.
Proof.
  intros H Hn. apply dosolve_result in H as (_ & Hs & _). by apply Hs.
Qed.

Lemma dosolve_positive_solved_witness :
  grid_correct (mk_game_state 1 1 1 [1] [16] 0 0) = true.
Proof.
  apply (dosolve_positive_solved 3 white_1x1 true false None 1 _ None);
    [vm_compute; reflexivity|lia].
Defined.

(** Without [forceunique] the result of [dosolve] is no count: it is
    [-1] (recursion limit reached), [0] (no solution found) or [1]. *)
Theorem dosolve_first_solution fuel st allowguess md n st' md' :
  dosolve fuel st allowguess false md = Returns (n, st', md') ->
  n = -1 \/ n = 0 \/ n = 1.
Proof.
  intros H. apply dosolve_result in H as (Hlo & _ & Hhi & _).
  specialize (Hhi eq_refl). lia.
Qed.

(** The 2x2 board without black squares has two solutions; one is
    reported. *)
Lemma dosolve_first_solution_witness : 1 = -1 \/ 1 = 0 \/ 1 = 1.
Proof.
  apply (dosolve_first_solution 6 white_2x2 true (Some 0) 1
           (mk_game_state 2 2 1 [2; 1; 1; 2] [8; 16; 16; 0] 0 0) (Some 2)).
  vm_compute. reflexivity.
Defined.

(** The depth counter after [dosolve]: it is still there, it has not
    decreased, and it is at most the larger of its old value and the
    recursion limit, which is [MAXRECURSE] with [allowguess] and [0]
    without. *)
Theorem dosolve_depth fuel st allowguess forceunique m n st' md' :
  dosolve fuel st allowguess forceunique (Some m) = Returns (n, st', md') ->
  exists m', md' = Some m' /\
             m <= m' <= Z.max m (if allowguess then MAXRECURSE else 0).
Proof.
  intros H. apply dosolve_result in H as (_ & _ & _ & Hg).
  destruct md' as [m'|]; [|done]. by exists m'.
Qed.

Lemma dosolve_depth_witness :
  exists m', Some 2 = Some m' /\ 0 <= m' <= Z.max 0 MAXRECURSE.
Proof.
  apply (dosolve_depth 6 white_2x2 true false 0 1
           (mk_game_state 2 2 1 [2; 1; 1; 2] [8; 16; 16; 0] 0 0) (Some 2)).
  vm_compute. reflexivity.
Defined.

(** [puzzle_is_good]: the depth it reports is between [0] and
    [MAXRECURSE]; for an easy puzzle ([recurse = 0]) it is [0], so the
    test [!params->recurse && *mdepth > 0] never rejects anything; and a
    puzzle is called good only when the solver left it solved. *)
Theorem puzzle_is_good_result fuel st params ok st' mdepth :
  puzzle_is_good fuel st params = Returns (ok, st', mdepth) ->
  0 <= mdepth <= MAXRECURSE /\
  (recurse params = 0 -> mdepth = 0) /\
  (ok = true -> grid_correct st' = true).
Proof.
  unfold puzzle_is_good. intros H.
  destruct (dosolve fuel _ _ true (Some 0)) as [[[nsol s1] md]| |] eqn:Hd;
    [|done|done].
  apply dosolve_result in Hd as (_ & Hs & _ & Hm).
  destruct md as [m'|]; [|done]. cbn [default from_option depth_grows] in H, Hm.
  unfold id in H.
  assert (0 <= m' <= MAXRECURSE /\ (recurse params = 0 -> m' = 0)) as [[Hr1 Hr2] Hz].
  { destruct (recurse params =? 0) eqn:E; cbn [negb] in Hm;
      unfold MAXRECURSE in *; split; lia. }
  destruct ((recurse params =? 0) && (m' >? 0));
    [simplify_eq; by split_and!|].
  destruct (nsol <=? 0) eqn:E1; [simplify_eq; by split_and!|].
  destruct (nsol >? 1); simplify_eq; split_and!; try done.
  intros _. apply Hs. lia.
Qed.

(** The 1x1 board, generated with its light on, as an easy puzzle. *)
Lemma puzzle_is_good_result_witness :
  0 <= 0 <= MAXRECURSE /\
  (recurse (mk_game_params 1 1 20 0 0) = 0 -> 0 = 0) /\
  (true = true -> grid_correct (mk_game_state 1 1 1 [1] [16] 0 0) = true).
Proof.
  apply (puzzle_is_good_result 3 (mk_game_state 1 1 1 [1] [16] 0 0)
           (mk_game_params 1 1 20 0 0)).
  vm_compute. reflexivity.
Defined.

(** ** Clues: [number_wrong] against [number_correct] *)

Lemma number_wrong_fold st pts : forall n e,
  let r := fold_left (number_wrong_step st) pts (n, e) in
  fst r = fold_left
            (fun n p => if has (flags_at st (p_x p) (p_y p)) F_LIGHT
                        then n + 1 else n) pts n /\
  e <= snd r.
Proof.
  induction pts as [|p pts IH]; intros n e; cbn [fold_left]; [done|].
  unfold number_wrong_step at 2 4.
  destruct (has (flags_at st (p_x p) (p_y p)) F_LIGHT).
  { apply IH. }
  destruct (has (flags_at st (p_x p) (p_y p)) F_BLACK); [apply IH|].
  destruct (has (flags_at st (p_x p) (p_y p)) F_IMPOSSIBLE); [apply IH|].
  destruct (negb (lights_at st (p_x p) (p_y p) =? 0)); [apply IH|].
  destruct (IH n (e + 1)) as [H1 H2]. split; [done|lia].
Qed.

(** A clue that has exactly its number of lights around it is never
    shown as wrong. *)
Theorem number_correct_not_wrong st x y :
  number_correct st x y = true -> number_wrong st x y = false.
Proof.
  unfold number_correct, number_wrong. intros H.
  destruct (number_wrong_fold st (get_surrounds st x y) 0 0) as [Hn He].
  destruct (fold_left (number_wrong_step st) _ _) as [n e].
  cbn [fst snd] in *. rewrite <- Hn in H.
  apply orb_false_iff. split; lia.
Qed.

(** A clue [1] with its one light beside it. *)
Lemma number_correct_not_wrong_witness :
  number_wrong (mk_game_state 2 1 1 [1; 1] [3; 16] 0 0) 0 0 = false.
Proof.
  apply (number_correct_not_wrong (mk_game_state 2 1 1 [1; 1] [3; 16] 0 0)).
  reflexivity.
Defined.

(** ** [unplace_lights] *)

Lemma unplace_lights_cell_frame st c :
  same_frame st (unplace_lights_cell st c).
Proof.
  unfold unplace_lights_cell.
  eapply same_frame_trans; [|apply set_flags_frame].
  eapply same_frame_trans; [|apply set_flags_frame].
  destruct (has _ F_LIGHT); [apply set_light_frame|apply same_frame_refl].
Qed.

(** One turn of the loop of [unplace_lights], on a square of the grid
    that is white if it holds a light. *)
Lemma unplace_lights_cell_spec st x y :
  wf_state st -> in_grid st x y ->
  (has (flags_at st x y) F_LIGHT = true -> is_black st x y = false) ->
  let st' := unplace_lights_cell st (x, y) in
  wf_state st' /\ same_puzzle st st' /\
  (lit_ok st -> lit_ok st') /\ (nlights_ok st -> nlights_ok st') /\
  forall a b k, in_grid st a b -> 0 <= k ->
    has (flags_at st' a b) (2 ^ k) =
      if decide ((a, b) = (x, y) /\ (k = 4 \/ k = 3 \/ k = 2)) then false
      else has (flags_at st a b) (2 ^ k).
Proof.
  intros Hwf Hin Hlw. unfold unplace_lights_cell. cbn [fst snd].
  set (st1 := if has (flags_at st x y) F_LIGHT
              then set_light st x y false else st).
  assert (wf_state st1 /\ same_puzzle st st1 /\
          (lit_ok st -> lit_ok st1) /\ (nlights_ok st -> nlights_ok st1) /\
          s_w st1 = s_w st /\ s_h st1 = s_h st /\
          forall a b k, in_grid st a b -> 0 <= k ->
            has (flags_at st1 a b) (2 ^ k) =
              if decide ((a, b) = (x, y) /\ k = 4) then false
              else has (flags_at st a b) (2 ^ k))
    as (Hwf1 & Hsp1 & Hlit1 & Hnl1 & Hsw1 & Hsh1 & Hfl1).
  { unfold st1. destruct (has (flags_at st x y) F_LIGHT) eqn:Hl.
    - specialize (Hlw eq_refl).
      destruct (set_light_frame st x y false) as (Hsw & Hsh & _).
      split_and!; try done.
      + by apply wf_state_set_light.
      + by apply same_puzzle_set_light.
      + intros. by apply lit_ok_set_light.
      + intros. by apply nlights_ok_set_light.
      + intros a b k Hab Hk. by apply has_flags_at_set_light.
    - split_and!; try done; try apply same_puzzle_refl.
      intros a b k Hab Hk. case_decide as E; [|done].
      destruct E as [E ->]. simplify_eq. exact Hl. }
  assert (in_grid st1 x y) as Hin1 by (by apply (in_grid_frame _ st x y)).
  set (st2 := set_flags_at st1 x y (fl_clear (flags_at st1 x y) F_IMPOSSIBLE)).
  assert (wf_state st2) as Hwf2 by (by apply wf_state_set_flags).
  assert (in_grid st2 x y) as Hin2 by done.
  split; [by apply wf_state_set_flags|].
  split.
  { eapply same_puzzle_trans; [exact Hsp1|].
    eapply same_puzzle_trans;
      apply same_puzzle_set_flags; try done; other_flag. }
  split.
  { intros Hok. apply lit_ok_set_flags; try done; try other_flag.
    apply lit_ok_set_flags; try done; try other_flag. by apply Hlit1. }
  split.
  { intros Hok. apply nlights_ok_set_flags; try done; try other_flag.
    apply nlights_ok_set_flags; try done; try other_flag. by apply Hnl1. }
  intros a b k Hab Hk.
  assert (in_grid st1 a b) as Hab1 by (by apply (in_grid_frame _ st a b)).
  rewrite has_flags_at_set_flags by done.
  unfold st2 at 2. rewrite has_flags_at_set_flags by done.
  destruct (decide ((a, b) = (x, y))) as [E|E].
  - simplify_eq. unfold st2. rewrite flags_at_set_flags by done.
    rewrite decide_True by done.
    change F_NUMBERUSED with (2 ^ 2). change F_IMPOSSIBLE with (2 ^ 3).
    rewrite !has_fl_clear by lia. rewrite Hfl1 by done.
    destruct (decide (k = 4)) as [->|E4].
    { rewrite !decide_True by (split; [done|lia]). done. }
    rewrite (decide_False (P := _ /\ k = 4)) by (by intros [_ ?]).
    destruct (decide (k = 3)) as [->|E3].
    { rewrite decide_True by (split; [done|lia]). simpl.
      by rewrite andb_false_r. }
    destruct (decide (k = 2)) as [->|E2].
    { rewrite decide_True by (split; [done|lia]). simpl.
      by rewrite andb_false_r. }
    rewrite decide_False by (intros [_ ?]; lia).
    destruct (3 =? k) eqn:Ek3; [lia|]. destruct (2 =? k) eqn:Ek2; [lia|].
    cbn [negb]. by rewrite !andb_true_r.
  - rewrite Hfl1 by done. rewrite !decide_False by (by intros [? _]). done.
Qed.

Lemma unplace_lights_fold cells : forall st0,
  wf_state st0 -> lights_on_white st0 ->
  (forall c, c ∈ cells -> in_grid st0 (fst c) (snd c)) ->
  let st' := fold_left unplace_lights_cell cells st0 in
  wf_state st' /\ same_puzzle st0 st' /\
  (lit_ok st0 -> lit_ok st') /\ (nlights_ok st0 -> nlights_ok st') /\
  forall a b k, in_grid st0 a b -> 0 <= k ->
    has (flags_at st' a b) (2 ^ k) =
      if decide ((a, b) ∈ cells /\ (k = 4 \/ k = 3 \/ k = 2)) then false
      else has (flags_at st0 a b) (2 ^ k).
Proof.
  induction cells as [|[x y] cells IH]; intros st0 Hwf Hlw Hcells;
    cbn [fold_left].
  { split_and!; try done; apply same_puzzle_refl. }
  pose proof (Hcells (x, y) ltac:(left)) as Hin. cbn [fst snd] in Hin.
  destruct (unplace_lights_cell_spec st0 x y Hwf Hin (Hlw x y Hin))
    as (Hwf1 & Hsp1 & Hlit1 & Hnl1 & Hfl1).
  set (st1 := unplace_lights_cell st0 (x, y)) in *.
  pose proof Hsp1 as (Hsw1 & Hsh1 & Hp1).
  assert (forall a b, in_grid st1 a b <-> in_grid st0 a b) as Hgrid.
  { intros a b. unfold in_grid. by rewrite Hsw1, Hsh1. }
  assert (lights_on_white st1) as Hlw1.
  { intros a b Hab Hl. apply Hgrid in Hab.
    destruct (Hp1 a b Hab) as (Hb & _). unfold is_black. rewrite Hb.
    apply (Hlw a b Hab). change F_LIGHT with (2 ^ 4) in *.
    rewrite Hfl1 in Hl by (done || lia). by case_decide. }
  destruct (IH st1 Hwf1 Hlw1) as (Hwf' & Hsp' & Hlit' & Hnl' & Hfl').
  { intros c Hc. apply Hgrid. apply Hcells. by right. }
  split; [done|]. split; [by eapply same_puzzle_trans|].
  split; [auto|]. split; [auto|].
  intros a b k Hab Hk. rewrite Hfl' by (by apply Hgrid || done).
  rewrite Hfl1 by done.
  destruct (decide ((a, b) ∈ cells /\ (k = 4 \/ k = 3 \/ k = 2)))
    as [[Hc HK]|Hn].
  { rewrite decide_True; [done|]. split; [by right|done]. }
  destruct (decide ((a, b) = (x, y) /\ (k = 4 \/ k = 3 \/ k = 2)))
    as [[E HK]|Hn'].
  { rewrite decide_True; [done|]. split; [rewrite E; left|done]. }
  rewrite decide_False; [done|]. intros [Hc HK].
  apply elem_of_cons in Hc as [E|Hc]; tauto.
Qed.

Lemma count_lights_none st :
  (forall x y, in_grid st x y -> has (flags_at st x y) F_LIGHT = false) ->
  count_lights st = 0.
Proof.
  intros Hnl. unfold count_lights.
  rewrite (filter_length_agree _ (fun _ => False) (all_cells st)).
  - by induction (all_cells st).
  - intros [a b] Hc. apply elem_of_all_cells in Hc. cbn [fst snd].
    rewrite (Hnl a b Hc). done.
Qed.

Lemma lit_ok_dark st x y :
  lit_ok st ->
  (forall a b, in_grid st a b -> has (flags_at st a b) F_LIGHT = false) ->
  in_grid st x y -> is_black st x y = false -> lights_at st x y = 0.
Proof.
  intros Hok Hnl Hin Hw. rewrite (Hok x y Hin Hw). unfold lit_from.
  rewrite (filter_length_agree _ (fun _ => False) (all_cells st)).
  - by induction (all_cells st).
  - intros [a b] Hc. apply elem_of_all_cells in Hc. cbn [fst snd].
    rewrite (Hnl a b Hc). split; [by intros [? _]|done].
Qed.

(** [unplace_lights] takes a position back to the bare puzzle.  On a
    well-formed state whose lights stand on white squares (what the
    assertion of [set_light] asks for) and whose lit counts are exact,
    it leaves the dimensions, the black squares and the clues alone,
    removes every light, impossible mark and used-clue mark, and brings
    the lit count of every white square back to [0]; and if the counter
    [nlights] was right, it ends at [0]. *)
Theorem unplace_lights_clean st :
  wf_state st -> lights_on_white st -> lit_ok st ->
  let st' := unplace_lights st in
  wf_state st' /\ same_puzzle st st' /\
  (forall x y, in_grid st x y -> unmarked st' x y) /\
  (forall x y, in_grid st x y -> is_black st x y = false ->
               lights_at st' x y = 0) /\
  (nlights_ok st -> nlights st' = 0).
Proof.
  intros Hwf Hlw Hok. unfold unplace_lights.
  destruct (unplace_lights_fold (all_cells st) st Hwf Hlw)
    as (Hwf' & Hsp & Hlit & Hnl & Hfl).
  { intros [a b] Hc. by apply elem_of_all_cells. }
  set (st' := fold_left unplace_lights_cell (all_cells st) st) in *.
  cbv zeta. pose proof Hsp as (Hsw & Hsh & Hp).
  assert (forall a b, in_grid st' a b <-> in_grid st a b) as Hgrid.
  { intros a b. unfold in_grid. by rewrite Hsw, Hsh. }
  assert (forall x y, in_grid st x y -> unmarked st' x y) as Hun.
  { intros x y Hin. unfold unmarked.
    change F_LIGHT with (2 ^ 4). change F_IMPOSSIBLE with (2 ^ 3).
    change F_NUMBERUSED with (2 ^ 2).
    rewrite !Hfl by (done || lia).
    rewrite !decide_True; [done| | |];
      (split; [by apply elem_of_all_cells|lia]). }
  assert (forall a b, in_grid st' a b ->
                      has (flags_at st' a b) F_LIGHT = false) as Hdark.
  { intros a b Hab. apply Hgrid in Hab. by destruct (Hun a b Hab). }
  split_and!; try done.
  - intros x y Hin Hw. apply lit_ok_dark; [by apply Hlit|done| |].
    + by apply Hgrid.
    + unfold is_black in *. by destruct (Hp x y Hin) as (-> & _).
  - intros Hn. rewrite (Hnl Hn). by apply count_lights_none.
Qed.

Lemma lit_1x1_lit_ok : lit_ok (mk_game_state 1 1 1 [1] [16] 0 0).
Proof.
  apply (lit_ok_set_light white_1x1 0 0 true).
  - exact white_1x1_wf.
  - unfold in_grid. simpl. lia.
  - reflexivity.
  - exact (fresh_board_lit_ok _ white_1x1_fresh).
Qed.

(** The 1x1 board with its light on. *)
Lemma unplace_lights_clean_witness :
  let st := mk_game_state 1 1 1 [1] [16] 0 0 in
  let st' := unplace_lights st in
  wf_state st' /\ same_puzzle st st' /\
  (forall x y, in_grid st x y -> unmarked st' x y) /\
  (forall x y, in_grid st x y -> is_black st x y = false ->
               lights_at st' x y = 0) /\
  (nlights_ok st -> nlights st' = 0).
Proof.
  apply (unplace_lights_clean (mk_game_state 1 1 1 [1] [16] 0 0)).
  - unfold wf_state. simpl. repeat split; lia.
  - intros x y [Hx Hy] _. simpl in Hx, Hy.
    assert (x = 0) as -> by lia. assert (y = 0) as -> by lia. reflexivity.
  - exact lit_1x1_lit_ok.
Defined.

(** ** The squares around a square *)

Lemma fold_count {A} (f : A -> bool) (l : list A) : forall n,
  fold_left (fun n p => if f p then n + 1 else n) l n
  = n + Z.of_nat (length (filter (fun p => f p = true) l)).
Proof.
  induction l as [|a l IH]; intros n; cbn [fold_left]; [cbn; lia|].
  rewrite IH, filter_cons. destruct (f a).
  - rewrite decide_True by done. cbn [length]. lia.
  - by rewrite decide_False by done.
Qed.

(** [get_surrounds] lists, once each, the squares of the grid that share
    an edge with [(x,y)]. *)
Lemma get_surrounds_adjacent st x y :
  in_grid st x y ->
  let pts := (fun p => (p_x p, p_y p)) <$> get_surrounds st x y in
  NoDup pts /\
  forall a b, (a, b) ∈ pts <-> in_grid st a b /\ adjacent x y a b.
Proof.
  intros [Hx Hy]. unfold get_surrounds, ADDPOINT, in_grid, adjacent.
  destruct (x >? 0) eqn:E1, (x <? s_w st - 1) eqn:E2,
    (y >? 0) eqn:E3, (y <? s_h st - 1) eqn:E4;
    cbn [app fmap list_fmap p_x p_y];
    (split;
     [repeat (apply NoDup_cons; split;
              [rewrite ?elem_of_cons, ?elem_of_nil; intros H;
               repeat destruct H as [H|H]; try done; simplify_eq; lia|]);
      apply NoDup_nil_2|]);
    intros a b; rewrite ?elem_of_cons, ?elem_of_nil;
    (split;
     [intros H; repeat destruct H as [H|H]; try done; simplify_eq; lia|]);
    intros [[Ha Hb] Hadj];
    assert ((a = x - 1 /\ b = y) \/ (a = x + 1 /\ b = y) \/
            (a = x /\ b = y - 1) \/ (a = x /\ b = y + 1)) as Hc by lia;
    destruct Hc as [[-> ->]|[[-> ->]|[[-> ->]|[-> ->]]]];
    first [exfalso; lia | auto 10].
Qed.

Lemma filter_fmap_length {A B} (f : A -> B) (P : B -> Prop)
    `{!forall b, Decision (P b)} (l : list A) :
  length (filter P (f <$> l)) = length (filter (fun a => P (f a)) l).
Proof.
  induction l as [|a l IH]; [done|].
  cbn [fmap list_fmap]. rewrite !filter_cons.
  destruct (decide (P (f a))); cbn [length]; by rewrite IH.
Qed.

(** The counting loop of [place_numbers] and [number_correct] counts the
    lights on the squares adjacent to [(x,y)]. *)
Lemma count_surrounding_lights_around st x y :
  in_grid st x y -> lights_around st x y (count_surrounding_lights st x y).
Proof.
  intros Hin. destruct (get_surrounds_adjacent st x y Hin) as [Hnd Hel].
  exists (filter (fun c => has (flags_at st (fst c) (snd c)) F_LIGHT = true)
                 ((fun p => (p_x p, p_y p)) <$> get_surrounds st x y)).
  split; [by apply NoDup_filter|]. split.
  - intros a b. rewrite list_elem_of_filter, Hel. cbn [fst snd]. tauto.
  - unfold count_surrounding_lights. rewrite fold_count, Z.add_0_l.
    f_equal. symmetry.
    exact (filter_fmap_length (fun p => (p_x p, p_y p))
             (fun c => has (flags_at st (fst c) (snd c)) F_LIGHT = true)
             (get_surrounds st x y)).
Qed.

(** There is one such number. *)
Lemma lights_around_unique st x y n m :
  lights_around st x y n -> lights_around st x y m -> n = m.
Proof.
  intros (l1 & Hn1 & H1 & ->) (l2 & Hn2 & H2 & ->). f_equal.
  apply Permutation_length, NoDup_Permutation; [done|done|].
  intros [a b]. by rewrite H1, H2.
Qed.

Lemma clues_met_spec st : clues_add_up st <-> clues_met st.
Proof.
  split; intros H x y Hin Hn.
  - rewrite <- (H x y Hin Hn). by apply count_surrounding_lights_around.
  - apply (lights_around_unique st x y); [|by apply H].
    by apply count_surrounding_lights_around.
Qed.

(** ** [place_numbers] *)

Lemma lights_at_set_lights_at st a b v x y :
  wf_state st -> in_grid st a b -> in_grid st x y ->
  lights_at (set_lights_at st a b v) x y =
    if decide ((x, y) = (a, b)) then v else lights_at st x y.
Proof.
  intros Hwf Hab Hxy.
  pose proof (lights_at_add_lights_at st (v - lights_at st a b) a b x y
                Hwf Hab Hxy) as H.
  unfold add_lights_at in H.
  replace (lights_at st a b + (v - lights_at st a b)) with v in H by lia.
  rewrite H. case_decide as E; [|done]. simplify_eq. lia.
Qed.

Lemma wf_state_set_lights_at st a b v :
  wf_state st -> wf_state (set_lights_at st a b v).
Proof.
  intros Hwf. apply wf_state_with_lights; [done|]. apply length_insert.
Qed.

Lemma fold_left_ext_in {A B} (f g : A -> B -> A) (l : list B) : forall a,
  (forall a b, b ∈ l -> f a b = g a b) -> fold_left f l a = fold_left g l a.
Proof.
  induction l as [|b l IH]; intros a H; cbn [fold_left]; [done|].
  rewrite (H a b) by left. apply IH. intros a' b' Hb'. apply H. by right.
Qed.

Lemma count_surrounding_lights_ext st st' x y :
  s_w st' = s_w st -> s_h st' = s_h st -> in_grid st x y ->
  (forall a b, in_grid st a b ->
     has (flags_at st' a b) F_LIGHT = has (flags_at st a b) F_LIGHT) ->
  count_surrounding_lights st' x y = count_surrounding_lights st x y.
Proof.
  intros Hw Hh Hin Hl. unfold count_surrounding_lights.
  assert (get_surrounds st' x y = get_surrounds st x y) as ->.
  { unfold get_surrounds. by rewrite Hw, Hh. }
  apply fold_left_ext_in. intros n p Hp.
  rewrite Hl; [done|]. by apply (get_surrounds_in_grid st x y).
Qed.

Lemma place_numbers_cell_spec st x y :
  wf_state st -> in_grid st x y ->
  let st1 := place_numbers_cell st (x, y) in
  wf_state st1 /\ s_w st1 = s_w st /\ s_h st1 = s_h st /\
  forall a b, in_grid st a b ->
    (forall k, 0 <= k -> k <> 1 ->
       has (flags_at st1 a b) (2 ^ k) = has (flags_at st a b) (2 ^ k)) /\
    (if bool_decide ((a, b) = (x, y)) && is_black st a b
     then has (flags_at st1 a b) F_NUMBERED = true /\
          lights_at st1 a b = count_surrounding_lights st a b
     else flags_at st1 a b = flags_at st a b /\
          lights_at st1 a b = lights_at st a b).
Proof.
  intros Hwf Hin. unfold place_numbers_cell. cbn [fst snd].
  fold (is_black st x y).
  destruct (is_black st x y) eqn:Hb; cbn [negb].
  2:{ split_and!; try done. intros a b Hab. split; [done|].
      case_bool_decide as E; [|done]. simplify_eq. by rewrite Hb. }
  set (st1 := set_flags_at st x y (fl_set (flags_at st x y) F_NUMBERED)).
  assert (wf_state st1) as Hwf1 by (by apply wf_state_set_flags).
  split; [by apply wf_state_set_lights_at|]. split; [done|]. split; [done|].
  intros a b Hab.
  change (flags_at (set_lights_at st1 x y _) a b) with (flags_at st1 a b).
  rewrite lights_at_set_lights_at by done.
  change (lights_at st1 a b) with (lights_at st a b).
  unfold st1. rewrite flags_at_set_flags by done.
  destruct (decide ((a, b) = (x, y))) as [E|E].
  - simplify_eq. rewrite bool_decide_eq_true_2 by done. rewrite Hb.
    cbn [andb]. split; [|split; [|done]].
    + intros k Hk Hk1. change F_NUMBERED with (2 ^ 1).
      rewrite has_fl_set by lia. destruct (1 =? k) eqn:E1; [lia|].
      by rewrite orb_false_r.
    + change F_NUMBERED with (2 ^ 1). rewrite has_fl_set by lia.
      by rewrite orb_true_r.
  - rewrite bool_decide_eq_false_2 by done. done.
Qed.

Lemma place_numbers_fold cells : forall st0,
  wf_state st0 -> NoDup cells ->
  (forall c, c ∈ cells -> in_grid st0 (fst c) (snd c)) ->
  let st' := fold_left place_numbers_cell cells st0 in
  wf_state st' /\ s_w st' = s_w st0 /\ s_h st' = s_h st0 /\
  forall a b, in_grid st0 a b ->
    (forall k, 0 <= k -> k <> 1 ->
       has (flags_at st' a b) (2 ^ k) = has (flags_at st0 a b) (2 ^ k)) /\
    (if bool_decide ((a, b) ∈ cells) && is_black st0 a b
     then has (flags_at st' a b) F_NUMBERED = true /\
          lights_at st' a b = count_surrounding_lights st0 a b
     else flags_at st' a b = flags_at st0 a b /\
          lights_at st' a b = lights_at st0 a b).
Proof.
  induction cells as [|[x y] cells IH]; intros st0 Hwf Hnd Hcells;
    cbn [fold_left].
  { split_and!; try done. }
  apply NoDup_cons in Hnd as [Hx Hnd].
  pose proof (Hcells (x, y) ltac:(left)) as Hin. cbn [fst snd] in Hin.
  destruct (place_numbers_cell_spec st0 x y Hwf Hin)
    as (Hwf1 & Hsw1 & Hsh1 & H1).
  set (st1 := place_numbers_cell st0 (x, y)) in *.
  assert (forall a b, in_grid st1 a b <-> in_grid st0 a b) as Hgrid.
  { intros a b. unfold in_grid. by rewrite Hsw1, Hsh1. }
  destruct (IH st1 Hwf1 Hnd) as (Hwf' & Hsw' & Hsh' & H').
  { intros c Hc. apply Hgrid. apply Hcells. by right. }
  split; [done|]. split; [congruence|]. split; [congruence|].
  intros a b Hab.
  destruct (H1 a b Hab) as [Hk1 Hc1].
  destruct (H' a b ltac:(by apply Hgrid)) as [Hk' Hc'].
  assert (is_black st1 a b = is_black st0 a b) as Hbl.
  { unfold is_black. change F_BLACK with (2 ^ 0). apply Hk1; lia. }
  assert (count_surrounding_lights st1 a b = count_surrounding_lights st0 a b)
    as Hcnt.
  { apply count_surrounding_lights_ext; try done.
    intros p q Hpq. destruct (H1 p q Hpq) as [Hk _].
    change F_LIGHT with (2 ^ 4). apply Hk; lia. }
  split.
  { intros k Hk Hne. rewrite Hk', Hk1 by done. done. }
  rewrite Hbl, Hcnt in Hc'.
  destruct (decide ((a, b) = (x, y))) as [E|E].
  - simplify_eq. rewrite bool_decide_eq_true_2 in Hc1 by done.
    rewrite (bool_decide_eq_true_2 ((x, y) ∈ (x, y) :: cells)) by left.
    rewrite (bool_decide_eq_false_2 ((x, y) ∈ cells)) in Hc' by done.
    cbn [andb] in *. destruct Hc' as [Hf' Hl'].
    rewrite Hf', Hl'. exact Hc1.
  - rewrite bool_decide_eq_false_2 in Hc1 by done. cbn [andb] in Hc1.
    destruct Hc1 as [Hf1 Hl1].
    assert (bool_decide ((a, b) ∈ (x, y) :: cells)
            = bool_decide ((a, b) ∈ cells)) as ->.
    { apply bool_decide_ext. rewrite elem_of_cons. tauto. }
    destruct (bool_decide ((a, b) ∈ cells) && is_black st0 a b); [done|].
    destruct Hc' as [Hf' Hl']. by rewrite Hf', Hl'.
Qed.

(** [place_numbers] gives every black square its clue, and the clues it
    gives are right: on a well-formed board that has no numbered white
    square, every black square ends up numbered with the number of
    squares of the board adjacent to it that hold a light, no light is
    moved, and the board passes [grid_addsup]. *)
Theorem place_numbers_addsup st :
  wf_state st ->
  (forall x y, in_grid st x y -> has (flags_at st x y) F_NUMBERED = true ->
               is_black st x y = true) ->
  let st' := place_numbers st in
  (forall x y, in_grid st x y ->
     has (flags_at st' x y) F_LIGHT = has (flags_at st x y) F_LIGHT /\
     (is_black st x y = true ->
      has (flags_at st' x y) F_NUMBERED = true /\
      lights_around st x y (lights_at st' x y))) /\
  grid_addsup st' = true.
Proof.
  intros Hwf Hnum. unfold place_numbers.
  destruct (place_numbers_fold (all_cells st) st Hwf (all_cells_NoDup st))
    as (Hwf' & Hsw & Hsh & H).
  { intros [a b] Hc. by apply elem_of_all_cells. }
  set (st' := fold_left place_numbers_cell (all_cells st) st) in *.
  cbv zeta.
  assert (forall x y, in_grid st x y ->
            has (flags_at st' x y) F_LIGHT = has (flags_at st x y) F_LIGHT)
    as Hlight.
  { intros x y Hin. destruct (H x y Hin) as [Hk _].
    change F_LIGHT with (2 ^ 4). apply Hk; lia. }
  split.
  - intros x y Hin. split; [by apply Hlight|]. intros Hb.
    destruct (H x y Hin) as [_ Hc]. rewrite Hb in Hc.
    rewrite bool_decide_eq_true_2 in Hc by (by apply elem_of_all_cells).
    destruct Hc as [Hn Hl]. split; [done|]. rewrite Hl.
    by apply count_surrounding_lights_around.
  - unfold grid_addsup. apply forallb_forall. intros [x y] Hc.
    apply list_elem_of_In in Hc. cbn [fst snd].
    rewrite (all_cells_ext st st' Hsw Hsh) in Hc.
    apply elem_of_all_cells in Hc as Hin.
    destruct (has (flags_at st' x y) F_NUMBERED) eqn:Hn; [|done].
    cbn [negb]. destruct (H x y Hin) as [_ Hcase].
    rewrite bool_decide_eq_true_2 in Hcase by done.
    destruct (is_black st x y) eqn:Hb; cbn [andb] in Hcase.
    + destruct Hcase as [_ Hl]. unfold number_correct.
      fold (count_surrounding_lights st' x y). rewrite Hl.
      rewrite (count_surrounding_lights_ext st st') by done.
      apply Z.eqb_refl.
    + destruct Hcase as [Hf _]. rewrite Hf in Hn.
      rewrite (Hnum x y Hin Hn) in Hb. done.
Qed.

(** A black square between two lights, one on its left and one on its
    right: its clue is [2]. *)
Lemma place_numbers_addsup_witness :
  let st := mk_game_state 3 1 2 [1; 0; 1] [16; 1; 16] 0 0 in
  let st' := place_numbers st in
  ((forall x y, in_grid st x y ->
      has (flags_at st' x y) F_LIGHT = has (flags_at st x y) F_LIGHT /\
      (is_black st x y = true ->
       has (flags_at st' x y) F_NUMBERED = true /\
       lights_around st x y (lights_at st' x y))) /\
   grid_addsup st' = true) /\
  lights_at st' 1 0 = 2.
Proof.
  split; [|reflexivity].
  apply (place_numbers_addsup (mk_game_state 3 1 2 [1; 0; 1] [16; 1; 16] 0 0)).
  - unfold wf_state. simpl. repeat split; lia.
  - intros x y [Hx Hy]. simpl in Hx, Hy. assert (y = 0) as -> by lia.
    assert (x = 0 \/ x = 1 \/ x = 2) as [-> | [-> | ->]] by lia;
      by vm_compute.
Defined.

(** ** Invariants of the solver *)

Lemma has_flags_at_set_bit st x y k a b j :
  wf_state st -> in_grid st x y -> in_grid st a b -> 0 <= k -> 0 <= j ->
  has (flags_at (set_flags_at st x y (fl_set (flags_at st x y) (2 ^ k))) a b)
      (2 ^ j)
  = has (flags_at st a b) (2 ^ j) || (bool_decide ((a, b) = (x, y)) && (k =? j)).
Proof.
  intros Hwf Hin Hab Hk Hj. rewrite flags_at_set_flags by done.
  case_decide as E.
  - simplify_eq. rewrite bool_decide_eq_true_2 by done.
    by rewrite has_fl_set by done.
  - rewrite bool_decide_eq_false_2 by done. by rewrite orb_false_r.
Qed.

Lemma has_flags_at_clear_bit st x y k a b j :
  wf_state st -> in_grid st x y -> in_grid st a b -> 0 <= k -> 0 <= j ->
  has (flags_at (set_flags_at st x y (fl_clear (flags_at st x y) (2 ^ k))) a b)
      (2 ^ j)
  = has (flags_at st a b) (2 ^ j)
    && negb (bool_decide ((a, b) = (x, y)) && (k =? j)).
Proof.
  intros Hwf Hin Hab Hk Hj. rewrite flags_at_set_flags by done.
  case_decide as E.
  - simplify_eq. rewrite bool_decide_eq_true_2 by done.
    by rewrite has_fl_clear by done.
  - rewrite bool_decide_eq_false_2 by done. by rewrite andb_true_r.
Qed.

Lemma could_place_light_free fl li :
  could_place_light fl li = true -> has fl F_IMPOSSIBLE = false.
Proof.
  unfold could_place_light.
  destruct (has fl (Z.lor F_BLACK F_IMPOSSIBLE)) eqn:E; [done|]. intros _.
  unfold has in *. apply negb_false_iff, Z.eqb_eq in E.
  apply negb_false_iff, Z.eqb_eq.
  apply Z.bits_inj'. intros n Hn. rewrite Z.bits_0, Z.land_spec.
  assert (Z.testbit (Z.land fl (Z.lor F_BLACK F_IMPOSSIBLE)) n = false) as Hb
    by (by rewrite E, Z.bits_0).
  rewrite Z.land_spec, Z.lor_spec in Hb.
  destruct (Z.testbit fl n), (Z.testbit F_IMPOSSIBLE n); simpl in *;
    try done. by rewrite orb_true_r in Hb.
Qed.

(** The square found by the unlit-square rule carries no impossible
    mark. *)
Lemma tsl_fold_free st cells : forall acc,
  let r := fold_left (fun a c => tsl_callback st a (fst c) (snd c)) cells acc in
  snd r <> snd acc ->
  has (flags_at st (fst (fst r)) (snd (fst r))) F_IMPOSSIBLE = false.
Proof.
  induction cells as [|c cs IH]; intros [[x y] n]; cbn [fold_left fst snd].
  - done.
  - assert (tsl_callback st (x, y, n) (fst c) (snd c) = (x, y, n) \/
            (tsl_callback st (x, y, n) (fst c) (snd c) = (fst c, snd c, n + 1)
             /\ has (flags_at st (fst c) (snd c)) F_IMPOSSIBLE = false))
      as [-> | [-> Hi]].
    { unfold tsl_callback.
      destruct (has _ F_IMPOSSIBLE); [by left|].
      destruct (_ >? 0); [by left|by right]. }
    { apply (IH (x, y, n)). }
    intros _.
    destruct (tsl_fold st cs (fst c, snd c, n + 1)) as (_ & Heq & _).
    cbn [fst snd] in Heq.
    destruct (Z.eq_dec (snd (fold_left
               (fun a c0 => tsl_callback st a (fst c0) (snd c0)) cs
               (fst c, snd c, n + 1))) (n + 1)) as [He|Hne].
    + rewrite (Heq He). cbn [fst snd]. exact Hi.
    + by apply (IH (fst c, snd c, n + 1)).
Qed.

Lemma tsn_narrow_free st pts : forall nl ns acc,
  Forall (free_point st) acc ->
  Forall (free_point st) (snd (fold_left (tsn_narrow st) pts (nl, ns, acc))).
Proof.
  induction pts as [|p pts IH]; intros nl ns acc Hd; cbn [fold_left];
    [done|].
  assert (free_point st (mk_point (p_x p) (p_y p) (fl_set (p_f p) F_MARK)))
    as Hmarked.
  { intros Hm. cbn [p_f] in Hm. change F_MARK with (2 ^ 5) in Hm.
    rewrite has_fl_set in Hm by lia. by rewrite orb_true_r in Hm. }
  unfold tsn_narrow at 2.
  destruct (has (flags_at st (p_x p) (p_y p)) F_LIGHT) eqn:Hl.
  { apply IH. apply Forall_app. split; [done|by constructor]. }
  destruct (could_place_light _ _) eqn:Hcp; cbn [negb].
  - apply IH. apply Forall_app. split; [done|]. constructor; [|done].
    intros _. by split.
  - apply IH. apply Forall_app. split; [done|by constructor].
Qed.

(** A property of states that survives the stores the solver makes (a
    used-clue mark; an impossible mark on a white square that holds no
    light or where a light could be placed; a light on a white square
    without impossible mark; the copy-back of the planes) survives the
    solver. *)
Section solver_invariant.

Variable s : game_state.
Variable P : game_state -> Prop.

Hypothesis P_used : forall st x y,
  solver_inv s st -> P st -> in_grid s x y ->
  P (set_flags_at st x y (fl_set (flags_at st x y) F_NUMBERUSED)).
Hypothesis P_mark : forall st x y,
  solver_inv s st -> P st -> in_grid s x y -> is_black s x y = false ->
  has (flags_at st x y) F_LIGHT = false \/ can_place st x y = true ->
  P (set_flags_at st x y (fl_set (flags_at st x y) F_IMPOSSIBLE)).
Hypothesis P_set_light : forall st x y,
  solver_inv s st -> P st -> in_grid s x y -> is_black s x y = false ->
  has (flags_at st x y) F_IMPOSSIBLE = false ->
  P (set_light st x y true).
Hypothesis P_copy : forall st1 st2,
  P st2 -> s_w st1 = s_w st2 -> s_h st1 = s_h st2 ->
  P (copy_planes st1 st2).
Hypothesis P_clear : forall st x y,
  solver_inv s st -> P st -> in_grid s x y ->
  P (set_flags_at st x y (fl_clear (flags_at st x y) F_NUMBERUSED)).

Lemma inv_try_solve_light st x y li :
  solver_inv s st -> P st -> in_grid s x y ->
  P (fst (try_solve_light st x y (flags_at st x y) li)).
Proof using P_set_light.
  intros Hinv Hp Hin. unfold try_solve_light.
  destruct (li >? 0); [done|].
  destruct (has (flags_at st x y) F_BLACK) eqn:Hb; [done|].
  destruct (FOREACHLIT _ _ _) as [[sx sy] n] eqn:Hf.
  destruct (n =? 1) eqn:Hn; [|done]. cbn [fst].
  pose proof Hinv as (_ & _ & Hs).
  assert (in_grid st x y) as Hin' by (by apply (same_board_in_grid s st)).
  unfold FOREACHLIT in Hf.
  destruct (tsl_fold st (foreachlit_cells (list_lights st x y true)) (0, 0, 0))
    as (_ & _ & Hmem).
  pose proof (tsl_fold_free st (foreachlit_cells (list_lights st x y true))
                (0, 0, 0)) as Hfree.
  cbv zeta in Hfree.
  rewrite Hf in Hmem, Hfree. cbn [fst snd] in Hmem, Hfree.
  assert ((sx, sy) ∈ foreachlit_cells (list_lights st x y true)) as Hc
    by (apply Hmem; lia).
  apply list_lights_sees in Hc; [|done|done].
  apply P_set_light; [done|done| | |apply Hfree; lia].
  - apply (same_board_in_grid s st); [done|]. by apply sees_in_grid in Hc.
  - rewrite <- (same_board_is_black s st) by done. by apply sees_white in Hc.
Qed.

Lemma inv_marking_loop (step : game_state -> point -> game_state)
    (Q : game_state -> point -> Prop) pts :
  (forall st p, solver_inv s st -> P st -> in_grid s (p_x p) (p_y p) ->
                is_black s (p_x p) (p_y p) = false -> Q st p ->
                solver_inv s (step st p) /\ P (step st p)) ->
  (forall st p q, solver_inv s st -> in_grid s (p_x p) (p_y p) ->
                  is_black s (p_x p) (p_y p) = false ->
                  in_grid s (p_x q) (p_y q) ->
                  Q st q -> Q (step st p) q) ->
  Forall (usable_point s) pts ->
  forall st0 b, solver_inv s st0 -> P st0 ->
    Forall (fun p => has (p_f p) F_MARK = false -> Q st0 p) pts ->
    P (fst (fold_left
              (fun (acc : game_state * bool) p =>
                 if negb (has (p_f p) F_MARK) then (step (fst acc) p, true)
                 else acc) pts (st0, b))).
Proof using Type.
  intros Hstep Hkeep Hpts. induction Hpts as [|p pts [Hin Hw] Hrest IH];
    intros st0 b Hinv Hp Hq; cbn [fold_left]; [done|].
  apply Forall_cons in Hq as [Hqp Hq].
  destruct (has (p_f p) F_MARK) eqn:Hm; cbn [negb fst].
  - by apply IH.
  - destruct (Hstep st0 p Hinv Hp Hin (Hw eq_refl) (Hqp eq_refl)).
    apply IH; [done|done|].
    apply Forall_forall. intros q Hmem Hmq.
    rewrite Forall_forall in Hq, Hrest.
    apply Hkeep; [done|done|by apply Hw| |by apply Hq].
    by destruct (Hrest q Hmem).
Qed.

Lemma inv_try_solve_number st x y fl li :
  solver_inv s st -> P st -> in_grid s x y ->
  P (fst (try_solve_number st x y fl li)).
Proof using P_used P_mark P_set_light.
  intros Hinv Hp Hin. pose proof Hinv as (Hwf & _ & Hs).
  assert (in_grid st x y) as Hin' by (by apply (same_board_in_grid s st)).
  unfold try_solve_number.
  destruct (negb (has fl F_NUMBERED)); [done|].
  pose proof (tsn_narrow_fold s st (get_surrounds st x y) li
                (Z.of_nat (length (get_surrounds st x y))) [] Hs
                (Forall_nil_2 _)) as Hpts.
  pose proof (tsn_narrow_free st (get_surrounds st x y) li
                (Z.of_nat (length (get_surrounds st x y))) []
                (Forall_nil_2 _)) as Hfree.
  destruct (fold_left (tsn_narrow st) _ _) as [[nl ns] pts].
  cbn [snd] in Hpts, Hfree.
  assert (Forall (usable_point s) pts) as Hu.
  { apply Hpts. apply Forall_forall. intros p Hp'.
    apply (same_board_in_grid s st); [done|].
    by apply (get_surrounds_in_grid st x y). }
  set (st1 := set_flags_at st x y (fl_set (flags_at st x y) F_NUMBERUSED)).
  assert (solver_inv s st1) as Hused
    by (by apply (solver_inv_set_bit s st x y 2)).
  assert (P st1) as Hpused by (by apply P_used).
  assert (forall p k, in_grid s (p_x p) (p_y p) -> k = 3 \/ k = 4 ->
            has (flags_at st1 (p_x p) (p_y p)) (2 ^ k)
            = has (flags_at st (p_x p) (p_y p)) (2 ^ k)) as Hsame.
  { intros p k Hpin Hk. unfold st1. change F_NUMBERUSED with (2 ^ 2).
    rewrite has_flags_at_set_bit;
      [|done|done|by apply (same_board_in_grid s st)|lia|lia].
    destruct (2 =? k) eqn:E; [lia|]. by rewrite andb_false_r, orb_false_r. }
  destruct (ns =? 0); [done|].
  destruct (nl =? 0).
  { apply (inv_marking_loop
             (fun a p => set_flags_at a (p_x p) (p_y p)
                           (fl_set (flags_at a (p_x p) (p_y p)) F_IMPOSSIBLE))
             (fun a p => has (flags_at a (p_x p) (p_y p)) F_LIGHT = false));
      [| |done|done|done|].
    - intros st' p Hinv' Hp' Hin'' Hw Hq. split.
      + by apply (solver_inv_set_bit s st' _ _ 3).
      + apply P_mark; auto.
    - intros st' p q (Hwf' & _ & Hs') Hpin Hpw Hqin Hq.
      change F_IMPOSSIBLE with (2 ^ 3). change F_LIGHT with (2 ^ 4) in *.
      rewrite has_flags_at_set_bit;
        [|done|by apply (same_board_in_grid s st')
         |by apply (same_board_in_grid s st')|lia|lia].
      rewrite Hq. by rewrite andb_false_r.
    - rewrite Forall_forall in Hfree, Hu. apply Forall_forall.
      intros p Hmem Hm. destruct (Hu p Hmem) as [Hpin _].
      change F_LIGHT with (2 ^ 4). rewrite Hsame by (done || lia).
      by destruct (Hfree p Hmem Hm). }
  destruct (nl =? ns); [|done].
  apply (inv_marking_loop (fun a p => set_light a (p_x p) (p_y p) true)
           (fun a p => has (flags_at a (p_x p) (p_y p)) F_IMPOSSIBLE = false));
    [| |done|done|done|].
  - intros st' p Hinv' Hp' Hin'' Hw Hq. split.
    + by apply solver_inv_set_light.
    + by apply P_set_light.
  - intros st' p q (Hwf' & _ & Hs') Hpin Hpw Hqin Hq.
    change F_IMPOSSIBLE with (2 ^ 3) in *.
    rewrite has_flags_at_set_light;
      [|done|by apply (same_board_in_grid s st')
       |by rewrite (same_board_is_black s st')
       |by apply (same_board_in_grid s st')|lia].
    rewrite decide_False; [done|]. intros [_ ?]. lia.
  - rewrite Forall_forall in Hfree, Hu. apply Forall_forall.
    intros p Hmem Hm. destruct (Hu p Hmem) as [Hpin _].
    change F_IMPOSSIBLE with (2 ^ 3). rewrite Hsame by (done || lia).
    destruct (Hfree p Hmem Hm) as [_ Hcp].
    change (2 ^ 3) with F_IMPOSSIBLE.
    by apply could_place_light_free in Hcp.
Qed.

Lemma inv_solve_pass_fold cells : forall st nc did,
  solver_inv s st -> P st ->
  (forall c, c ∈ cells -> in_grid s (fst c) (snd c)) ->
  solver_inv s (fst (fst (fold_left solve_pass_cell cells (st, nc, did)))) /\
  P (fst (fst (fold_left solve_pass_cell cells (st, nc, did)))).
Proof using P_used P_mark P_set_light.
  induction cells as [|c cells IH]; intros st nc did Hinv Hp Hcells;
    cbn [fold_left]; [done|].
  pose proof (Hcells c ltac:(left)) as Hin.
  pose proof (solver_inv_solve_pass_cell s st nc did c Hinv Hin) as Hinv2.
  unfold solve_pass_cell at 2 4. unfold solve_pass_cell in Hinv2.
  pose proof (solver_inv_try_solve_light s st (fst c) (snd c)
                (lights_at st (fst c) (snd c)) Hinv Hin) as Hi1.
  pose proof (inv_try_solve_light st (fst c) (snd c)
                (lights_at st (fst c) (snd c)) Hinv Hp Hin) as Hp1.
  destruct (try_solve_light st _ _ _ _) as [st1 r1]. cbn [fst] in Hi1, Hp1.
  pose proof (inv_try_solve_number st1 (fst c) (snd c)
                (flags_at st (fst c) (snd c)) (lights_at st (fst c) (snd c))
                Hi1 Hp1 Hin) as Hp2.
  destruct (try_solve_number st1 _ _ _ _) as [st2 r2].
  cbn [fst] in Hinv2, Hp2.
  apply IH; [done|done|]. intros c' Hc'. apply Hcells. by right.
Qed.

Lemma inv_solve_pass st :
  solver_inv s st -> P st ->
  solver_inv s (fst (fst (solve_pass st))) /\ P (fst (fst (solve_pass st))).
Proof using P_used P_mark P_set_light.
  intros Hinv Hp. apply inv_solve_pass_fold; [done|done|].
  intros [a b] Hc. apply elem_of_all_cells in Hc.
  destruct Hinv as (_ & _ & Hs). by apply (same_board_in_grid s st).
Qed.

Lemma solver_inv_copy_planes st1 st2 :
  solver_inv s st1 -> solver_inv s st2 -> solver_inv s (copy_planes st1 st2).
Proof using Type.
  intros (Hwf1 & _ & Hw1 & Hh1 & _) (Hwf2 & Hnn2 & Hw2 & Hh2 & Hb2).
  assert (s_w st1 = s_w st2) as Hw by congruence.
  assert (s_h st1 = s_h st2) as Hh by congruence.
  split; [|split].
  - destruct Hwf2 as (? & ? & Hl & Hf).
    unfold wf_state, copy_planes. cbn [s_w s_h lights flags with_flags with_lights].
    rewrite Hw, Hh. done.
  - intros x y Hin Hwh.
    assert (lights_at (copy_planes st1 st2) x y = lights_at st2 x y) as ->.
    { unfold lights_at, cell_index.
      cbn [copy_planes with_flags with_lights s_w lights]. by rewrite Hw. }
    apply (Hnn2 x y).
    + unfold in_grid in *. cbn [copy_planes with_flags with_lights s_w s_h] in Hin.
      by rewrite <- Hw, <- Hh.
    + unfold is_black, flags_at, cell_index in *.
      cbn [copy_planes with_flags with_lights s_w flags] in Hwh.
      by rewrite <- Hw.
  - split; [done|]. split; [done|]. exact Hb2.
Qed.

Lemma inv_solve_loop fuel : forall st fu mr d md n st' md',
  solver_inv s st -> P st ->
  solve_loop fuel st fu mr d md = Returns (n, st', md') ->
  solver_inv s st' /\ P st'.
Proof using P_used P_mark P_set_light P_copy.
  induction fuel as [|fuel IH]; intros st fu mr d md n st' md' Hinv Hp H;
    [done|].
  cbn [solve_loop] in H.
  destruct (grid_overlap st); [by simplify_eq|].
  destruct (grid_correct st); [by simplify_eq|].
  destruct (inv_solve_pass st Hinv Hp) as [Hinv1 Hp1].
  destruct (solve_pass st) as [[st1 nc] did] eqn:Hpass. cbn [fst] in *.
  destruct did; [by eapply IH|].
  destruct (nc =? 0) eqn:Hnc; [by simplify_eq|].
  destruct (d >=? mr); [by simplify_eq|].
  pose proof Hinv as (_ & Hnn & _).
  destruct (branching_choice st st1 nc Hnn Hpass ltac:(lia))
    as (Hpos & Hin & Hcp).
  destruct (choose_best st1) as [[bn bx] by_]. cbn [fst snd] in *.
  destruct (negb (bn >? 0)); [done|].
  destruct (negb ((bx >=? 0) && (by_ >=? 0))); [done|].
  pose proof Hinv1 as (_ & _ & Hs1).
  assert (in_grid s bx by_) as Hin' by (by apply (same_board_in_grid s st1)).
  pose proof Hcp as Hcp'. unfold can_place in Hcp'.
  pose proof (could_place_light_free _ _ Hcp') as Hfree.
  apply could_place_light_white in Hcp' as [Hw _].
  rewrite (same_board_black s st1) in Hw by done.
  destruct (solve_loop fuel _ fu mr (d + 1) (note_depth md (d + 1)))
    as [[[r1 s1] m1]| |] eqn:H1; [|done|done].
  apply IH in H1 as [Hi1 Hq1];
    [|by apply (solver_inv_set_bit s st1 bx by_ 3)
     |apply P_mark; auto].
  destruct (negb fu && (r1 >? 0)); [by simplify_eq|].
  rewrite dup_game_id in H.
  destruct (solve_loop fuel _ fu mr (d + 1) (note_depth m1 (d + 1)))
    as [[[r2 s2] m2]| |] eqn:H2; [|done|done].
  apply IH in H2 as [Hi2 Hq2];
    [|by apply solver_inv_set_light|by apply P_set_light].
  destruct (fu && ((r2 <? 0) || (r1 <? 0))); [by simplify_eq|].
  destruct (r2 <=? 0); [by simplify_eq|].
  destruct (r1 <=? 0); [|by simplify_eq].
  simplify_eq. split; [by apply solver_inv_copy_planes|].
  destruct Hi1 as (_ & _ & Hw1 & Hh1 & _), Hi2 as (_ & _ & Hw2 & Hh2 & _).
  apply P_copy; [done|congruence|congruence].
Qed.

Lemma inv_dosolve fuel st allowguess fu md n st' md' :
  solver_inv s st -> P st ->
  dosolve fuel st allowguess fu md = Returns (n, st', md') ->
  solver_inv s st' /\ P st'.
Proof using P_used P_mark P_set_light P_copy P_clear.
  intros Hinv Hp. unfold dosolve, solve_sub.
  assert (forall cells st0,
            solver_inv s st0 -> P st0 ->
            (forall c, c ∈ cells -> in_grid s (fst c) (snd c)) ->
            let st1 := fold_left
                 (fun st1 c =>
                    set_flags_at st1 (fst c) (snd c)
                      (fl_clear (flags_at st1 (fst c) (snd c)) F_NUMBERUSED))
                 cells st0 in
            solver_inv s st1 /\ P st1) as Hclear.
  { induction cells as [|c cs IH]; intros st0 Hi0 Hp0 Hc; cbn [fold_left];
      [done|].
    apply IH.
    - apply solver_inv_set_flags; [done|]. other_flag.
    - apply P_clear; [done|done|]. apply Hc. left.
    - intros c' Hc'. apply Hc. by right. }
  destruct (Hclear (all_cells st) st Hinv Hp) as [Hi1 Hp1].
  { intros [a b] Hc. apply elem_of_all_cells in Hc.
    destruct Hinv as (_ & _ & Hs). by apply (same_board_in_grid s st). }
  by apply inv_solve_loop.
Qed.

End solver_invariant.

Lemma lit_ok_nonneg st : lit_ok st -> lights_nonneg st.
Proof. intros Hok x y Hin Hw. rewrite (Hok x y Hin Hw). lia. Qed.

Lemma lit_ok_copy_planes st1 st2 :
  lit_ok st2 -> s_w st1 = s_w st2 -> s_h st1 = s_h st2 ->
  lit_ok (copy_planes st1 st2).
Proof.
  destruct st1 as [w1 h1 n1 l1 f1 c1 u1], st2 as [w2 h2 n2 l2 f2 c2 u2].
  cbn [s_w s_h]. intros H -> ->. exact H.
Qed.

(** A step that leaves the black squares and the clues alone, removes
    no light and no impossible mark, and puts lights on white squares
    only. *)
Lemma solver_keeps_step s st st' :
  s_w st' = s_w st -> s_h st' = s_h st ->
  (forall a b k, in_grid st a b -> k = 3 \/ k = 4 ->
     has (flags_at st a b) (2 ^ k) = true ->
     has (flags_at st' a b) (2 ^ k) = true) ->
  (forall a b k, in_grid st a b -> k = 0 \/ k = 1 ->
     has (flags_at st' a b) (2 ^ k) = has (flags_at st a b) (2 ^ k)) ->
  (forall a b, in_grid st a b -> is_black st a b = true ->
     lights_at st' a b = lights_at st a b) ->
  (forall a b, in_grid st a b -> has (flags_at st' a b) F_LIGHT = true ->
     has (flags_at st a b) F_LIGHT = true \/ is_black st a b = false) ->
  same_puzzle s st /\ extends s st /\
    (lights_on_white s -> lights_on_white st) ->
  same_puzzle s st' /\ extends s st' /\
    (lights_on_white s -> lights_on_white st').
Proof.
  intros Hw Hh Hup Hsame Hcl Hnew (Hsp & Hext & Hlw).
  pose proof Hsp as (Hsw & Hsh & Hp).
  assert (forall a b, in_grid s a b -> in_grid st a b) as Hgrid.
  { intros a b. unfold in_grid. by rewrite Hsw, Hsh. }
  split; [|split].
  - split; [congruence|]. split; [congruence|]. intros a b Hab.
    destruct (Hp a b Hab) as (Hb & Hn & Hc).
    change F_BLACK with (2 ^ 0) in *. change F_NUMBERED with (2 ^ 1) in *.
    rewrite !Hsame by (auto || lia). split; [done|]. split; [done|].
    intros Hbl. rewrite Hcl; [by apply Hc|by apply Hgrid|].
    unfold is_black in *. change F_BLACK with (2 ^ 0) in *. by rewrite Hb.
  - intros a b Hab. destruct (Hext a b Hab) as [Hl Hi].
    change F_LIGHT with (2 ^ 4) in *. change F_IMPOSSIBLE with (2 ^ 3) in *.
    split; intros H; apply Hup; auto; lia.
  - intros Hs a b Hab Hl.
    assert (in_grid st a b) as Hab'
      by (by apply (in_grid_frame st st' a b)).
    unfold is_black. change F_BLACK with (2 ^ 0).
    rewrite Hsame by (auto || lia). change (2 ^ 0) with F_BLACK.
    destruct (Hnew a b Hab' Hl) as [Hl'|Hw']; [|exact Hw'].
    by apply (Hlw Hs a b Hab').
Qed.

Lemma clear_used_frame cells : forall st0,
  same_frame st0
    (fold_left
       (fun st1 c =>
          set_flags_at st1 (fst c) (snd c)
            (fl_clear (flags_at st1 (fst c) (snd c)) F_NUMBERUSED))
       cells st0).
Proof.
  induction cells as [|c cs IH]; intros st0; cbn [fold_left];
    [apply same_frame_refl|].
  eapply same_frame_trans; [apply set_flags_frame|apply IH].
Qed.

Lemma keeps_set_bit s st1 x y k :
  wf_state st1 -> k = 2 \/ k = 3 -> in_grid st1 x y ->
  same_puzzle s st1 /\ extends s st1 /\
    (lights_on_white s -> lights_on_white st1) ->
  let st2 := set_flags_at st1 x y (fl_set (flags_at st1 x y) (2 ^ k)) in
  same_puzzle s st2 /\ extends s st2 /\
    (lights_on_white s -> lights_on_white st2).
Proof.
  intros Hwf1 Hk Hin Hp.
  apply (solver_keeps_step s st1); try done.
  - intros a b j Hab Hj Hh. rewrite has_flags_at_set_bit by (done || lia).
    by rewrite Hh.
  - intros a b j Hab Hj. rewrite has_flags_at_set_bit by (done || lia).
    destruct (k =? j) eqn:E; [lia|].
    by rewrite andb_false_r, orb_false_r.
  - intros a b Hab Hl. left. change F_LIGHT with (2 ^ 4) in *.
    rewrite has_flags_at_set_bit in Hl by (done || lia).
    destruct (k =? 4) eqn:E; [lia|].
    by rewrite andb_false_r, orb_false_r in Hl.
Qed.

Lemma keeps_clear_used s st1 x y :
  wf_state st1 -> in_grid st1 x y ->
  same_puzzle s st1 /\ extends s st1 /\
    (lights_on_white s -> lights_on_white st1) ->
  let st2 := set_flags_at st1 x y
               (fl_clear (flags_at st1 x y) F_NUMBERUSED) in
  same_puzzle s st2 /\ extends s st2 /\
    (lights_on_white s -> lights_on_white st2).
Proof.
  intros Hwf1 Hin Hp. change F_NUMBERUSED with (2 ^ 2).
  apply (solver_keeps_step s st1); try done.
  - intros a b j Hab Hj Hh. rewrite has_flags_at_clear_bit by (done || lia).
    rewrite Hh. destruct (2 =? j) eqn:E; [lia|]. by rewrite andb_false_r.
  - intros a b j Hab Hj. rewrite has_flags_at_clear_bit by (done || lia).
    destruct (2 =? j) eqn:E; [lia|]. by rewrite andb_false_r, andb_true_r.
  - intros a b Hab Hl. left. change F_LIGHT with (2 ^ 4) in *.
    rewrite has_flags_at_clear_bit in Hl by (done || lia).
    by apply andb_true_iff in Hl as [? _].
Qed.

Lemma keeps_set_light s st1 x y :
  wf_state st1 -> in_grid st1 x y -> is_black st1 x y = false ->
  same_puzzle s st1 /\ extends s st1 /\
    (lights_on_white s -> lights_on_white st1) ->
  same_puzzle s (set_light st1 x y true) /\
    extends s (set_light st1 x y true) /\
    (lights_on_white s -> lights_on_white (set_light st1 x y true)).
Proof.
  intros Hwf1 Hin Hw Hp.
  destruct (set_light_frame st1 x y true) as (Hsw & Hsh & _).
  apply (solver_keeps_step s st1); try done.
  - intros a b j Hab Hj Hh.
    rewrite has_flags_at_set_light by (done || lia).
    by case_decide.
  - intros a b j Hab Hj. rewrite has_flags_at_set_light by (done || lia).
    rewrite decide_False; [done|]. intros [_ ?]. lia.
  - intros a b Hab Hbl. by apply lights_at_set_light_black.
  - intros a b Hab Hl. change F_LIGHT with (2 ^ 4) in *.
    rewrite has_flags_at_set_light in Hl by (done || lia).
    case_decide as E; [|by left]. right. destruct E as [E _].
    by simplify_eq.
Qed.

Lemma keeps_copy_planes s st1 st2 :
  same_puzzle s st2 /\ extends s st2 /\
    (lights_on_white s -> lights_on_white st2) ->
  s_w st1 = s_w st2 -> s_h st1 = s_h st2 ->
  same_puzzle s (copy_planes st1 st2) /\ extends s (copy_planes st1 st2) /\
    (lights_on_white s -> lights_on_white (copy_planes st1 st2)).
Proof.
  destruct st1 as [w1 h1 n1 l1 f1 c1 u1], st2 as [w2 h2 n2 l2 f2 c2 u2].
  cbn [s_w s_h]. intros Hp -> ->. exact Hp.
Qed.

(** The solver works on the puzzle it is given and builds on the
    position it is given.  From a well-formed state with non-negative
    lit counts, the state [dosolve] leaves is well formed, has the
    dimensions, the [completed] and [used_solve] fields, the black
    squares and the clues of its input, still holds every light and
    every impossible mark of its input, and has lights on white squares
    only if its input had. *)
Theorem dosolve_extends fuel st allowguess forceunique md n st' md' :
  wf_state st -> lights_nonneg st ->
  dosolve fuel st allowguess forceunique md = Returns (n, st', md') ->
  wf_state st' /\ same_frame st st' /\ same_puzzle st st' /\
  extends st st' /\ (lights_on_white st -> lights_on_white st').
Proof.
  intros Hwf Hnn H.
  assert (same_frame st st') as Hfr.
  { unfold dosolve, solve_sub in H.
    apply solve_loop_result in H as (Hf & _).
    eapply same_frame_trans; [|exact Hf]. apply clear_used_frame. }
  destruct (inv_dosolve st
              (fun st1 => same_puzzle st st1 /\ extends st st1 /\
                          (lights_on_white st -> lights_on_white st1)))
    with (8 := H) as ((Hwf' & _) & Hsp & Hext & Hlw).
  - (* a used-clue mark *)
    intros st1 x y (Hwf1 & _ & Hs1) Hp Hin.
    apply (same_board_in_grid st st1) in Hin; [|done].
    apply (keeps_set_bit st st1 x y 2); auto.
  - (* an impossible mark *)
    intros st1 x y (Hwf1 & _ & Hs1) Hp Hin _ _.
    apply (same_board_in_grid st st1) in Hin; [|done].
    apply (keeps_set_bit st st1 x y 3); auto.
  - (* a light *)
    intros st1 x y (Hwf1 & _ & Hs1) Hp Hin Hw _.
    apply (same_board_in_grid st st1) in Hin; [|done].
    rewrite <- (same_board_is_black st st1) in Hw by done.
    by apply keeps_set_light.
  - (* the copy-back *)
    intros st1 st2. apply keeps_copy_planes.
  - (* the used-clue marks cleared at the start *)
    intros st1 x y (Hwf1 & _ & Hs1) Hp Hin.
    apply (same_board_in_grid st st1) in Hin; [|done].
    by apply keeps_clear_used.
  - by apply solver_inv_refl.
  - split; [apply same_puzzle_refl|]. split; [|done]. by intros x y _.
  - done.
Qed.

Lemma dosolve_extends_witness :
  let st' := mk_game_state 1 1 1 [1] [16] 0 0 in
  wf_state st' /\ same_frame white_1x1 st' /\ same_puzzle white_1x1 st' /\
  extends white_1x1 st' /\
  (lights_on_white white_1x1 -> lights_on_white st').
Proof.
  apply (dosolve_extends 3 white_1x1 true false None 1 _ None).
  - exact white_1x1_wf.
  - exact (lit_ok_nonneg _ (fresh_board_lit_ok _ white_1x1_fresh)).
  - vm_compute. reflexivity.
Defined.

(** The solver keeps the lit counts exact: from a well-formed state in
    which the [lights] entry of every white square is the number of
    lights that shine on it, [dosolve] leaves a state of which the same
    is true. *)
Theorem dosolve_lit_ok fuel st allowguess forceunique md n st' md' :
  wf_state st -> lit_ok st ->
  dosolve fuel st allowguess forceunique md = Returns (n, st', md') ->
  wf_state st' /\ lit_ok st'.
Proof.
  intros Hwf Hok H.
  destruct (inv_dosolve st lit_ok) with (8 := H) as ((Hwf' & _) & Hok');
    [| | | | | | |done].
  - intros st1 x y (Hwf1 & _ & Hs1) Hp Hin.
    apply (same_board_in_grid st st1) in Hin; [|done].
    apply lit_ok_set_flags; try done; other_flag.
  - intros st1 x y (Hwf1 & _ & Hs1) Hp Hin _ _.
    apply (same_board_in_grid st st1) in Hin; [|done].
    apply lit_ok_set_flags; try done; other_flag.
  - intros st1 x y (Hwf1 & _ & Hs1) Hp Hin Hw _.
    apply (same_board_in_grid st st1) in Hin; [|done].
    rewrite <- (same_board_is_black st st1) in Hw by done.
    by apply lit_ok_set_light.
  - intros st1 st2. apply lit_ok_copy_planes.
  - intros st1 x y (Hwf1 & _ & Hs1) Hp Hin.
    apply (same_board_in_grid st st1) in Hin; [|done].
    apply lit_ok_set_flags; try done; other_flag.
  - apply solver_inv_refl; [done|by apply lit_ok_nonneg].
  - done.
Qed.

Lemma dosolve_lit_ok_witness :
  wf_state (mk_game_state 1 1 1 [1] [16] 0 0) /\
  lit_ok (mk_game_state 1 1 1 [1] [16] 0 0).
Proof.
  apply (dosolve_lit_ok 3 white_1x1 true false None 1 _ None).
  - exact white_1x1_wf.
  - exact (fresh_board_lit_ok _ white_1x1_fresh).
  - vm_compute. reflexivity.
Defined.

(** ** Descriptors: what [validate_desc] accepts, [new_game] loads *)

Lemma length_cells_by_row w h :
  0 <= w -> 0 <= h -> Z.of_nat (length (cells_by_row w h)) = w * h.
Proof.
  intros Hw Hh. unfold cells_by_row.
  assert (forall l : list Z,
            Z.of_nat (length (l ≫= (fun y => (fun x => (x, y)) <$> seqZ 0 w)))
            = w * Z.of_nat (length l)) as H.
  { induction l as [|y l IH]; [simpl; lia|].
    rewrite bind_cons, length_app, length_fmap, length_seqZ.
    rewrite Nat2Z.inj_add, IH. cbn [length]. lia. }
  rewrite H, length_seqZ. lia.
Qed.

Lemma decoded_cells_zero d : decoded_cells d = 0 -> d = [].
Proof.
  destruct d as [|c d]; [done|]. simpl.
  pose proof (desc_char_cells_pos c). pose proof (decoded_cells_nonneg d).
  lia.
Qed.

(** The loop of [new_game] on a descriptor of the grammar that stands
    for exactly the squares still to be filled: it fails no assertion
    and uses the descriptor up. *)
Lemma new_game_fold_returns cells : forall st desc run,
  Forall (fun c => desc_char c = true) desc -> 0 <= run ->
  run + decoded_cells desc = Z.of_nat (length cells) ->
  exists st', fold_left new_game_cell cells (Returns (st, desc, run))
              = Returns (st', [], 0).
Proof.
  induction cells as [|xy cells IH]; intros st desc run Hd Hrun Hlen;
    cbn [fold_left].
  { simpl in Hlen. pose proof (decoded_cells_nonneg desc).
    assert (run = 0) as -> by lia.
    rewrite (decoded_cells_zero desc) by lia. by exists st. }
  cbn [length] in Hlen. rewrite Nat2Z.inj_succ in Hlen.
  unfold new_game_cell at 2.
  destruct (run =? 0) eqn:Er.
  - assert (run = 0) as -> by lia.
    destruct desc as [|d desc].
    { simpl in Hlen. lia. }
    apply Forall_cons in Hd as [Hc Hd]. simpl in Hlen.
    unfold desc_char in Hc. unfold desc_char_cells in Hlen.
    destruct (code d =? 83) eqn:E83.
    { exfalso. assert (code d = 83) as E by lia. rewrite E in Hc. done. }
    destruct ((97 <=? code d) && (code d <=? 122)) eqn:Eaz.
    + assert ((code d - 97 + 1 >? 0) = true) as -> by lia.
      change ((48 <=? 83) && (83 <=? 52)) with false. cbv iota.
      change (83 =? 66) with false. change (83 =? 83) with true. cbv iota.
      apply IH; [done|lia|lia].
    + change (0 >? 0) with false. cbv iota.
      destruct ((48 <=? code d) && (code d <=? 52)) eqn:E04.
      { apply IH; [done|lia|lia]. }
      destruct (code d =? 66) eqn:E66.
      { apply IH; [done|lia|lia]. }
      simpl in Hc. done.
  - destruct (run >? 0) eqn:Eg; [|lia].
    change ((48 <=? 83) && (83 <=? 52)) with false. cbv iota.
    change (83 =? 66) with false. change (83 =? 83) with true. cbv iota.
    apply IH; [done|lia|lia].
Qed.

(** What [validate_desc] accepts, [new_game] loads: for a board of
    non-negative width and height whose size [w*h] leaves [validate_desc]
    within [int], on a descriptor that passes validation [new_game] fails
    none of its assertions. *)
Theorem validated_desc_loads params desc :
  0 <= p_w params -> 0 <= p_h params ->
  desc_in_int params ->
  validate_desc params desc = None ->
  exists st, new_game params desc = Returns st.
Proof.
  intros Hw Hh _ Hv. unfold validate_desc in Hv.
  apply validate_from_accepts in Hv as [Hd Hn].
  unfold new_game.
  destruct (new_game_fold_returns (cells_by_row (p_w params) (p_h params))
              (new_state params) (c_chars desc) 0 Hd ltac:(lia)) as [st' ->].
  - rewrite length_cells_by_row by done. lia.
  - by exists st'.
Qed.

Lemma validated_desc_loads_witness :
  exists st, new_game (mk_game_params 3 3 20 0 0) "a1aBaBc" = Returns st.
Proof.
  apply (validated_desc_loads (mk_game_params 3 3 20 0 0) "a1aBaBc").
  - simpl. lia.
  - simpl. lia.
  - unfold desc_in_int, INT_MIN, INT_MAX. simpl. lia.
  - vm_compute. reflexivity.
Defined.

Lemma no_mark_set_flag st x y j :
  no_mark st -> 0 <= j -> j <> 3 ->
  no_mark (set_flags_at st x y (fl_set (flags_at st x y) (2 ^ j))).
Proof.
  intros Hnm Hj Hne i. unfold set_flags_at. cbn [flags with_flags].
  rewrite plane_get_insert. case_decide as H; [|apply Hnm].
  change F_IMPOSSIBLE with (2 ^ 3). rewrite has_fl_set by lia.
  change (2 ^ 3) with F_IMPOSSIBLE. unfold flags_at. rewrite Hnm.
  destruct (j =? 3) eqn:E; [lia|done].
Qed.

Lemma new_game_cell_no_mark acc xy st d r :
  new_game_cell acc xy = Returns (st, d, r) ->
  exists st0 d0 r0, acc = Returns (st0, d0, r0) /\
                    (no_mark st0 -> no_mark st).
Proof.
  destruct acc as [[[st0 d0] r0]| |]; [|done|done].
  intros H. exists st0, d0, r0. split; [done|]. intros Hnm.
  unfold new_game_cell in H.
  destruct (if r0 =? 0 then _ else _) as [[[c d1] r1]|]; [|done].
  destruct (if r1 >? 0 then _ else _) as [c' r'].
  destruct ((48 <=? c') && (c' <=? 52)).
  { simplify_eq. apply (no_mark_set_flag _ _ _ 0); [|lia|lia].
    intros i. change (flags (set_lights_at ?s _ _ _)) with (flags s).
    by apply (no_mark_set_flag _ _ _ 1). }
  destruct (c' =? 66).
  { simplify_eq. by apply (no_mark_set_flag _ _ _ 0). }
  destruct (c' =? 83); by simplify_eq.
Qed.

Lemma new_game_fold_no_mark cells : forall acc st d r,
  fold_left new_game_cell cells acc = Returns (st, d, r) ->
  exists st0 d0 r0, acc = Returns (st0, d0, r0) /\
                    (no_mark st0 -> no_mark st).
Proof.
  induction cells as [|c cs IH]; intros acc st d r H; cbn [fold_left] in H.
  - subst acc. by exists st, d, r.
  - apply IH in H as (st1 & d1 & r1 & H1 & Hf1).
    apply new_game_cell_no_mark in H1 as (st0 & d0 & r0 & -> & Hf0).
    exists st0, d0, r0. split; [done|]. auto.
Qed.

Lemma new_state_no_mark params : no_mark (new_state params).
Proof.
  intros i. unfold new_state. cbn [flags]. by rewrite plane_get_replicate.
Qed.

(** The board [new_game] builds is ready for play: it has the size asked
    for, both planes have that size, no square holds a light or an
    impossible mark, the counter [nlights] agrees with the flags and the
    lit counts with the lights. *)
Theorem new_game_ready params desc st :
  0 <= p_w params -> 0 <= p_h params ->
  new_game params desc = Returns st ->
  s_w st = p_w params /\ s_h st = p_h params /\
  wf_state st /\ nlights_ok st /\ no_light st /\ no_mark st /\
  position st /\ completed st = 0 /\ used_solve st = 0.
Proof.
  intros Hw Hh. unfold new_game.
  destruct (fold_left _ _ _) as [[[st1 d1] r1]| |] eqn:Hfold; [|done|done].
  destruct d1; [|done]. intros H. simplify_eq.
  assert (same_frame (new_state params) st) as (Hsw & Hsh & Hc & Hu).
  { revert Hfold. generalize (c_chars desc) 0 (new_state params).
    induction (cells_by_row (p_w params) (p_h params)) as [|c cs IH];
      intros d r st0 Hf; cbn [fold_left] in Hf.
    - simplify_eq. apply same_frame_refl.
    - destruct (new_game_cell (Returns (st0, d, r)) c)
        as [[[st2 d2] r2]| |] eqn:Hc.
      + eapply same_frame_trans; [|by eapply IH].
        unfold new_game_cell in Hc.
        destruct (if r =? 0 then _ else _) as [[[c0 d0] r0]|]; [|done].
        destruct (if r0 >? 0 then _ else _) as [c' r'].
        destruct ((48 <=? c') && (c' <=? 52)); [by simplify_eq|].
        destruct (c' =? 66); [by simplify_eq|].
        destruct (c' =? 83); by simplify_eq.
      + exfalso. clear -Hf. induction cs as [|? ? IHcs]; [done|].
        cbn [fold_left new_game_cell] in Hf. auto.
      + exfalso. clear -Hf. induction cs as [|? ? IHcs]; [done|].
        cbn [fold_left new_game_cell] in Hf. auto. }
  pose proof Hfold as Hfold'.
  apply new_game_fold_fresh in Hfold as (st0 & d0 & r0 & Heq & Hf).
  apply new_game_fold_no_mark in Hfold' as (st0' & d0' & r0' & Heq' & Hm).
  simplify_eq.
  pose proof (Hf (new_state_fresh params Hw Hh)) as Hfresh.
  pose proof (Hm (new_state_no_mark params)) as Hnm.
  pose proof Hfresh as (Hwf & Hn & Hnl & Hwu).
  split_and!; try done.
  - unfold nlights_ok. by rewrite Hn, count_lights_no_light.
  - by apply fresh_board_position.
Qed.

Lemma new_game_ready_witness :
  let st := mk_game_state 2 2 0 [0; 0; 0; 0] [0; 0; 0; 0] 0 0 in
  s_w st = 2 /\ s_h st = 2 /\
  wf_state st /\ nlights_ok st /\ no_light st /\ no_mark st /\
  position st /\ completed st = 0 /\ used_solve st = 0.
Proof.
  apply (new_game_ready (mk_game_params 2 2 20 0 0) "d").
  - simpl. lia.
  - simpl. lia.
  - reflexivity.
Defined.

(** ** The descriptor [new_game_desc] writes *)

Lemma code_char_of_int n : 0 <= n < 256 -> code (char_of_int n) = n.
Proof.
  intros Hn. unfold char_of_int. rewrite Z.mod_small by done.
  rewrite code_ascii_of_N; [lia|lia].
Qed.

Lemma flush_run_app out run :
  (if negb (run =? 0) then out ++ [char_of_int (96 + run)] else out)
  = out ++ flush_run run.
Proof. unfold flush_run. destruct (negb (run =? 0)); by rewrite ?app_nil_r. Qed.

(** The encoding loop writes the descriptor of the kinds of the squares
    it visits. *)
Lemma encode_fold st cells : forall out run,
  (let '(out', run') := fold_left (encode_cell st) cells (out, run) in
   out' ++ flush_run run') = out ++ enc run (cell_kind st <$> cells).
Proof.
  induction cells as [|c cells IH]; intros out run;
    cbn [fold_left fmap list_fmap enc]; [done|].
  unfold encode_cell at 2. unfold cell_kind at 1.
  destruct (has (flags_at st (fst c) (snd c)) F_BLACK).
  - rewrite flush_run_app.
    destruct (has (flags_at st (fst c) (snd c)) F_NUMBERED);
      rewrite IH; cbn [flush_run]; by rewrite <- !app_assoc.
  - destruct (run =? 26) eqn:E.
    + rewrite IH. by rewrite <- app_assoc.
    + apply IH.
Qed.

Lemma new_game_desc_encode_enc params st :
  new_game_desc_encode params st
  = enc 0 (cell_kind st <$> cells_by_row (p_w params) (p_h params)).
Proof.
  unfold new_game_desc_encode.
  pose proof (encode_fold st (cells_by_row (p_w params) (p_h params)) [] 0)
    as H.
  destruct (fold_left _ _ _) as [out run]. by rewrite flush_run_app.
Qed.

Lemma length_flush_run run : (length (flush_run run) <= 1)%nat.
Proof. unfold flush_run. destruct (negb (run =? 0)); simpl; lia. Qed.

Lemma length_enc ks : forall run,
  (length (enc run ks) <= (if (run =? 0)%Z then 0 else 1) + length ks)%nat.
Proof.
  induction ks as [|k ks IH]; intros run; cbn [enc length].
  - unfold flush_run. destruct (run =? 0); simpl; lia.
  - destruct k.
    + destruct (run =? 26) eqn:E.
      * cbn [length]. specialize (IH 1). simpl in IH.
        destruct (run =? 0) eqn:E0; lia.
      * specialize (IH (run + 1)).
        destruct (run + 1 =? 0) eqn:E1, (run =? 0) eqn:E0; lia.
    + rewrite length_app. cbn [length]. specialize (IH 0). simpl in IH.
      unfold flush_run. destruct (run =? 0); simpl; lia.
    + rewrite length_app. cbn [length]. specialize (IH 0). simpl in IH.
      unfold flush_run. destruct (run =? 0); simpl; lia.
Qed.

(** The assertion at the end of [new_game_desc] holds: the text written
    for a board of non-negative width and height has at most [w*h]
    characters, whatever the board holds, so with its NUL it fits the
    [w*h + 1] bytes allocated for it. *)
Theorem new_game_desc_fits params st :
  0 <= p_w params -> 0 <= p_h params ->
  Z.of_nat (length (new_game_desc_encode params st))
  <= p_w params * p_h params.
Proof.
  intros Hw Hh. rewrite new_game_desc_encode_enc.
  pose proof (length_enc
                (cell_kind st <$> cells_by_row (p_w params) (p_h params)) 0)
    as H.
  rewrite length_fmap in H. simpl in H.
  rewrite <- (length_cells_by_row (p_w params) (p_h params)) by done. lia.
Qed.

Lemma new_game_desc_fits_witness :
  Z.of_nat (length (new_game_desc_encode (mk_game_params 2 2 20 0 0)
                                         white_2x2)) <= 2 * 2.
Proof.
  apply (new_game_desc_fits (mk_game_params 2 2 20 0 0) white_2x2);
    simpl; lia.
Defined.

(** A pending run of white squares is worked off square by square. *)
Lemma new_game_pending_run cells : forall st d r,
  r = Z.of_nat (length cells) ->
  fold_left new_game_cell cells (Returns (st, d, r)) = Returns (st, d, 0).
Proof.
  induction cells as [|c cells IH]; intros st d r Hr; cbn [fold_left].
  { by subst. }
  cbn [length] in Hr. rewrite Nat2Z.inj_succ in Hr.
  unfold new_game_cell at 2.
  destruct (r =? 0) eqn:E0; [lia|]. destruct (r >? 0) eqn:E1; [|lia].
  change ((48 <=? 83) && (83 <=? 52)) with false. cbv iota.
  change (83 =? 66) with false. change (83 =? 83) with true. cbv iota.
  apply IH. lia.
Qed.

(** A run written by the encoder is read back as that many white
    squares. *)
Lemma new_game_flushed_run cells st d r :
  0 <= r <= 26 -> r = Z.of_nat (length cells) ->
  fold_left new_game_cell cells (Returns (st, flush_run r ++ d, 0))
  = Returns (st, d, 0).
Proof.
  intros Hr Hlen. unfold flush_run.
  destruct cells as [|c cells].
  { simpl in Hlen. subst r. done. }
  cbn [length] in Hlen. rewrite Nat2Z.inj_succ in Hlen.
  destruct (r =? 0) eqn:E0; [lia|]. cbn [negb app fold_left].
  unfold new_game_cell at 2. cbn [Z.eqb].
  rewrite code_char_of_int by lia.
  destruct (96 + r =? 83) eqn:E83; [lia|].
  destruct ((97 <=? 96 + r) && (96 + r <=? 122)) eqn:Eaz; [|lia].
  destruct (96 + r - 97 + 1 >? 0) eqn:Eg; [|lia].
  change ((48 <=? 83) && (83 <=? 52)) with false. cbv iota.
  change (83 =? 66) with false. change (83 =? 83) with true. cbv iota.
  apply new_game_pending_run. lia.
Qed.

(** A black square written by the encoder is read back as one. *)
Lemma new_game_cell_put st c k d :
  valid_kind k -> k <> KWhite ->
  new_game_cell
    (Returns (st, match k with
                  | KClue n => char_of_int (48 + n)
                  | _ => char_of_int 66
                  end :: d, 0)) c
  = Returns (put_kind st c k, d, 0).
Proof.
  intros Hv Hk. unfold new_game_cell. cbn [Z.eqb].
  destruct k as [| |n]; [done| |].
  - rewrite code_char_of_int by lia.
    change (66 =? 83) with false. cbv iota.
    change ((97 <=? 66) && (66 <=? 122)) with false. cbv iota.
    change (0 >? 0) with false. cbv iota.
    change ((48 <=? 66) && (66 <=? 52)) with false. cbv iota.
    change (66 =? 66) with true. cbv iota. done.
  - simpl in Hv. rewrite code_char_of_int by lia.
    destruct (48 + n =? 83) eqn:E83; [lia|].
    destruct ((97 <=? 48 + n) && (48 + n <=? 122)) eqn:Eaz; [lia|].
    change (0 >? 0) with false. cbv iota.
    destruct ((48 <=? 48 + n) && (48 + n <=? 52)) eqn:E04; [|lia].
    cbn [put_kind]. by replace (48 + n - 48) with n by lia.
Qed.

(** [new_game] on the descriptor of a list of kinds stores those kinds,
    square by square, and uses the descriptor up. *)
Lemma new_game_fold_enc (f : Z * Z -> kind) cells2 :
  forall r cells1 st0,
    0 <= r <= 26 -> r = Z.of_nat (length cells1) ->
    Forall (fun c => valid_kind (f c)) cells2 ->
    fold_left new_game_cell (cells1 ++ cells2)
              (Returns (st0, enc r (f <$> cells2), 0))
    = Returns (fold_left (fun st c => put_kind st c (f c)) cells2 st0, [], 0).
Proof.
  induction cells2 as [|c cells2 IH]; intros r cells1 st0 Hr Hlen Hv.
  { rewrite app_nil_r. cbn [fmap list_fmap enc fold_left].
    rewrite <- (app_nil_r (flush_run r)).
    by apply new_game_flushed_run. }
  apply Forall_cons in Hv as [Hc Hv].
  cbn [fmap list_fmap enc]. cbn [fold_left].
  destruct (f c) as [| |n] eqn:Hk.
  - cbn [put_kind]. destruct (r =? 26) eqn:E.
    + rewrite fold_left_app.
      assert (r = 26) as Hr26 by lia.
      pose proof (new_game_flushed_run cells1 st0 (enc 1 (f <$> cells2)) r
                    Hr Hlen) as Hfl.
      unfold flush_run in Hfl. rewrite Hr26 in Hfl at 1.
      cbn [Z.eqb negb app] in Hfl. rewrite Hr26. rewrite <- Hr26 at 1.
      rewrite Hfl.
      apply (IH 1 [c] st0); [lia|done|done].
    + rewrite (app_assoc cells1 [c] cells2 : cells1 ++ c :: cells2 = _).
      apply IH; [lia| |done]. rewrite length_app. simpl. lia.
  - rewrite fold_left_app.
    rewrite (new_game_flushed_run cells1 st0 _ r Hr Hlen).
    cbn [fold_left].
    rewrite (new_game_cell_put st0 c KBlack) by done.
    apply (IH 0 [] _); [lia|done|done].
  - rewrite fold_left_app.
    rewrite (new_game_flushed_run cells1 st0 _ r Hr Hlen).
    cbn [fold_left].
    rewrite (new_game_cell_put st0 c (KClue n)) by done.
    apply (IH 0 [] _); [lia|done|done].
Qed.

Lemma put_kind_spec st c k a b :
  wf_state st -> in_grid st (fst c) (snd c) -> in_grid st a b ->
  let st' := put_kind st c k in
  wf_state st' /\ s_w st' = s_w st /\ s_h st' = s_h st /\
  ((a, b) <> c ->
   flags_at st' a b = flags_at st a b /\ lights_at st' a b = lights_at st a b)
  /\
  (has (flags_at st (fst c) (snd c)) F_BLACK = false ->
   has (flags_at st (fst c) (snd c)) F_NUMBERED = false ->
   cell_kind st' c = k).
Proof.
  destruct c as [x y]. cbn [fst snd]. intros Hwf Hin Hab.
  destruct k as [| |n]; cbn [put_kind fst snd].
  - split_and!; try done. intros Hb _. unfold cell_kind. cbn [fst snd].
    by rewrite Hb.
  - split_and!; try done.
    + by apply wf_state_set_flags.
    + intros Hne. rewrite flags_at_set_flags by done.
      by rewrite decide_False.
    + intros Hb Hn. unfold cell_kind. cbn [fst snd].
      rewrite flags_at_set_flags by done. rewrite decide_True by done.
      change F_BLACK with (2 ^ 0). change F_NUMBERED with (2 ^ 1).
      rewrite !has_fl_set by lia. change (2 ^ 1) with F_NUMBERED.
      rewrite Hn. by rewrite orb_true_r.
  - set (st1 := set_flags_at st x y (fl_set (flags_at st x y) F_NUMBERED)).
    set (st2 := set_lights_at st1 x y n).
    assert (wf_state st1) as Hwf1 by (by apply wf_state_set_flags).
    assert (wf_state st2) as Hwf2 by (by apply wf_state_set_lights_at).
    assert (flags_at st2 x y = fl_set (flags_at st x y) F_NUMBERED) as Hf2.
    { change (flags_at st2 x y) with (flags_at st1 x y). unfold st1.
      rewrite flags_at_set_flags by done. by rewrite decide_True. }
    split_and!; try done.
    + by apply wf_state_set_flags.
    + intros Hne. rewrite flags_at_set_flags by done.
      rewrite decide_False by done.
      change (flags_at st2 a b) with (flags_at st1 a b).
      change (lights_at (set_flags_at st2 x y _) a b) with (lights_at st2 a b).
      unfold st2. rewrite lights_at_set_lights_at by done.
      rewrite decide_False by done. unfold st1.
      rewrite flags_at_set_flags by done. by rewrite decide_False.
    + intros Hb Hn. unfold cell_kind. cbn [fst snd].
      rewrite flags_at_set_flags by done. rewrite decide_True by done.
      change (lights_at (set_flags_at st2 x y _) x y) with (lights_at st2 x y).
      unfold st2 at 3. rewrite lights_at_set_lights_at by done.
      rewrite decide_True by done. rewrite Hf2.
      change F_BLACK with (2 ^ 0). change F_NUMBERED with (2 ^ 1).
      rewrite !has_fl_set by lia. by rewrite !orb_true_r.
Qed.

Lemma put_kinds_spec (f : Z * Z -> kind) cells : forall st0,
  wf_state st0 -> NoDup cells ->
  (forall c, c ∈ cells ->
     in_grid st0 (fst c) (snd c) /\
     has (flags_at st0 (fst c) (snd c)) F_BLACK = false /\
     has (flags_at st0 (fst c) (snd c)) F_NUMBERED = false) ->
  let st' := fold_left (fun st c => put_kind st c (f c)) cells st0 in
  s_w st' = s_w st0 /\ s_h st' = s_h st0 /\
  (forall a b, in_grid st0 a b -> (a, b) ∉ cells ->
     flags_at st' a b = flags_at st0 a b /\
     lights_at st' a b = lights_at st0 a b) /\
  (forall c, c ∈ cells -> cell_kind st' c = f c).
Proof.
  induction cells as [|c cells IH]; intros st0 Hwf Hnd Hcells;
    cbn [fold_left].
  { split_and!; try done. intros c Hc. by apply elem_of_nil in Hc. }
  apply NoDup_cons in Hnd as [Hc Hnd].
  destruct (Hcells c ltac:(left)) as (Hin & Hb & Hn).
  set (st1 := put_kind st0 c (f c)).
  assert (forall a b, in_grid st0 a b ->
            wf_state st1 /\ s_w st1 = s_w st0 /\ s_h st1 = s_h st0 /\
            ((a, b) <> c ->
             flags_at st1 a b = flags_at st0 a b /\
             lights_at st1 a b = lights_at st0 a b) /\
            cell_kind st1 c = f c) as H1.
  { intros a b Hab.
    destruct (put_kind_spec st0 c (f c) a b Hwf Hin Hab)
      as (? & ? & ? & ? & Hk). split_and!; try done. by apply Hk. }
  destruct (H1 _ _ Hin) as (Hwf1 & Hsw1 & Hsh1 & _ & Hk1).
  assert (forall a b, in_grid st1 a b <-> in_grid st0 a b) as Hgrid.
  { intros a b. unfold in_grid. by rewrite Hsw1, Hsh1. }
  destruct (IH st1 Hwf1 Hnd) as (Hsw' & Hsh' & Hout & Hk').
  { intros c' Hc'. destruct (Hcells c' ltac:(by right)) as (Hin' & Hb' & Hn').
    destruct (H1 _ _ Hin') as (_ & _ & _ & Hsame & _).
    destruct c' as [a b]. cbn [fst snd] in *.
    destruct Hsame as [-> _]; [by intros <-|].
    split; [by apply Hgrid|done]. }
  split; [congruence|]. split; [congruence|]. split.
  - intros a b Hab Hnot. apply not_elem_of_cons in Hnot as [Hne Hnot].
    destruct (Hout a b ltac:(by apply Hgrid) Hnot) as [-> ->].
    destruct (H1 _ _ Hab) as (_ & _ & _ & Hsame & _). by apply Hsame.
  - intros c' Hc'. apply elem_of_cons in Hc' as [->|Hc']; [|by apply Hk'].
    rewrite <- Hk1. destruct c as [a b]. cbn [fst snd] in *.
    destruct (Hout a b ltac:(by apply Hgrid) Hc) as [Hf Hl].
    unfold cell_kind. cbn [fst snd]. by rewrite Hf, Hl.
Qed.

Lemma desc_char_letter r :
  1 <= r <= 26 ->
  desc_char (char_of_int (96 + r)) = true /\
  desc_char_cells (char_of_int (96 + r)) = r.
Proof.
  intros Hr. unfold desc_char, desc_char_cells.
  rewrite code_char_of_int by lia.
  destruct ((97 <=? 96 + r) && (96 + r <=? 122)) eqn:E; [|lia].
  split; [by rewrite orb_true_r|lia].
Qed.

Lemma desc_char_black n :
  (n = 66 \/ 48 <= n <= 52) ->
  desc_char (char_of_int n) = true /\ desc_char_cells (char_of_int n) = 1.
Proof.
  intros Hn. unfold desc_char, desc_char_cells.
  rewrite code_char_of_int by lia.
  destruct ((97 <=? n) && (n <=? 122)) eqn:E; [lia|].
  split; [|done]. rewrite orb_false_r. apply orb_true_iff.
  destruct Hn as [->|Hn]; [by right|left; lia].
Qed.

Lemma flush_run_valid r :
  0 <= r <= 26 ->
  Forall (fun c => desc_char c = true) (flush_run r) /\
  decoded_cells (flush_run r) = r.
Proof.
  intros Hr. unfold flush_run. destruct (r =? 0) eqn:E; cbn [negb].
  - split; [constructor|simpl; lia].
  - destruct (desc_char_letter r ltac:(lia)) as [Hc Hn].
    split; [by repeat constructor|simpl; lia].
Qed.

Lemma decoded_cells_app d1 d2 :
  decoded_cells (d1 ++ d2) = decoded_cells d1 + decoded_cells d2.
Proof. induction d1 as [|c d1 IH]; simpl; lia. Qed.

(** The descriptor of a list of kinds is of the grammar and stands for
    as many squares as there are kinds, pending ones included. *)
Lemma enc_valid ks : forall r,
  0 <= r <= 26 -> Forall valid_kind ks ->
  Forall (fun c => desc_char c = true) (enc r ks) /\
  decoded_cells (enc r ks) = r + Z.of_nat (length ks).
Proof.
  induction ks as [|k ks IH]; intros r Hr Hv; cbn [enc length].
  { destruct (flush_run_valid r Hr) as [? ?]. split; [done|lia]. }
  apply Forall_cons in Hv as [Hk Hv]. rewrite Nat2Z.inj_succ.
  destruct (flush_run_valid r Hr) as [Hf1 Hf2].
  destruct k as [| |n].
  - destruct (r =? 26) eqn:E.
    + destruct (IH 1 ltac:(lia) Hv) as [H1 H2].
      destruct (desc_char_letter r ltac:(lia)) as [Hc Hn].
      split; [by constructor|]. simpl. lia.
    + destruct (IH (r + 1) ltac:(lia) Hv) as [H1 H2]. split; [done|lia].
  - destruct (IH 0 ltac:(lia) Hv) as [H1 H2].
    destruct (desc_char_black 66 ltac:(by left)) as [Hc Hn].
    split.
    + apply Forall_app. split; [done|by constructor].
    + rewrite decoded_cells_app. simpl. lia.
  - simpl in Hk. destruct (IH 0 ltac:(lia) Hv) as [H1 H2].
    destruct (desc_char_black (48 + n) ltac:(right; lia)) as [Hc Hn].
    split.
    + apply Forall_app. split; [done|by constructor].
    + rewrite decoded_cells_app. simpl. lia.
Qed.

Lemma cells_by_row_NoDup w h : NoDup (cells_by_row w h).
Proof.
  unfold cells_by_row. apply NoDup_bind.
  - intros y1 y2 [a b] _ _ H1 H2.
    apply list_elem_of_fmap in H1 as (? & ? & _).
    apply list_elem_of_fmap in H2 as (? & ? & _). by simplify_eq.
  - intros y _. apply NoDup_fmap_2; [by intros a b ?; simplify_eq|].
    apply NoDup_seqZ.
  - apply NoDup_seqZ.
Qed.

Lemma elem_of_cells_by_row w h x y :
  (x, y) ∈ cells_by_row w h <-> 0 <= x < w /\ 0 <= y < h.
Proof.
  unfold cells_by_row. rewrite list_elem_of_bind. split.
  - intros (y' & Hx & Hy). apply list_elem_of_fmap in Hx as (x' & E & Hx).
    simplify_eq. apply elem_of_seqZ in Hx. apply elem_of_seqZ in Hy. lia.
  - intros [Hx Hy]. exists y. split.
    + apply list_elem_of_fmap. exists x. split; [done|].
      apply elem_of_seqZ. lia.
    + apply elem_of_seqZ. lia.
Qed.

(** The descriptor [new_game_desc] writes for a board and the board
    [new_game] builds from a descriptor fit together.  For a board of
    the size of the parameters whose clues are between [0] and [4], the
    text written passes [validate_desc], and [new_game] makes of it a
    fresh board on which every square is what it was: white, black, or
    black with the same clue. *)
Theorem new_game_desc_round_trip params st :
  0 <= p_w params -> 0 <= p_h params ->
  s_w st = p_w params -> s_h st = p_h params ->
  (forall x y, in_grid st x y -> valid_kind (cell_kind st (x, y))) ->
  let desc := string_of_list_ascii (new_game_desc_encode params st) in
  validate_desc params desc = None /\
  exists st', new_game params desc = Returns st' /\
              fresh_board st' /\
              forall x y, in_grid st x y ->
                          cell_kind st' (x, y) = cell_kind st (x, y).
Proof.
  intros Hw Hh Hsw Hsh Hclues. cbv zeta.
  rewrite new_game_desc_encode_enc.
  set (cells := cells_by_row (p_w params) (p_h params)).
  assert (Forall (fun c => valid_kind (cell_kind st c)) cells) as Hv.
  { apply Forall_forall. intros [x y] Hc.
    apply elem_of_cells_by_row in Hc. apply Hclues.
    unfold in_grid. by rewrite Hsw, Hsh. }
  destruct (enc_valid (cell_kind st <$> cells) 0 ltac:(lia)) as [Hd Hn].
  { by apply Forall_fmap. }
  rewrite length_fmap in Hn. unfold cells in Hn.
  rewrite length_cells_by_row in Hn by done. fold cells in Hn.
  assert (c_chars (string_of_list_ascii (enc 0 (cell_kind st <$> cells)))
          = enc 0 (cell_kind st <$> cells)) as Hchars.
  { apply c_chars_of_list. eapply Forall_impl; [exact Hd|].
    intros c Hc. unfold desc_char in Hc. intros E. rewrite E in Hc. done. }
  split.
  { unfold validate_desc. rewrite Hchars.
    apply validate_from_accepts. split; [done|lia]. }
  unfold new_game. rewrite Hchars. fold cells.
  pose proof (new_game_fold_enc (cell_kind st) cells 0 [] (new_state params)
                ltac:(lia) eq_refl Hv) as Hfold.
  rewrite app_nil_l in Hfold. rewrite Hfold.
  eexists. split; [done|].
  pose proof (new_state_fresh params Hw Hh) as Hfresh0.
  split.
  { apply new_game_fold_fresh in Hfold as (st0 & d0 & r0 & Heq & Hf).
    simplify_eq. by apply Hf. }
  destruct (put_kinds_spec (cell_kind st) cells (new_state params))
    as (_ & _ & _ & Hk).
  - apply Hfresh0.
  - apply cells_by_row_NoDup.
  - intros [x y] Hc. apply elem_of_cells_by_row in Hc. cbn [fst snd].
    split; [done|]. unfold flags_at. cbn [new_state flags].
    by rewrite plane_get_replicate.
  - intros x y [Hx Hy]. apply Hk. apply elem_of_cells_by_row.
    by rewrite <- Hsw, <- Hsh.
Qed.

(** A 2x2 board with a clue [1] in its first square. *)
Lemma new_game_desc_round_trip_witness :
  let params := mk_game_params 2 2 20 0 0 in
  let st := mk_game_state 2 2 0 [1; 0; 0; 0] [3; 0; 0; 0] 0 0 in
  let desc := string_of_list_ascii (new_game_desc_encode params st) in
  validate_desc params desc = None /\
  exists st', new_game params desc = Returns st' /\
              fresh_board st' /\
              forall x y, in_grid st x y ->
                          cell_kind st' (x, y) = cell_kind st (x, y).
Proof.
  apply (new_game_desc_round_trip (mk_game_params 2 2 20 0 0)
           (mk_game_state 2 2 0 [1; 0; 0; 0] [3; 0; 0; 0] 0 0)).
  - simpl. lia.
  - simpl. lia.
  - reflexivity.
  - reflexivity.
  - intros x y [Hx Hy]. simpl in Hx, Hy.
    assert (x = 0 \/ x = 1) as [-> | ->] by lia;
      assert (y = 0 \/ y = 1) as [-> | ->] by lia; vm_compute; try done;
      split; discriminate.
Defined.

(** ** [interpret_move] and [execute_move] *)

Lemma run_move_flip st k x y :
  k = 76%N \/ k = 73%N ->
  in_grid st x y -> is_black st x y = false ->
  exists r, run_move st (c_chars (format_move (ascii_of_N k) x y)) = Some r.
Proof.
  intros Hk Hin Hw.
  rewrite c_chars_format_move
    by (rewrite code_ascii_of_N by (destruct Hk; subst; done);
        destruct Hk; subst; done).
  unfold run_move. cbn [length move_loop].
  unfold move_command. rewrite code_ascii_of_N by (destruct Hk; subst; done).
  rewrite sscanf_print, (in_grid_range_test _ _ _ Hin).
  unfold is_black in Hw. rewrite Hw.
  destruct Hk; subst k; cbn [Z.of_N Z.eqb Pos.eqb orb];
    destruct (length _); by eexists.
Qed.

(** Every move [interpret_move] sends is one [execute_move] carries out.
    The string it returns is [NULL], the empty string, or a command
    [L] or [I] on a white square of the grid, [L] only where there is no
    impossible mark and [I] only where there is no light; and
    [execute_move] accepts that command on the state it was made for.
    [tilesize] is positive, as a divisor in [FROMCOORD]. *)
Theorem interpret_move_executes
    (LEFT_BUTTON RIGHT_BUTTON CURSOR_SELECT : Z)
    (CURSOR_UP CURSOR_DOWN CURSOR_RIGHT CURSOR_LEFT : Z)
    (hp : gmap loc game_state) (p : loc) (state : game_state)
    (ui ui' : game_ui) (tilesize x y button : Z) (m : string) :
  0 < tilesize ->
  hp !! p = Some state ->
  interpret_move LEFT_BUTTON RIGHT_BUTTON CURSOR_SELECT
                 CURSOR_UP CURSOR_DOWN CURSOR_RIGHT CURSOR_LEFT
                 state ui tilesize x y button = (ui', Some m) ->
  m <> EmptyString ->
  (exists cx cy,
     in_grid state cx cy /\ is_black state cx cy = false /\
     ((m = format_move (ascii_of_N 76) cx cy /\
       has (flags_at state cx cy) F_IMPOSSIBLE = false) \/
      (m = format_move (ascii_of_N 73) cx cy /\
       has (flags_at state cx cy) F_LIGHT = false))) /\
  exists ret s', execute_move p m hp = (Some ret, <[ret := s']> hp).
Proof.
  intros _ Hp H Hm. unfold interpret_move in H.
  destruct (if (button =? LEFT_BUTTON) || (button =? RIGHT_BUTTON) then _
            else _) as [[[ui1 cx] cy] action].
  set (nullret := if negb (cur_visible ui1 =? 0) then Some EmptyString
                  else if negb (cur_visible ui =? 0) then Some EmptyString
                  else None) in H.
  assert (forall u, (u, nullret) = (ui', Some m) -> False) as Hnull.
  { intros u E. unfold nullret in E.
    destruct (negb (cur_visible ui1 =? 0)); [by simplify_eq|].
    destruct (negb (cur_visible ui =? 0)); by simplify_eq. }
  assert (forall k, k = 76%N \/ k = 73%N ->
            in_grid state cx cy -> is_black state cx cy = false ->
            m = format_move (ascii_of_N k) cx cy ->
            exists ret s', execute_move p m hp = (Some ret, <[ret := s']> hp))
    as Hexec.
  { intros k Hk Hin Hw ->.
    rewrite (execute_move_run _ _ _ _ Hp), dup_game_id.
    destruct (run_move_flip state k cx cy Hk Hin Hw) as [r ->].
    by eexists _, _. }
  destruct action; [by apply Hnull in H| |].
  - destruct ((cx <? 0) || (cy <? 0) || (cx >=? s_w state)
              || (cy >=? s_h state)) eqn:Hr; [by apply Hnull in H|].
    apply move_range_test in Hr.
    destruct (has (flags_at state cx cy) F_BLACK) eqn:Hb;
      [by apply Hnull in H|].
    destruct (has (flags_at state cx cy) F_IMPOSSIBLE) eqn:Hi;
      [by apply Hnull in H|].
    simplify_eq. split.
    + exists cx, cy. split_and!; try done. by left.
    + apply (Hexec 76%N); auto.
  - destruct ((cx <? 0) || (cy <? 0) || (cx >=? s_w state)
              || (cy >=? s_h state)) eqn:Hr; [by apply Hnull in H|].
    apply move_range_test in Hr.
    destruct (has (flags_at state cx cy) F_BLACK) eqn:Hb;
      [by apply Hnull in H|].
    destruct (has (flags_at state cx cy) F_LIGHT) eqn:Hl;
      [by apply Hnull in H|].
    simplify_eq. split.
    + exists cx, cy. split_and!; try done. by right.
    + apply (Hexec 73%N); auto.
Qed.

(** A left click in the middle of the only square of the 1x1 board, with
    the button codes of [puzzles.h]. *)
Lemma interpret_move_executes_witness :
  (exists cx cy,
     in_grid white_1x1 cx cy /\ is_black white_1x1 cx cy = false /\
     (("L0,0"%string = format_move (ascii_of_N 76) cx cy /\
       has (flags_at white_1x1 cx cy) F_IMPOSSIBLE = false) \/
      ("L0,0"%string = format_move (ascii_of_N 73) cx cy /\
       has (flags_at white_1x1 cx cy) F_LIGHT = false))) /\
  exists ret s',
    execute_move 1%positive "L0,0"
                 ({[1%positive := white_1x1]} : gmap loc game_state)
    = (Some ret, <[ret := s']> {[1%positive := white_1x1]}).
Proof.
  apply (interpret_move_executes 512 514 525 521 522 524 523
           {[1%positive := white_1x1]} 1%positive white_1x1
           (mk_game_ui 0 0 0) (mk_game_ui 0 0 0) 32 20 20 512 "L0,0").
  - lia.
  - reflexivity.
  - vm_compute. reflexivity.
  - done.
Defined.

(** ** [game_text_format] *)

Lemma length_bind_const {A B} (f : A -> list B) (l : list A) (n : nat) :
  (forall a, a ∈ l -> length (f a) = n) ->
  length (l ≫= f) = (length l * n)%nat.
Proof.
  induction l as [|a l IH]; intros H; [done|].
  rewrite bind_cons, length_app, (H a) by left. cbn [length].
  rewrite IH; [lia|]. intros b Hb. apply H. by right.
Qed.




(** ** Parameters: the short encoding, and validity *)

(** The short encoding carries the size only.  Decoding it over a record
    [old] sets the width and the height, keeps the black percentage and
    the symmetry of [old], and resets [recurse] to [0]. *)
Theorem decode_encode_params_short params old :
  0 <= p_w params -> 0 <= p_h params ->
  decode_params old (encode_params params false)
  = mk_game_params (p_w params) (p_h params) (blackpc old) (symm old) 0.
Proof.
  destruct params as [w h b s r], old as [w0 h0 b0 s0 r0].
  cbn [p_w p_h blackpc symm recurse]. intros Hw Hh.
  unfold decode_params, encode_params. cbn [p_w p_h].
  rewrite c_chars_of_list.
  2:{ apply Forall_app. split; [apply print_int_no_nul|].
      apply Forall_cons. split; [done|apply print_int_no_nul]. }
  rewrite !print_int_nonneg by done.
  rewrite EATNUM_print_uint;
    [|done|apply stops_digits_letter; [done|simpl; lia]].
  rewrite (eat_char_here 120) by done.
  pose proof (EATNUM_print_uint h [] Hh I) as Hy. rewrite app_nil_r in Hy.
  rewrite Hy. reflexivity.
Qed.

Lemma decode_encode_params_short_witness :
  decode_params (mk_game_params 7 7 20 4 1)
                (encode_params (mk_game_params 10 14 30 2 1) false)
  = mk_game_params 10 14 20 4 0.
Proof.
  apply (decode_encode_params_short (mk_game_params 10 14 30 2 1)
                                    (mk_game_params 7 7 20 4 1));
    simpl; lia.
Defined.

(** Parameters that pass the full validation survive their full
    encoding: decoding gives them back, with [recurse] as a truth value,
    and what comes back passes the validation again. *)
Theorem valid_params_round_trip params old :
  validate_params params true = None ->
  decode_params old (encode_params params true)
  = with_recurse params (if recurse params =? 0 then 0 else 1) /\
  validate_params (decode_params old (encode_params params true)) true = None.
Proof.
  intros Hv.
  assert (0 <= p_w params /\ 0 <= p_h params /\
          0 <= blackpc params /\ 0 <= symm params) as (Hw & Hh & Hb & Hs).
  { unfold validate_params in Hv.
    destruct ((p_w params <? 2) || (p_h params <? 2)) eqn:E1; [done|].
    destruct ((blackpc params <? 5) || (blackpc params >? 100)) eqn:E2;
      [done|].
    destruct (negb (p_w params =? p_h params) && (symm params =? SYMM_ROT4));
      [done|].
    destruct ((symm params <? 0) || (symm params >=? SYMM_MAX)) eqn:E3;
      [done|].
    lia. }
  rewrite decode_encode_params_flag by done. split; [done|].
  destruct params as [w h b s r]. exact Hv.
Qed.

Lemma valid_params_round_trip_witness :
  decode_params (mk_game_params 7 7 20 4 0)
                (encode_params (mk_game_params 10 10 20 2 1) true)
  = with_recurse (mk_game_params 10 10 20 2 1)
                 (if recurse (mk_game_params 10 10 20 2 1) =? 0 then 0 else 1)
  /\
  validate_params
    (decode_params (mk_game_params 7 7 20 4 0)
                   (encode_params (mk_game_params 10 10 20 2 1) true)) true
  = None.
Proof.
  apply (valid_params_round_trip (mk_game_params 10 10 20 2 1)
                                 (mk_game_params 7 7 20 4 0)).
  reflexivity.
Defined.

(** ** The [completed] field after a move *)

(** [execute_move] sets [completed] exactly when the board it returns
    passes [grid_correct]; otherwise the field is what it was. *)
Theorem execute_move_completed (hp hp' : gmap loc game_state) state ret s m :
  hp !! state = Some s ->
  execute_move state m hp = (Some ret, hp') ->
  exists s', hp' !! ret = Some s' /\
             completed s' = if grid_correct s' then 1 else completed s.
Proof.
  intros Hs He.
  rewrite (execute_move_run _ _ _ _ Hs), dup_game_id in He.
  unfold run_move in He.
  destruct (c_chars m) as [|c cs]; [done|].
  destruct (move_loop _ _ _) as [[r|]| |] eqn:Hl; try done.
  apply move_loop_completed in Hl as (_ & _ & Hc).
  simplify_eq. eexists. split; [apply lookup_insert_eq|].
  destruct (grid_correct r) eqn:Hg.
  - rewrite (grid_correct_ext r (with_completed r 1)) by done.
    by rewrite Hg.
  - by rewrite Hg.
Qed.

(** The light that completes the 1x1 board. *)
Lemma execute_move_completed_witness :
  exists s',
    (<[2%positive := mk_game_state 1 1 1 [1] [16] 1 0]>
       ({[1%positive := white_1x1]} : gmap loc game_state)) !! 2%positive
    = Some s' /\
    completed s' = if grid_correct s' then 1 else completed white_1x1.
Proof.
  apply (execute_move_completed {[1%positive := white_1x1]} _
           1%positive 2%positive white_1x1 "L0,0").
  - reflexivity.
  - vm_compute. reflexivity.
Defined.

(** ** The counter [nlights], from states of play *)

(** The first light on the empty 1x1 board. *)
Lemma execute_move_nlights_ok_witness :
  exists s',
    (<[2%positive := mk_game_state 1 1 1 [1] [16] 1 0]>
       ({[1%positive := white_1x1]} : gmap loc game_state)) !! 2%positive
    = Some s' /\ wf_state s' /\ nlights_ok s'.
Proof.
  apply (execute_move_nlights_ok {[1%positive := white_1x1]} _
           1%positive 2%positive white_1x1 "L0,0").
  - reflexivity.
  - exact white_1x1_wf.
  - reflexivity.
  - vm_compute. reflexivity.
Defined.

(** ** [grid_correct] and the rules of the game *)

Lemma elem_of_lit_from st x y lx ly :
  lights_on_white st ->
  (lx, ly) ∈ lit_from st x y <->
  in_grid st lx ly /\ has (flags_at st lx ly) F_LIGHT = true /\
  sees st lx ly x y.
Proof.
  intros Hlw. unfold lit_from. rewrite list_elem_of_filter. cbn [fst snd].
  rewrite elem_of_all_cells. split.
  - intros ((Hl & Hm) & Hin). split; [done|]. split; [done|].
    apply list_lights_sees; [done|by apply Hlw|done].
  - intros (Hin & Hl & Hs). split; [|done]. split; [done|].
    apply list_lights_sees; [done|by apply Hlw|done].
Qed.

Lemma lit_from_NoDup st x y : NoDup (lit_from st x y).
Proof. apply NoDup_filter, all_cells_NoDup. Qed.

Lemma NoDup_length_le_1 {A} (l : list A) (a : A) :
  NoDup l -> a ∈ l ->
  (length l <= 1)%nat <-> forall b, b ∈ l -> b = a.
Proof.
  intros Hnd Ha. split.
  - intros Hlen b Hb. destruct l as [|c [|d l]]; cbn [length] in Hlen;
      [by apply elem_of_nil in Ha| |lia].
    apply list_elem_of_singleton in Ha, Hb. congruence.
  - intros Hall. destruct l as [|c [|d l]]; cbn [length]; [lia|lia|].
    exfalso. apply NoDup_cons in Hnd as [Hc _]. apply Hc.
    assert (c = d) as ->.
    { transitivity a; [apply Hall; left|symmetry; apply Hall; right; left]. }
    left.
Qed.

Lemma grid_lit_spec st :
  grid_lit st = true <->
  forall x y, in_grid st x y -> is_black st x y = false ->
              lights_at st x y <> 0.
Proof.
  unfold grid_lit. rewrite forallb_forall. split.
  - intros H x y Hin Hw.
    specialize (H (x, y) ltac:(by apply list_elem_of_In, elem_of_all_cells)).
    cbn [fst snd] in H. unfold is_black in Hw. rewrite Hw in H. lia.
  - intros H [x y] Hc. apply list_elem_of_In, elem_of_all_cells in Hc.
    cbn [fst snd]. destruct (has (flags_at st x y) F_BLACK) eqn:Hb; [done|].
    specialize (H x y Hc Hb). lia.
Qed.

Lemma grid_overlap_spec st :
  grid_overlap st = false <->
  forall x y, in_grid st x y -> has (flags_at st x y) F_LIGHT = true ->
              lights_at st x y <= 1.
Proof.
  unfold grid_overlap. split.
  - intros H x y Hin Hl.
    destruct (Z.le_gt_cases (lights_at st x y) 1) as [?|Hgt]; [done|].
    exfalso. apply not_true_iff_false in H. apply H.
    apply existsb_exists. exists (x, y). cbn [fst snd].
    split; [by apply list_elem_of_In, elem_of_all_cells|].
    rewrite Hl. cbn [negb]. lia.
  - intros H. apply not_true_iff_false. intros He.
    apply existsb_exists in He as ([x y] & Hc & Hp).
    apply list_elem_of_In, elem_of_all_cells in Hc. cbn [fst snd] in Hp.
    destruct (has (flags_at st x y) F_LIGHT) eqn:Hl; [|done].
    specialize (H x y Hc Hl). cbn [negb] in Hp. lia.
Qed.

Lemma grid_addsup_spec st : grid_addsup st = true <-> clues_add_up st.
Proof.
  unfold grid_addsup, clues_add_up. rewrite forallb_forall. split.
  - intros H x y Hin Hn.
    specialize (H (x, y) ltac:(by apply list_elem_of_In, elem_of_all_cells)).
    cbn [fst snd] in H. rewrite Hn in H. cbn [negb] in H.
    unfold number_correct in H. fold (count_surrounding_lights st x y) in H.
    lia.
  - intros H [x y] Hc. apply list_elem_of_In, elem_of_all_cells in Hc.
    cbn [fst snd].
    destruct (has (flags_at st x y) F_NUMBERED) eqn:Hn; [|done].
    cbn [negb]. unfold number_correct.
    fold (count_surrounding_lights st x y). rewrite (H x y Hc Hn).
    apply Z.eqb_refl.
Qed.

Lemma all_lit_spec st :
  lit_ok st -> lights_on_white st ->
  (forall x y, in_grid st x y -> is_black st x y = false ->
     lights_at st x y <> 0) <-> all_lit st.
Proof.
  intros Hok Hlw. split.
  - intros H x y Hin Hw. specialize (H x y Hin Hw).
    rewrite (Hok x y Hin Hw) in H.
    destruct (lit_from st x y) as [|[lx ly] l] eqn:E; [done|].
    exists lx, ly. apply (elem_of_lit_from st x y lx ly Hlw).
    rewrite E. left.
  - intros H x y Hin Hw. destruct (H x y Hin Hw) as (lx & ly & Hl).
    apply (elem_of_lit_from st x y lx ly Hlw) in Hl.
    rewrite (Hok x y Hin Hw).
    destruct (lit_from st x y); [by apply elem_of_nil in Hl|done].
Qed.

Lemma no_overlap_spec st :
  lit_ok st -> lights_on_white st ->
  (forall x y, in_grid st x y ->
     has (flags_at st x y) F_LIGHT = true -> lights_at st x y <= 1)
  <-> no_overlap st.
Proof.
  intros Hok Hlw.
  assert (forall x y, in_grid st x y ->
            has (flags_at st x y) F_LIGHT = true ->
            (x, y) ∈ lit_from st x y) as Hself.
  { intros x y Hin Hl. apply elem_of_lit_from; [done|].
    split; [done|]. split; [done|]. apply sees_self; [done|by apply Hlw]. }
  split.
  - intros H x y x' y' Hin Hin' Hl Hl' Hne Hs.
    specialize (H x' y' Hin' Hl').
    rewrite (Hok x' y' Hin' (Hlw x' y' Hin' Hl')) in H.
    assert ((length (lit_from st x' y') <= 1)%nat) as Hlen by lia.
    apply (NoDup_length_le_1 _ (x', y') (lit_from_NoDup st x' y')
             (Hself x' y' Hin' Hl')) with (b := (x, y)) in Hlen; [done|].
    by apply elem_of_lit_from.
  - intros H x y Hin Hl. rewrite (Hok x y Hin (Hlw x y Hin Hl)).
    assert ((length (lit_from st x y) <= 1)%nat) as Hlen; [|lia].
    apply (NoDup_length_le_1 _ (x, y) (lit_from_NoDup st x y)
             (Hself x y Hin Hl)).
    intros [lx ly] Hb. apply elem_of_lit_from in Hb as (Hin' & Hl' & Hs);
      [|done].
    destruct (decide ((lx, ly) = (x, y))) as [E|E]; [done|].
    exfalso. by apply (H lx ly x y).
Qed.

(** [grid_correct] decides the rules of the game.  On a well-formed
    state whose lights stand on white squares and whose lit counts are
    exact (which [new_game] establishes and moves and the solver keep),
    [grid_correct] returns true exactly when every white square is lit
    by some light, no light shines on another light, and every numbered
    square has its number of lights on the squares of the board adjacent
    to it. *)
Theorem grid_correct_rules st :
  wf_state st -> lit_ok st -> lights_on_white st ->
  grid_correct st = true <-> rules_hold st.
Proof.
  intros Hwf Hok Hlw. unfold grid_correct, rules_hold.
  rewrite !andb_true_iff, negb_true_iff.
  rewrite grid_lit_spec, grid_overlap_spec, grid_addsup_spec.
  rewrite (all_lit_spec st Hok Hlw), (no_overlap_spec st Hok Hlw).
  rewrite clues_met_spec. tauto.
Qed.

(** A row of three squares: a clue [2] between two lights. *)
Lemma clue_3x1_lit_ok :
  lit_ok (mk_game_state 3 1 2 [1; 2; 1] [16; 3; 16] 0 0).
Proof.
  set (st0 := mk_game_state 3 1 0 [0; 2; 0] [0; 3; 0] 0 0).
  assert (wf_state st0) as Hwf0.
  { unfold wf_state. simpl. repeat split; lia. }
  assert (fresh_board st0) as Hf0.
  { split; [done|]. split; [done|].
    split; intros [|[|[|i]]]; by vm_compute. }
  set (st1 := set_light st0 0 0 true).
  assert (in_grid st0 0 0) as Hin0 by (unfold in_grid; simpl; lia).
  assert (wf_state st1) as Hwf1 by (by apply wf_state_set_light).
  assert (lit_ok st1) as Hok1.
  { apply lit_ok_set_light; try done. by apply fresh_board_lit_ok. }
  by apply (lit_ok_set_light st1 2 0 true).
Qed.

(** On that row the three rules hold: both white squares are lit, the
    lights do not see each other across the black square, and the clue
    has a light on its left and one on its right. *)
Lemma grid_correct_rules_witness :
  rules_hold (mk_game_state 3 1 2 [1; 2; 1] [16; 3; 16] 0 0).
Proof.
  apply (grid_correct_rules (mk_game_state 3 1 2 [1; 2; 1] [16; 3; 16] 0 0)).
  - unfold wf_state. simpl. repeat split; lia.
  - exact clue_3x1_lit_ok.
  - intros x y [Hx Hy]. simpl in Hx, Hy. assert (y = 0) as -> by lia.
    assert (x = 0 \/ x = 1 \/ x = 2) as [-> | [-> | ->]] by lia;
      by vm_compute.
  - reflexivity.
Defined.

(** ** A second click undoes the first *)

(** What the command [L] does to a white square of the grid, flag by
    flag and lit count by lit count. *)
Lemma flip_light_spec st x y :
  wf_state st -> in_grid st x y -> is_black st x y = false ->
  let on := negb (has (flags_at st x y) F_LIGHT) in
  let d := if on then 1 else -1 in
  let r := set_light
             (set_flags_at st x y (fl_clear (flags_at st x y) F_IMPOSSIBLE))
             x y on in
  wf_state r /\ s_w r = s_w st /\ s_h r = s_h st /\
  nlights r = nlights st + d /\
  (forall a b, is_black r a b = is_black st a b) /\
  (forall a b k, in_grid st a b -> 0 <= k ->
     has (flags_at r a b) (2 ^ k) =
       if decide ((a, b) = (x, y) /\ k = 4) then on
       else if decide ((a, b) = (x, y) /\ k = 3) then false
       else has (flags_at st a b) (2 ^ k)) /\
  (forall a b, sees st x y a b -> lights_at r a b = lights_at st a b + d) /\
  (forall a b, in_grid st a b -> ~ sees st x y a b ->
     lights_at r a b = lights_at st a b).
Proof.
  intros Hwf Hin Hw on d r.
  set (st1 := set_flags_at st x y (fl_clear (flags_at st x y) F_IMPOSSIBLE))
    in *.
  assert (wf_state st1) as Hwf1 by (by apply wf_state_set_flags).
  assert (forall a b, is_black st1 a b = is_black st a b) as Hbl.
  { intros a b. unfold st1. apply is_black_set_flags. other_flag. }
  assert (has (flags_at st1 x y) F_LIGHT = has (flags_at st x y) F_LIGHT)
    as Hl1.
  { unfold st1. rewrite flags_at_set_flags by done.
    rewrite decide_True by done. other_flag. }
  assert (has (flags_at st1 x y) F_LIGHT <> on) as Hne.
  { rewrite Hl1. unfold on. by destruct (has (flags_at st x y) F_LIGHT). }
  destruct (set_light_change st1 x y on Hwf1 Hin ltac:(by rewrite Hbl) Hne)
    as (_ & Hsw & Hsh & _ & _ & Hn & Hwf' & Hsee & Hnot & _).
  fold r in Hsw, Hsh, Hn, Hwf', Hsee, Hnot.
  assert (forall a b, sees st1 x y a b <-> sees st x y a b) as Hsees.
  { intros a b. by apply sees_ext. }
  split_and!; try done.
  - intros a b. unfold r. by rewrite is_black_set_light.
  - intros a b k Hab Hk. unfold r.
    rewrite has_flags_at_set_light by (done || by rewrite Hbl).
    destruct (decide ((a, b) = (x, y) /\ k = 4)) as [E|E]; [done|].
    unfold st1. rewrite has_flags_at_set_flags by done.
    destruct (decide ((a, b) = (x, y))) as [E1|E1].
    + simplify_eq. change F_IMPOSSIBLE with (2 ^ 3).
      rewrite has_fl_clear by lia.
      destruct (decide ((x, y) = (x, y) /\ k = 3)) as [[_ ->]|E3].
      * by rewrite andb_false_r.
      * destruct (3 =? k) eqn:E3'; [exfalso; apply E3; split; [done|lia]|].
        by rewrite andb_true_r.
    + rewrite decide_False; [done|]. by intros [? _].
  - intros a b Hs. apply Hsee. by apply Hsees.
  - intros a b Hab Hs. apply Hnot; [done|]. by rewrite Hsees.
Qed.

(** The state [execute_move] returns for one [L] command on a white
    square of the grid. *)
Lemma execute_move_light (hp : gmap loc game_state) state s x y :
  hp !! state = Some s -> in_grid s x y -> is_black s x y = false ->
  let r := set_light
             (set_flags_at s x y (fl_clear (flags_at s x y) F_IMPOSSIBLE))
             x y (negb (has (flags_at s x y) F_LIGHT)) in
  execute_move state (format_move (ascii_of_N 76) x y) hp
  = (Some (fresh (dom hp)),
     <[fresh (dom hp) := if grid_correct r then with_completed r 1 else r]> hp).
Proof.
  intros Hs Hin Hw. cbv zeta.
  rewrite (execute_move_run _ _ _ _ Hs), dup_game_id.
  by rewrite run_move_light.
Qed.

(** A second click undoes the first.  On a white square of the grid
    that carries no impossible mark, the command [L] executed twice in a
    row gives back the position: every flag word, every lit count and
    the counter [nlights] are what they were.  (The field [completed] is
    not part of the statement: it stays set if the first click solved
    the puzzle.) *)
Theorem light_twice_undoes (hp hp1 hp2 : gmap loc game_state)
    (state r1 r2 : loc) (s : game_state) (x y : Z) :
  hp !! state = Some s ->
  wf_state s -> in_grid s x y -> is_black s x y = false ->
  has (flags_at s x y) F_IMPOSSIBLE = false ->
  execute_move state (format_move (ascii_of_N 76) x y) hp = (Some r1, hp1) ->
  execute_move r1 (format_move (ascii_of_N 76) x y) hp1 = (Some r2, hp2) ->
  exists s2, hp2 !! r2 = Some s2 /\
    s_w s2 = s_w s /\ s_h s2 = s_h s /\ nlights s2 = nlights s /\
    forall a b, in_grid s a b ->
      flags_at s2 a b = flags_at s a b /\ lights_at s2 a b = lights_at s a b.
Proof.
  intros Hs Hwf Hin Hw Himp H1 H2.
  rewrite (execute_move_light hp state s x y Hs Hin Hw) in H1.
  destruct (flip_light_spec s x y Hwf Hin Hw)
    as (Hwf1 & Hsw1 & Hsh1 & Hn1 & Hbl1 & Hfl1 & Hsee1 & Hnot1).
  set (on1 := negb (has (flags_at s x y) F_LIGHT)) in *.
  set (q1 := set_light
               (set_flags_at s x y (fl_clear (flags_at s x y) F_IMPOSSIBLE))
               x y on1) in *.
  set (s1 := if grid_correct q1 then with_completed q1 1 else q1) in *.
  simplify_eq.
  assert (wf_state s1 /\ s_w s1 = s_w q1 /\ s_h s1 = s_h q1 /\
          nlights s1 = nlights q1 /\
          (forall a b, flags_at s1 a b = flags_at q1 a b) /\
          (forall a b, lights_at s1 a b = lights_at q1 a b) /\
          (forall a b, is_black s1 a b = is_black q1 a b))
    as (Hwfs & Hsws & Hshs & Hns & Hfs & Hls & Hbs).
  { unfold s1. by destruct (grid_correct q1). }
  assert (in_grid s1 x y) as Hin1.
  { unfold in_grid in *. by rewrite Hsws, Hsw1, Hshs, Hsh1. }
  assert (is_black s1 x y = false) as Hw1 by (by rewrite Hbs, Hbl1).
  rewrite (execute_move_light _ (fresh (dom hp)) s1 x y
             (lookup_insert_eq _ _ _) Hin1 Hw1) in H2.
  destruct (flip_light_spec s1 x y Hwfs Hin1 Hw1)
    as (Hwf2 & Hsw2 & Hsh2 & Hn2 & Hbl2 & Hfl2 & Hsee2 & Hnot2).
  set (on2 := negb (has (flags_at s1 x y) F_LIGHT)) in *.
  set (q2 := set_light
               (set_flags_at s1 x y (fl_clear (flags_at s1 x y) F_IMPOSSIBLE))
               x y on2) in *.
  simplify_eq. eexists. split; [apply lookup_insert_eq|].
  assert (on2 = negb on1) as Hon.
  { unfold on2. rewrite Hfs. change F_LIGHT with (2 ^ 4).
    rewrite Hfl1 by (done || lia). by rewrite decide_True. }
  assert (forall a b, in_grid s1 a b <-> in_grid s a b) as Hgrid.
  { intros a b. unfold in_grid. by rewrite Hsws, Hsw1, Hshs, Hsh1. }
  assert (forall a b, sees s1 x y a b <-> sees s x y a b) as Hsees.
  { intros a b. apply sees_ext; [congruence|congruence|].
    intros ? ?. by rewrite Hbs, Hbl1. }
  assert (forall a b, in_grid s a b ->
            flags_at q2 a b = flags_at s a b /\
            lights_at q2 a b = lights_at s a b) as Hq2.
  { intros a b Hab. split.
    - apply Z.bits_inj'. intros k Hk. rewrite <- !has_pow2 by done.
      rewrite Hfl2 by (by apply Hgrid || done). rewrite Hfs, Hfl1 by done.
      destruct (decide ((a, b) = (x, y) /\ k = 4)) as [[E ->]|E4].
      + simplify_eq. rewrite Hon. unfold on1.
        change (2 ^ 4) with F_LIGHT.
        by destruct (has (flags_at s x y) F_LIGHT).
      + destruct (decide ((a, b) = (x, y) /\ k = 3)) as [[E ->]|E3]; [|done].
        simplify_eq. change (2 ^ 3) with F_IMPOSSIBLE. by rewrite Himp.
    - pose proof (list_lights_sees s x y a b Hin Hw) as Hiff.
      destruct (decide ((a, b) ∈ foreachlit_cells (list_lights s x y true)))
        as [Hsab|Hsab]; rewrite Hiff in Hsab.
      + rewrite Hsee2 by (by apply Hsees). rewrite Hls, Hsee1 by done.
        rewrite Hon. destruct on1; cbn [negb]; lia.
      + rewrite Hnot2; [|by apply Hgrid|by rewrite Hsees].
        rewrite Hls. by apply Hnot1. }
  assert (nlights q2 = nlights s) as Hnq.
  { rewrite Hn2, Hns, Hn1, Hon. destruct on1; cbn [negb]; lia. }
  destruct (grid_correct q2); cbn [with_completed s_w s_h nlights];
    (split; [congruence|]); (split; [congruence|]); (split; [done|]);
    exact Hq2.
Qed.

(** Two clicks on the only square of the 1x1 board: the light goes on
    and off again, and [completed] stays set. *)
Lemma light_twice_undoes_witness :
  exists s2,
    (<[3%positive := mk_game_state 1 1 0 [0] [0] 1 0]>
       (<[2%positive := mk_game_state 1 1 1 [1] [16] 1 0]>
          ({[1%positive := white_1x1]} : gmap loc game_state)))
      !! 3%positive = Some s2 /\
    s_w s2 = s_w white_1x1 /\ s_h s2 = s_h white_1x1 /\
    nlights s2 = nlights white_1x1 /\
    forall a b, in_grid white_1x1 a b ->
      flags_at s2 a b = flags_at white_1x1 a b /\
      lights_at s2 a b = lights_at white_1x1 a b.
Proof.
  apply (light_twice_undoes {[1%positive := white_1x1]}
           (<[2%positive := mk_game_state 1 1 1 [1] [16] 1 0]>
              {[1%positive := white_1x1]})
           _ 1%positive 2%positive 3%positive white_1x1 0 0).
  - reflexivity.
  - exact white_1x1_wf.
  - unfold in_grid. simpl. lia.
  - reflexivity.
  - reflexivity.
  - vm_compute. reflexivity.
  - vm_compute. reflexivity.
Defined.

(** ** The solver keeps lights and marks apart *)

(** A square that holds a light is lit, by that light. *)
Lemma light_is_lit st x y :
  lit_ok st -> lights_on_white st -> in_grid st x y ->
  has (flags_at st x y) F_LIGHT = true -> 1 <= lights_at st x y.
Proof.
  intros Hok Hlw Hin Hl. rewrite (Hok x y Hin (Hlw x y Hin Hl)).
  assert ((x, y) ∈ lit_from st x y) as Hmem.
  { apply elem_of_lit_from; [done|]. split; [done|]. split; [done|].
    apply sees_self; [done|by apply Hlw]. }
  destruct (lit_from st x y); [by apply elem_of_nil in Hmem|simpl; lia].
Qed.

(** A step that changes the flags [F_LIGHT] and [F_IMPOSSIBLE] of one
    white square at most, to values that are not both set, and no
    [F_BLACK] flag. *)
Lemma apart_step st st' x y :
  s_w st' = s_w st -> s_h st' = s_h st ->
  (forall a b, in_grid st a b ->
     has (flags_at st' a b) F_BLACK = has (flags_at st a b) F_BLACK) ->
  (forall a b, in_grid st a b -> (a, b) <> (x, y) ->
     has (flags_at st' a b) F_LIGHT = has (flags_at st a b) F_LIGHT /\
     has (flags_at st' a b) F_IMPOSSIBLE
     = has (flags_at st a b) F_IMPOSSIBLE) ->
  (in_grid st x y ->
   has (flags_at st' x y) F_LIGHT && has (flags_at st' x y) F_IMPOSSIBLE
   = false /\
   ((has (flags_at st' x y) F_LIGHT = has (flags_at st x y) F_LIGHT /\
     has (flags_at st' x y) F_IMPOSSIBLE
     = has (flags_at st x y) F_IMPOSSIBLE) \/
    is_black st x y = false)) ->
  lights_on_white st /\ exclusive st /\ marks_on_white st ->
  lights_on_white st' /\ exclusive st' /\ marks_on_white st'.
Proof.
  intros Hw Hh Hb Hother Hhere (Hlw & Hex & Hmw).
  assert (forall a b, in_grid st' a b -> in_grid st a b) as Hgrid.
  { intros a b. unfold in_grid. by rewrite Hw, Hh. }
  split; [|split].
  - intros a b Hab Hl. apply Hgrid in Hab. unfold is_black.
    rewrite Hb by done.
    destruct (decide ((a, b) = (x, y))) as [E|E].
    + simplify_eq. destruct (Hhere Hab) as [_ [[Hl' _]|Hwh]]; [|done].
      apply (Hlw x y Hab). by rewrite <- Hl'.
    + destruct (Hother a b Hab E) as [Hl' _]. apply (Hlw a b Hab).
      by rewrite <- Hl'.
  - intros a b Hab. apply Hgrid in Hab.
    destruct (decide ((a, b) = (x, y))) as [E|E].
    + simplify_eq. by destruct (Hhere Hab).
    + destruct (Hother a b Hab E) as [-> ->]. by apply Hex.
  - intros a b Hab Hi. apply Hgrid in Hab. unfold is_black.
    rewrite Hb by done.
    destruct (decide ((a, b) = (x, y))) as [E|E].
    + simplify_eq. destruct (Hhere Hab) as [_ [[_ Hi']|Hwh]]; [|done].
      apply (Hmw x y Hab). by rewrite <- Hi'.
    + destruct (Hother a b Hab E) as [_ Hi']. apply (Hmw a b Hab).
      by rewrite <- Hi'.
Qed.

(** Setting or clearing one flag other than [F_BLACK] on a square. *)
Lemma apart_set_bit st x y k (set : bool) :
  wf_state st -> in_grid st x y -> 0 < k ->
  let st' := set_flags_at st x y
               (if set then fl_set (flags_at st x y) (2 ^ k)
                else fl_clear (flags_at st x y) (2 ^ k)) in
  (k = 3 -> set = true ->
   has (flags_at st x y) F_LIGHT = false /\ is_black st x y = false) ->
  (k = 4 -> False) ->
  lights_on_white st /\ exclusive st /\ marks_on_white st ->
  lights_on_white st' /\ exclusive st' /\ marks_on_white st'.
Proof.
  intros Hwf Hin Hk st' H3 H4 Hp.
  assert (forall a b j, in_grid st a b -> 0 <= j ->
            has (flags_at st' a b) (2 ^ j) =
              if decide ((a, b) = (x, y) /\ j = k) then set
              else has (flags_at st a b) (2 ^ j)) as Hfl.
  { intros a b j Hab Hj. unfold st'. destruct set.
    - rewrite has_flags_at_set_bit by (done || lia).
      destruct (decide ((a, b) = (x, y) /\ j = k)) as [[E ->]|E].
      + rewrite bool_decide_eq_true_2 by done.
        by rewrite Z.eqb_refl, orb_true_r.
      + destruct (bool_decide ((a, b) = (x, y))) eqn:Eb; [|by rewrite orb_false_r].
        apply bool_decide_eq_true in Eb.
        destruct (k =? j) eqn:Ek; [exfalso; apply E; split; [done|lia]|].
        by rewrite orb_false_r.
    - rewrite has_flags_at_clear_bit by (done || lia).
      destruct (decide ((a, b) = (x, y) /\ j = k)) as [[E ->]|E].
      + rewrite bool_decide_eq_true_2 by done.
        by rewrite Z.eqb_refl, andb_false_r.
      + destruct (bool_decide ((a, b) = (x, y))) eqn:Eb; [|by rewrite andb_true_r].
        apply bool_decide_eq_true in Eb.
        destruct (k =? j) eqn:Ek; [exfalso; apply E; split; [done|lia]|].
        by rewrite andb_true_r. }
  apply (apart_step st st' x y); try done.
  - intros a b Hab. change F_BLACK with (2 ^ 0). rewrite Hfl by (done || lia).
    rewrite decide_False; [done|]. intros [_ ?]. lia.
  - intros a b Hab Hne. change F_LIGHT with (2 ^ 4).
    change F_IMPOSSIBLE with (2 ^ 3). rewrite !Hfl by (done || lia).
    by rewrite !decide_False by (by intros [? _]).
  - intros _. change F_LIGHT with (2 ^ 4).
    change F_IMPOSSIBLE with (2 ^ 3). rewrite !Hfl by (done || lia).
    rewrite (decide_False (P := _ /\ 4 = k)) by (intros [_ ?]; lia).
    pose proof Hp as (_ & Hex & Hmw). specialize (Hex x y Hin).
    change F_LIGHT with (2 ^ 4) in Hex. change F_IMPOSSIBLE with (2 ^ 3) in Hex.
    destruct (decide ((x, y) = (x, y) /\ 3 = k)) as [[_ E]|E].
    + subst k. destruct set.
      * destruct (H3 eq_refl eq_refl) as [Hl Hwh].
        change F_LIGHT with (2 ^ 4) in Hl. rewrite Hl.
        split; [done|by right].
      * split; [by rewrite andb_false_r|].
        destruct (is_black st x y) eqn:Hbl; [|by right].
        left. split; [done|].
        destruct (has (flags_at st x y) (2 ^ 3)) eqn:Hi; [|done].
        pose proof (Hmw x y Hin Hi). congruence.
    + split; [done|]. by left.
Qed.

Lemma apart_set_light st x y (on : bool) :
  wf_state st -> in_grid st x y -> is_black st x y = false ->
  (on = true -> has (flags_at st x y) F_IMPOSSIBLE = false) ->
  lights_on_white st /\ exclusive st /\ marks_on_white st ->
  lights_on_white (set_light st x y on) /\ exclusive (set_light st x y on) /\
  marks_on_white (set_light st x y on).
Proof.
  intros Hwf Hin Hw Himp Hp.
  destruct (set_light_frame st x y on) as (Hsw & Hsh & _).
  apply (apart_step st _ x y); try done.
  - intros a b Hab. change F_BLACK with (2 ^ 0).
    rewrite has_flags_at_set_light by (done || lia).
    rewrite decide_False; [done|]. intros [_ ?]. lia.
  - intros a b Hab Hne. change F_LIGHT with (2 ^ 4).
    change F_IMPOSSIBLE with (2 ^ 3).
    rewrite !has_flags_at_set_light by (done || lia).
    by rewrite !decide_False by (by intros [? _]).
  - intros _. split; [|by right]. change F_LIGHT with (2 ^ 4).
    change F_IMPOSSIBLE with (2 ^ 3).
    rewrite !has_flags_at_set_light by (done || lia).
    rewrite decide_True by done.
    rewrite decide_False by (intros [_ ?]; lia).
    destruct on; [|done]. change (2 ^ 3) with F_IMPOSSIBLE.
    by rewrite Himp.
Qed.

Lemma apart_copy_planes st1 st2 :
  lights_on_white st2 /\ exclusive st2 /\ marks_on_white st2 ->
  s_w st1 = s_w st2 -> s_h st1 = s_h st2 ->
  lights_on_white (copy_planes st1 st2) /\ exclusive (copy_planes st1 st2) /\
  marks_on_white (copy_planes st1 st2).
Proof.
  destruct st1 as [w1 h1 n1 l1 f1 c1 u1], st2 as [w2 h2 n2 l2 f2 c2 u2].
  cbn [s_w s_h]. intros H -> ->. exact H.
Qed.

Lemma position_set_bit st x y k (set : bool) :
  wf_state st -> in_grid st x y -> k = 2 \/ k = 3 ->
  (k = 3 -> set = true ->
     is_black st x y = false /\
     (has (flags_at st x y) F_LIGHT = false \/ can_place st x y = true)) ->
  position st ->
  position (set_flags_at st x y
              (if set then fl_set (flags_at st x y) (2 ^ k)
               else fl_clear (flags_at st x y) (2 ^ k))).
Proof.
  intros Hwf Hin Hk Hfree (Hok & Hp). split.
  - apply lit_ok_set_flags; try done;
      destruct set, Hk as [-> | ->]; other_flag.
  - apply (apart_set_bit st x y k set); try done; try lia.
    intros -> ->. destruct (Hfree eq_refl eq_refl) as [Hw Hf].
    split; [|done]. destruct Hf as [Hl|Hcp]; [done|].
    destruct (has (flags_at st x y) F_LIGHT) eqn:Hl; [|done].
    destruct Hp as (Hlw & _).
    pose proof (light_is_lit st x y Hok Hlw Hin Hl) as Hlit.
    apply could_place_light_white in Hcp as [_ Hle]. lia.
Qed.

Lemma position_set_light st x y (on : bool) :
  wf_state st -> in_grid st x y -> is_black st x y = false ->
  (on = true -> has (flags_at st x y) F_IMPOSSIBLE = false) ->
  position st -> position (set_light st x y on).
Proof.
  intros Hwf Hin Hw Himp (Hok & Hp). split.
  - by apply lit_ok_set_light.
  - by apply apart_set_light.
Qed.

Lemma position_copy_planes st1 st2 :
  position st2 -> s_w st1 = s_w st2 -> s_h st1 = s_h st2 ->
  position (copy_planes st1 st2).
Proof.
  destruct st1 as [w1 h1 n1 l1 f1 c1 u1], st2 as [w2 h2 n2 l2 f2 c2 u2].
  cbn [s_w s_h]. intros H -> ->. exact H.
Qed.

(** The solver keeps positions of play.  From a well-formed state with
    exact lit counts in which lights and impossible marks stand on white
    squares and no square carries both, [dosolve] leaves a state of
    which the same is true: it never puts a light on a marked square, a
    mark on a light, or either on a black square. *)
Theorem dosolve_apart fuel st allowguess forceunique md n st' md' :
  wf_state st -> position st ->
  dosolve fuel st allowguess forceunique md = Returns (n, st', md') ->
  position st'.
Proof.
  intros Hwf Hp H.
  destruct (inv_dosolve st position) with (8 := H) as (_ & Hp');
    [| | | | | | |done].
  - intros st1 x y (Hwf1 & _ & Hs1) Hp1 Hin.
    apply (same_board_in_grid st st1) in Hin; [|done].
    apply (position_set_bit st1 x y 2 true); auto. lia.
  - intros st1 x y (Hwf1 & _ & Hs1) Hp1 Hin Hw Hfree.
    apply (same_board_in_grid st st1) in Hin; [|done].
    rewrite <- (same_board_is_black st st1) in Hw by done.
    apply (position_set_bit st1 x y 3 true); auto.
  - intros st1 x y (Hwf1 & _ & Hs1) Hp1 Hin Hw Himp.
    apply (same_board_in_grid st st1) in Hin; [|done].
    rewrite <- (same_board_is_black st st1) in Hw by done.
    by apply position_set_light.
  - intros st1 st2. apply position_copy_planes.
  - intros st1 x y (Hwf1 & _ & Hs1) Hp1 Hin.
    apply (same_board_in_grid st st1) in Hin; [|done].
    apply (position_set_bit st1 x y 2 false); auto. lia.
  - destruct Hp as [Hok _].
    apply solver_inv_refl; [done|by apply lit_ok_nonneg].
  - done.
Qed.

Lemma white_2x2_position : position white_2x2.
Proof.
  apply fresh_board_position.
  - apply (new_state_fresh (mk_game_params 2 2 20 0 0)); simpl; lia.
  - intros i. unfold white_2x2, new_state. cbn [flags].
    by rewrite plane_get_replicate.
Qed.

Lemma dosolve_apart_witness :
  position (mk_game_state 2 2 1 [2; 1; 1; 2] [8; 16; 16; 0] 0 0).
Proof.
  apply (dosolve_apart 6 white_2x2 true false (Some 0) 1 _ (Some 2)).
  - apply (new_state_fresh (mk_game_params 2 2 20 0 0)); simpl; lia.
  - exact white_2x2_position.
  - vm_compute. reflexivity.
Defined.

Lemma solver_keeps_used s st x y :
  solver_inv s st -> solver_keeps s st -> in_grid s x y ->
  solver_keeps s
    (set_flags_at st x y (fl_set (flags_at st x y) F_NUMBERUSED)).
Proof.
  intros (Hwf1 & _ & Hs1) [Hk1 Hp1] Hin.
  apply (same_board_in_grid s st) in Hin; [|done]. split.
  - apply (keeps_set_bit s st x y 2); auto.
  - apply (position_set_bit st x y 2 true); auto. lia.
Qed.

Lemma solver_keeps_mark s st x y :
  solver_inv s st -> solver_keeps s st -> in_grid s x y ->
  is_black s x y = false ->
  has (flags_at st x y) F_LIGHT = false \/ can_place st x y = true ->
  solver_keeps s
    (set_flags_at st x y (fl_set (flags_at st x y) F_IMPOSSIBLE)).
Proof.
  intros (Hwf1 & _ & Hs1) [Hk1 Hp1] Hin Hw Hfree.
  apply (same_board_in_grid s st) in Hin; [|done].
  rewrite <- (same_board_is_black s st) in Hw by done. split.
  - apply (keeps_set_bit s st x y 3); auto.
  - apply (position_set_bit st x y 3 true); auto.
Qed.

Lemma solver_keeps_light s st x y :
  solver_inv s st -> solver_keeps s st -> in_grid s x y ->
  is_black s x y = false ->
  has (flags_at st x y) F_IMPOSSIBLE = false ->
  solver_keeps s (set_light st x y true).
Proof.
  intros (Hwf1 & _ & Hs1) [Hk1 Hp1] Hin Hw Himp.
  apply (same_board_in_grid s st) in Hin; [|done].
  rewrite <- (same_board_is_black s st) in Hw by done. split.
  - by apply keeps_set_light.
  - by apply position_set_light.
Qed.

Lemma solver_keeps_copy s st1 st2 :
  solver_keeps s st2 -> s_w st1 = s_w st2 -> s_h st1 = s_h st2 ->
  solver_keeps s (copy_planes st1 st2).
Proof.
  intros [Hk2 Hp2] Hsw Hsh. split.
  - by apply keeps_copy_planes.
  - by apply position_copy_planes.
Qed.

Lemma solver_keeps_clear s st x y :
  solver_inv s st -> solver_keeps s st -> in_grid s x y ->
  solver_keeps s
    (set_flags_at st x y (fl_clear (flags_at st x y) F_NUMBERUSED)).
Proof.
  intros (Hwf1 & _ & Hs1) [Hk1 Hp1] Hin.
  apply (same_board_in_grid s st) in Hin; [|done]. split.
  - by apply keeps_clear_used.
  - apply (position_set_bit st x y 2 false); auto. lia.
Qed.

Lemma solver_keeps_refl st :
  wf_state st -> position st -> solver_inv st st /\ solver_keeps st st.
Proof.
  intros Hwf Hp. split.
  - destruct Hp as [Hok _].
    apply solver_inv_refl; [done|by apply lit_ok_nonneg].
  - split; [|done].
    split; [apply same_puzzle_refl|]. split; [|done]. by intros x y _.
Qed.

(** [dosolve] on a position of play: the state it leaves is a position
    of the same puzzle. *)
Lemma dosolve_solution fuel st allowguess forceunique md n st' md' :
  wf_state st -> position st ->
  dosolve fuel st allowguess forceunique md = Returns (n, st', md') ->
  wf_state st' /\ same_puzzle st st' /\ position st'.
Proof.
  intros Hwf Hp H.
  destruct (solver_keeps_refl st Hwf Hp) as [Hinv Hk].
  destruct (inv_dosolve st (solver_keeps st) (solver_keeps_used st)
              (solver_keeps_mark st) (solver_keeps_light st)
              (solver_keeps_copy st) (solver_keeps_clear st)
              _ _ _ _ _ _ _ _ Hinv Hk H)
    as ((Hwf' & _) & (Hsp & _) & Hp').
  done.
Qed.

(** ** [solve_game]: the move it writes solves the puzzle *)

Lemma land_eqb_has f g k :
  0 <= k ->
  (Z.land f (2 ^ k) =? Z.land g (2 ^ k))
  = Bool.eqb (has f (2 ^ k)) (has g (2 ^ k)).
Proof.
  intros Hk. rewrite !has_pow2, !land_pow2 by done.
  assert (0 < 2 ^ k) by (apply Z.pow_pos_nonneg; lia).
  destruct (Z.testbit f k), (Z.testbit g k); cbn [Bool.eqb]; lia.
Qed.

Lemma solve_game_cell_app cs sv m c :
  solve_game_cell cs sv m c = m ++ solve_game_cell cs sv [] c.
Proof.
  unfold solve_game_cell.
  destruct (negb _); [done|]. destruct (negb _); [done|].
  by rewrite app_nil_r.
Qed.

Lemma solve_game_fold cs sv cells : forall m,
  fold_left (solve_game_cell cs sv) cells m = m ++ solve_commands cs sv cells.
Proof.
  unfold solve_commands.
  induction cells as [|c cells IH]; intros m; cbn [fold_left].
  - by rewrite app_nil_r.
  - rewrite IH, solve_game_cell_app, bind_cons. by rewrite app_assoc.
Qed.

Lemma solve_commands_cons cs sv c cells :
  solve_commands cs sv (c :: cells)
  = solve_game_cell cs sv [] c ++ solve_commands cs sv cells.
Proof. unfold solve_commands. by rewrite bind_cons. Qed.

Lemma solve_commands_separator cs sv cells :
  at_separator (solve_commands cs sv cells).
Proof.
  induction cells as [|c cells IH]; [done|].
  rewrite solve_commands_cons. unfold solve_game_cell.
  destruct (negb _); [done|]. by destruct (negb _).
Qed.

Lemma solve_commands_no_nul cs sv cells :
  Forall (fun c => code c <> 0) (solve_commands cs sv cells).
Proof.
  assert (forall k x y, code k <> 0 ->
            Forall (fun c => code c <> 0)
              (ascii_of_N 59 :: k ::
                 print_int x ++ ascii_of_N 44 :: print_int y)) as Hcmd.
  { intros k x y Hk. constructor; [done|]. constructor; [done|].
    apply Forall_app. split; [apply print_int_no_nul|].
    constructor; [done|apply print_int_no_nul]. }
  induction cells as [|c cells IH]; [constructor|].
  rewrite solve_commands_cons. apply Forall_app. split; [|done].
  unfold solve_game_cell. cbn [app].
  destruct (negb _); [by apply Hcmd|].
  destruct (negb _); [by apply Hcmd|constructor].
Qed.

Lemma move_loop_cons n c m ret :
  move_loop (S n) (c :: m) ret =
    match move_command c m ret with
    | Some (r, m') => move_rest n m' r
    | None => Returns None
    end.
Proof. reflexivity. Qed.

(** One command [;Lx,y] of the string, read by the loop. *)
Lemma run_light_command ret x y rest n :
  wf_state ret -> lit_ok ret -> in_grid ret x y -> is_black ret x y = false ->
  at_separator rest ->
  exists r,
    move_rest (S n)
      (ascii_of_N 59 :: ascii_of_N 76 ::
         (print_int x ++ ascii_of_N 44 :: print_int y) ++ rest) ret
    = move_rest n rest r /\
    wf_state r /\ lit_ok r /\
    (forall s, same_puzzle s ret -> same_puzzle s r) /\
    used_solve r = used_solve ret /\
    forall a b, in_grid ret a b ->
      has (flags_at r a b) F_LIGHT =
        if decide ((a, b) = (x, y)) then negb (has (flags_at ret x y) F_LIGHT)
        else has (flags_at ret a b) F_LIGHT.
Proof.
  intros Hwf Hok Hin Hw Hsep.
  set (r := set_light
              (set_flags_at ret x y
                 (fl_clear (flags_at ret x y) F_IMPOSSIBLE))
              x y (negb (has (flags_at ret x y) F_LIGHT))).
  assert (move_command (ascii_of_N 76)
            ((print_int x ++ ascii_of_N 44 :: print_int y) ++ rest) ret
          = Some (r, rest)) as Hmc.
  { unfold move_command. rewrite code_ascii_of_N by done.
    cbn [Z.of_N Z.eqb Pos.eqb orb].
    rewrite (at_separator_sscanf _ _ Hsep), sscanf_print.
    cbn [app]. rewrite (in_grid_range_test _ _ _ Hin).
    unfold is_black in Hw. by rewrite Hw. }
  exists r. split.
  { unfold move_rest at 1. rewrite code_ascii_of_N by done.
    cbn [Z.of_N Z.eqb Pos.eqb]. by rewrite move_loop_cons, Hmc. }
  destruct (move_command_lit_ok _ _ _ _ _ (conj Hwf Hok) Hmc) as [Hwf' Hok'].
  split; [done|]. split; [done|]. split.
  { intros s Hs.
    by destruct (move_command_same_puzzle s _ _ _ _ _ (conj Hwf Hs) Hmc). }
  destruct (flip_light_spec ret x y Hwf Hin Hw)
    as (_ & _ & _ & _ & _ & Hfl & _).
  split.
  { destruct (set_light_frame
                (set_flags_at ret x y
                   (fl_clear (flags_at ret x y) F_IMPOSSIBLE))
                x y (negb (has (flags_at ret x y) F_LIGHT)))
      as (_ & _ & _ & Hu). exact Hu. }
  intros a b Hab. change F_LIGHT with (2 ^ 4).
  fold r in Hfl. rewrite Hfl by (done || lia).
  destruct (decide ((a, b) = (x, y))) as [E|E].
  - by rewrite decide_True.
  - rewrite decide_False by (by intros [? _]).
    by rewrite decide_False by (by intros [? _]).
Qed.

(** One command [;Ix,y] of the string, read by the loop. *)
Lemma run_mark_command ret x y rest n :
  wf_state ret -> lit_ok ret -> in_grid ret x y -> is_black ret x y = false ->
  at_separator rest ->
  exists r,
    move_rest (S n)
      (ascii_of_N 59 :: ascii_of_N 73 ::
         (print_int x ++ ascii_of_N 44 :: print_int y) ++ rest) ret
    = move_rest n rest r /\
    wf_state r /\ lit_ok r /\
    (forall s, same_puzzle s ret -> same_puzzle s r) /\
    used_solve r = used_solve ret /\
    forall a b, in_grid ret a b ->
      has (flags_at r a b) F_LIGHT =
        if decide ((a, b) = (x, y)) then false
        else has (flags_at ret a b) F_LIGHT.
Proof.
  intros Hwf Hok Hin Hw Hsep.
  set (r1 := set_light ret x y false).
  set (r := set_flags_at r1 x y (fl_toggle (flags_at r1 x y) F_IMPOSSIBLE)).
  assert (move_command (ascii_of_N 73)
            ((print_int x ++ ascii_of_N 44 :: print_int y) ++ rest) ret
          = Some (r, rest)) as Hmc.
  { unfold move_command. rewrite code_ascii_of_N by done.
    cbn [Z.of_N Z.eqb Pos.eqb orb].
    rewrite (at_separator_sscanf _ _ Hsep), sscanf_print.
    cbn [app]. rewrite (in_grid_range_test _ _ _ Hin).
    unfold is_black in Hw. by rewrite Hw. }
  exists r. split.
  { unfold move_rest at 1. rewrite code_ascii_of_N by done.
    cbn [Z.of_N Z.eqb Pos.eqb]. by rewrite move_loop_cons, Hmc. }
  destruct (move_command_lit_ok _ _ _ _ _ (conj Hwf Hok) Hmc) as [Hwf' Hok'].
  split; [done|]. split; [done|]. split.
  { intros s Hs.
    by destruct (move_command_same_puzzle s _ _ _ _ _ (conj Hwf Hs) Hmc). }
  destruct (set_light_frame ret x y false) as (Hsw & Hsh & _ & Hu).
  fold r1 in Hsw, Hsh, Hu.
  assert (wf_state r1) as Hwf1 by (by apply wf_state_set_light).
  split; [exact Hu|].
  intros a b Hab. unfold r.
  rewrite has_flags_at_set_flags
    by (done || unfold in_grid in *; by rewrite Hsw, Hsh).
  change F_LIGHT with (2 ^ 4). change F_IMPOSSIBLE with (2 ^ 3).
  destruct (decide ((a, b) = (x, y))) as [E|E].
  - simplify_eq. rewrite has_fl_toggle by lia. change (3 =? 4) with false.
    rewrite xorb_false_r. unfold r1.
    rewrite has_flags_at_set_light by (done || lia).
    by rewrite decide_True.
  - unfold r1. rewrite has_flags_at_set_light by (done || lia).
    by rewrite decide_False by (by intros [? _]).
Qed.

Section solve_game_moves.

(** [cs] is the position the player is in, [sv] the solved position the
    commands are written from. *)
Variables cs sv : game_state.

Hypothesis light_changes_on_white : forall x y,
  in_grid cs x y ->
  has (flags_at cs x y) F_LIGHT <> has (flags_at sv x y) F_LIGHT ->
  is_black cs x y = false.

Hypothesis mark_changes_on_dark : forall x y,
  in_grid cs x y ->
  has (flags_at cs x y) F_LIGHT = has (flags_at sv x y) F_LIGHT ->
  has (flags_at cs x y) F_IMPOSSIBLE <> has (flags_at sv x y) F_IMPOSSIBLE ->
  is_black cs x y = false /\ has (flags_at sv x y) F_LIGHT = false.

(** The loop of [execute_move] on the commands written for [cells]:
    it accepts them all, and the lights of these squares end up as they
    are in [sv]. *)
Lemma solve_commands_run cells :
  NoDup cells -> (forall c, c ∈ cells -> in_grid cs c.1 c.2) ->
  forall ret n,
    wf_state ret -> lit_ok ret -> same_puzzle cs ret ->
    (forall x y, (x, y) ∈ cells ->
       has (flags_at ret x y) F_LIGHT = has (flags_at cs x y) F_LIGHT) ->
    (length (solve_commands cs sv cells) <= n)%nat ->
    exists ret',
      move_rest n (solve_commands cs sv cells) ret = Returns (Some ret') /\
      wf_state ret' /\ lit_ok ret' /\ same_puzzle cs ret' /\
      used_solve ret' = used_solve ret /\
      forall x y, in_grid cs x y ->
        has (flags_at ret' x y) F_LIGHT =
          if decide ((x, y) ∈ cells) then has (flags_at sv x y) F_LIGHT
          else has (flags_at ret x y) F_LIGHT.
Proof using light_changes_on_white mark_changes_on_dark.
  induction cells as [|[x y] cells IH]; intros Hnd Hcells ret n Hwf Hok Hsp
    Hsame Hlen.
  { exists ret. cbn. rewrite move_loop_nil. by split_and!. }
  apply NoDup_cons in Hnd as [Hnotin Hnd].
  assert (in_grid cs x y) as Hin by (apply (Hcells (x, y)); left).
  pose proof Hsp as (Hsw & Hsh & Hpz).
  assert (forall a b, in_grid cs a b -> in_grid ret a b) as Hgrid.
  { intros a b. unfold in_grid. by rewrite Hsw, Hsh. }
  assert (is_black ret x y = is_black cs x y) as Hbl.
  { unfold is_black. by destruct (Hpz x y Hin) as [-> _]. }
  assert (forall r,
            wf_state r -> lit_ok r -> same_puzzle cs r ->
            used_solve r = used_solve ret ->
            (forall a b, in_grid ret a b -> (a, b) <> (x, y) ->
               has (flags_at r a b) F_LIGHT = has (flags_at ret a b) F_LIGHT) ->
            has (flags_at r x y) F_LIGHT = has (flags_at sv x y) F_LIGHT ->
            forall n', (length (solve_commands cs sv cells) <= n')%nat ->
            exists ret',
              move_rest n' (solve_commands cs sv cells) r
              = Returns (Some ret') /\
              wf_state ret' /\ lit_ok ret' /\ same_puzzle cs ret' /\
              used_solve ret' = used_solve ret /\
              forall a b, in_grid cs a b ->
                has (flags_at ret' a b) F_LIGHT =
                  if decide ((a, b) ∈ (x, y) :: cells)
                  then has (flags_at sv a b) F_LIGHT
                  else has (flags_at ret a b) F_LIGHT) as Hnext.
  { intros r Hwfr Hokr Hspr Hur Hother Hhere n' Hlen'.
    destruct (IH Hnd ltac:(intros c Hc; apply Hcells; by right)
                r n' Hwfr Hokr Hspr) as (ret' & Hrun & Hwf' & Hok' & Hsp' &
                                         Hu' & Hfl'); [|done|].
    { intros a b Hab. rewrite Hother.
      - apply Hsame. by right.
      - apply Hgrid. apply (Hcells (a, b)). by right.
      - intros E. by simplify_eq. }
    exists ret'. split_and!; try done; [congruence|].
    intros a b Hab. rewrite (Hfl' a b Hab).
    destruct (decide ((a, b) = (x, y))) as [E|E].
    - simplify_eq. rewrite decide_False by done.
      rewrite decide_True by left. done.
    - destruct (decide ((a, b) ∈ cells)) as [Hc|Hc].
      + by rewrite decide_True by (by right).
      + rewrite decide_False.
        * apply Hother; [by apply Hgrid|done].
        * intros Hc'. apply elem_of_cons in Hc' as [?|?]; done. }
  revert Hlen. rewrite solve_commands_cons. unfold solve_game_cell.
  cbn [fst snd]. change F_LIGHT with (2 ^ 4).
  change F_IMPOSSIBLE with (2 ^ 3).
  rewrite !land_eqb_has by lia.
  change (2 ^ 4) with F_LIGHT. change (2 ^ 3) with F_IMPOSSIBLE.
  pose proof (solve_commands_separator cs sv cells) as Hsep.
  destruct (Bool.eqb (has (flags_at cs x y) F_LIGHT)
                     (has (flags_at sv x y) F_LIGHT)) eqn:EL; cbn [negb].
  - apply eqb_prop in EL.
    destruct (Bool.eqb (has (flags_at cs x y) F_IMPOSSIBLE)
                       (has (flags_at sv x y) F_IMPOSSIBLE)) eqn:EI;
      cbn [negb app].
    + (* nothing to write for this square *)
      intros Hlen. apply (Hnext ret); try done.
      rewrite <- EL. apply Hsame. left.
    + (* an impossible mark to toggle *)
      apply eqb_false_iff in EI.
      destruct (mark_changes_on_dark x y Hin EL EI) as [Hw Hnl].
      intros Hlen. destruct n as [|n]; [simpl in Hlen; lia|].
      destruct (run_mark_command ret x y (solve_commands cs sv cells) n)
        as (r & -> & Hwfr & Hokr & Hspr & Hur & Hflr); try done.
      { by apply Hgrid. } { by rewrite Hbl. }
      apply (Hnext r); try done.
      * by apply Hspr.
      * intros a b Hab E. rewrite Hflr by done. by rewrite decide_False.
      * rewrite Hflr by (by apply Hgrid). by rewrite decide_True.
      * simpl in Hlen. rewrite !length_app in Hlen. lia.
  - (* a light to flip *)
    apply eqb_false_iff in EL.
    pose proof (light_changes_on_white x y Hin EL) as Hw.
    cbn [app]. intros Hlen. destruct n as [|n]; [simpl in Hlen; lia|].
    destruct (run_light_command ret x y (solve_commands cs sv cells) n)
      as (r & -> & Hwfr & Hokr & Hspr & Hur & Hflr); try done.
    { by apply Hgrid. } { by rewrite Hbl. }
    apply (Hnext r); try done.
    + by apply Hspr.
    + intros a b Hab E. rewrite Hflr by done. by rewrite decide_False.
    + rewrite Hflr by (by apply Hgrid). rewrite decide_True by done.
      rewrite (Hsame x y) by left.
      by destruct (has (flags_at cs x y) F_LIGHT),
           (has (flags_at sv x y) F_LIGHT).
    + simpl in Hlen. rewrite !length_app in Hlen. lia.
Qed.

End solve_game_moves.

Lemma same_puzzle_sym s st : same_puzzle s st -> same_puzzle st s.
Proof.
  intros (Hw & Hh & Hp). split; [done|]. split; [done|]. intros x y Hin.
  assert (in_grid s x y) as Hin' by (unfold in_grid in *; by rewrite <- Hw, <- Hh).
  destruct (Hp x y Hin') as (Hb & Hn & Hc).
  split; [done|]. split; [done|]. intros Hbl. symmetry. apply Hc.
  unfold is_black in *. by rewrite <- Hb.
Qed.

(** Two well-formed states of one puzzle have the same black squares at
    every index of the plane, also at those reached from coordinates
    outside the grid. *)
Lemma same_puzzle_same_board s st :
  wf_state s -> wf_state st -> same_puzzle s st -> same_board s st.
Proof.
  intros (Hw0 & Hh0 & _ & Hfs) (_ & _ & _ & Hfst) (Hw & Hh & Hp).
  split; [done|]. split; [done|]. intros i.
  destruct (decide (i < Z.to_nat (s_w s * s_h s))%nat) as [Hi|Hi].
  - assert (0 < s_w s) as Hwpos by nia.
    set (x := Z.of_nat i mod s_w s). set (y := Z.of_nat i / s_w s).
    assert (0 <= x < s_w s) as Hx by (apply Z.mod_pos_bound; lia).
    assert (Z.of_nat i = y * s_w s + x) as Hi'.
    { unfold x, y. rewrite Z.mul_comm. apply Z.div_mod. lia. }
    assert (0 <= y < s_h s) as Hy.
    { split; [apply Z.div_pos; lia|]. apply Z.div_lt_upper_bound; [lia|].
      lia. }
    destruct (Hp x y (conj Hx Hy)) as [Hb _].
    unfold flags_at, cell_index in Hb. rewrite Hw in Hb.
    rewrite <- Hi', Nat2Z.id in Hb. exact Hb.
  - unfold plane_get.
    rewrite (lookup_ge_None_2 (flags s)) by lia.
    rewrite (lookup_ge_None_2 (flags st)) by (rewrite Hfst, Hw, Hh; lia).
    done.
Qed.

Lemma lit_from_length_agree s st x y :
  s_w st = s_w s -> s_h st = s_h s ->
  (forall a b, is_black st a b = is_black s a b) ->
  (forall a b, in_grid s a b ->
     has (flags_at st a b) F_LIGHT = has (flags_at s a b) F_LIGHT) ->
  length (lit_from st x y) = length (lit_from s x y).
Proof.
  intros Hw Hh Hb Hl. unfold lit_from. rewrite (all_cells_ext s st) by done.
  apply filter_length_agree. intros [lx ly] Hc.
  apply elem_of_all_cells in Hc. cbn [fst snd].
  by rewrite (list_lights_ext s st), Hl.
Qed.

(** Whether a position is solved depends on the puzzle and on where the
    lights are, and on nothing else. *)
Lemma grid_correct_same_lights s st :
  wf_state s -> wf_state st -> same_puzzle s st -> lit_ok s -> lit_ok st ->
  (forall a b, in_grid s a b ->
     has (flags_at st a b) F_LIGHT = has (flags_at s a b) F_LIGHT) ->
  grid_correct s = true -> grid_correct st = true.
Proof.
  intros Hwfs Hwfst Hsp Hoks Hokst Hl Hgc.
  pose proof (same_puzzle_same_board s st Hwfs Hwfst Hsp) as Hsb.
  pose proof Hsp as (Hw & Hh & Hp).
  assert (forall a b, is_black st a b = is_black s a b) as Hb.
  { intros a b. apply (same_board_black s st a b Hsb). }
  assert (forall a b, in_grid st a b -> in_grid s a b) as Hgrid.
  { intros a b. unfold in_grid. by rewrite Hw, Hh. }
  assert (forall a b, in_grid s a b -> lights_at st a b = lights_at s a b)
    as Hli.
  { intros a b Hab. destruct (is_black s a b) eqn:Hbl.
    - by apply (Hp a b Hab).
    - rewrite (Hoks a b Hab Hbl).
      rewrite (Hokst a b) by (by rewrite ?Hb; unfold in_grid in *;
                                rewrite ?Hw, ?Hh).
      f_equal. by apply lit_from_length_agree. }
  unfold grid_correct in *.
  apply andb_true_iff in Hgc as [Hgc Hadd].
  apply andb_true_iff in Hgc as [Hlit Hov].
  apply negb_true_iff in Hov.
  rewrite grid_lit_spec in Hlit. rewrite grid_overlap_spec in Hov.
  rewrite grid_addsup_spec in Hadd.
  apply andb_true_iff. split; [apply andb_true_iff; split|].
  - apply grid_lit_spec. intros x y Hin Hwh.
    rewrite Hli by auto. apply Hlit; [auto|]. by rewrite <- Hb.
  - apply negb_true_iff, grid_overlap_spec. intros x y Hin Hlt.
    rewrite Hli by auto. apply Hov; [auto|]. by rewrite <- Hl by auto.
  - apply grid_addsup_spec. intros x y Hin Hn.
    rewrite (count_surrounding_lights_ext s st) by auto.
    rewrite Hli by auto. apply Hadd; [auto|].
    destruct (Hp x y (Hgrid x y Hin)) as (_ & <- & _). exact Hn.
Qed.

Lemma solve_game_move_commands cs sv :
  solve_game_move cs sv = ascii_of_N 83 :: solve_commands cs sv (all_cells cs).
Proof. unfold solve_game_move. by rewrite solve_game_fold. Qed.

(** The move written from a solved position [sv] of the puzzle of [cs]
    is accepted on [cs] and leads to a solved position. *)
Lemma solve_game_move_runs (hp : gmap loc game_state) p cs sv :
  hp !! p = Some cs ->
  wf_state cs -> position cs -> wf_state sv -> position sv ->
  same_puzzle cs sv -> grid_correct sv = true ->
  exists s',
    execute_move p (string_of_list_ascii (solve_game_move cs sv)) hp
    = (Some (fresh (dom hp)), <[fresh (dom hp) := s']> hp) /\
    wf_state s' /\ same_puzzle cs s' /\
    (forall x y, in_grid cs x y ->
       has (flags_at s' x y) F_LIGHT = has (flags_at sv x y) F_LIGHT) /\
    used_solve s' = 1 /\ completed s' = 1 /\ grid_correct s' = true.
Proof.
  intros Hp Hwf (Hok & Hlw & Hex & Hmw) Hwfs (Hoks & Hlws & Hexs & Hmws)
    Hsp Hgc.
  pose proof Hsp as (Hw & Hh & Hpz).
  assert (forall x y, in_grid cs x y -> in_grid sv x y) as Hgrid.
  { intros a b. unfold in_grid. by rewrite Hw, Hh. }
  assert (forall x y, in_grid cs x y -> is_black sv x y = is_black cs x y)
    as Hb.
  { intros x y Hin. unfold is_black. by destruct (Hpz x y Hin) as [-> _]. }
  rewrite (execute_move_run _ _ _ _ Hp), dup_game_id.
  rewrite solve_game_move_commands.
  rewrite c_chars_of_list
    by (constructor; [done|apply solve_commands_no_nul]).
  unfold run_move. cbn [length]. rewrite move_loop_cons.
  unfold move_command. rewrite code_ascii_of_N by done.
  cbn [Z.of_N Z.eqb Pos.eqb].
  destruct (solve_commands_run cs sv) with
    (cells := all_cells cs) (ret := with_used_solve cs 1)
    (n := length (solve_commands cs sv (all_cells cs)))
    as (r & -> & Hwfr & Hokr & Hspr & Hur & Hflr).
  - intros x y Hin Hne.
    destruct (has (flags_at cs x y) F_LIGHT) eqn:Hl1; [by apply Hlw|].
    destruct (has (flags_at sv x y) F_LIGHT) eqn:Hl2; [|done].
    rewrite <- Hb by done. apply Hlws; auto.
  - intros x y Hin Heq Hne. specialize (Hex x y Hin).
    specialize (Hexs x y (Hgrid x y Hin)).
    destruct (has (flags_at cs x y) F_IMPOSSIBLE) eqn:Hi1.
    + split; [by apply Hmw|].
      rewrite <- Heq. by destruct (has (flags_at cs x y) F_LIGHT).
    + destruct (has (flags_at sv x y) F_IMPOSSIBLE) eqn:Hi2; [|done].
      split; [rewrite <- Hb by done; apply Hmws; auto|].
      by destruct (has (flags_at sv x y) F_LIGHT).
  - apply all_cells_NoDup.
  - intros [x y] Hc. by apply elem_of_all_cells in Hc.
  - by destruct cs.
  - by destruct cs.
  - by destruct cs.
  - done.
  - done.
  - assert (forall x y, in_grid cs x y ->
              has (flags_at r x y) F_LIGHT = has (flags_at sv x y) F_LIGHT)
      as Hfl.
    { intros x y Hin. rewrite (Hflr x y Hin).
      rewrite decide_True; [done|]. by apply elem_of_all_cells. }
    assert (grid_correct r = true) as Hgr.
    { apply (grid_correct_same_lights sv r); try done.
      - eapply same_puzzle_trans; [|exact Hspr]. by apply same_puzzle_sym.
      - intros a b Hab. apply Hfl. unfold in_grid in *.
        by rewrite <- Hw, <- Hh. }
    rewrite Hgr. exists (with_completed r 1). split; [done|].
    split; [by destruct r|]. split; [by destruct r|].
    split; [by destruct r|]. split; [by destruct r|]. split; [done|].
    rewrite <- Hgr. by apply grid_correct_ext.
Qed.

(** The move [solve_game] returns solves the puzzle.  In a position of
    play [currstate] of the puzzle of [state], whenever [solve_game]
    returns a move string, [execute_move] accepts that string on
    [currstate], and the state it returns is a position of the same
    puzzle that passes [grid_correct], with [completed] and [used_solve]
    set. *)
Theorem solve_game_solves (hp : gmap loc game_state) fuel p
    state currstate move :
  hp !! p = Some currstate ->
  wf_state state -> position state ->
  wf_state currstate -> position currstate ->
  same_puzzle state currstate ->
  solve_game fuel state currstate = Returns (inl move) ->
  exists ret s',
    execute_move p move hp = (Some ret, <[ret := s']> hp) /\
    hp !! ret = None /\
    wf_state s' /\ same_puzzle currstate s' /\
    used_solve s' = 1 /\ completed s' = 1 /\ grid_correct s' = true.
Proof.
  intros Hp Hwfs Hps Hwfc Hpc Hsp. unfold solve_game.
  rewrite !dup_game_id.
  assert (forall sv, wf_state sv -> position sv -> same_puzzle currstate sv ->
            grid_correct sv = true ->
            move = string_of_list_ascii (solve_game_move currstate sv) ->
            exists ret s',
              execute_move p move hp = (Some ret, <[ret := s']> hp) /\
              hp !! ret = None /\
              wf_state s' /\ same_puzzle currstate s' /\
              used_solve s' = 1 /\ completed s' = 1 /\
              grid_correct s' = true) as Hrun.
  { intros sv Hwfv Hpv Hspv Hgc ->.
    destruct (solve_game_move_runs hp p currstate sv)
      as (s' & He & Hwf' & Hsp' & _ & Hu & Hc & Hg); try done.
    exists (fresh (dom hp)), s'. split; [done|].
    split; [apply fresh_unused|done]. }
  destruct (dosolve fuel currstate true false None)
    as [[[n1 sv1] md1]| |] eqn:H1; [|done|done].
  destruct (n1 >? 0) eqn:Hn1.
  - intros H. simplify_eq.
    destruct (dosolve_solution _ _ _ _ _ _ _ _ Hwfc Hpc H1)
      as (Hwf1 & Hsp1 & Hp1).
    destruct (dosolve_result _ _ _ _ _ _ _ _ H1) as (_ & Hg1 & _).
    apply (Hrun sv1); try done. apply Hg1. lia.
  - destruct (dosolve fuel state true false None)
      as [[[n2 sv2] md2]| |] eqn:H2; [|done|done].
    destruct (n2 >? 0) eqn:Hn2; [|done].
    intros H. simplify_eq.
    destruct (dosolve_solution _ _ _ _ _ _ _ _ Hwfs Hps H2)
      as (Hwf2 & Hsp2 & Hp2).
    destruct (dosolve_result _ _ _ _ _ _ _ _ H2) as (_ & Hg2 & _).
    apply (Hrun sv2); try done; [|apply Hg2; lia].
    eapply same_puzzle_trans; [|exact Hsp2]. by apply same_puzzle_sym.
Qed.

(** On the empty 2x2 board, from a position the solver cannot complete
    (a light in one corner, impossible marks on two squares): the move
    is written from the solution of the clean puzzle. *)
Lemma solve_game_solves_witness :
  let cs := mk_game_state 2 2 1 [1; 1; 1; 0] [16; 8; 0; 8] 0 0 in
  let hp : gmap loc game_state := {[1%positive := cs]} in
  exists ret s',
    execute_move 1%positive "S;L0,0;L0,1;L1,0;I1,1" hp
    = (Some ret, <[ret := s']> hp) /\
    hp !! ret = None /\
    wf_state s' /\ same_puzzle cs s' /\
    used_solve s' = 1 /\ completed s' = 1 /\ grid_correct s' = true.
Proof.
  intros cs hp.
  assert (forall x y, in_grid cs x y ->
            (x = 0 \/ x = 1) /\ (y = 0 \/ y = 1)) as Hcases.
  { intros x y [Hx Hy]. simpl in Hx, Hy. lia. }
  apply (solve_game_solves hp 6 1%positive white_2x2 cs).
  - reflexivity.
  - apply (new_state_fresh (mk_game_params 2 2 20 0 0)); simpl; lia.
  - exact white_2x2_position.
  - unfold wf_state. simpl. repeat split; lia.
  - split; [|split; [|split]].
    + intros x y Hin _.
      destruct (Hcases x y Hin) as [[-> | ->] [-> | ->]]; by vm_compute.
    + intros x y Hin _.
      destruct (Hcases x y Hin) as [[-> | ->] [-> | ->]]; by vm_compute.
    + intros x y Hin.
      destruct (Hcases x y Hin) as [[-> | ->] [-> | ->]]; by vm_compute.
    + intros x y Hin _.
      destruct (Hcases x y Hin) as [[-> | ->] [-> | ->]]; by vm_compute.
  - split; [done|]. split; [done|]. intros x y Hin.
    destruct (Hcases x y Hin) as [[-> | ->] [-> | ->]]; by vm_compute.
  - vm_compute. reflexivity.
Defined.

(** ** The solver loses no solution *)

Lemma sees_sym st x y x' y' : sees st x y x' y' -> sees st x' y' x y.
Proof.
  intros (H1 & H2 & [[-> Hr]|[-> Hc]]); (split; [done|split; [done|]]).
  - left. split; [done|]. intros t Ht. apply Hr. lia.
  - right. split; [done|]. intros t Ht. apply Hc. lia.
Qed.

Lemma could_place_light_false fl li :
  could_place_light fl li = false ->
  has fl F_BLACK = true \/ has fl F_IMPOSSIBLE = true \/ 0 < li.
Proof.
  unfold could_place_light.
  destruct (has fl (Z.lor F_BLACK F_IMPOSSIBLE)) eqn:E.
  - intros _. destruct (has fl F_BLACK) eqn:Eb; [by left|].
    destruct (has fl F_IMPOSSIBLE) eqn:Ei; [by right; left|].
    exfalso. unfold has in *.
    apply negb_false_iff, Z.eqb_eq in Eb, Ei.
    apply negb_true_iff, Z.eqb_neq in E. apply E.
    by rewrite Z.land_lor_distr_r, Eb, Ei.
  - destruct (li >? 0) eqn:E'; [|done]. intros _. right. right. lia.
Qed.

Lemma could_place_light_true fl li :
  has fl F_BLACK = false -> has fl F_IMPOSSIBLE = false -> li <= 0 ->
  could_place_light fl li = true.
Proof.
  intros Hb Hi Hl. destruct (could_place_light fl li) eqn:E; [done|].
  apply could_place_light_false in E as [?|[?|?]]; [congruence|congruence|lia].
Qed.

(** A store into a flag word that changes neither [F_LIGHT] nor, unless
    the solution has no light there, [F_IMPOSSIBLE]. *)
Lemma compatible_set_flags st sol x y v :
  wf_state st -> in_grid st x y ->
  has v F_LIGHT = has (flags_at st x y) F_LIGHT ->
  (has v F_IMPOSSIBLE = true ->
   has (flags_at st x y) F_IMPOSSIBLE = true \/
   has (flags_at sol x y) F_LIGHT = false) ->
  compatible st sol -> compatible (set_flags_at st x y v) sol.
Proof.
  intros Hwf Hin Hl Hi Hc a b Hab. change (in_grid st a b) in Hab.
  rewrite !has_flags_at_set_flags by done.
  destruct (decide ((a, b) = (x, y))) as [E|E]; [|by apply Hc].
  simplify_eq. destruct (Hc x y Hin) as [Hc1 Hc2]. split.
  - by rewrite Hl.
  - intros Hv. destruct (Hi Hv) as [?|?]; auto.
Qed.

Lemma compatible_set_light st sol x y :
  wf_state st -> in_grid st x y -> is_black st x y = false ->
  has (flags_at sol x y) F_LIGHT = true ->
  compatible st sol -> compatible (set_light st x y true) sol.
Proof.
  intros Hwf Hin Hw Hl Hc a b Hab.
  destruct (set_light_frame st x y true) as (Hsw & Hsh & _).
  assert (in_grid st a b) as Hab'
    by (by apply (in_grid_frame st (set_light st x y true) a b)).
  change F_LIGHT with (2 ^ 4) at 1. change F_IMPOSSIBLE with (2 ^ 3).
  rewrite !has_flags_at_set_light by (done || lia).
  rewrite (decide_False (P := _ /\ 3 = 4)) by (intros [_ ?]; lia).
  destruct (Hc a b Hab') as [Hc1 Hc2]. split; [|done].
  destruct (decide ((a, b) = (x, y) /\ 4 = 4)) as [[E _]|E]; [|done].
  by simplify_eq.
Qed.

Lemma compatible_copy_planes st1 st2 sol :
  compatible st2 sol -> s_w st1 = s_w st2 -> s_h st1 = s_h st2 ->
  compatible (copy_planes st1 st2) sol.
Proof.
  destruct st1 as [w1 h1 n1 l1 f1 c1 u1], st2 as [w2 h2 n2 l2 f2 c2 u2].
  cbn [s_w s_h]. intros H -> ->. exact H.
Qed.

Section solver_sound.

(** [s] is the state the solver was given, [sol] a solution of its
    puzzle. *)
Variables s sol : game_state.

Hypothesis sol_solves : solution s sol.
Hypothesis clues_black : clues_on_black s.

Lemma solution_rules :
  all_lit sol /\ no_overlap sol /\ clues_add_up sol.
Proof using sol_solves.
  destruct sol_solves as (Hwf & _ & Hok & Hlw & Hgc).
  unfold grid_correct in Hgc.
  apply andb_true_iff in Hgc as [Hgc Hadd].
  apply andb_true_iff in Hgc as [Hlit Hov].
  apply negb_true_iff in Hov.
  split; [|split].
  - apply all_lit_spec; [done|done|]. by apply grid_lit_spec.
  - apply no_overlap_spec; [done|done|]. by apply grid_overlap_spec.
  - by apply grid_addsup_spec.
Qed.

(** What is known of a state on the solver's way, beside the solution. *)
Lemma on_the_way st :
  solver_inv s st -> solver_keeps s st ->
  wf_state st /\ lit_ok st /\ lights_on_white st /\
  same_puzzle st sol /\
  (forall a b, is_black sol a b = is_black st a b) /\
  (forall a b, in_grid st a b <-> in_grid sol a b) /\
  (forall a b a' b', sees st a b a' b' <-> sees sol a b a' b').
Proof using sol_solves.
  intros (Hwf & _ & _) ((Hsp & _) & Hok & Hlw & _).
  destruct sol_solves as (Hwfs & Hsps & _).
  assert (same_puzzle st sol) as Hss.
  { eapply same_puzzle_trans; [|exact Hsps]. by apply same_puzzle_sym. }
  pose proof (same_puzzle_same_board st sol Hwf Hwfs Hss) as Hsb.
  pose proof Hss as (Hw & Hh & _).
  assert (forall a b, is_black sol a b = is_black st a b) as Hb.
  { intros a b. apply (same_board_black st sol a b Hsb). }
  split_and!; try done.
  - intros a b. unfold in_grid. by rewrite Hw, Hh.
  - intros a b a' b'. symmetry. by apply sees_ext.
Qed.

(** A square that a light of the state shines on, and that is no light
    itself, holds no light in the solution. *)
Lemma lit_square_dark st a b :
  solver_inv s st -> solver_keeps s st -> compatible st sol ->
  in_grid st a b -> 0 < lights_at st a b -> is_black st a b = false ->
  has (flags_at st a b) F_LIGHT = false ->
  has (flags_at sol a b) F_LIGHT = false.
Proof using sol_solves.
  intros Hinv Hk Hc Hin Hli Hw Hnl.
  destruct (on_the_way st Hinv Hk) as (Hwf & Hok & Hlw & Hss & Hb & Hg & Hs).
  destruct solution_rules as (_ & Hno & _).
  destruct (has (flags_at sol a b) F_LIGHT) eqn:Hl; [|done]. exfalso.
  rewrite (Hok a b Hin Hw) in Hli.
  destruct (lit_from st a b) as [|[mx my] l] eqn:E; [simpl in Hli; lia|].
  assert ((mx, my) ∈ lit_from st a b) as Hm by (rewrite E; left).
  apply elem_of_lit_from in Hm as (Hmin & Hml & Hms); [|done].
  apply (Hno mx my a b).
  - by apply Hg.
  - by apply Hg.
  - by apply (Hc mx my Hmin).
  - done.
  - intros Heq. simplify_eq. congruence.
  - by apply Hs.
Qed.

(** A square where no light could be placed, and that is no light
    itself, holds no light in the solution. *)
Lemma not_candidate_dark st a b :
  solver_inv s st -> solver_keeps s st -> compatible st sol ->
  in_grid st a b -> has (flags_at st a b) F_LIGHT = false ->
  can_place st a b = false ->
  has (flags_at sol a b) F_LIGHT = false.
Proof using sol_solves.
  intros Hinv Hk Hc Hin Hnl Hcp.
  destruct (on_the_way st Hinv Hk) as (Hwf & Hok & Hlw & Hss & Hb & Hg & Hs).
  destruct sol_solves as (_ & _ & _ & Hlws & _).
  destruct (is_black st a b) eqn:Hbl.
  { destruct (has (flags_at sol a b) F_LIGHT) eqn:Hl; [|done].
    apply Hlws in Hl; [|by apply Hg]. rewrite Hb in Hl. congruence. }
  apply could_place_light_false in Hcp as [Hbk|[Hi|Hli]].
  - unfold is_black in Hbl. congruence.
  - by apply (Hc a b Hin).
  - by apply (lit_square_dark st a b).
Qed.

(** The unlit-square rule counts the squares of the line of sight
    where a light could be placed; when it counts one, it has found the
    only one. *)
Lemma tsl_fold_only st cells : forall acc,
  let r := fold_left (fun a c => tsl_callback st a (fst c) (snd c)) cells acc in
  (forall c, c ∈ cells ->
     has (flags_at st (fst c) (snd c)) F_IMPOSSIBLE = false ->
     lights_at st (fst c) (snd c) <= 0 -> snd acc < snd r) /\
  (snd r = snd acc + 1 ->
   forall c, c ∈ cells ->
     has (flags_at st (fst c) (snd c)) F_IMPOSSIBLE = false ->
     lights_at st (fst c) (snd c) <= 0 ->
     c = (fst (fst r), snd (fst r))).
Proof using Type.
  induction cells as [|c0 cs IH]; intros [[x y] n]; cbn [fold_left fst snd].
  { split; intros; exfalso; by eapply not_elem_of_nil. }
  assert ((tsl_callback st (x, y, n) (fst c0) (snd c0) = (x, y, n) /\
           (has (flags_at st (fst c0) (snd c0)) F_IMPOSSIBLE = true \/
            0 < lights_at st (fst c0) (snd c0))) \/
          (tsl_callback st (x, y, n) (fst c0) (snd c0)
           = (fst c0, snd c0, n + 1))) as [[-> Hno]| ->].
  { unfold tsl_callback.
    destruct (has _ F_IMPOSSIBLE); [left; auto|].
    destruct (_ >? 0) eqn:E; [left; split; [done|right; lia]|by right]. }
  - destruct (IH (x, y, n)) as [IH1 IH2]. cbn [fst snd] in IH1, IH2. split.
    + intros c Hc Hci Hcl. apply elem_of_cons in Hc as [->|Hc];
        [destruct Hno; [congruence|lia]|by apply (IH1 c)].
    + intros Hr c Hc Hci Hcl. apply elem_of_cons in Hc as [->|Hc];
        [destruct Hno; [congruence|lia]|by apply (IH2 Hr c)].
  - destruct (tsl_fold st cs (fst c0, snd c0, n + 1)) as (Hle & Heq & _).
    destruct (IH (fst c0, snd c0, n + 1)) as [IH1 _].
    cbn [fst snd] in Hle, Heq, IH1. split.
    + intros c Hc Hci Hcl. lia.
    + intros Hr c Hc Hci Hcl. rewrite (Heq Hr). cbn [fst snd].
      apply elem_of_cons in Hc as [->|Hc]; [by destruct c0|].
      specialize (IH1 c Hc Hci Hcl). lia.
Qed.

(** The unlit-square rule is sound: the light it places is a light of
    the solution. *)
Lemma try_solve_light_sound st x y :
  solver_inv s st -> solver_keeps s st -> compatible st sol ->
  in_grid st x y ->
  compatible
    (fst (try_solve_light st x y (flags_at st x y) (lights_at st x y))) sol.
Proof using sol_solves.
  intros Hinv Hk Hc Hin.
  destruct (on_the_way st Hinv Hk) as (Hwf & Hok & Hlw & Hss & Hb & Hg & Hs).
  destruct solution_rules as (Hall & _ & _).
  unfold try_solve_light.
  destruct (lights_at st x y >? 0) eqn:Hli; [done|].
  destruct (has (flags_at st x y) F_BLACK) eqn:Hbl; [done|].
  destruct (FOREACHLIT _ _ _) as [[sx sy] n] eqn:Hf.
  destruct (n =? 1) eqn:Hn; [|done]. cbn [fst].
  unfold FOREACHLIT in Hf.
  destruct (tsl_fold_only st (foreachlit_cells (list_lights st x y true))
              (0, 0, 0)) as [_ Honly].
  rewrite Hf in Honly. cbn [fst snd] in Honly.
  destruct (Hall x y) as (lx & ly & Hlin & Hll & Hls).
  { by apply Hg. } { by rewrite Hb. }
  apply sees_sym in Hls. apply (proj2 (Hs x y lx ly)) in Hls.
  assert (in_grid st lx ly) as Hlin' by (by apply Hg).
  assert (is_black st lx ly = false) as Hlw' by (by apply sees_white in Hls).
  assert ((lx, ly) = (sx, sy)) as E.
  { apply Honly; [lia|by apply list_lights_sees| |]; cbn [fst snd].
    - destruct (has (flags_at st lx ly) F_IMPOSSIBLE) eqn:Hi; [|done].
      apply (Hc lx ly Hlin') in Hi. congruence.
    - destruct (Z.le_gt_cases (lights_at st lx ly) 0) as [?|Hgt]; [done|].
      exfalso. destruct (has (flags_at st lx ly) F_LIGHT) eqn:Hl.
      + assert ((lx, ly) ∈ lit_from st x y) as Hm.
        { apply elem_of_lit_from; [done|]. split; [done|]. split; [done|].
          by apply sees_sym. }
        assert (lights_at st x y <= 0) as Hle by lia.
        rewrite (Hok x y Hin Hbl) in Hle.
        destruct (lit_from st x y); [by apply elem_of_nil in Hm|].
        cbn [length] in Hle. lia.
      + pose proof (lit_square_dark st lx ly Hinv Hk Hc Hlin' ltac:(lia)
                      Hlw' Hl). congruence. }
  simplify_eq. by apply compatible_set_light.
Qed.

Lemma tsn_narrow_shape st pts : forall nl ns acc,
  fold_left (tsn_narrow st) pts (nl, ns, acc) =
    (nl - Z.of_nat (length (filter
             (fun p => has (flags_at st (p_x p) (p_y p)) F_LIGHT = true)
             pts)),
     ns - Z.of_nat (length (filter
             (fun p => has (flags_at st (p_x p) (p_y p)) F_LIGHT = true \/
                       can_place st (p_x p) (p_y p) = false)
             pts)),
     acc ++ (narrowed st <$> pts)).
Proof using Type.
  induction pts as [|p pts IH]; intros nl ns acc; cbn [fold_left].
  { cbn. by rewrite !Z.sub_0_r, app_nil_r. }
  rewrite fmap_cons, !filter_cons. unfold tsn_narrow at 2.
  unfold narrowed at 1. fold (can_place st (p_x p) (p_y p)).
  destruct (has (flags_at st (p_x p) (p_y p)) F_LIGHT) eqn:Hl;
    [|destruct (can_place st (p_x p) (p_y p)) eqn:Hcp]; cbn [negb orb].
  - rewrite IH, decide_True by done. rewrite decide_True by (by left).
    cbn [length]. rewrite <- app_assoc. cbn [app]. f_equal. f_equal; lia.
  - rewrite IH, decide_False by done.
    rewrite decide_False by (intros [?|?]; congruence).
    by rewrite <- app_assoc.
  - rewrite IH, decide_False by done. rewrite decide_True by (by right).
    cbn [length]. rewrite <- app_assoc. cbn [app]. f_equal. f_equal; lia.
Qed.

Lemma narrowed_unmarked st p :
  has (p_f (narrowed st p)) F_MARK = false ->
  has (flags_at st (p_x p) (p_y p)) F_LIGHT = false /\
  can_place st (p_x p) (p_y p) = true /\ narrowed st p = p.
Proof using Type.
  unfold narrowed.
  destruct (has (flags_at st (p_x p) (p_y p)) F_LIGHT);
    [|destruct (can_place st (p_x p) (p_y p))]; cbn [negb orb p_f];
    try done; change F_MARK with (2 ^ 5); rewrite has_fl_set by lia;
    by rewrite orb_true_r.
Qed.

Lemma narrowed_coords st p :
  p_x (narrowed st p) = p_x p /\ p_y (narrowed st p) = p_y p.
Proof using Type. unfold narrowed. by destruct (_ || _). Qed.

(** The points around a clue, counted: the lights of the solution are
    the lights of the state and the lights the solution has on the
    squares that could still take one. *)
Lemma narrow_counts (lst cp lsol : point -> bool) pts :
  (forall p, p ∈ pts -> lst p = true -> lsol p = true) ->
  (forall p, p ∈ pts -> lst p = false -> cp p = false -> lsol p = false) ->
  exists c e : Z,
    Z.of_nat (length (filter (fun p => lsol p = true) pts))
    = Z.of_nat (length (filter (fun p => lst p = true) pts)) + e /\
    Z.of_nat (length pts)
    = Z.of_nat (length (filter (fun p => lst p = true \/ cp p = false) pts))
      + c /\
    0 <= e <= c /\
    (e = 0 -> forall p, p ∈ pts -> lst p = false -> cp p = true ->
              lsol p = false) /\
    (e = c -> forall p, p ∈ pts -> lst p = false -> cp p = true ->
              lsol p = true).
Proof using Type.
  induction pts as [|p pts IH]; intros H1 H2.
  { exists 0, 0. cbn. split_and!; try done; try lia;
      intros _ p Hp; by apply elem_of_nil in Hp. }
  destruct IH as (c & e & Ha & Hb & Hle & H0 & Hall).
  { intros q Hq. apply H1. by right. }
  { intros q Hq. apply H2. by right. }
  specialize (H1 p ltac:(left)). specialize (H2 p ltac:(left)).
  rewrite !filter_cons. cbn [length].
  destruct (lst p) eqn:Hl; [|destruct (cp p) eqn:Hc;
                               [destruct (lsol p) eqn:Hs|]].
  - (* a light of the state *)
    rewrite H1 by done. rewrite !decide_True by auto.
    exists c, e. cbn [length]. split_and!; try lia.
    + intros He q Hq. apply elem_of_cons in Hq as [->|Hq];
        [congruence|by apply H0].
    + intros He q Hq. apply elem_of_cons in Hq as [->|Hq];
        [congruence|by apply Hall].
  - (* a free square that holds a light of the solution *)
    rewrite decide_True by done. rewrite decide_False by done.
    rewrite decide_False by (intros [?|?]; congruence).
    exists (c + 1), (e + 1). cbn [length]. split_and!; try lia.
    intros He q Hq. apply elem_of_cons in Hq as [->|Hq];
      [done|apply Hall; [lia|done]].
  - (* a free square that holds none *)
    rewrite !decide_False by (try intros [?|?]; congruence).
    exists (c + 1), e. split_and!; try lia.
    intros He q Hq. apply elem_of_cons in Hq as [->|Hq];
      [done|by apply H0].
  - (* a square that can take no light *)
    rewrite H2 by done. rewrite !decide_False by done.
    rewrite decide_True by (by right).
    exists c, e. cbn [length]. split_and!; try lia.
    + intros He q Hq. apply elem_of_cons in Hq as [->|Hq];
        [congruence|by apply H0].
    + intros He q Hq. apply elem_of_cons in Hq as [->|Hq];
        [congruence|by apply Hall].
Qed.

(** The clue rule is sound: the lights it places are lights of the
    solution, the squares it marks impossible hold none. *)
Lemma try_solve_number_sound st x y :
  solver_inv s st -> solver_keeps s st -> compatible st sol ->
  in_grid st x y ->
  compatible
    (fst (try_solve_number st x y (flags_at st x y) (lights_at st x y))) sol.
Proof using sol_solves clues_black.
  intros Hinv Hk Hc Hin.
  destruct (on_the_way st Hinv Hk) as (Hwf & Hok & Hlw & Hss & Hb & Hg & Hs).
  destruct solution_rules as (_ & _ & Hclues).
  pose proof Hinv as (_ & _ & Hsb).
  pose proof Hk as ((Hsp & _) & _).
  unfold try_solve_number.
  destruct (has (flags_at st x y) F_NUMBERED) eqn:Hn; cbn [negb]; [|done].
  rewrite tsn_narrow_shape. cbn [app]. cbv beta iota zeta.
  set (pts := get_surrounds st x y).
  assert (forall p, p ∈ pts -> in_grid st (p_x p) (p_y p)) as Hpin.
  { intros p Hp. by apply (get_surrounds_in_grid st x y). }
  destruct (narrow_counts
              (fun p => has (flags_at st (p_x p) (p_y p)) F_LIGHT)
              (fun p => can_place st (p_x p) (p_y p))
              (fun p => has (flags_at sol (p_x p) (p_y p)) F_LIGHT) pts)
    as (c & e & Ha & Hbn & Hle & H0 & Hall).
  { intros p Hp Hl. by apply (Hc _ _ (Hpin p Hp)). }
  { intros p Hp Hl Hcp. apply (not_candidate_dark st); auto. }
  assert (lights_at st x y
          = Z.of_nat (length (filter
              (fun p => has (flags_at sol (p_x p) (p_y p)) F_LIGHT = true)
              pts))) as Hclue.
  { pose proof Hss as (Hw & Hh & Hp). destruct (Hp x y Hin) as (Hbk & Hnum & Hcl).
    rewrite <- Hcl.
    - rewrite <- (Hclues x y); [|by apply Hg|by rewrite Hnum].
      unfold count_surrounding_lights. rewrite fold_count.
      assert (get_surrounds sol x y = pts) as ->
        by (unfold pts, get_surrounds; by rewrite Hw, Hh).
      lia.
    - pose proof Hsp as (Hw' & Hh' & Hp').
      assert (in_grid s x y) as Hin'
        by (unfold in_grid in *; by rewrite <- Hw', <- Hh').
      destruct (Hp' x y Hin') as (Hbk' & Hnum' & _).
      unfold is_black. rewrite Hbk'. apply (clues_black x y Hin').
      by rewrite <- Hnum'. }
  assert (Forall (usable_point s) (narrowed st <$> pts)) as Husable.
  { apply Forall_fmap, Forall_forall. intros p Hp.
    destruct (narrowed_coords st p) as [Hx Hy].
    split; cbn [compose]; rewrite Hx, Hy.
    - apply (same_board_in_grid s st); auto.
    - intros Hm. apply narrowed_unmarked in Hm as (_ & Hcp & _).
      apply could_place_light_white in Hcp as [Hw _].
      by rewrite <- (same_board_is_black s st). }
  set (st1 := set_flags_at st x y (fl_set (flags_at st x y) F_NUMBERUSED)).
  assert (solver_inv s st1) as Hinv1
    by (by apply (solver_inv_set_bit s st x y 2)).
  assert (compatible st1 sol) as Hc1.
  { apply compatible_set_flags; try done; [other_flag|].
    intros Hi. left. rewrite <- Hi. symmetry. other_flag. }
  match goal with
  | |- context [if ?a =? 0 then (st, false)
                else if ?b =? 0 then _ else _] =>
      remember a as ns eqn:Ens; remember b as nl eqn:Enl
  end.
  assert (nl = e) as -> by lia. assert (ns = c) as -> by lia.
  destruct (c =? 0) eqn:Hns; [done|].
  destruct (e =? 0) eqn:Hnl.
  { refine (inv_marking_loop s (fun a => compatible a sol)
              (fun a p => set_flags_at a (p_x p) (p_y p)
                            (fl_set (flags_at a (p_x p) (p_y p)) F_IMPOSSIBLE))
              (fun _ p => has (flags_at sol (p_x p) (p_y p)) F_LIGHT = false)
              (narrowed st <$> pts) _ (fun _ _ _ _ _ _ _ H => H) Husable
              st1 false Hinv1 Hc1 _).
    - intros st' p Hinv' Hc' Hpi Hpw Hq. split.
      + by apply (solver_inv_set_bit s st' _ _ 3).
      + pose proof Hinv' as (Hwf' & _ & Hsb').
        apply compatible_set_flags; try done.
        * by apply (same_board_in_grid s st').
        * other_flag.
        * by right.
    - apply Forall_fmap, Forall_forall. intros p Hp Hm. cbn [compose] in *.
      apply narrowed_unmarked in Hm as (Hl & Hcp & ->).
      apply H0; [lia|done|done|done]. }
  destruct (e =? c) eqn:Heq; [|done].
  refine (inv_marking_loop s (fun a => compatible a sol)
            (fun a p => set_light a (p_x p) (p_y p) true)
            (fun _ p => has (flags_at sol (p_x p) (p_y p)) F_LIGHT = true)
            (narrowed st <$> pts) _ (fun _ _ _ _ _ _ _ H => H) Husable
            st1 false Hinv1 Hc1 _).
  - intros st' p Hinv' Hc' Hpi Hpw Hq. split.
    + by apply solver_inv_set_light.
    + pose proof Hinv' as (Hwf' & _ & Hsb').
      apply compatible_set_light; try done.
      * by apply (same_board_in_grid s st').
      * by rewrite (same_board_is_black s st').
  - apply Forall_fmap, Forall_forall. intros p Hp Hm. cbn [compose] in *.
    apply narrowed_unmarked in Hm as (Hl & Hcp & ->).
    apply Hall; [lia|done|done|done].
Qed.

Lemma clue_is_black st x y :
  solver_keeps s st -> in_grid st x y ->
  has (flags_at st x y) F_NUMBERED = true ->
  has (flags_at st x y) F_BLACK = true.
Proof using clues_black.
  intros ((Hsp & _) & _) Hin Hn. pose proof Hsp as (Hw & Hh & Hp).
  assert (in_grid s x y) as Hin'
    by (unfold in_grid in *; by rewrite <- Hw, <- Hh).
  destruct (Hp x y Hin') as (Hbk & Hnum & _).
  rewrite Hbk. apply (clues_black x y Hin'). by rewrite <- Hnum.
Qed.

(** One sweep of the two rules over the grid is sound. *)
Lemma solve_pass_fold_sound cells : forall st nc did,
  solver_inv s st -> solver_keeps s st -> compatible st sol ->
  (forall c, c ∈ cells -> in_grid s (fst c) (snd c)) ->
  compatible (fst (fst (fold_left solve_pass_cell cells (st, nc, did)))) sol.
Proof using sol_solves clues_black.
  induction cells as [|c cells IH]; intros st nc did Hinv Hk Hc Hcells;
    cbn [fold_left]; [done|].
  pose proof (Hcells c ltac:(left)) as Hin.
  pose proof Hinv as (_ & _ & Hsb).
  assert (in_grid st (fst c) (snd c)) as Hin'
    by (by apply (same_board_in_grid s st)).
  unfold solve_pass_cell at 2.
  pose proof (solver_inv_try_solve_light s st (fst c) (snd c)
                (lights_at st (fst c) (snd c)) Hinv Hin) as Hi1.
  pose proof (inv_try_solve_light s (solver_keeps s) (solver_keeps_light s)
                st (fst c) (snd c) (lights_at st (fst c) (snd c))
                Hinv Hk Hin) as Hk1.
  pose proof (try_solve_light_sound st (fst c) (snd c) Hinv Hk Hc Hin')
    as Hc1.
  assert (has (flags_at st (fst c) (snd c)) F_NUMBERED = true ->
          try_solve_light st (fst c) (snd c) (flags_at st (fst c) (snd c))
            (lights_at st (fst c) (snd c)) = (st, false)) as Hblack.
  { intros Hn. unfold try_solve_light.
    destruct (_ >? 0); [done|]. by rewrite (clue_is_black st _ _ Hk Hin' Hn). }
  destruct (try_solve_light st _ _ _ _) as [st1 r1]. cbn [fst] in Hi1, Hk1, Hc1.
  pose proof (solver_inv_try_solve_number s st1 (fst c) (snd c)
                (flags_at st (fst c) (snd c)) (lights_at st (fst c) (snd c))
                Hi1 Hin) as Hi2.
  pose proof (inv_try_solve_number s (solver_keeps s) (solver_keeps_used s)
                (solver_keeps_mark s) (solver_keeps_light s)
                st1 (fst c) (snd c)
                (flags_at st (fst c) (snd c)) (lights_at st (fst c) (snd c))
                Hi1 Hk1 Hin) as Hk2.
  assert (compatible
            (fst (try_solve_number st1 (fst c) (snd c)
                    (flags_at st (fst c) (snd c))
                    (lights_at st (fst c) (snd c)))) sol) as Hc2.
  { destruct (has (flags_at st (fst c) (snd c)) F_NUMBERED) eqn:Hn.
    - specialize (Hblack eq_refl). simplify_eq.
      by apply try_solve_number_sound.
    - unfold try_solve_number. by rewrite Hn. }
  destruct (try_solve_number st1 _ _ _ _) as [st2 r2].
  cbn [fst] in Hi2, Hk2, Hc2.
  apply IH; try done. intros c' Hc'. apply Hcells. by right.
Qed.

Lemma solve_pass_sound st :
  solver_inv s st -> solver_keeps s st -> compatible st sol ->
  solver_inv s (fst (fst (solve_pass st))) /\
  solver_keeps s (fst (fst (solve_pass st))) /\
  compatible (fst (fst (solve_pass st))) sol.
Proof using sol_solves clues_black.
  intros Hinv Hk Hc.
  destruct (inv_solve_pass s (solver_keeps s) (solver_keeps_used s)
              (solver_keeps_mark s) (solver_keeps_light s) st Hinv Hk)
    as [Hi1 Hk1].
  split; [done|]. split; [done|].
  apply solve_pass_fold_sound; try done.
  intros [a b] Hab. apply elem_of_all_cells in Hab.
  destruct Hinv as (_ & _ & Hsb). by apply (same_board_in_grid s st).
Qed.

(** A sweep that fires no rule counts every square where a light could
    be placed. *)
Lemma solve_pass_fold_count cells : forall st0 nc0 did0 st1 nc,
  fold_left solve_pass_cell cells (st0, nc0, did0) = (st1, nc, false) ->
  nc0 <= nc /\
  forall c, c ∈ cells -> can_place st0 (fst c) (snd c) = true -> nc0 < nc.
Proof using Type.
  induction cells as [|c cs IH]; intros st0 nc0 did0 st1 nc;
    cbn [fold_left].
  - intros H. simplify_eq. split; [lia|]. intros c Hc.
    by apply elem_of_nil in Hc.
  - destruct (solve_pass_cell (st0, nc0, did0) c) as [[sta nca] dida] eqn:Ec.
    intros H. pose proof H as H'.
    apply solve_pass_fold_idle in H' as (-> & _ & _).
    apply IH in H as [Hle Hall].
    apply solve_pass_cell_idle in Ec as (-> & Hm0 & ->).
    split; [destruct (can_place st0 (fst c) (snd c)); lia|].
    intros c' Hc' Hcp. apply elem_of_cons in Hc' as [->|Hc'].
    + rewrite Hcp in Hle. lia.
    + assert (nc0 + (if can_place st0 (fst c) (snd c) then 1 else 0) < nc);
        [|destruct (can_place st0 (fst c) (snd c)); lia].
      apply (Hall c' Hc').
      by rewrite (proj1 (modulo_numberused_can_place st0 sta _ _ Hm0)).
Qed.

(** A state in which two lights see each other has no solution. *)
Lemma overlap_no_solution st :
  solver_inv s st -> solver_keeps s st -> compatible st sol ->
  grid_overlap st = true -> False.
Proof using sol_solves.
  intros Hinv Hk Hc Hov.
  destruct (on_the_way st Hinv Hk) as (Hwf & Hok & Hlw & Hss & Hb & Hg & Hs).
  destruct solution_rules as (_ & Hno & _).
  unfold grid_overlap in Hov.
  apply existsb_exists in Hov as ([x y] & Hxy & Hp).
  apply list_elem_of_In, elem_of_all_cells in Hxy. cbn [fst snd] in Hp.
  destruct (has (flags_at st x y) F_LIGHT) eqn:Hl; [|done].
  cbn [negb] in Hp. rewrite (Hok x y Hxy (Hlw x y Hxy Hl)) in Hp.
  pose proof (lit_from_NoDup st x y) as Hnd.
  assert (exists m, m ∈ lit_from st x y /\ m <> (x, y)) as ([mx my] & Hm & Hne).
  { destruct (lit_from st x y) as [|a [|b l]];
      [cbn in Hp; (done || lia)..|].
    apply NoDup_cons in Hnd as [Hab _].
    destruct (decide (a = (x, y))) as [->|Ha].
    - exists b. split; [right; left|]. intros ->. apply Hab. left.
    - exists a. split; [left|done]. }
  apply elem_of_lit_from in Hm as (Hmin & Hml & Hms); [|done].
  apply (Hno mx my x y).
  - by apply Hg.
  - by apply Hg.
  - by apply (Hc mx my Hmin).
  - by apply (Hc x y Hxy).
  - done.
  - by apply Hs.
Qed.

(** A state that passes [grid_correct] is the solution. *)
Lemma correct_is_solution st :
  solver_inv s st -> solver_keeps s st -> compatible st sol ->
  grid_correct st = true -> same_lights sol st.
Proof using sol_solves.
  intros Hinv Hk Hc Hgc x y Hin.
  destruct (on_the_way st Hinv Hk) as (Hwf & Hok & Hlw & Hss & Hb & Hg & Hs).
  apply Hg in Hin.
  destruct (has (flags_at st x y) F_LIGHT) eqn:Hl.
  { symmetry. by apply (Hc x y Hin). }
  symmetry. destruct (is_black st x y) eqn:Hbl.
  - destruct sol_solves as (_ & _ & _ & Hlws & _).
    destruct (has (flags_at sol x y) F_LIGHT) eqn:Hl'; [|done].
    apply Hlws in Hl'; [|by apply Hg]. rewrite Hb in Hl'. congruence.
  - unfold grid_correct in Hgc.
    apply andb_true_iff in Hgc as [Hgc _].
    apply andb_true_iff in Hgc as [Hlit _].
    rewrite grid_lit_spec in Hlit. specialize (Hlit x y Hin Hbl).
    apply (lit_square_dark st x y); try done.
    rewrite (Hok x y Hin Hbl) in *. lia.
Qed.

(** A state that is not solved and has no square left for a light has
    no solution. *)
Lemma stuck_no_solution st st1 :
  solver_inv s st -> solver_keeps s st -> compatible st sol ->
  grid_correct st = false -> solve_pass st = (st1, 0, false) -> False.
Proof using sol_solves.
  intros Hinv Hk Hc Hgc Hpass.
  destruct (on_the_way st Hinv Hk) as (Hwf & Hok & Hlw & Hss & Hb & Hg & Hs).
  destruct sol_solves as (Hwfs & _ & Hoks & _ & Hgcs).
  unfold solve_pass in Hpass.
  apply solve_pass_fold_count in Hpass as [_ Hnone].
  assert (grid_correct st = true); [|congruence].
  apply (grid_correct_same_lights sol st); try done.
  - by apply same_puzzle_sym.
  - intros x y Hin. apply Hg in Hin.
    destruct (has (flags_at st x y) F_LIGHT) eqn:Hl.
    { symmetry. by apply (Hc x y Hin). }
    symmetry. apply (not_candidate_dark st x y); try done.
    destruct (can_place st x y) eqn:Hcp; [|done].
    specialize (Hnone (x, y) ltac:(by apply elem_of_all_cells) Hcp). lia.
Qed.

(** The search loses no solution and counts none twice: with
    [forceunique] set, a result [0] means that no solution agrees with
    the state, and a result [1] that the state left behind is the only
    one that does. *)
Lemma solve_loop_sound fuel : forall st mr d md n st' md',
  solver_inv s st -> solver_keeps s st -> compatible st sol ->
  solve_loop fuel st true mr d md = Returns (n, st', md') ->
  n <> 0 /\ (n = 1 -> same_lights sol st').
Proof using sol_solves clues_black.
  induction fuel as [|fuel IH]; intros st mr d md n st' md' Hinv Hk Hc H;
    [done|].
  cbn [solve_loop] in H.
  destruct (grid_overlap st) eqn:Hov.
  { exfalso. by apply (overlap_no_solution st). }
  destruct (grid_correct st) eqn:Hgc.
  { simplify_eq. split; [done|]. intros _. by apply correct_is_solution. }
  destruct (solve_pass_sound st Hinv Hk Hc) as (Hinv1 & Hk1 & Hc1).
  destruct (solve_pass st) as [[st1 nc] did] eqn:Hpass. cbn [fst] in *.
  destruct did.
  { eapply IH; [exact Hinv1|exact Hk1|exact Hc1|exact H]. }
  destruct (nc =? 0) eqn:Hnc.
  { exfalso. apply Z.eqb_eq in Hnc. subst nc.
    by apply (stuck_no_solution st st1). }
  destruct (d >=? mr); [simplify_eq; split; [done|lia]|].
  pose proof Hinv as (_ & Hnn & _).
  destruct (branching_choice st st1 nc Hnn Hpass ltac:(lia))
    as (Hpos & Hin & Hcp).
  destruct (choose_best st1) as [[bn bx] by_]. cbn [fst snd] in *.
  destruct (negb (bn >? 0)); [done|].
  destruct (negb ((bx >=? 0) && (by_ >=? 0))); [done|].
  pose proof Hinv1 as (Hwf1 & _ & Hs1).
  assert (in_grid s bx by_) as Hin' by (by apply (same_board_in_grid s st1)).
  pose proof Hcp as Hcp'. unfold can_place in Hcp'.
  pose proof (could_place_light_free _ _ Hcp') as Hfree.
  apply could_place_light_white in Hcp' as [Hw _].
  assert (is_black s bx by_ = false) as Hws
    by (by rewrite <- (same_board_black s st1)).
  assert (solver_inv s (set_flags_at st1 bx by_
                          (fl_set (flags_at st1 bx by_) F_IMPOSSIBLE)))
    as Hii by (by apply (solver_inv_set_bit s st1 bx by_ 3)).
  assert (solver_keeps s (set_flags_at st1 bx by_
                            (fl_set (flags_at st1 bx by_) F_IMPOSSIBLE)))
    as Hki by (apply solver_keeps_mark; auto).
  assert (solver_inv s (set_light st1 bx by_ true)) as Hil
    by (by apply solver_inv_set_light).
  assert (solver_keeps s (set_light st1 bx by_ true)) as Hkl
    by (by apply solver_keeps_light).
  destruct (solve_loop fuel _ true mr (d + 1) (note_depth md (d + 1)))
    as [[[r1 s1] m1]| |] eqn:H1; [|done|done].
  cbn [negb andb] in H. rewrite dup_game_id in H.
  destruct (solve_loop fuel _ true mr (d + 1) (note_depth m1 (d + 1)))
    as [[[r2 s2] m2]| |] eqn:H2; [|done|done].
  destruct (inv_solve_loop s (solver_keeps s) (solver_keeps_used s)
              (solver_keeps_mark s) (solver_keeps_light s)
              (solver_keeps_copy s) fuel _ _ _ _ _ _ _ _ Hii Hki H1)
    as [(_ & _ & Hw1 & Hh1 & _) _].
  destruct (inv_solve_loop s (solver_keeps s) (solver_keeps_used s)
              (solver_keeps_mark s) (solver_keeps_light s)
              (solver_keeps_copy s) fuel _ _ _ _ _ _ _ _ Hil Hkl H2)
    as [(_ & _ & Hw2 & Hh2 & _) _].
  assert ((r2 <> 0 /\ (r2 = 1 -> same_lights sol s2)) \/
          (r1 <> 0 /\ (r1 = 1 -> same_lights sol s1))) as Hcase.
  { destruct (has (flags_at sol bx by_) F_LIGHT) eqn:Hl.
    - left. eapply IH; [exact Hil|exact Hkl| |exact H2].
      apply compatible_set_light; try done.
    - right. eapply IH; [exact Hii|exact Hki| |exact H1].
      apply compatible_set_flags; try done; [other_flag|by right]. }
  destruct ((r2 <? 0) || (r1 <? 0)) eqn:Hneg;
    [simplify_eq; split; [done|lia]|].
  apply orb_false_iff in Hneg as [Hr2 Hr1].
  destruct (r2 <=? 0) eqn:Hr2'.
  { simplify_eq. destruct Hcase as [[Hne _]|[Hne Hsame]]; [lia|done]. }
  destruct (r1 <=? 0) eqn:Hr1'.
  { simplify_eq. destruct Hcase as [[Hne Hsame]|[Hne _]]; [|lia].
    split; [done|]. intros Hn x y Hxy. rewrite <- (Hsame Hn x y Hxy).
    unfold flags_at, cell_index.
    cbn [copy_planes with_flags with_lights s_w flags]. congruence. }
  simplify_eq. split; lia.
Qed.

Lemma clear_used_sound cells : forall st0,
  solver_inv s st0 -> solver_keeps s st0 -> compatible st0 sol ->
  (forall c, c ∈ cells -> in_grid s (fst c) (snd c)) ->
  let st1 := fold_left
       (fun st1 c =>
          set_flags_at st1 (fst c) (snd c)
            (fl_clear (flags_at st1 (fst c) (snd c)) F_NUMBERUSED))
       cells st0 in
  solver_inv s st1 /\ solver_keeps s st1 /\ compatible st1 sol.
Proof using Type.
  induction cells as [|c cs IH]; intros st0 Hi0 Hk0 Hc0 Hcells;
    cbn [fold_left]; [done|].
  pose proof (Hcells c ltac:(left)) as Hin.
  pose proof Hi0 as (Hwf0 & _ & Hs0).
  apply IH.
  - apply solver_inv_set_flags; [done|]. other_flag.
  - by apply solver_keeps_clear.
  - apply compatible_set_flags; try done.
    + by apply (same_board_in_grid s st0).
    + other_flag.
    + intros Hi. left. rewrite <- Hi. symmetry. other_flag.
  - intros c' Hc'. apply Hcells. by right.
Qed.

Lemma dosolve_sound fuel st allowguess md n st' md' :
  solver_inv s st -> solver_keeps s st -> compatible st sol ->
  dosolve fuel st allowguess true md = Returns (n, st', md') ->
  n <> 0 /\ (n = 1 -> same_lights sol st').
Proof using sol_solves clues_black.
  intros Hinv Hk Hc. unfold dosolve, solve_sub.
  destruct (clear_used_sound (all_cells st) st Hinv Hk Hc)
    as (Hi1 & Hk1 & Hc1).
  { intros [a b] Hab. apply elem_of_all_cells in Hab.
    destruct Hinv as (_ & _ & Hsb). by apply (same_board_in_grid s st). }
  by apply solve_loop_sound.
Qed.

End solver_sound.



(** [puzzle_is_good] accepts only puzzles with exactly one solution.
    On a position of play whose clues stand on black squares, when
    [puzzle_is_good] returns 1, the state it leaves is a solution of the
    puzzle, and every solution of the puzzle has its lights on the same
    squares. *)
Theorem puzzle_is_good_unique fuel st params st' md :
  wf_state st -> position st -> clues_on_black st ->
  puzzle_is_good fuel st params = Returns (true, st', md) ->
  solution st st' /\ forall sol, solution st sol -> same_lights sol st'.
Proof.
  intros Hwf (Hok & Hlw & _) Hcb. unfold puzzle_is_good, unplace_lights.
  destruct (unplace_lights_fold (all_cells st) st Hwf Hlw)
    as (Hwf0 & Hsp0 & Hlit0 & _ & Hfl0).
  { intros [a b] Hc. by apply elem_of_all_cells. }
  set (st0 := fold_left unplace_lights_cell (all_cells st) st) in *.
  pose proof Hsp0 as (Hsw & Hsh & Hpz).
  assert (forall a b, in_grid st0 a b -> in_grid st a b) as Hgrid.
  { intros a b. unfold in_grid. by rewrite Hsw, Hsh. }
  assert (forall a b, in_grid st0 a b ->
            has (flags_at st0 a b) F_LIGHT = false /\
            has (flags_at st0 a b) F_IMPOSSIBLE = false) as Hbare.
  { intros a b Hab. apply Hgrid in Hab.
    change F_LIGHT with (2 ^ 4). change F_IMPOSSIBLE with (2 ^ 3).
    rewrite !Hfl0 by (done || lia).
    rewrite !decide_True; [done| |];
      (split; [by apply elem_of_all_cells|lia]). }
  assert (position st0) as Hp0.
  { split; [by apply Hlit0|]. split; [|split].
    - intros a b Hab Hl. destruct (Hbare a b Hab). congruence.
    - intros a b Hab. by destruct (Hbare a b Hab) as [-> _].
    - intros a b Hab Hi. destruct (Hbare a b Hab). congruence. }
  assert (clues_on_black st0) as Hcb0.
  { intros a b Hab Hn. destruct (Hpz a b (Hgrid a b Hab)) as (Hb & Hnum & _).
    unfold is_black. rewrite Hb. apply Hcb; [by apply Hgrid|].
    by rewrite <- Hnum. }
  destruct (dosolve fuel st0 _ true (Some 0)) as [[[nsol st1] md1]| |] eqn:H;
    [|done|done].
  destruct ((recurse params =? 0) && (default 0 md1 >? 0)); [done|].
  destruct (nsol <=? 0) eqn:Hn0; [done|].
  destruct (nsol >? 1) eqn:Hn1; [done|].
  intros Heq. simplify_eq. assert (nsol = 1) as -> by lia.
  destruct (solver_keeps_refl st0 Hwf0 Hp0) as [Hinv Hk].
  destruct (dosolve_solution _ _ _ _ _ _ _ _ Hwf0 Hp0 H)
    as (Hwf1 & Hsp1 & Hok1 & Hlw1 & _).
  destruct (dosolve_result _ _ _ _ _ _ _ _ H) as (_ & Hg & _).
  split.
  - split_and!; try done; [by eapply same_puzzle_trans|apply Hg; lia].
  - intros sol (Hwfs & Hsps & Hoks & Hlws & Hgs).
    assert (solution st0 sol) as Hsol0.
    { split_and!; try done.
      eapply same_puzzle_trans; [|exact Hsps]. by apply same_puzzle_sym. }
    assert (compatible st0 sol) as Hc0.
    { intros a b Hab. destruct (Hbare a b Hab). split; congruence. }
    destruct (dosolve_sound st0 sol Hsol0 Hcb0 _ _ _ _ _ _ _ Hinv Hk Hc0 H)
      as [_ Hsame].
    by apply Hsame.
Qed.

(** The same board with its two lights placed, as the generator hands
    it over. *)
Lemma puzzle_is_good_unique_witness :
  let st := mk_game_state 2 2 2 [2; 1; 1; 2] [3; 16; 16; 0] 0 0 in
  let st' := mk_game_state 2 2 2 [2; 1; 1; 2] [7; 16; 16; 0] 0 0 in
  solution st st' /\ forall sol, solution st sol -> same_lights sol st'.
Proof.
  intros st st'.
  assert (forall x y, in_grid st x y ->
            (x = 0 \/ x = 1) /\ (y = 0 \/ y = 1)) as Hcases.
  { intros x y [Hx Hy]. simpl in Hx, Hy. lia. }
  apply (puzzle_is_good_unique 6 st (mk_game_params 2 2 20 0 0) st' 0).
  - unfold wf_state. simpl. repeat split; lia.
  - split; [|split; [|split]].
    + intros x y Hin Hw.
      destruct (Hcases x y Hin) as [[-> | ->] [-> | ->]];
        vm_compute in Hw; try done; by vm_compute.
    + intros x y Hin Hl.
      destruct (Hcases x y Hin) as [[-> | ->] [-> | ->]];
        vm_compute in Hl; try done; by vm_compute.
    + intros x y Hin.
      destruct (Hcases x y Hin) as [[-> | ->] [-> | ->]]; by vm_compute.
    + intros x y Hin Hi.
      destruct (Hcases x y Hin) as [[-> | ->] [-> | ->]]; by vm_compute in Hi.
  - intros x y Hin Hn.
    destruct (Hcases x y Hin) as [[-> | ->] [-> | ->]];
      vm_compute in Hn; try done; by vm_compute.
  - vm_compute. reflexivity.
Defined.

(** ** The solver terminates *)

(** A store that closes the square [(x,y)] and leaves the lights and
    marks of the other squares alone. *)
Lemma open_squares_close st st' x y :
  s_w st' = s_w st -> s_h st' = s_h st -> in_grid st x y ->
  (forall a b, in_grid st a b -> (a, b) <> (x, y) ->
     has (flags_at st' a b) F_LIGHT = has (flags_at st a b) F_LIGHT /\
     has (flags_at st' a b) F_IMPOSSIBLE
     = has (flags_at st a b) F_IMPOSSIBLE) ->
  has (flags_at st' x y) F_LIGHT = true \/
  has (flags_at st' x y) F_IMPOSSIBLE = true ->
  (open_squares st' <= open_squares st)%nat /\
  (has (flags_at st x y) F_LIGHT = false ->
   has (flags_at st x y) F_IMPOSSIBLE = false ->
   (open_squares st' < open_squares st)%nat).
Proof.
  intros Hw Hh Hin Hother Hclosed. unfold open_squares.
  rewrite (all_cells_ext st st') by done.
  pose proof (filter_length_change
    (fun c => has (flags_at st (fst c) (snd c)) F_LIGHT = false /\
              has (flags_at st (fst c) (snd c)) F_IMPOSSIBLE = false)
    (fun c => has (flags_at st' (fst c) (snd c)) F_LIGHT = false /\
              has (flags_at st' (fst c) (snd c)) F_IMPOSSIBLE = false)
    (all_cells st) (x, y) (all_cells_NoDup st)
    ltac:(by apply elem_of_all_cells)) as H.
  cbn [fst snd] in H.
  specialize (H ltac:(
    intros [a b] Hc Hne; apply elem_of_all_cells in Hc; cbn [fst snd];
    destruct (Hother a b Hc Hne) as [-> ->]; done)).
  rewrite (decide_False
             (P := has (flags_at st' x y) F_LIGHT = false /\
                   has (flags_at st' x y) F_IMPOSSIBLE = false)) in H
    by (intros [? ?]; destruct Hclosed; congruence).
  split.
  - case_decide; lia.
  - intros Hl Hi. rewrite decide_True in H by done. lia.
Qed.

(** A store that changes no light and no impossible mark. *)
Lemma open_squares_same st st' :
  s_w st' = s_w st -> s_h st' = s_h st ->
  (forall a b, in_grid st a b ->
     has (flags_at st' a b) F_LIGHT = has (flags_at st a b) F_LIGHT /\
     has (flags_at st' a b) F_IMPOSSIBLE
     = has (flags_at st a b) F_IMPOSSIBLE) ->
  open_squares st' = open_squares st.
Proof.
  intros Hw Hh Hsame. unfold open_squares.
  rewrite (all_cells_ext st st') by done.
  apply filter_length_agree. intros [a b] Hc.
  apply elem_of_all_cells in Hc. cbn [fst snd].
  by destruct (Hsame a b Hc) as [-> ->].
Qed.

Lemma open_squares_mark st x y :
  wf_state st -> in_grid st x y ->
  let st' := set_flags_at st x y
               (fl_set (flags_at st x y) F_IMPOSSIBLE) in
  (open_squares st' <= open_squares st)%nat /\
  (has (flags_at st x y) F_LIGHT = false ->
   has (flags_at st x y) F_IMPOSSIBLE = false ->
   (open_squares st' < open_squares st)%nat).
Proof.
  intros Hwf Hin st'. apply (open_squares_close st st' x y); try done.
  - intros a b Hab Hne. unfold st'.
    rewrite !has_flags_at_set_flags by done.
    by rewrite !decide_False by done.
  - right. unfold st'. rewrite has_flags_at_set_flags by done.
    rewrite decide_True by done. change F_IMPOSSIBLE with (2 ^ 3).
    rewrite has_fl_set by lia. by rewrite orb_true_r.
Qed.

Lemma open_squares_light st x y :
  wf_state st -> in_grid st x y -> is_black st x y = false ->
  let st' := set_light st x y true in
  (open_squares st' <= open_squares st)%nat /\
  (has (flags_at st x y) F_LIGHT = false ->
   has (flags_at st x y) F_IMPOSSIBLE = false ->
   (open_squares st' < open_squares st)%nat).
Proof.
  intros Hwf Hin Hw st'.
  destruct (set_light_frame st x y true) as (Hsw & Hsh & _).
  apply (open_squares_close st st' x y); try done.
  - intros a b Hab Hne. unfold st'.
    change F_LIGHT with (2 ^ 4). change F_IMPOSSIBLE with (2 ^ 3).
    rewrite !has_flags_at_set_light by (done || lia).
    by rewrite !decide_False by (by intros [? _]).
  - left. unfold st'. change F_LIGHT with (2 ^ 4).
    rewrite has_flags_at_set_light by (done || lia).
    by rewrite decide_True.
Qed.

Lemma open_squares_used st x y (set : bool) :
  wf_state st -> in_grid st x y ->
  open_squares
    (set_flags_at st x y
       (if set then fl_set (flags_at st x y) F_NUMBERUSED
        else fl_clear (flags_at st x y) F_NUMBERUSED))
  = open_squares st.
Proof.
  intros Hwf Hin. apply open_squares_same; try done.
  intros a b Hab. rewrite !has_flags_at_set_flags by done.
  destruct (decide ((a, b) = (x, y))) as [E|E]; [|done].
  simplify_eq. destruct set; split; other_flag.
Qed.

(** The square found by the unlit-square rule is open as far as the
    callback can tell: no impossible mark, not lit. *)
Lemma tsl_fold_unlit st cells : forall acc,
  let r := fold_left (fun a c => tsl_callback st a (fst c) (snd c)) cells acc in
  snd r <> snd acc ->
  lights_at st (fst (fst r)) (snd (fst r)) <= 0.
Proof.
  induction cells as [|c cs IH]; intros [[x y] n]; cbn [fold_left fst snd].
  - done.
  - assert (tsl_callback st (x, y, n) (fst c) (snd c) = (x, y, n) \/
            (tsl_callback st (x, y, n) (fst c) (snd c) = (fst c, snd c, n + 1)
             /\ lights_at st (fst c) (snd c) <= 0))
      as [-> | [-> Hi]].
    { unfold tsl_callback.
      destruct (has _ F_IMPOSSIBLE); [by left|].
      destruct (_ >? 0) eqn:E; [by left|right; split; [done|lia]]. }
    { apply (IH (x, y, n)). }
    intros _.
    destruct (tsl_fold st cs (fst c, snd c, n + 1)) as (_ & Heq & _).
    cbn [fst snd] in Heq.
    destruct (Z.eq_dec (snd (fold_left
               (fun a c0 => tsl_callback st a (fst c0) (snd c0)) cs
               (fst c, snd c, n + 1))) (n + 1)) as [He|Hne].
    + rewrite (Heq He). cbn [fst snd]. exact Hi.
    + by apply (IH (fst c, snd c, n + 1)).
Qed.

Lemma try_solve_light_open s st x y li :
  solver_inv s st -> solver_keeps s st -> in_grid s x y ->
  let r := try_solve_light st x y (flags_at st x y) li in
  (open_squares (fst r) <= open_squares st)%nat /\
  (snd r = true -> (open_squares (fst r) < open_squares st)%nat).
Proof.
  intros Hinv Hk Hin. pose proof Hinv as (Hwf & _ & Hs).
  pose proof Hk as (_ & Hok & Hlw & _).
  assert (in_grid st x y) as Hin' by (by apply (same_board_in_grid s st)).
  unfold try_solve_light.
  destruct (li >? 0); [by cbn|].
  destruct (has (flags_at st x y) F_BLACK) eqn:Hb; [by cbn|].
  destruct (FOREACHLIT _ _ _) as [[sx sy] n] eqn:Hf.
  destruct (n =? 1) eqn:Hn; [|by cbn]. cbn [fst snd].
  unfold FOREACHLIT in Hf.
  destruct (tsl_fold st (foreachlit_cells (list_lights st x y true)) (0, 0, 0))
    as (_ & _ & Hmem).
  pose proof (tsl_fold_free st (foreachlit_cells (list_lights st x y true))
                (0, 0, 0)) as Hfree.
  pose proof (tsl_fold_unlit st (foreachlit_cells (list_lights st x y true))
                (0, 0, 0)) as Hunlit.
  cbv zeta in Hfree, Hunlit.
  rewrite Hf in Hmem, Hfree, Hunlit. cbn [fst snd] in Hmem, Hfree, Hunlit.
  assert ((sx, sy) ∈ foreachlit_cells (list_lights st x y true)) as Hc
    by (apply Hmem; lia).
  apply list_lights_sees in Hc; [|done|done].
  pose proof (sees_in_grid _ _ _ _ _ Hc) as Hsin.
  pose proof (sees_white _ _ _ _ _ Hc) as Hsw.
  destruct (open_squares_light st sx sy Hwf Hsin Hsw) as [Hle Hlt].
  split; [done|]. intros _. apply Hlt; [|apply Hfree; lia].
  destruct (has (flags_at st sx sy) F_LIGHT) eqn:Hl; [|done].
  pose proof (light_is_lit st sx sy Hok Hlw Hsin Hl).
  specialize (Hunlit ltac:(lia)). lia.
Qed.

(** The marking loops close squares: every store closes one, the first
    one a square that was open. *)
Lemma marking_loop_open s (step : game_state -> point -> game_state) pts :
  (forall sta p, solver_inv s sta -> in_grid s (p_x p) (p_y p) ->
     is_black s (p_x p) (p_y p) = false ->
     solver_inv s (step sta p) /\
     (open_squares (step sta p) <= open_squares sta)%nat /\
     (has (flags_at sta (p_x p) (p_y p)) F_LIGHT = false ->
      has (flags_at sta (p_x p) (p_y p)) F_IMPOSSIBLE = false ->
      (open_squares (step sta p) < open_squares sta)%nat)) ->
  Forall (usable_point s) pts ->
  forall st0 b, solver_inv s st0 ->
    let r := fold_left
               (fun (acc : game_state * bool) p =>
                  if negb (has (p_f p) F_MARK) then (step (fst acc) p, true)
                  else acc) pts (st0, b) in
    (open_squares (fst r) <= open_squares st0)%nat /\
    (b = false -> snd r = true ->
     Forall (fun p => has (p_f p) F_MARK = false ->
                      has (flags_at st0 (p_x p) (p_y p)) F_LIGHT = false /\
                      has (flags_at st0 (p_x p) (p_y p)) F_IMPOSSIBLE = false)
            pts ->
     (open_squares (fst r) < open_squares st0)%nat).
Proof.
  intros Hstep Hpts. induction Hpts as [|p pts [Hin Hw] _ IH];
    intros st0 b Hinv; cbn [fold_left].
  { cbn. split; [done|]. by intros ->. }
  destruct (has (p_f p) F_MARK) eqn:Hm; cbn [negb fst].
  - destruct (IH st0 b Hinv) as [Hle Hlt]. split; [done|].
    intros Hb Hr Hopen. apply Hlt; try done.
    by apply Forall_cons in Hopen as [_ ?].
  - destruct (Hstep st0 p Hinv Hin (Hw eq_refl)) as (Hinv1 & Hle1 & Hlt1).
    destruct (IH (step st0 p) true Hinv1) as [Hle _].
    split; [lia|]. intros _ _ Hopen.
    apply Forall_cons in Hopen as [Hp _]. destruct (Hp Hm).
    specialize (Hlt1 ltac:(done) ltac:(done)). lia.
Qed.

Lemma narrowed_usable s st pts :
  same_board s st ->
  (forall p, p ∈ pts -> in_grid st (p_x p) (p_y p)) ->
  Forall (usable_point s) (narrowed st <$> pts).
Proof.
  intros Hsb Hpin. apply Forall_fmap, Forall_forall. intros p Hp.
  destruct (narrowed_coords st p) as [Hx Hy].
  split; cbn [compose]; rewrite Hx, Hy.
  - apply (same_board_in_grid s st); auto.
  - intros Hm. apply narrowed_unmarked in Hm as (_ & Hcp & _).
    apply could_place_light_white in Hcp as [Hw _].
    by rewrite <- (same_board_is_black s st).
Qed.

Lemma try_solve_number_open s st x y fl li :
  solver_inv s st -> in_grid s x y ->
  let r := try_solve_number st x y fl li in
  (open_squares (fst r) <= open_squares st)%nat /\
  (snd r = true -> (open_squares (fst r) < open_squares st)%nat).
Proof.
  intros Hinv Hin. pose proof Hinv as (Hwf & _ & Hsb).
  assert (in_grid st x y) as Hin' by (by apply (same_board_in_grid s st)).
  unfold try_solve_number.
  destruct (negb (has fl F_NUMBERED)); [by cbn|].
  rewrite tsn_narrow_shape. cbn [app]. cbv beta iota zeta.
  set (pts := get_surrounds st x y).
  assert (forall p, p ∈ pts -> in_grid st (p_x p) (p_y p)) as Hpin.
  { intros p Hp. by apply (get_surrounds_in_grid st x y). }
  pose proof (narrowed_usable s st pts Hsb Hpin) as Husable.
  set (st1 := set_flags_at st x y (fl_set (flags_at st x y) F_NUMBERUSED)).
  assert (solver_inv s st1) as Hinv1
    by (by apply (solver_inv_set_bit s st x y 2)).
  assert (open_squares st1 = open_squares st) as Hopen1
    by (by apply (open_squares_used st x y true)).
  assert (Forall (fun p => has (p_f p) F_MARK = false ->
                    has (flags_at st1 (p_x p) (p_y p)) F_LIGHT = false /\
                    has (flags_at st1 (p_x p) (p_y p)) F_IMPOSSIBLE = false)
            (narrowed st <$> pts)) as Hfree.
  { apply Forall_fmap, Forall_forall. intros p Hp Hm. cbn [compose] in *.
    apply narrowed_unmarked in Hm as (Hl & Hcp & ->).
    apply could_place_light_free in Hcp.
    unfold st1. change F_NUMBERUSED with (2 ^ 2).
    change F_LIGHT with (2 ^ 4) in *. change F_IMPOSSIBLE with (2 ^ 3) in *.
    rewrite !has_flags_at_set_bit by (auto || lia).
    rewrite Hl, Hcp. by rewrite !andb_false_r. }
  match goal with
  | |- context [if ?a =? 0 then (st, false)
                else if ?b =? 0 then _ else _] =>
      generalize a b; intros ns nl
  end.
  destruct (ns =? 0); [by cbn|].
  destruct (nl =? 0).
  { destruct (marking_loop_open s
                (fun a p => set_flags_at a (p_x p) (p_y p)
                              (fl_set (flags_at a (p_x p) (p_y p))
                                      F_IMPOSSIBLE))
                (narrowed st <$> pts)) with (st0 := st1) (b := false)
      as [Hle Hlt]; try done.
    - intros sta p Hia Hpi Hpw. pose proof Hia as (Hwfa & _ & Hsa).
      split; [by apply (solver_inv_set_bit s sta _ _ 3)|].
      apply open_squares_mark; [done|].
      by apply (same_board_in_grid s sta).
    - split; [lia|]. intros Hr. specialize (Hlt eq_refl Hr Hfree). lia. }
  destruct (nl =? ns); [|by cbn].
  destruct (marking_loop_open s
              (fun a p => set_light a (p_x p) (p_y p) true)
              (narrowed st <$> pts)) with (st0 := st1) (b := false)
    as [Hle Hlt]; try done.
  - intros sta p Hia Hpi Hpw. pose proof Hia as (Hwfa & _ & Hsa).
    split; [by apply solver_inv_set_light|].
    apply open_squares_light; [done| |].
    + by apply (same_board_in_grid s sta).
    + by rewrite (same_board_is_black s sta).
  - split; [lia|]. intros Hr. specialize (Hlt eq_refl Hr Hfree). lia.
Qed.

Lemma solve_pass_fold_open s cells : forall st nc did,
  solver_inv s st -> solver_keeps s st ->
  (forall c, c ∈ cells -> in_grid s (fst c) (snd c)) ->
  (open_squares (fst (fst (fold_left solve_pass_cell cells (st, nc, did))))
   <= open_squares st)%nat /\
  (did = false ->
   snd (fold_left solve_pass_cell cells (st, nc, did)) = true ->
   (open_squares (fst (fst (fold_left solve_pass_cell cells (st, nc, did))))
    < open_squares st)%nat).
Proof.
  induction cells as [|c cells IH]; intros st nc did Hinv Hk Hcells;
    cbn [fold_left].
  { cbn. split; [done|]. by intros ->. }
  pose proof (Hcells c ltac:(left)) as Hin.
  destruct (solve_pass_cell (st, nc, did) c) as [[sta nca] dida] eqn:Ec.
  unfold solve_pass_cell in Ec.
  pose proof (solver_inv_try_solve_light s st (fst c) (snd c)
                (lights_at st (fst c) (snd c)) Hinv Hin) as Hi1.
  pose proof (inv_try_solve_light s (solver_keeps s) (solver_keeps_light s)
                st (fst c) (snd c) (lights_at st (fst c) (snd c))
                Hinv Hk Hin) as Hk1.
  destruct (try_solve_light_open s st (fst c) (snd c)
              (lights_at st (fst c) (snd c)) Hinv Hk Hin) as [Hle1 Hlt1].
  destruct (try_solve_light st _ _ _ _) as [st1 r1].
  cbn [fst snd] in Hi1, Hk1, Hle1, Hlt1.
  pose proof (solver_inv_try_solve_number s st1 (fst c) (snd c)
                (flags_at st (fst c) (snd c)) (lights_at st (fst c) (snd c))
                Hi1 Hin) as Hi2.
  pose proof (inv_try_solve_number s (solver_keeps s) (solver_keeps_used s)
                (solver_keeps_mark s) (solver_keeps_light s)
                st1 (fst c) (snd c)
                (flags_at st (fst c) (snd c)) (lights_at st (fst c) (snd c))
                Hi1 Hk1 Hin) as Hk2.
  destruct (try_solve_number_open s st1 (fst c) (snd c)
              (flags_at st (fst c) (snd c)) (lights_at st (fst c) (snd c))
              Hi1 Hin) as [Hle2 Hlt2].
  destruct (try_solve_number st1 _ _ _ _) as [st2 r2].
  cbn [fst snd] in Hi2, Hk2, Hle2, Hlt2. simplify_eq.
  destruct (IH sta (nc + (if could_place_light (flags_at st (fst c) (snd c))
                                (lights_at st (fst c) (snd c))
                          then 1 else 0))
              (did || r1 || r2) Hi2 Hk2) as [Hle Hlt].
  { intros c' Hc'. apply Hcells. by right. }
  split; [lia|]. intros -> Hr. cbn [orb] in *.
  destruct r1; [specialize (Hlt1 eq_refl); lia|].
  destruct r2; [specialize (Hlt2 eq_refl); lia|].
  cbn [orb] in *. specialize (Hlt eq_refl Hr). lia.
Qed.

(** Every turn of the loop of [solve_sub] that goes on, and every
    recursive call, works on a state with fewer open squares. *)
Lemma solve_loop_terminates s fuel : forall st fu mr d md,
  solver_inv s st -> solver_keeps s st ->
  (open_squares st < fuel)%nat ->
  solve_loop fuel st fu mr d md <> OutOfFuel.
Proof.
  induction fuel as [|fuel IH]; intros st fu mr d md Hinv Hk Hfuel; [lia|].
  cbn [solve_loop].
  destruct (grid_overlap st); [done|].
  destruct (grid_correct st); [done|].
  destruct (inv_solve_pass s (solver_keeps s) (solver_keeps_used s)
              (solver_keeps_mark s) (solver_keeps_light s) st Hinv Hk)
    as [Hinv1 Hk1].
  destruct (solve_pass_fold_open s (all_cells st) st 0 false Hinv Hk)
    as [Hle Hlt].
  { intros [a b] Hab. apply elem_of_all_cells in Hab.
    destruct Hinv as (_ & _ & Hsb). by apply (same_board_in_grid s st). }
  fold (solve_pass st) in Hle, Hlt.
  destruct (solve_pass st) as [[st1 nc] did] eqn:Hpass. cbn [fst snd] in *.
  destruct did.
  { apply IH; try done. specialize (Hlt eq_refl eq_refl). lia. }
  destruct (nc =? 0) eqn:Hnc; [done|].
  destruct (d >=? mr); [done|].
  pose proof Hinv as (_ & Hnn & _).
  destruct (branching_choice st st1 nc Hnn Hpass ltac:(lia))
    as (Hpos & Hin & Hcp).
  destruct (choose_best st1) as [[bn bx] by_]. cbn [fst snd] in *.
  destruct (negb (bn >? 0)); [done|].
  destruct (negb ((bx >=? 0) && (by_ >=? 0))); [done|].
  pose proof Hinv1 as (Hwf1 & _ & Hs1).
  pose proof Hk1 as (_ & Hok1 & Hlw1 & _).
  assert (in_grid s bx by_) as Hin' by (by apply (same_board_in_grid s st1)).
  pose proof Hcp as Hcp'. unfold can_place in Hcp'.
  pose proof (could_place_light_free _ _ Hcp') as Hfree.
  apply could_place_light_white in Hcp' as [Hw Hunlit].
  assert (is_black s bx by_ = false) as Hws
    by (by rewrite <- (same_board_black s st1)).
  assert (has (flags_at st1 bx by_) F_LIGHT = false) as Hdark.
  { destruct (has (flags_at st1 bx by_) F_LIGHT) eqn:Hl; [|done].
    pose proof (light_is_lit st1 bx by_ Hok1 Hlw1 Hin Hl). lia. }
  destruct (open_squares_mark st1 bx by_ Hwf1 Hin) as [_ Hlti].
  destruct (open_squares_light st1 bx by_ Hwf1 Hin Hw) as [_ Hltl].
  specialize (Hlti Hdark Hfree). specialize (Hltl Hdark Hfree).
  cbv zeta in Hlti, Hltl.
  pose proof (IH (set_flags_at st1 bx by_
                    (fl_set (flags_at st1 bx by_) F_IMPOSSIBLE))
                fu mr (d + 1) (note_depth md (d + 1))
                ltac:(by apply (solver_inv_set_bit s st1 bx by_ 3))
                ltac:(apply solver_keeps_mark; auto)
                ltac:(lia)) as Hself.
  destruct (solve_loop fuel _ fu mr (d + 1) (note_depth md (d + 1)))
    as [[[r1 s1] m1]| |]; [|done|done].
  destruct (negb fu && (r1 >? 0)); [done|].
  rewrite dup_game_id.
  pose proof (IH (set_light st1 bx by_ true)
                fu mr (d + 1) (note_depth m1 (d + 1))
                ltac:(by apply solver_inv_set_light)
                ltac:(by apply solver_keeps_light)
                ltac:(lia)) as Hcopy.
  destruct (solve_loop fuel _ fu mr (d + 1) (note_depth m1 (d + 1)))
    as [[[r2 s2] m2]| |]; [|done|done].
  destruct (fu && ((r2 <? 0) || (r1 <? 0))); [done|].
  destruct (r2 <=? 0); [done|]. by destruct (r1 <=? 0).
Qed.

Lemma clear_used_open s cells : forall st0,
  solver_inv s st0 -> solver_keeps s st0 ->
  (forall c, c ∈ cells -> in_grid s (fst c) (snd c)) ->
  let st1 := fold_left
       (fun st1 c =>
          set_flags_at st1 (fst c) (snd c)
            (fl_clear (flags_at st1 (fst c) (snd c)) F_NUMBERUSED))
       cells st0 in
  solver_inv s st1 /\ solver_keeps s st1 /\
  open_squares st1 = open_squares st0.
Proof.
  induction cells as [|c cs IH]; intros st0 Hi0 Hk0 Hcells;
    cbn [fold_left]; [done|].
  pose proof (Hcells c ltac:(left)) as Hin.
  pose proof Hi0 as (Hwf0 & _ & Hs0).
  destruct (IH (set_flags_at st0 (fst c) (snd c)
                  (fl_clear (flags_at st0 (fst c) (snd c)) F_NUMBERUSED)))
    as (Hi1 & Hk1 & Ho1).
  - apply solver_inv_set_flags; [done|]. other_flag.
  - by apply solver_keeps_clear.
  - intros c' Hc'. apply Hcells. by right.
  - split; [done|]. split; [done|]. cbv zeta in Ho1. rewrite Ho1.
    apply (open_squares_used st0 (fst c) (snd c) false); [done|].
    by apply (same_board_in_grid s st0).
Qed.

Lemma length_all_cells st :
  wf_state st -> length (all_cells st) = Z.to_nat (s_w st * s_h st).
Proof.
  intros (Hw & Hh & _). unfold all_cells.
  rewrite (length_bind_const _ _ (Z.to_nat (s_h st))).
  - rewrite length_seqZ. by rewrite Z2Nat.inj_mul.
  - intros x _. by rewrite length_fmap, length_seqZ.
Qed.

(** ** The assertions of the functions the solver calls *)

Lemma bind_Returns {A B} (a : A) (f : A -> outcome B) :
  Returns a ≫= f = f a.
Proof. reflexivity. Qed.

Lemma checked_get_surrounds st x y :
  in_grid st x y ->
  Checked.get_surrounds st x y = Returns (get_surrounds st x y).
Proof.
  intros [Hx Hy]. unfold Checked.get_surrounds.
  destruct (_ && _) eqn:E; [done|lia].
Qed.

Lemma checked_set_light st x y on :
  is_black st x y = false ->
  Checked.set_light st x y on = Returns (set_light st x y on).
Proof. unfold Checked.set_light, is_black. by intros ->. Qed.

Lemma checked_number_correct st x y :
  in_grid st x y -> has (flags_at st x y) F_NUMBERED = true ->
  Checked.number_correct st x y = Returns (number_correct st x y).
Proof.
  intros Hin Hn. unfold Checked.number_correct. rewrite Hn. cbn [negb].
  by rewrite checked_get_surrounds.
Qed.

(** [grid_addsup] calls [number_correct] on numbered squares of the grid
    only. *)
Lemma checked_grid_addsup st :
  Checked.grid_addsup st = Returns (grid_addsup st).
Proof.
  unfold Checked.grid_addsup, grid_addsup.
  assert (forall c, c ∈ all_cells st -> in_grid st (fst c) (snd c)) as Hcells.
  { intros [a b] Hc. by apply elem_of_all_cells in Hc. }
  induction (all_cells st) as [|c cs IH];
    cbn [Checked.grid_addsup_from forallb]; [done|].
  assert (Checked.grid_addsup_from st cs = Returns (forallb
            (fun c => if negb (has (flags_at st (fst c) (snd c)) F_NUMBERED)
                      then true else number_correct st (fst c) (snd c)) cs))
    as IH' by (apply IH; intros c' Hc'; apply Hcells; by right).
  destruct (has (flags_at st (fst c) (snd c)) F_NUMBERED) eqn:Hn;
    cbn [negb]; [|done].
  rewrite checked_number_correct, bind_Returns; [|apply Hcells; left|done].
  by destruct (number_correct st (fst c) (snd c)).
Qed.

Lemma checked_grid_correct st :
  Checked.grid_correct st = Returns (grid_correct st).
Proof.
  unfold Checked.grid_correct, grid_correct. rewrite checked_grid_addsup.
  by destruct (grid_lit st && negb (grid_overlap st)).
Qed.

(** The square that the unlit-square rule lights is on the light line of
    a white square, so it is white. *)
Lemma checked_try_solve_light s st x y li :
  solver_inv s st -> in_grid s x y ->
  Checked.try_solve_light st x y (flags_at st x y) li
  = Returns (try_solve_light st x y (flags_at st x y) li).
Proof.
  intros Hinv Hin. unfold Checked.try_solve_light, try_solve_light.
  destruct (li >? 0); [done|].
  destruct (has (flags_at st x y) F_BLACK) eqn:Hb; [done|].
  destruct (FOREACHLIT _ _ _) as [[sx sy] n] eqn:Hf.
  destruct (n =? 1) eqn:Hn; [|done].
  pose proof Hinv as (_ & _ & Hs).
  assert (in_grid st x y) as Hin' by (by apply (same_board_in_grid s st)).
  unfold FOREACHLIT in Hf.
  destruct (tsl_fold st (foreachlit_cells (list_lights st x y true)) (0, 0, 0))
    as (_ & _ & Hmem).
  rewrite Hf in Hmem. cbn [fst snd] in Hmem.
  assert ((sx, sy) ∈ foreachlit_cells (list_lights st x y true)) as Hc
    by (apply Hmem; lia).
  apply list_lights_sees in Hc; [|done|done].
  rewrite checked_set_light; [done|]. by apply sees_white in Hc.
Qed.

(** The squares that the clue rule lights could take a light, so they
    are white, and they stay white while the loop lights them. *)
Lemma checked_marking_loop s pts :
  Forall (usable_point s) pts ->
  forall st0 b, solver_inv s st0 ->
    fold_left
      (fun (acc : outcome (game_state * bool)) p =>
         acc ← acc;
         if negb (has (p_f p) F_MARK) then
           st ← Checked.set_light (fst acc) (p_x p) (p_y p) true;
           Returns (st, true)
         else Returns acc)
      pts (Returns (st0, b))
    = Returns
        (fold_left
           (fun (acc : game_state * bool) p =>
              if negb (has (p_f p) F_MARK) then
                (set_light (fst acc) (p_x p) (p_y p) true, true)
              else acc)
           pts (st0, b)).
Proof.
  intros Hpts. induction Hpts as [|p pts [Hin Hw] _ IH];
    intros st0 b Hinv; cbn [fold_left]; [done|].
  rewrite bind_Returns.
  destruct (has (p_f p) F_MARK) eqn:Hm; cbn [negb fst].
  - by apply IH.
  - pose proof Hinv as (_ & _ & Hs).
    rewrite checked_set_light, bind_Returns.
    + apply IH. apply solver_inv_set_light; [done|done|by apply Hw].
    + rewrite (same_board_is_black s st0) by done. by apply Hw.
Qed.

Lemma checked_try_solve_number s st x y fl li :
  solver_inv s st -> in_grid s x y ->
  Checked.try_solve_number st x y fl li
  = Returns (try_solve_number st x y fl li).
Proof.
  intros Hinv Hin. pose proof Hinv as (_ & _ & Hs).
  unfold Checked.try_solve_number, try_solve_number.
  destruct (negb (has fl F_NUMBERED)); [done|].
  rewrite checked_get_surrounds, bind_Returns
    by (by apply (same_board_in_grid s st)).
  pose proof (tsn_narrow_fold s st (get_surrounds st x y) li
                (Z.of_nat (length (get_surrounds st x y))) [] Hs
                (Forall_nil_2 _)) as Hpts.
  destruct (fold_left (tsn_narrow st) _ _) as [[nl ns] pts].
  cbn [snd] in Hpts.
  assert (Forall (usable_point s) pts) as Hu.
  { apply Hpts. apply Forall_forall. intros p Hp.
    apply (same_board_in_grid s st); [done|].
    apply (get_surrounds_in_grid st x y); [|done].
    by apply (same_board_in_grid s st). }
  destruct (ns =? 0); [done|].
  destruct (nl =? 0); [done|].
  destruct (nl =? ns); [|done].
  apply (checked_marking_loop s pts Hu).
  by apply (solver_inv_set_bit s st x y 2).
Qed.

Lemma checked_solve_pass_cell s st nc did c :
  solver_inv s st -> in_grid s (fst c) (snd c) ->
  Checked.solve_pass_cell (Returns (st, nc, did)) c
  = Returns (solve_pass_cell (st, nc, did) c).
Proof.
  intros Hinv Hin. unfold Checked.solve_pass_cell, solve_pass_cell.
  rewrite bind_Returns.
  rewrite (checked_try_solve_light s) by done. rewrite bind_Returns.
  pose proof (solver_inv_try_solve_light s st (fst c) (snd c)
                (lights_at st (fst c) (snd c)) Hinv Hin) as H1.
  destruct (try_solve_light st _ _ _ _) as [st1 r1]. cbn [fst] in H1.
  rewrite (checked_try_solve_number s) by done. rewrite bind_Returns.
  by destruct (try_solve_number st1 _ _ _ _) as [st2 r2].
Qed.

Lemma checked_solve_pass s st :
  solver_inv s st -> Checked.solve_pass st = Returns (solve_pass st).
Proof.
  intros Hinv. unfold Checked.solve_pass, solve_pass.
  assert (forall c, c ∈ all_cells st -> in_grid s (fst c) (snd c)) as Hcells.
  { intros [a b] Hc. apply elem_of_all_cells in Hc.
    destruct Hinv as (_ & _ & Hs). by apply (same_board_in_grid s st). }
  generalize 0 false. revert Hinv.
  generalize st at 1 3 5 as st0.
  induction (all_cells st) as [|c cs IH]; intros st0 Hinv nc did;
    cbn [fold_left]; [done|].
  rewrite (checked_solve_pass_cell s) by (done || apply Hcells; left).
  pose proof (solver_inv_solve_pass_cell s st0 nc did c Hinv
                (Hcells c ltac:(left))) as H.
  destruct (solve_pass_cell (st0, nc, did) c) as [[st1 nc1] did1].
  apply IH; [|done]. intros c' Hc'. apply Hcells. by right.
Qed.

(** From a well-formed state with non-negative lit counts, the solver
    passes every assertion of the functions it calls: the run with these
    assertions tested is the run of [solve_loop]. *)
Lemma checked_solve_loop fuel : forall st fu mr d md,
  wf_state st -> lights_nonneg st ->
  Checked.solve_loop fuel st fu mr d md = solve_loop fuel st fu mr d md.
Proof.
  induction fuel as [|fuel IH]; intros st fu mr d md Hwf Hnn; [done|].
  cbn [Checked.solve_loop solve_loop].
  destruct (grid_overlap st); [done|].
  rewrite checked_grid_correct, bind_Returns.
  destruct (grid_correct st); [done|].
  pose proof (solver_inv_refl st Hwf Hnn) as Hinv.
  rewrite (checked_solve_pass st st Hinv), bind_Returns.
  pose proof (solver_inv_solve_pass st st Hinv) as (Hwf1 & Hnn1 & Hs1).
  destruct (solve_pass st) as [[st1 nc] did] eqn:Hpass. cbn [fst] in *.
  destruct did; [by apply IH|].
  destruct (nc =? 0) eqn:Hnc; [done|].
  destruct (d >=? mr); [done|].
  destruct (branching_choice st st1 nc Hnn Hpass ltac:(lia))
    as (Hpos & Hin & Hcp).
  destruct (choose_best st1) as [[bn bx] by_]. cbn [fst snd] in *.
  destruct (negb (bn >? 0)); [done|].
  destruct (negb ((bx >=? 0) && (by_ >=? 0))); [done|].
  pose proof (solver_inv_refl st1 Hwf1 Hnn1) as Hinv1.
  destruct (solver_inv_set_bit st1 st1 bx by_ 3 Hinv1 ltac:(lia))
    as (Hwf2 & Hnn2 & _).
  rewrite (IH (set_flags_at st1 bx by_
                 (fl_set (flags_at st1 bx by_) F_IMPOSSIBLE))
              fu mr (d + 1) (note_depth md (d + 1)) Hwf2 Hnn2).
  destruct (solve_loop fuel _ fu mr (d + 1) (note_depth md (d + 1)))
    as [[[r1 s1] m1]| |]; [|done|done].
  rewrite bind_Returns.
  destruct (negb fu && (r1 >? 0)); [done|].
  apply could_place_light_white in Hcp as [Hw _].
  destruct (solver_inv_set_light st1 st1 bx by_ Hinv1 ltac:(done) Hw)
    as (Hwf3 & Hnn3 & _).
  rewrite dup_game_id.
  rewrite (checked_set_light st1 bx by_ true Hw), bind_Returns.
  rewrite (IH _ fu mr (d + 1) (note_depth m1 (d + 1)) Hwf3 Hnn3).
  by destruct (solve_loop fuel _ fu mr (d + 1) (note_depth m1 (d + 1)))
    as [[[r2 s2] m2]| |].
Qed.

Lemma checked_dosolve fuel st allowguess fu md :
  wf_state st -> lights_nonneg st ->
  Checked.dosolve fuel st allowguess fu md = dosolve fuel st allowguess fu md.
Proof.
  intros Hwf Hnn. unfold Checked.dosolve, dosolve, Checked.solve_sub, solve_sub.
  assert (forall cells st0, solver_inv st st0 ->
            solver_inv st
              (fold_left
                 (fun st1 c =>
                    set_flags_at st1 (fst c) (snd c)
                      (fl_clear (flags_at st1 (fst c) (snd c)) F_NUMBERUSED))
                 cells st0)) as Hclear.
  { induction cells as [|c cs IH]; intros st0 Hinv; cbn [fold_left]; [done|].
    apply IH. apply solver_inv_set_flags; [done|].
    other_flag. }
  destruct (Hclear (all_cells st) st (solver_inv_refl st Hwf Hnn))
    as (Hwf' & Hnn' & _).
  by apply checked_solve_loop.
Qed.

(** [dosolve] returns.  From a well-formed position of play it fails no
    assertion, neither the two of [solve_sub] nor those of [set_light],
    [get_surrounds] and [number_correct], which it calls on white
    squares, on squares of the grid and on numbered squares only.  Its
    loop and its recursion come to an end: every turn of the loop that
    goes on and every recursive call closes a square (a light or an
    impossible mark on a square that had neither), so that [w*h + 1]
    turns and levels are enough. *)
Theorem dosolve_returns fuel st allowguess forceunique md :
  wf_state st -> position st ->
  (Z.to_nat (s_w st * s_h st) < fuel)%nat ->
  exists n st' md',
    Checked.dosolve fuel st allowguess forceunique md
      = Returns (n, st', md') /\
    dosolve fuel st allowguess forceunique md = Returns (n, st', md').
Proof.
  intros Hwf Hp Hfuel.
  assert (lights_nonneg st) as Hnn.
  { destruct Hp as [Hok _]. by apply lit_ok_nonneg. }
  rewrite (checked_dosolve fuel st allowguess forceunique md Hwf Hnn).
  destruct (dosolve fuel st allowguess forceunique md)
    as [[[n st'] md']| |] eqn:H; [by eauto| |]; exfalso.
  - revert H. by apply dosolve_asserts.
  - revert H. unfold dosolve, solve_sub.
    destruct (solver_keeps_refl st Hwf Hp) as [Hinv Hk].
    destruct (clear_used_open st (all_cells st) st Hinv Hk)
      as (Hi1 & Hk1 & Ho1).
    { intros [a b] Hab. by apply elem_of_all_cells in Hab. }
    apply (solve_loop_terminates st); try done.
    cbv zeta in Ho1. rewrite Ho1. unfold open_squares.
    pose proof (length_filter
                  (fun c => has (flags_at st (fst c) (snd c)) F_LIGHT = false /\
                            has (flags_at st (fst c) (snd c)) F_IMPOSSIBLE
                            = false) (all_cells st)) as Hlen.
    rewrite length_all_cells in Hlen by done. lia.
Qed.

(** The 2x2 board whose corner is a clue [2], five turns: the clue rule
    calls [get_surrounds] and [set_light], and the test of the solved
    board calls [number_correct]. *)
Lemma dosolve_returns_witness :
  let st := mk_game_state 2 2 0 [2; 0; 0; 0] [3; 0; 0; 0] 0 0 in
  exists n st' md',
    Checked.dosolve 5 st true true None = Returns (n, st', md') /\
    dosolve 5 st true true None = Returns (n, st', md').
Proof.
  intros st.
  assert (forall x y, in_grid st x y ->
            (x = 0 \/ x = 1) /\ (y = 0 \/ y = 1)) as Hcases.
  { intros x y [Hx Hy]. simpl in Hx, Hy. lia. }
  apply (dosolve_returns 5 st true true None).
  - unfold wf_state. simpl. repeat split; lia.
  - split; [|split; [|split]].
    + intros x y Hin Hw.
      destruct (Hcases x y Hin) as [[-> | ->] [-> | ->]];
        vm_compute in Hw; try done; by vm_compute.
    + intros x y Hin Hl.
      destruct (Hcases x y Hin) as [[-> | ->] [-> | ->]]; by vm_compute in Hl.
    + intros x y Hin.
      destruct (Hcases x y Hin) as [[-> | ->] [-> | ->]]; by vm_compute.
    + intros x y Hin Hi.
      destruct (Hcases x y Hin) as [[-> | ->] [-> | ->]]; by vm_compute in Hi.
  - simpl. lia.
Defined.
